(* ===== verification/_CoqProject ===== *)
-Q . S2P
Prelude.v
Wire.v
Packets.v
PacketsRoundtrip.v
PacketsStream.v
Topics.v
TopicLevels.v
TopicsSpec.v
RetainedSpec.v
Acl.v
Router.v
MessageIds.v
Bridge.v
Store.v
FileStore.v
Sessions.v
Broker.v
BrokerInv.v
BrokerDelivery.v
Qos2.v
BrokerFindings.v
Pool.v
Notify.v
Cluster.v
ClusterSpec.v
Http.v
HttpSpec.v
Transport.v
Options.v
Client.v
OptionsSpec.v
ClientSpec.v
ClientFlow.v
Comms.v
Workers.v
Dispatch.v
Resume.v
Forward.v
Startup.v
EndToEnd.v
