(* ===== verification/Prelude.v ===== *)
(** * smq: a Rocq verification library for the smq MQTT broker

    smq is an MQTT 3.1/3.1.1 broker in Go ([src/broker], [src/model], [src/acl],
    [src/auth], [src/bridge], [src/pool]) together with the client library of the same
    repository ([src/mqtt]), whose packet codec the broker uses.  A connection is read
    by a loop that decodes packets and submits them to a worker pool; the workers run
    the packet handlers, which work on the broker's memory (clients, subscriptions,
    sessions, the topic store) and write packets to other clients.  The nodes of a
    cluster share users, rules, bridges, clients and subscriptions through etcd: each
    node writes its own and watches the changes of all.  Messages for clients of other
    nodes are forwarded through etcd, and copies of messages may go to Kafka.  An HTTP
    interface, protected by tokens, manages users, rules and bridges ([src/broker/http*.go],
    [src/middleware], [src/utils/jwt]); a notification service may be told what happens
    ([src/notify]).

    ** Parts, and where they are modelled

    - Packet codec, [src/mqtt/packets/*.go].  [Wire]: bytes, integers, strings, the
      remaining length and the fixed header.  [Packets]: the fourteen packets with
      Write, Unpack, Validate, Details, and ReadPacket.  [PacketsRoundtrip] and
      [PacketsStream]: what is written is read back, for single packets and for a
      stream through the broker's read loop; input that is cut short; bounds; loops.
    - Topic store, [src/broker/lib/topics].  [Topics]: the trees of subscriptions and of
      retained messages.  [TopicLevels]: levels of topics and the matching rules of
      MQTT.  [TopicsSpec]: the tree refines a table from filters to subscribers, on
      filters without empty levels.  [RetainedSpec]: the same for retained messages.
    - Access control and authentication, [src/model/acl.go], [src/acl], [src/auth],
      [src/utils/bcrypt.go]: [Acl].
    - Sessions, [src/broker/lib/sessions], [src/broker/sesson.go]: [Sessions].
    - Broker, [src/broker/client.go], [comm.go], [broker.go]: [Broker] has the memory and
      every handler; [BrokerInv] the invariant of all reachable states and closing;
      [BrokerDelivery] who gets a message, retries, wills; [Qos2] the ids of QoS 2
      messages through everything the broker does; [BrokerFindings] behaviour that the
      protocol does not expect.
    - Worker pool, [src/pool/fixpool.go]: [Pool], a step relation.
    - Kafka bridge, [src/bridge/kafka.go]: [Bridge].
    - Notifications, [src/notify]: [Notify], the interface and both implementations.
    - Cluster, [src/broker/cluster*.go], [etcdstore.go]: [Cluster] has requests, watch,
      events, loading and the leader's clean-up; [ClusterSpec] their theorems.  [Forward]:
      messages between nodes, [etcdrouter.go].
    - Start, [NewBroker], [Start] and [StartClientListening] of [broker.go], [Start], [campaign]
      and [RegistryNode] of [cluster.go], [src/config/tls.go], and the constructors of the parts:
      [Startup].
    - HTTP interface, [src/broker/http*.go], [src/middleware/jwt.go], [src/utils/jwt],
      [src/model/login.go]: [Http] has the tokens, every handler as a program of a small
      monad, and the routes; [HttpSpec] their theorems, down to the tables of the nodes.
    - Client library.  [Router]: [topic.go], [router.go].  [MessageIds]: [messageids.go],
      [token.go].  [Store]: [store.go] and the memory stores.  [FileStore]:
      [filestore.go].  [Options]: [options.go], the CONNECT of [message.go].  [Client]:
      [client.go], [net.go], [ping.go].  [OptionsSpec]: the CONNECT at the broker.
      [ClientSpec]: the invariant, publishing, connecting, resending.  [ClientFlow]:
      acknowledgements, dispatching, timers, and behaviour besides.  [Comms]: the
      goroutines of [net.go] with their channels, as step relations.  [Workers]: all the
      goroutines of a connection and their shutting down ([startCommsWorkers],
      [stopCommsWorkers]).  [Dispatch]: [matchAndDispatch] without order.  [Resume]: the
      semaphore of [resume].  [Transport]: [netconn.go] and [websocket.go].
    - [EndToEnd]: a client of the library and the broker put together, over the codec.

    The interfaces between parts are classes: the client's theorems are proved for every
    [Store] that obeys [StoreLaws] (both memory stores are instances), the cluster's for
    every [Etcd] and [Json] that obey their laws (a table is an instance of the first);
    the token library ([Jwt]), [Bcrypt], the readers of websocket messages
    ([MessageReader]) and the binding of bodies ([Bind]) are classes likewise.

    ** Conventions

    - Definitions are executable and have the names of the code where Rocq allows it;
      a prefix tells methods of the same name apart.
    - Integers are [Z]; conversions to 8 and 16 bits and their wrap-around are written
      out.  Bytes in buffers are [ascii], strings are [String.string].
    - A struct that is shared by pointer (clients, subscriptions, sessions, tokens) lives
      in a heap and is named by its address; others are values.
    - Errors are values ([result], [option], or a pair where the code returns both); a
      panic is [None] where the operation says so.
    - A Go map is a [gmap].  Loops over one take the order of [map_to_list]; theorems
      about lists that come out of such a loop are up to permutation or membership.
    - Goroutines are modelled by what they do with one item; the order of items is a
      sequence of steps ([BrokerInv.step], [Pool.pool_step], [ClientSpec.client_step],
      [Comms.comms_step], [Comms.outgoing_step], [Workers.workers_step],
      [Dispatch.dispatch_step], [Resume.resume_step], [Qos2.before_release]), so that a theorem about reachable states holds for every interleaving of items.  In [Comms] the channels are
      lists of what will still come over them, and a send on a channel without a buffer waits;
      in [Workers], [Dispatch] and [Resume] a goroutine is its position in the code, and a
      packet is only what it makes the goroutines do.
      The goroutines of Connect and reconnect are one step each, from the first attempt
      to the end of resume.
    - Code that is not in the repository is a parameter: etcd, the JSON encoding, md5,
      bcrypt, the token library, gin, gRPC, url.Parse, dialling, the hash of the pool, the Kafka producer, the random choice in a
      shared group, the clock, and the bytes and failures of the network.  The
      semaphore of [golang.org/x/sync] is part of the step relation of [Resume], as its
      documentation has it.  Of [encoding/json] the theorems on HTTP and forwarding assume
      the round trip for UTF-8 strings only.
    - MQTT's matching of filters and topics is [mqtt_match], on the parts between slashes and
      with the rule for topics that start with "$".  The broker's own reading of a path is
      [filter_path]; the two agree where no level is empty ([plain]), and theorems that
      speak of matching are stated there.

    ** What the theorems show

    - Codec: [readLoop_delivers] (any sequence of packets arrives in order),
      [ReadPacket_bounds], [ReadPacket_truncated], [Publish_unpack_sound].
    - Topics: [Subscribers_refines] and [Subscribers_iff_match] (after any history a
      message goes to the subscribers whose filters match), [Retained_matches].
    - Broker: [reachable_inv], [Close_unsubscribes], [Close_terminates],
      [publish_reaches_subscriber], [publish_delivers], [route_targets] (one member of
      each shared group), [retryDelivery_resends], [qos2_duplicate_ignored],
      [will_reaches_subscriber], [disconnect_without_will], [getSession_spec],
      [CheckAcl_highest_priority].
    - HTTP: [refused_without_token] and [token_lifetime] (what opens the routes),
      [Login_token], [http_tables_follow] (the nodes follow any sequence of requests),
      [http_rules_typed], [created_user_connects], [deleted_user_refused];
      notifications: [NewNotify_contract].
    - Pool: [pool_order] (the tasks of a client run in order, one at a time) and
      [pool_drains] (all of them finish).
    - Cluster: [tables_replicated] and [load_synced] (the tables of a node are those of
      the store), [node_joins] (both, from [NewBroker] on), [manager_cleans],
      [published_across_nodes] and [forwarded_in_order] (messages between nodes); start: [accepts_all],
      [NewTLSConfig_spec]; bridge: [kafka_Publish_spec].
    - Client: [client_invariant], [Publish_stores], [ack_completes],
      [lost_publish_resent], [attemptConnection_spec], [dispatch_spec],
      [keepalive_gives_up], [getID_spec], [outbound_qos2], [route_match_mqtt],
      [connect_message_read]; file store: [FileStore_Put_Get], [FileStore_crash_safe],
      [FileStore_All_order]; goroutines and transports: [comms_order],
      [incoming_delivered], [outgoing_order], [outgoing_arrives], [workers_stop] (shutting
      down ends and does not deadlock), [dispatch_unordered], [resume_bounded],
      [websocket_ReadFull_refines], [openConnection_secure].
    - Both sides together: [qos1_end_to_end], [qos2_end_to_end], [subscribe_end_to_end],
      [published_reaches_handler] (from Publish of one client to the handler of another).
    - Some theorems state what the code does where its comments or the protocol say
      something else: [BrokerFindings], the ends of [ClusterSpec], [ClientFlow] and
      [OptionsSpec], and single theorems in [Acl], [TopicsSpec], [RetainedSpec],
      [PacketsStream], [HttpSpec], [Notify], [Forward], [Startup], [Resume], [Router], [Qos2]
      and [EndToEnd].

    ** Fuel and bounds

    - Trees: [S (length topic)] units, since every level shortens the topic; running out
      is [None] and never happens.
    - [getID_loop]: 65535 turns, one for each id; [getID_spec] shows that it returns.
    - [Close_loop]: [close_fuel], one unit for each client and one more;
      [Close_terminates] shows that more changes nothing.
    - Filter loops of SUBSCRIBE and UNSUBSCRIBE: one turn for each byte of the body
      ([filter_loops_terminate]); [decodeLength]: four bytes.
    - [startIncoming] has one turn for each byte of the stream and one more; [ws_ReadFull]
      has one for each byte asked for ([websocket_ReadFull_refines]).
    - The runs of [Workers] and [Dispatch] have no fuel: a weight that every step makes smaller
      shows that they are finite ([workers_step_weight], [dispatch_step_weight]).
    - [resume] has as many turns as there are stored keys; [Connect_loop] and
      [reconnect_loop] have one for each wait, which is an argument.

    ** Not modelled

    - What the libraries under the HTTP interface do: gin chooses the handler of a request,
      binds bodies and recovers from panics, and encodes the answers; gin-swagger has the
      pages with the documentation.
    - Etcd's sessions and elections: [campaign] is modelled by what it does with their
      answers, and that at most one node leads is etcd's promise, not shown here.
    - Some things that other goroutines may do in the middle of an operation: [manager_turn] and
      each handler of the broker are one step, the read loop stops at its own DISCONNECT or at
      an error and not at a [Close] from elsewhere, and between the loading of
      [Cluster_Start] and the watch nothing happens ([change_missed] shows what would).
    - What a broker answers to the client's CONNECT is given per connection and does not depend
      on the packet; a websocket message that has begun is delivered to its end
      ([MessageReaderLaws]).
    - Reading the configuration file and logging, which are calls of libraries; the start of
      the gRPC and HTTP clients of the notifications; generated code.
    - Two pairs of functions of [comm.go] that nothing calls; the accessors of
      [options_reader.go], which return a field each.
    - Handlers of the user that do not return, and networks that neither answer nor fail:
      [Workers] takes what will come from them to be finite.
    - The sharing of a packet between a memory store and the outgoing goroutine: the DUP
      flag that [resume] sets is set in the packet that is sent only.

    ** What could be added

    A broker and several clients composed over connections that lose packets, and the merging
    of [Workers] with the packets of [Comms] into one relation. *)
From Stdlib Require Export ZArith Lia Ascii String.
From stdpp Require Export base tactics list gmap strings fin_maps sorting.
From coqutil Require Export Datatypes.RecordSetters.
Export DoubleBraceUpdate.
#[global] Arguments constant {E} newValue _ /.

#[global] Set Default Goal Selector "!".
Local Open Scope Z_scope.

(** ** Go's two-valued returns *)

(** A Go function that returns [(T, error)] and whose [T] is not looked at when
    the error is set returns a [result]. *)
Inductive result (E A : Type) : Type :=
  | Ok (a : A)
  | Err (e : E).
Arguments Ok {E A} _.
Arguments Err {E A} _.

Definition is_ok {E A} (r : result E A) : bool :=
  match r with Ok _ => true | Err _ => false end.

Definition rbind {E A B} (r : result E A) (k : A → result E B) : result E B :=
  match r with Ok a => k a | Err e => Err e end.

Declare Scope smq_scope.
Delimit Scope smq_scope with smq.
Notation "'let?' x := c 'in' k" := (rbind c (λ x, k))
  (at level 10, x name, c at level 100, k at level 200) : smq_scope.

(** ** Bytes and strings

    A Go [byte] held in a buffer is an [ascii] (eight bits); a [string] is
    [String.string], a sequence of such bytes, and a [[]byte] is [list byte].
    A [byte] held in a variable or a field is a [Z] whose wrap-around is
    written out. *)
Abbreviation byte := ascii.

Definition b2z (b : byte) : Z := Z.of_N (N_of_ascii b).
Definition z2b (z : Z) : byte := ascii_of_N (Z.to_N (z mod 256)).

(** [[]byte(s)] and [string(b)]. *)
Definition bytes_of (s : string) : list byte := list_ascii_of_string s.
Definition string_of (b : list byte) : string := string_of_list_ascii b.

Definition is_u8 (z : Z) : Prop := 0 ≤ z < 256.
Definition is_u16 (z : Z) : Prop := 0 ≤ z < 65536.

(** ** Automation *)

Create HintDb smq discriminated.
Create Rewrite HintDb smq.
#[export] Hint Unfold is_u8 is_u16 : smq.

(** Splits pairs, conjunctions and existentials of the context. *)
Ltac destruct_all :=
  repeat match goal with
    | H : _ ∧ _ |- _ => destruct H
    | H : ∃ _, _ |- _ => destruct H
    | p : (_ * _)%type |- _ => destruct p
    end.

(** Case analysis on every scrutinee of the goal, keeping the equations. *)
Ltac case_all := repeat (case_match; simplify_eq/=; try done).

(** ** Bytes *)

Lemma b2z_range b : 0 ≤ b2z b < 256.
Proof. unfold b2z. pose proof (N_ascii_bounded b). lia. Qed.

Lemma z2b_b2z b : z2b (b2z b) = b.
Proof.
  unfold z2b. rewrite Z.mod_small by apply b2z_range.
  unfold b2z. rewrite N2Z.id. apply ascii_N_embedding.
Qed.

Lemma b2z_z2b z : b2z (z2b z) = z mod 256.
Proof.
  unfold b2z, z2b. pose proof (Z.mod_pos_bound z 256 ltac:(lia)).
  rewrite N_ascii_embedding by lia. lia.
Qed.

Lemma b2z_z2b_small z : is_u8 z → b2z (z2b z) = z.
Proof. intros H. rewrite b2z_z2b. by apply Z.mod_small. Qed.

Lemma string_of_bytes_of s : string_of (bytes_of s) = s.
Proof. apply string_of_list_ascii_of_string. Qed.

Lemma bytes_of_string_of b : bytes_of (string_of b) = b.
Proof. apply list_ascii_of_string_of_list_ascii. Qed.

Lemma length_bytes_of s : length (bytes_of s) = String.length s.
Proof. induction s; simpl; auto. Qed.

Lemma length_string_of b : String.length (string_of b) = length b.
Proof. by rewrite <-length_bytes_of, bytes_of_string_of. Qed.

#[export] Hint Rewrite b2z_z2b z2b_b2z string_of_bytes_of bytes_of_string_of
  length_bytes_of length_string_of : smq.
#[export] Hint Resolve b2z_range b2z_z2b_small : smq.

(** ** The parts of package [strings] the program uses *)

(** [strings.Split(s, sep)] for a one-byte separator. *)
Fixpoint split_on (sep : byte) (s : string) : list string :=
  match s with
  | EmptyString => [""%string]
  | String a s' =>
      if decide (a = sep) then ""%string :: split_on sep s'
      else match split_on sep s' with
           | [] => [String a ""%string]
           | h :: t => String a h :: t
           end
  end.

Definition SLASH : byte := "/"%char.
Definition HASH : byte := "#"%char.
Definition PLUS : byte := "+"%char.

(** [strings.Split(s, "/")]. *)
Definition split_slash (s : string) : list string := split_on SLASH s.

(** [strings.HasPrefix(s, p)] and [strings.TrimPrefix(s, p)]. *)
Definition has_prefix (s p : string) : bool := String.prefix p s.

Fixpoint drop_string (n : nat) (s : string) : string :=
  match n, s with
  | O, _ => s
  | S n', String _ s' => drop_string n' s'
  | S _, EmptyString => ""%string
  end.

Fixpoint take_string (n : nat) (s : string) : string :=
  match n, s with
  | S n', String a s' => String a (take_string n' s')
  | _, _ => ""%string
  end.

Definition trim_prefix (s p : string) : string :=
  if has_prefix s p then drop_string (String.length p) s else s.

(** [strings.Replace(s, old, new, -1)] for a non-empty [old]: occurrences are
    taken from the left and do not overlap; [skip] counts the bytes of the
    current occurrence that are still to be passed over. *)
Fixpoint replace_from (old new s : string) (skip : nat) : string :=
  match s with
  | EmptyString => ""%string
  | String a s' =>
      match skip with
      | S k => replace_from old new s' k
      | O => if has_prefix s old
             then String.append new (replace_from old new s' (pred (String.length old)))
             else String a (replace_from old new s' 0)
      end
  end.

Definition replace_all (s old new : string) : string := replace_from old new s 0.

(** [bytes.IndexByte(b, c) != -1], [strings.Contains] for one byte. *)
Fixpoint contains_byte (c : byte) (s : string) : bool :=
  match s with
  | EmptyString => false
  | String a s' => bool_decide (a = c) || contains_byte c s'
  end.

(** [bytes.IndexByte(b, c)], [None] for -1. *)
Fixpoint index_byte (c : byte) (s : string) : option nat :=
  match s with
  | EmptyString => None
  | String a s' => if decide (a = c) then Some O else S <$> index_byte c s'
  end.

(** [strings.Join(l, "/")]. *)
Fixpoint join_slash (l : list string) : string :=
  match l with
  | [] => ""%string
  | [x] => x
  | x :: rest => String.append x (String SLASH (join_slash rest))
  end.

Lemma split_on_nonempty sep s : split_on sep s ≠ [].
Proof. destruct s; simpl; [done|]. by repeat case_match. Qed.

Lemma join_split s : join_slash (split_slash s) = s.
Proof.
  unfold split_slash. induction s as [|a s IH]; [done|]. simpl.
  pose proof (split_on_nonempty SLASH s).
  case_decide; subst; destruct (split_on SLASH s) as [|h t]; try done; simpl in *.
  - by rewrite IH.
  - destruct t; simpl in *; by rewrite <-IH.
Qed.

Lemma split_on_no_sep sep s : Forall (λ l, contains_byte sep l = false) (split_on sep s).
Proof.
  induction s as [|a s IH]; simpl; [by repeat constructor|].
  case_decide; [by constructor|].
  destruct (split_on sep s) as [|h t]; inversion IH; subst; constructor; simpl;
    rewrite ?bool_decide_eq_false_2 by done; auto.
Qed.

Lemma split_on_plain sep s : contains_byte sep s = false → split_on sep s = [s].
Proof.
  induction s as [|a s IH]; [done|]. simpl. intros [Ha Hs]%orb_false_iff.
  apply bool_decide_eq_false in Ha. rewrite decide_False by done. by rewrite IH.
Qed.

(** ** Bit fields *)

(** Two numbers that share no bit positions: the low one fits below the shift. *)
Lemma lor_shiftl_add a d m :
  0 ≤ m → 0 ≤ a < 2 ^ m → Z.lor a (Z.shiftl d m) = a + d * 2 ^ m.
Proof.
  intros Hm Ha. rewrite Z.shiftl_mul_pow2 by done.
  rewrite <-Z.add_lor_land. enough (Z.land a (d * 2 ^ m) = 0) as -> by lia.
  apply Z.bits_inj'. intros i Hi. rewrite Z.land_spec, Z.bits_0.
  destruct (decide (i < m)).
  - by rewrite Z.mul_pow2_bits_low, andb_false_r.
  - rewrite <-(Z.mod_small a (2 ^ m)) by done.
    by rewrite Z.mod_pow2_bits_high by lia.
Qed.

Lemma land_127 z : Z.land z 127 = z mod 128.
Proof. by apply (Z.land_ones z 7). Qed.

Lemma take_app_exact {A} (l k : list A) n : n = length l → take n (l ++ k) = l.
Proof. intros ->. apply take_app_length. Qed.

Lemma drop_app_exact {A} (l k : list A) n : n = length l → drop n (l ++ k) = k.
Proof. intros ->. apply drop_app_length. Qed.

(** ** Loops over a Go map *)

(** A loop that appends something for the keys [ks] only appends, in some order,
    what it appends for each of them. *)
Lemma concat_map_to_list {A B} (f : string → A → list B) ks : ∀ (m : gmap string A),
  NoDup ks → (∀ k a, m !! k = Some a → k ∉ ks → f k a = []) →
  concat (map (λ '(k, a), f k a) (map_to_list m))
    ≡ₚ concat (map (λ k, match m !! k with Some a => f k a | None => [] end) ks).
Proof.
  induction ks as [|k ks IH]; intros m Hnd Hf.
  - assert (H : ∀ l, (∀ k a, (k, a) ∈ l → f k a = []) → concat (map (λ '(k, a), f k a) l) = []).
    { induction l as [|[k a] l IHl]; cbn; [done|]. intros Hl.
      rewrite (Hl k a), IHl by set_solver. done. }
    rewrite H; [done|]. intros k a Hka%elem_of_map_to_list. by apply (Hf k); [|apply not_elem_of_nil].
  - apply NoDup_cons in Hnd as [Hk Hnd].
    assert (Hrest : concat (map (λ '(k, a), f k a) (map_to_list (delete k m)))
      ≡ₚ concat (map (λ k, match m !! k with Some a => f k a | None => [] end) ks)).
    { rewrite IH; [|done|].
      - erewrite map_ext_in; [reflexivity|]. cbn. intros k' Hk'%list_elem_of_In.
        by rewrite lookup_delete_ne by (by intros ->).
      - intros k' a [Hne Ha]%lookup_delete_Some Hk'. apply (Hf k'); [done|].
        by apply not_elem_of_cons. }
    cbn. destruct (m !! k) as [a|] eqn:Ha.
    + assert (Hm := map_to_list_insert (delete k m) k a (lookup_delete_eq m k)).
      rewrite insert_delete_eq, insert_id in Hm by done. rewrite Hm. cbn. by rewrite Hrest.
    + by rewrite <-Hrest, delete_id.
Qed.

(** A part of the state that no turn of a loop changes. *)
Lemma foldl_keeps {A B C} (g : A → B) (f : A → C → A) l : ∀ s,
  (∀ s x, g (f s x) = g s) → g (foldl f s l) = g s.
Proof. induction l as [|x l IH]; intros s Hf; [done|]. cbn. by rewrite IH. Qed.

(** ** Concatenation of strings *)

#[local] Arguments String.append : simpl nomatch.

Lemma take_string_app p s : take_string (String.length p) (p ++ s)%string = p.
Proof. induction p as [|a p IH]; cbn; [by destruct s|]. by rewrite IH. Qed.

Lemma append_assoc (a b c : string) : ((a ++ b) ++ c)%string = (a ++ b ++ c)%string.
Proof. induction a; cbn; [done|]. by f_equal. Qed.

Lemma append_empty_r (a : string) : (a ++ "")%string = a.
Proof. induction a; cbn; [done|]. by f_equal. Qed.

Lemma length_append (a b : string) :
  String.length (a ++ b)%string = (String.length a + String.length b)%nat.
Proof. induction a; cbn; congruence. Qed.

Lemma contains_byte_app c a b : contains_byte c (a ++ b)%string = contains_byte c a || contains_byte c b.
Proof. induction a; cbn; [done|]. by rewrite IHa, orb_assoc. Qed.

Lemma drop_string_app p s : drop_string (String.length p) (p ++ s)%string = s.
Proof. induction p; cbn; congruence. Qed.

Lemma take_drop_string n s : (take_string n s ++ drop_string n s)%string = s.
Proof.
  revert s. induction n as [|n IH]; intros [|a s]; cbn; try done. by rewrite IH.
Qed.

Lemma append_inj_suffix (a b e1 e2 : string) :
  String.length e1 = String.length e2 → (a ++ e1)%string = (b ++ e2)%string → a = b ∧ e1 = e2.
Proof.
  intros He H. assert (Hl := f_equal String.length H). rewrite !length_append in Hl.
  assert (Ha : String.length a = String.length b) by lia. split.
  - by rewrite <-(take_string_app a e1), H, Ha, take_string_app.
  - by rewrite <-(drop_string_app a e1), H, Ha, drop_string_app.
Qed.

(** ** Prefixes *)

Lemma has_prefix_app a b : has_prefix (a ++ b)%string a = true.
Proof.
  unfold has_prefix. induction a as [|x a IH]; [by destruct b|]. cbn. by destruct (ascii_dec x x).
Qed.

Lemma has_prefix_common a x y : has_prefix (a ++ x)%string (a ++ y)%string = has_prefix x y.
Proof. unfold has_prefix. induction a as [|c a IH]; [done|]. cbn. by destruct (ascii_dec c c). Qed.

Lemma has_prefix_longer s p q : has_prefix s p = false → has_prefix s (p ++ q)%string = false.
Proof.
  unfold has_prefix. revert s. induction p as [|c p IH]; intros s H; [by destruct s|].
  destruct s as [|d s]; [done|]. cbn in *. destruct (ascii_dec c d); [by apply IH|done].
Qed.

Lemma has_prefix_true s p : has_prefix s p = true → s = (p ++ drop_string (String.length p) s)%string.
Proof.
  unfold has_prefix. revert s. induction p as [|c p IH]; intros s H; [by destruct s|].
  destruct s as [|d s]; [done|]. cbn in *. destruct (ascii_dec c d) as [->|]; [|done]. by rewrite <-IH.
Qed.
