(* ===== verification/Wire.v ===== *)
(** * Wire: the byte level of package [packets]

    Models [src/mqtt/packets/packets.go]: the readers, the fixed header and the
    encoders and decoders of bytes, 16-bit integers, strings, byte fields and
    the variable-length remaining length.  The lemmas show that each decoder
    inverts its encoder and how each behaves on input that is too short. *)
From S2P Require Import Prelude.
Local Open Scope Z_scope.

(** ** Readers *)

(** The errors a reader gives. *)
Inductive ioerr := EOF | ErrUnexpectedEOF.

(** [bytes.Buffer.Read(p)] with [len(p) = n]: the bytes that [p] holds
    afterwards ([p] is a fresh, zeroed slice at every call of the package), the
    error and the unread part.  A buffer that is not empty gives what it has
    and no error, so a short read leaves zeros at the end of [p]; an empty
    buffer gives [io.EOF] unless [p] is empty. *)
Definition Buffer_Read (n : nat) (b : list byte) : list byte * option ioerr * list byte :=
  match b with
  | [] => (replicate n zero, (if decide (n = O) then None else Some EOF), [])
  | _ :: _ => (take n b ++ replicate (n - length b) zero, None, drop n b)
  end.

(** [io.ReadFull(r, p)] with [len(p) = n] on a connection that delivers the
    bytes [r] and then ends. *)
Definition ReadFull (n : nat) (r : list byte) : list byte * option ioerr * list byte :=
  if decide (n <= length r)%nat then (take n r, None, drop n r)
  else (r ++ replicate (n - length r) zero,
        Some (match r with [] => EOF | _ => ErrUnexpectedEOF end), []).

(** ** Scalars *)

Definition boolToByte (b : bool) : Z := if b then 1 else 0.

(** [x << n] on a [byte]. *)
Definition shl8 (x n : Z) : Z := Z.shiftl x n mod 256.

Definition decodeByte (b : list byte) : Z * option ioerr * list byte :=
  let '(num, err, b') := Buffer_Read 1 b in
  match err with
  | Some e => (0, Some e, b')
  | None => (b2z (nth 0 num zero), None, b')
  end.

(** [binary.BigEndian.Uint16] and [PutUint16]. *)
Definition BigEndian_Uint16 (p : list byte) : Z :=
  Z.lor (b2z (nth 1 p zero)) (Z.shiftl (b2z (nth 0 p zero)) 8).

Definition BigEndian_PutUint16 (v : Z) : list byte := [z2b (Z.shiftr v 8); z2b v].

Definition decodeUint16 (b : list byte) : Z * option ioerr * list byte :=
  let '(num, err, b') := Buffer_Read 2 b in
  match err with
  | Some e => (0, Some e, b')
  | None => (BigEndian_Uint16 num, None, b')
  end.

Definition encodeUint16 (num : Z) : list byte := BigEndian_PutUint16 num.

(** ** Byte fields and strings *)

(** [uint16(len(field))] wraps for a field longer than 65535 bytes. *)
Definition encodeBytes (field : list byte) : list byte :=
  BigEndian_PutUint16 (Z.of_nat (length field) mod 65536) ++ field.

(** The field is [None] for a nil slice. *)
Definition decodeBytes (b : list byte) : option (list byte) * option ioerr * list byte :=
  let '(fieldLength, err, b') := decodeUint16 b in
  match err with
  | Some e => (None, Some e, b')
  | None =>
      let '(field, err, b'') := Buffer_Read (Z.to_nat fieldLength) b' in
      match err with
      | Some e => (None, Some e, b'')
      | None => (Some field, None, b'')
      end
  end.

Definition encodeString (field : string) : list byte := encodeBytes (bytes_of field).

Definition decodeString (b : list byte) : string * option ioerr * list byte :=
  let '(buf, err, b') := decodeBytes b in
  (string_of (default [] buf), err, b').

(** ** The remaining length *)

(** One turn of the loop per unit of [fuel]; [%] and [/] truncate.  [None] when
    the fuel runs out. *)
Fixpoint encodeLength_loop (fuel : nat) (length : Z) : option (list byte) :=
  match fuel with
  | O => None
  | S fuel' =>
      let digit := Z.rem length 128 mod 256 in
      let length := Z.quot length 128 in
      let digit := if decide (length > 0) then Z.lor digit 128 else digit in
      if decide (length = 0) then Some [z2b digit]
      else (z2b digit ::.) <$> encodeLength_loop fuel' length
  end.

(** Ten seven-bit digits hold every 64-bit [int] ([encodeLength_total]). *)
Definition encodeLength (length : Z) : list byte :=
  default [] (encodeLength_loop 10 length).

(** [rLength] and [multiplier] are [uint32].  The loop stops after the digit
    whose multiplier is 21, so five units of fuel are never used up
    ([decodeLength_fuel]). *)
Fixpoint decodeLength_loop (fuel : nat) (rLength multiplier : Z) (r : list byte)
    : Z * option ioerr * list byte :=
  match fuel with
  | O => (rLength, None, r)
  | S fuel' =>
      if decide (multiplier < 27) then
        let '(b, err, r') := ReadFull 1 r in
        match err with
        | Some e => (0, Some e, r')
        | None =>
            let digit := b2z (nth 0 b zero) in
            let rLength := Z.lor rLength
                             (Z.shiftl (Z.land digit 127) multiplier mod 4294967296) in
            if decide (Z.land digit 128 = 0) then (rLength, None, r')
            else decodeLength_loop fuel' rLength (multiplier + 7) r'
        end
      else (rLength, None, r)
  end.

Definition decodeLength (r : list byte) : Z * option ioerr * list byte :=
  decodeLength_loop 5 0 0 r.

(** ** The fixed header *)

Record FixedHeader := mkFixedHeader {
  MessageType : Z;
  Dup : bool;
  Qos : Z;
  Retain : bool;
  RemainingLength : Z
}.

Definition set_RemainingLength (n : Z) (fh : FixedHeader) : FixedHeader :=
  mkFixedHeader (MessageType fh) (Dup fh) (Qos fh) (Retain fh) n.

Definition FixedHeader_flags (fh : FixedHeader) : Z :=
  Z.lor (Z.lor (Z.lor (shl8 (MessageType fh) 4) (shl8 (boolToByte (Dup fh)) 3))
               (shl8 (Qos fh) 1))
        (boolToByte (Retain fh)).

Definition FixedHeader_pack (fh : FixedHeader) : list byte :=
  z2b (FixedHeader_flags fh) :: encodeLength (RemainingLength fh).

Definition FixedHeader_unpack (typeAndFlags : Z) (r : list byte)
    : FixedHeader * option ioerr * list byte :=
  let '(rl, err, r') := decodeLength r in
  (mkFixedHeader (Z.shiftr typeAndFlags 4)
     (bool_decide (Z.land (Z.shiftr typeAndFlags 3) 1 > 0))
     (Z.land (Z.shiftr typeAndFlags 1) 3)
     (bool_decide (Z.land typeAndFlags 1 > 0))
     rl, err, r').

(** ** Reading back what was written *)

Lemma Buffer_Read_app (p rest : list byte) :
  Buffer_Read (length p) (p ++ rest) = (p, None, rest).
Proof.
  destruct p as [|a p]; simpl.
  - by destruct rest.
  - rewrite take_app_exact, drop_app_exact by done.
    rewrite length_app. replace (length p - (length p + length rest))%nat with O by lia.
    simpl. by rewrite app_nil_r.
Qed.

Lemma ReadFull_app (p rest : list byte) :
  ReadFull (length p) (p ++ rest) = (p, None, rest).
Proof.
  unfold ReadFull. rewrite length_app, decide_True by lia.
  by rewrite take_app_exact, drop_app_exact.
Qed.

Lemma decodeByte_cons b rest : decodeByte (b :: rest) = (b2z b, None, rest).
Proof. done. Qed.

Lemma decodeByte_z2b z rest : is_u8 z → decodeByte (z2b z :: rest) = (z, None, rest).
Proof. intros. rewrite decodeByte_cons. by rewrite b2z_z2b_small. Qed.

Lemma BigEndian_roundtrip v : is_u16 v → BigEndian_Uint16 (BigEndian_PutUint16 v) = v.
Proof.
  intros [H0 H1]. unfold BigEndian_Uint16, BigEndian_PutUint16. simpl.
  rewrite !b2z_z2b, Z.shiftr_div_pow2 by lia.
  change (2 ^ 8) with 256.
  pose proof (Z.mod_pos_bound v 256 ltac:(lia)).
  rewrite lor_shiftl_add by (change (2 ^ 8) with 256; lia).
  change (2 ^ 8) with 256.
  rewrite (Z.mod_small (v / 256)) by (split; [apply Z.div_pos; lia|apply Z.div_lt_upper_bound; lia]).
  pose proof (Z.div_mod v 256 ltac:(lia)). lia.
Qed.

Lemma decodeUint16_encode v rest :
  is_u16 v → decodeUint16 (encodeUint16 v ++ rest) = (v, None, rest).
Proof.
  intros H. unfold decodeUint16.
  pose proof (Buffer_Read_app (encodeUint16 v) rest) as Hr.
  change (length (encodeUint16 v)) with 2%nat in Hr. rewrite Hr.
  unfold encodeUint16. by rewrite BigEndian_roundtrip.
Qed.

Lemma decodeBytes_encode f rest :
  Z.of_nat (length f) < 65536 → decodeBytes (encodeBytes f ++ rest) = (Some f, None, rest).
Proof.
  intros H. unfold decodeBytes, encodeBytes.
  rewrite <-app_assoc, (decodeUint16_encode (Z.of_nat (length f) mod 65536)).
  - rewrite Z.mod_small, Nat2Z.id by lia. by rewrite Buffer_Read_app.
  - pose proof (Z.mod_pos_bound (Z.of_nat (length f)) 65536). unfold is_u16. lia.
Qed.

Lemma decodeString_encode s rest :
  Z.of_nat (String.length s) < 65536 →
  decodeString (encodeString s ++ rest) = (s, None, rest).
Proof.
  intros H. unfold decodeString, encodeString.
  rewrite decodeBytes_encode by (by rewrite length_bytes_of).
  simpl. by rewrite string_of_bytes_of.
Qed.

Lemma length_encodeBytes f : length (encodeBytes f) = (2 + length f)%nat.
Proof. done. Qed.

Lemma length_encodeString s : length (encodeString s) = (2 + String.length s)%nat.
Proof. unfold encodeString. by rewrite length_encodeBytes, length_bytes_of. Qed.

Lemma length_encodeUint16 v : length (encodeUint16 v) = 2%nat.
Proof. done. Qed.

#[export] Hint Rewrite length_encodeBytes length_encodeString length_encodeUint16 : smq.

(** ** Remaining length *)

(** On a non-negative length the loop is the usual base-128 expansion. *)
Lemma encodeLength_loop_S k n :
  0 ≤ n →
  encodeLength_loop (S k) n =
    if decide (n < 128) then Some [z2b n]
    else (z2b (n mod 128 + 128) ::.) <$> encodeLength_loop k (n / 128).
Proof.
  intros Hn. simpl. rewrite Z.rem_mod_nonneg, Z.quot_div_nonneg by lia.
  pose proof (Z.mod_pos_bound n 128 ltac:(lia)).
  pose proof (Z.div_mod n 128 ltac:(lia)).
  rewrite (Z.mod_small _ 256) by lia.
  destruct (decide (n < 128)).
  - assert (n / 128 = 0) as -> by (apply Z.div_small; lia).
    destruct (decide (0 > 0)); [lia|]. rewrite decide_True by done.
    by rewrite Z.mod_small by lia.
  - assert (1 ≤ n / 128) by (apply Z.div_le_lower_bound; lia).
    rewrite (decide_False (P := n / 128 = 0)), (decide_True (P := n / 128 > 0)) by lia.
    replace (Z.lor (n mod 128) 128) with (n mod 128 + 128); [done|].
    symmetry. apply (lor_shiftl_add (n mod 128) 1 7); lia.
Qed.

(** The loop returns for every 64-bit length, within the fuel. *)
Lemma encodeLength_loop_some k n :
  0 ≤ n < 128 ^ Z.of_nat (S k) → is_Some (encodeLength_loop (S k) n).
Proof.
  revert n. induction k as [|k IH]; intros n Hn; rewrite encodeLength_loop_S by lia;
    (case_decide; [done|]).
  - change (128 ^ Z.of_nat 1) with 128 in Hn. lia.
  - destruct (IH (n / 128)) as [x ->]; [|done].
    rewrite (Nat2Z.inj_succ (S k)), Z.pow_succ_r in Hn by lia. split.
    + apply Z.div_pos; lia.
    + apply Z.div_lt_upper_bound; lia.
Qed.

Lemma encodeLength_total n :
  0 ≤ n < 2 ^ 63 → encodeLength_loop 10 n = Some (encodeLength n).
Proof.
  intros Hn. destruct (encodeLength_loop_some 9 n) as [e He].
  - change (128 ^ Z.of_nat 10) with 1180591620717411303424. lia.
  - unfold encodeLength. by rewrite He.
Qed.

(** A digit shifted by a multiplier of the loop fits [uint32]. *)
Lemma digit_fits d m : 0 ≤ m ≤ 21 → 0 ≤ d < 128 →
  Z.shiftl d m mod 4294967296 = Z.shiftl d m.
Proof.
  intros Hm Hd. apply Z.mod_small. rewrite Z.shiftl_mul_pow2 by lia.
  pose proof (Z.pow_le_mono_r 2 m 21 ltac:(lia) ltac:(lia)).
  pose proof (Z.pow_pos_nonneg 2 m ltac:(lia) ltac:(lia)). nia.
Qed.

(** The two digits of the loop: the last one and one with its high bit set. *)
Lemma last_digit n : 0 ≤ n < 128 → Z.land n 127 = n ∧ Z.land n 128 = 0.
Proof.
  intros Hn. rewrite land_127, Z.mod_small by lia. split; [done|].
  rewrite <-(Z.mod_small n 128), <-land_127, <-Z.land_assoc by lia. apply Z.land_0_r.
Qed.

Lemma more_digit n : 0 ≤ n < 128 → Z.land (n + 128) 127 = n ∧ Z.land (n + 128) 128 ≠ 0.
Proof.
  intros Hn. split.
  - rewrite land_127. rewrite <-(Z.mul_1_l 128) at 1. rewrite Z.mod_add by lia.
    by apply Z.mod_small.
  - intros Hc. apply (f_equal (λ z, Z.testbit z 7)) in Hc.
    change (n + 128) with (n + 1 * 2 ^ 7) in Hc.
    rewrite <-lor_shiftl_add, Z.land_spec, Z.lor_spec in Hc by lia.
    simpl in Hc. by rewrite orb_true_r in Hc.
Qed.

Lemma decodeLength_loop_step fuel acc m d r :
  0 ≤ m ≤ 21 → 0 ≤ acc < 2 ^ m → is_u8 d →
  decodeLength_loop (S fuel) acc m (z2b d :: r) =
    let acc' := acc + Z.land d 127 * 2 ^ m in
    if decide (Z.land d 128 = 0) then (acc', None, r)
    else decodeLength_loop fuel acc' (m + 7) r.
Proof.
  intros Hm Hacc Hd. simpl. rewrite decide_True by lia. cbn.
  rewrite b2z_z2b_small by done.
  assert (0 ≤ Z.land d 127 < 128) by (rewrite land_127; apply Z.mod_pos_bound; lia).
  by rewrite digit_fits, lor_shiftl_add by lia.
Qed.

(** Every digit but the last carries the continuation bit, so the decoder stops
    where the encoder did, with [S k] digits allowed. *)
Lemma decodeLength_loop_encode k : ∀ f n acc rest e fuel,
  (k ≤ 3)%nat → (k < fuel)%nat →
  0 ≤ n < 128 ^ Z.of_nat (S k) →
  0 ≤ acc < 2 ^ (7 * (3 - Z.of_nat k)) →
  encodeLength_loop f n = Some e →
  decodeLength_loop fuel acc (7 * (3 - Z.of_nat k)) (e ++ rest)
    = (acc + n * 2 ^ (7 * (3 - Z.of_nat k)), None, rest).
Proof.
  induction k as [|k IH]; intros f n acc rest e fuel Hk Hf Hn Hacc He;
    (destruct f as [|f]; [done|]); (destruct fuel as [|fuel]; [lia|]);
    rewrite encodeLength_loop_S in He by lia; case_decide; simplify_eq; cbn [app];
    try (rewrite decodeLength_loop_step by (unfold is_u8; lia);
         destruct (last_digit n) as [-> ->]; [lia|]; by rewrite decide_True).
  - change (128 ^ Z.of_nat 1) with 128 in Hn. lia.
  - destruct (encodeLength_loop f (n / 128)) as [e'|] eqn:He'; [|done].
    injection He as <-. cbn [app]. pose proof (Z.mod_pos_bound n 128 ltac:(lia)).
    pose proof (Z.div_mod n 128 ltac:(lia)).
    rewrite decodeLength_loop_step by (unfold is_u8; lia).
    destruct (more_digit (n mod 128)) as [-> Hd]; [lia|]. simpl. rewrite decide_False by done.
    set (m := 7 * (3 - Z.of_nat (S k))) in *.
    assert (Hp : 2 ^ (7 * (3 - Z.of_nat k)) = 128 * 2 ^ m).
    { replace (7 * (3 - Z.of_nat k)) with (7 + m) by (unfold m; lia).
      by rewrite Z.pow_add_r by (unfold m; lia). }
    pose proof (Z.pow_pos_nonneg 2 m ltac:(lia) ltac:(unfold m; lia)).
    replace (m + 7) with (7 * (3 - Z.of_nat k)) by (unfold m; lia).
    rewrite (Nat2Z.inj_succ (S k)), Z.pow_succ_r in Hn by lia.
    rewrite (IH f (n / 128) _ rest e' fuel); try done; try lia.
    + rewrite Hp. do 2 f_equal. nia.
    + rewrite Hp. nia.
Qed.

(** Reading back a remaining length of at most four digits. *)
Lemma decodeLength_encode n rest :
  0 ≤ n < 268435456 → decodeLength (encodeLength n ++ rest) = (n, None, rest).
Proof.
  intros Hn. unfold decodeLength.
  pose proof (decodeLength_loop_encode 3 10 n 0 rest (encodeLength n) 5) as H.
  change (7 * (3 - Z.of_nat 3)) with 0 in H.
  change (128 ^ Z.of_nat 4) with 268435456 in H. change (2 ^ 0) with 1 in H.
  rewrite H by first [lia | apply encodeLength_total; lia]. do 2 f_equal. lia.
Qed.

(** The decoder's loop ends by its own condition: more fuel changes nothing. *)
Lemma decodeLength_fuel k r :
  decodeLength_loop (5 + k) 0 0 r = decodeLength r.
Proof.
  unfold decodeLength. simpl.
  repeat match goal with
    | |- context [ReadFull 1 ?x] => destruct (ReadFull 1 x) as [[? [?|]] ?]; [done|]
    | |- context [decide (Z.land ?a ?b = 0)] => destruct (decide (Z.land a b = 0)); [done|]
    end.
  by destruct k.
Qed.

(** ** Fixed header *)

Definition header_ok (fh : FixedHeader) : Prop :=
  0 ≤ MessageType fh < 16 ∧ 0 ≤ Qos fh < 4 ∧ 0 ≤ RemainingLength fh < 268435456.

Definition header_of_flags (t rl : Z) : FixedHeader :=
  mkFixedHeader (Z.shiftr t 4) (bool_decide (Z.land (Z.shiftr t 3) 1 > 0))
    (Z.land (Z.shiftr t 1) 3) (bool_decide (Z.land t 1 > 0)) rl.

Lemma flags_inverse mt d q rt rl :
  0 ≤ mt < 16 → 0 ≤ q < 4 →
  is_u8 (FixedHeader_flags (mkFixedHeader mt d q rt rl)) ∧
  header_of_flags (FixedHeader_flags (mkFixedHeader mt d q rt rl)) rl
    = mkFixedHeader mt d q rt rl.
Proof.
  intros Hm Hq.
  assert (mt ∈ seqZ 0 16) as Hm' by (apply elem_of_seqZ; lia).
  assert (q ∈ seqZ 0 4) as Hq' by (apply elem_of_seqZ; lia).
  clear Hm Hq. cbv in Hm', Hq'.
  repeat (apply elem_of_cons in Hq' as [->|Hq']); try (by apply elem_of_nil in Hq');
  repeat (apply elem_of_cons in Hm' as [->|Hm']); try (by apply elem_of_nil in Hm');
  destruct d, rt; (split; [done|reflexivity]).
Qed.

Lemma FixedHeader_roundtrip fh rest :
  header_ok fh →
  ∃ b bs, FixedHeader_pack fh = b :: bs ∧
    FixedHeader_unpack (b2z b) (bs ++ rest) = (fh, None, rest).
Proof.
  destruct fh as [mt d q rt rl]. intros (Hm & Hq & Hr). simpl in *.
  destruct (flags_inverse mt d q rt rl Hm Hq) as [Hu Hf].
  eexists _, _. split; [done|]. unfold FixedHeader_unpack. cbn [RemainingLength].
  rewrite decodeLength_encode, b2z_z2b_small by done.
  do 2 f_equal. exact Hf.
Qed.

Lemma length_encodeLength_pos n : 0 ≤ n < 2 ^ 63 → (1 ≤ length (encodeLength n))%nat.
Proof.
  intros Hn. pose proof (encodeLength_total n Hn) as He.
  rewrite encodeLength_loop_S in He by lia.
  case_decide; [injection He as <-; simpl; lia|].
  destruct (encodeLength_loop 9 (n / 128)); [|done]. injection He as <-. simpl. lia.
Qed.

(** From here on the encoders are used through the lemmas above; conversion by
    the virtual machine still evaluates them on concrete packets. *)
#[global] Opaque encodeUint16 encodeBytes encodeString encodeLength FixedHeader_pack
  decodeByte decodeUint16 decodeBytes decodeString decodeLength.
