(* ===== verification/Packets.v ===== *)
(** * Packets: the MQTT control packets of package [packets]

    Models [src/mqtt/packets/*.go]: the fourteen packet structs, their
    constructors, [Write], [Unpack] and [Details], [Validate] and [Copy], and
    [ReadPacket].  [Write] returns the bytes and the packet whose
    [RemainingLength] it has set; [Unpack] returns the packet as far as it was
    filled in, also when it stops with an error.  The [String] methods only
    format log lines and are left out. *)
From S2P Require Import Prelude Wire.
Local Open Scope Z_scope.

(** ** Constants *)

Definition Connect : Z := 1.
Definition Connack : Z := 2.
Definition Publish : Z := 3.
Definition Puback : Z := 4.
Definition Pubrec : Z := 5.
Definition Pubrel : Z := 6.
Definition Pubcomp : Z := 7.
Definition Subscribe : Z := 8.
Definition Suback : Z := 9.
Definition Unsubscribe : Z := 10.
Definition Unsuback : Z := 11.
Definition Pingreq : Z := 12.
Definition Pingresp : Z := 13.
Definition Disconnect : Z := 14.

Definition Accepted : Z := 0.
Definition ErrRefusedBadProtocolVersion : Z := 1.
Definition ErrRefusedIDRejected : Z := 2.
Definition ErrRefusedServerUnavailable : Z := 3.
Definition ErrRefusedBadUsernameOrPassword : Z := 4.
Definition ErrRefusedNotAuthorised : Z := 5.
Definition ErrNetworkError : Z := 254.
Definition ErrProtocolViolation : Z := 255.

(** [ConnErrors]: the error of each connect return code; [Some None] is the nil
    error of [Accepted] and [None] a code the map does not have (a Go lookup
    of it gives nil too). *)
Inductive conn_error :=
  | ErrorRefusedBadProtocolVersion
  | ErrorRefusedIDRejected
  | ErrorRefusedServerUnavailable
  | ErrorRefusedBadUsernameOrPassword
  | ErrorRefusedNotAuthorised
  | ErrorNetworkError
  | ErrorProtocolViolation.

Definition ConnErrors (rc : Z) : option conn_error :=
  if decide (rc = ErrRefusedBadProtocolVersion) then Some ErrorRefusedBadProtocolVersion
  else if decide (rc = ErrRefusedIDRejected) then Some ErrorRefusedIDRejected
  else if decide (rc = ErrRefusedServerUnavailable) then Some ErrorRefusedServerUnavailable
  else if decide (rc = ErrRefusedBadUsernameOrPassword)
       then Some ErrorRefusedBadUsernameOrPassword
  else if decide (rc = ErrRefusedNotAuthorised) then Some ErrorRefusedNotAuthorised
  else if decide (rc = ErrNetworkError) then Some ErrorNetworkError
  else if decide (rc = ErrProtocolViolation) then Some ErrorProtocolViolation
  else None.

(** ** The packet structs *)

Record ConnectPacket := mkConnect {
  con_FixedHeader : FixedHeader;
  con_ProtocolName : string;
  con_ProtocolVersion : Z;
  con_CleanSession : bool;
  con_WillFlag : bool;
  con_WillQos : Z;
  con_WillRetain : bool;
  con_UsernameFlag : bool;
  con_PasswordFlag : bool;
  con_ReservedBit : Z;
  con_Keepalive : Z;
  con_ClientIdentifier : string;
  con_WillTopic : string;
  con_WillMessage : list byte;
  con_Username : string;
  con_Password : list byte;
  con_Other : option (list byte)
}.

Record ConnackPacket := mkConnack {
  cak_FixedHeader : FixedHeader;
  cak_SessionPresent : bool;
  cak_ReturnCode : Z
}.

Record PublishPacket := mkPublish {
  pub_FixedHeader : FixedHeader;
  pub_TopicName : string;
  pub_MessageID : Z;
  pub_Payload : list byte
}.

(** [PubackPacket], [PubrecPacket], [PubrelPacket], [PubcompPacket] and
    [UnsubackPacket] are the same struct under five names. *)
Record AckPacket := mkAck {
  ack_FixedHeader : FixedHeader;
  ack_MessageID : Z
}.

Record SubscribePacket := mkSubscribe {
  sub_FixedHeader : FixedHeader;
  sub_MessageID : Z;
  sub_Topics : list string;
  sub_Qoss : list byte
}.

Record SubackPacket := mkSuback {
  sak_FixedHeader : FixedHeader;
  sak_MessageID : Z;
  sak_ReturnCodes : list byte
}.

Record UnsubscribePacket := mkUnsubscribe {
  uns_FixedHeader : FixedHeader;
  uns_MessageID : Z;
  uns_Topics : list string
}.

(** [ControlPacket]: the interface's fourteen implementations; [PingreqPacket],
    [PingrespPacket] and [DisconnectPacket] hold a fixed header only. *)
Inductive ControlPacket :=
  | PConnect (p : ConnectPacket)
  | PConnack (p : ConnackPacket)
  | PPublish (p : PublishPacket)
  | PPuback (p : AckPacket)
  | PPubrec (p : AckPacket)
  | PPubrel (p : AckPacket)
  | PPubcomp (p : AckPacket)
  | PSubscribe (p : SubscribePacket)
  | PSuback (p : SubackPacket)
  | PUnsubscribe (p : UnsubscribePacket)
  | PUnsuback (p : AckPacket)
  | PPingreq (fh : FixedHeader)
  | PPingresp (fh : FixedHeader)
  | PDisconnect (fh : FixedHeader).

Definition zeroConnect (fh : FixedHeader) : ConnectPacket :=
  mkConnect fh ""%string 0 false false 0 false false false 0 0 ""%string ""%string []
    ""%string [] None.

(** ** Constructors *)

Definition header_of_type (t : Z) (qos : Z) : FixedHeader := mkFixedHeader t false qos false 0.

Definition NewControlPacketWithHeader (fh : FixedHeader) : option ControlPacket :=
  let t := MessageType fh in
  if decide (t = Connect) then Some (PConnect (zeroConnect fh))
  else if decide (t = Connack) then Some (PConnack (mkConnack fh false 0))
  else if decide (t = Disconnect) then Some (PDisconnect fh)
  else if decide (t = Publish) then Some (PPublish (mkPublish fh ""%string 0 []))
  else if decide (t = Puback) then Some (PPuback (mkAck fh 0))
  else if decide (t = Pubrec) then Some (PPubrec (mkAck fh 0))
  else if decide (t = Pubrel) then Some (PPubrel (mkAck fh 0))
  else if decide (t = Pubcomp) then Some (PPubcomp (mkAck fh 0))
  else if decide (t = Subscribe) then Some (PSubscribe (mkSubscribe fh 0 [] []))
  else if decide (t = Suback) then Some (PSuback (mkSuback fh 0 []))
  else if decide (t = Unsubscribe) then Some (PUnsubscribe (mkUnsubscribe fh 0 []))
  else if decide (t = Unsuback) then Some (PUnsuback (mkAck fh 0))
  else if decide (t = Pingreq) then Some (PPingreq fh)
  else if decide (t = Pingresp) then Some (PPingresp fh)
  else None.

(** [Pubrel], [Subscribe] and [Unsubscribe] start with [Qos: 1]. *)
Definition NewControlPacket (packetType : Z) : option ControlPacket :=
  NewControlPacketWithHeader
    (header_of_type packetType
       (if decide (packetType = Pubrel ∨ packetType = Subscribe ∨ packetType = Unsubscribe)
        then 1 else 0)).

(** The typed packets [NewControlPacket] gives, as the callers cast them. *)
Definition newConnect : ConnectPacket := zeroConnect (header_of_type Connect 0).
Definition newConnack : ConnackPacket := mkConnack (header_of_type Connack 0) false 0.
Definition newPublish : PublishPacket := mkPublish (header_of_type Publish 0) ""%string 0 [].
Definition newAck (t : Z) (id : Z) : AckPacket := mkAck (header_of_type t 0) id.
Definition newPubrel (id : Z) : AckPacket := mkAck (header_of_type Pubrel 1) id.
Definition newSubscribe : SubscribePacket := mkSubscribe (header_of_type Subscribe 1) 0 [] [].
Definition newSuback : SubackPacket := mkSuback (header_of_type Suback 0) 0 [].
Definition newUnsubscribe : UnsubscribePacket :=
  mkUnsubscribe (header_of_type Unsubscribe 1) 0 [].

(** ** Details *)

Record Details := mkDetails { det_Qos : Z; det_MessageID : Z }.

Definition ControlPacket_Details (p : ControlPacket) : Details :=
  match p with
  | PConnect _ | PConnack _ | PPingreq _ | PPingresp _ | PDisconnect _ => mkDetails 0 0
  | PPublish p => mkDetails (Qos (pub_FixedHeader p)) (pub_MessageID p)
  | PPuback p | PPubrec p | PPubrel p | PPubcomp p =>
      mkDetails (Qos (ack_FixedHeader p)) (ack_MessageID p)
  | PSubscribe p => mkDetails 1 (sub_MessageID p)
  | PSuback p => mkDetails 0 (sak_MessageID p)
  | PUnsubscribe p => mkDetails 1 (uns_MessageID p)
  | PUnsuback p => mkDetails 0 (ack_MessageID p)
  end.

(** [PublishPacket.Copy]: same topic and payload, fresh header and id. *)
Definition PublishPacket_Copy (p : PublishPacket) : PublishPacket :=
  mkPublish (header_of_type Publish 0) (pub_TopicName p) 0 (pub_Payload p).

(** ** Errors *)

(** What [ReadPacket] and [Unpack] report. *)
Inductive perr :=
  | IOErr (e : ioerr)
  | ErrPayloadLength
  | ErrUnsupportedType (t : Z)
  | ErrShortRead.

(** ** Writing *)

(** [packet := fh.pack(); packet.Write(body.Bytes())]. *)
Definition packed (fh : FixedHeader) (body : list byte) : list byte :=
  FixedHeader_pack fh ++ body.

(** The connect flags byte. *)
Definition Connect_flags (c : ConnectPacket) : Z :=
  Z.lor (Z.lor (Z.lor (Z.lor (Z.lor
    (shl8 (boolToByte (con_CleanSession c)) 1)
    (shl8 (boolToByte (con_WillFlag c)) 2))
    (shl8 (con_WillQos c) 3))
    (shl8 (boolToByte (con_WillRetain c)) 5))
    (shl8 (boolToByte (con_PasswordFlag c)) 6))
    (shl8 (boolToByte (con_UsernameFlag c)) 7).

Definition Connect_body (c : ConnectPacket) : list byte :=
  encodeString (con_ProtocolName c)
  ++ [z2b (con_ProtocolVersion c)]
  ++ [z2b (Connect_flags c)]
  ++ encodeUint16 (con_Keepalive c)
  ++ encodeString (con_ClientIdentifier c)
  ++ (if con_WillFlag c then encodeString (con_WillTopic c) ++ encodeBytes (con_WillMessage c)
      else [])
  ++ (if con_UsernameFlag c then encodeString (con_Username c) else [])
  ++ (if con_PasswordFlag c then encodeBytes (con_Password c) else [])
  ++ encodeBytes (default [] (con_Other c)).

Definition ConnectPacket_Write (c : ConnectPacket) : list byte * ConnectPacket :=
  let body := Connect_body c in
  let c := c {{ con_FixedHeader ::= set_RemainingLength (Z.of_nat (length body)) }} in
  (packed (con_FixedHeader c) body, c).

Definition ConnackPacket_Write (ca : ConnackPacket) : list byte * ConnackPacket :=
  let body := [z2b (boolToByte (cak_SessionPresent ca)); z2b (cak_ReturnCode ca)] in
  let ca := ca {{ cak_FixedHeader ::= set_RemainingLength 2 }} in
  (packed (cak_FixedHeader ca) body, ca).

Definition Publish_body (p : PublishPacket) : list byte :=
  encodeString (pub_TopicName p)
  ++ (if decide (Qos (pub_FixedHeader p) > 0) then encodeUint16 (pub_MessageID p) else []).

Definition PublishPacket_Write (p : PublishPacket) : list byte * PublishPacket :=
  let body := Publish_body p in
  let p := p {{ pub_FixedHeader ::= set_RemainingLength
                  (Z.of_nat (length body) + Z.of_nat (length (pub_Payload p))) }} in
  (packed (pub_FixedHeader p) (body ++ pub_Payload p), p).

(** [Write] of [Puback], [Pubrec], [Pubrel], [Pubcomp] and [Unsuback]. *)
Definition AckPacket_Write (pa : AckPacket) : list byte * AckPacket :=
  let pa := pa {{ ack_FixedHeader ::= set_RemainingLength 2 }} in
  (packed (ack_FixedHeader pa) (encodeUint16 (ack_MessageID pa)), pa).

(** The loop over [s.Topics]; [None] is the panic of [s.Qoss[i]] out of range. *)
Fixpoint Subscribe_filters (topics : list string) (qoss : list byte) : option (list byte) :=
  match topics, qoss with
  | [], _ => Some []
  | topic :: topics', q :: qoss' =>
      rest ← Subscribe_filters topics' qoss'; Some (encodeString topic ++ [q] ++ rest)
  | _ :: _, [] => None
  end.

Definition SubscribePacket_Write (s : SubscribePacket) : option (list byte * SubscribePacket) :=
  filters ← Subscribe_filters (sub_Topics s) (sub_Qoss s);
  let body := encodeUint16 (sub_MessageID s) ++ filters in
  let s := s {{ sub_FixedHeader ::= set_RemainingLength (Z.of_nat (length body)) }} in
  Some (packed (sub_FixedHeader s) body, s).

Definition SubackPacket_Write (sa : SubackPacket) : list byte * SubackPacket :=
  let body := encodeUint16 (sak_MessageID sa) ++ sak_ReturnCodes sa in
  let sa := sa {{ sak_FixedHeader ::= set_RemainingLength (Z.of_nat (length body)) }} in
  (packed (sak_FixedHeader sa) body, sa).

Definition Unsubscribe_body (u : UnsubscribePacket) : list byte :=
  encodeUint16 (uns_MessageID u) ++ concat (map encodeString (uns_Topics u)).

Definition UnsubscribePacket_Write (u : UnsubscribePacket) : list byte * UnsubscribePacket :=
  let body := Unsubscribe_body u in
  let u := u {{ uns_FixedHeader ::= set_RemainingLength (Z.of_nat (length body)) }} in
  (packed (uns_FixedHeader u) body, u).

(** [Pingreq], [Pingresp] and [Disconnect] write the header as it is. *)
Definition HeaderPacket_Write (fh : FixedHeader) : list byte * FixedHeader :=
  (FixedHeader_pack fh, fh).

(** [cp.Write]: the bytes written and the packet afterwards; [None] is the panic
    of a [SubscribePacket] with fewer QoS bytes than topics. *)
Definition ControlPacket_Write (cp : ControlPacket) : option (list byte * ControlPacket) :=
  match cp with
  | PConnect p => Some (prod_map id PConnect (ConnectPacket_Write p))
  | PConnack p => Some (prod_map id PConnack (ConnackPacket_Write p))
  | PPublish p => Some (prod_map id PPublish (PublishPacket_Write p))
  | PPuback p => Some (prod_map id PPuback (AckPacket_Write p))
  | PPubrec p => Some (prod_map id PPubrec (AckPacket_Write p))
  | PPubrel p => Some (prod_map id PPubrel (AckPacket_Write p))
  | PPubcomp p => Some (prod_map id PPubcomp (AckPacket_Write p))
  | PSubscribe p => prod_map id PSubscribe <$> SubscribePacket_Write p
  | PSuback p => Some (prod_map id PSuback (SubackPacket_Write p))
  | PUnsubscribe p => Some (prod_map id PUnsubscribe (UnsubscribePacket_Write p))
  | PUnsuback p => Some (prod_map id PUnsuback (AckPacket_Write p))
  | PPingreq fh => Some (prod_map id PPingreq (HeaderPacket_Write fh))
  | PPingresp fh => Some (prod_map id PPingresp (HeaderPacket_Write fh))
  | PDisconnect fh => Some (prod_map id PDisconnect (HeaderPacket_Write fh))
  end.

(** ** Unpacking *)

(** What [Unpack] of a packet type gives back: the packet, the error, and the
    rest of the buffer. *)
Definition unpacked (P : Type) : Type := P * option perr * list byte.

(** [p.f, err = dec(b); if err != nil { return err }]: the field is assigned in
    both cases. *)
Definition reads {P A : Type} (dec : list byte → A * option ioerr * list byte)
    (assign : A → P → P) (k : P → list byte → unpacked P) (p : P) (b : list byte) : unpacked P :=
  let '(v, err, b) := dec b in
  let p := assign v p in
  match err with
  | Some e => (p, Some (IOErr e), b)
  | None => k p b
  end.

Definition return_nil {P : Type} (p : P) (b : list byte) : unpacked P := (p, None, b).

(** The connect flags byte, spread over the seven fields it carries. *)
Definition con_set_options (options : Z) (c : ConnectPacket) : ConnectPacket :=
  c {{ con_ReservedBit := Z.land 1 options;
       con_CleanSession := bool_decide (Z.land 1 (Z.shiftr options 1) > 0);
       con_WillFlag := bool_decide (Z.land 1 (Z.shiftr options 2) > 0);
       con_WillQos := Z.land 3 (Z.shiftr options 3);
       con_WillRetain := bool_decide (Z.land 1 (Z.shiftr options 5) > 0);
       con_PasswordFlag := bool_decide (Z.land 1 (Z.shiftr options 6) > 0);
       con_UsernameFlag := bool_decide (Z.land 1 (Z.shiftr options 7) > 0) }}.

Definition Connect_read_will (k : ConnectPacket → list byte → unpacked ConnectPacket)
    (c : ConnectPacket) (b : list byte) : unpacked ConnectPacket :=
  if con_WillFlag c then
    reads decodeString (λ v c, c {{ con_WillTopic := v }})
      (reads decodeBytes (λ v c, c {{ con_WillMessage := default [] v }}) k) c b
  else k c b.

Definition Connect_read_user (k : ConnectPacket → list byte → unpacked ConnectPacket)
    (c : ConnectPacket) (b : list byte) : unpacked ConnectPacket :=
  if con_UsernameFlag c then reads decodeString (λ v c, c {{ con_Username := v }}) k c b
  else k c b.

Definition Connect_read_password (k : ConnectPacket → list byte → unpacked ConnectPacket)
    (c : ConnectPacket) (b : list byte) : unpacked ConnectPacket :=
  if con_PasswordFlag c then
    reads decodeBytes (λ v c, c {{ con_Password := default [] v }}) k c b
  else k c b.

(** The trailing field: an error makes it nil and is dropped. *)
Definition Connect_read_other (c : ConnectPacket) (b : list byte) : unpacked ConnectPacket :=
  let '(v, err, b) := decodeBytes b in
  (c {{ con_Other := match err with Some _ => None | None => v end }}, None, b).

Definition ConnectPacket_Unpack : ConnectPacket → list byte → unpacked ConnectPacket :=
  reads decodeString (λ v c, c {{ con_ProtocolName := v }})
  (reads decodeByte (λ v c, c {{ con_ProtocolVersion := v }})
  (λ c b,
     let '(options, err, b) := decodeByte b in
     match err with
     | Some e => (c, Some (IOErr e), b)
     | None =>
         reads decodeUint16 (λ v c, c {{ con_Keepalive := v }})
         (reads decodeString (λ v c, c {{ con_ClientIdentifier := v }})
         (Connect_read_will (Connect_read_user (Connect_read_password Connect_read_other))))
         (con_set_options options c) b
     end)).

Definition ConnackPacket_Unpack (ca : ConnackPacket) (b : list byte) : unpacked ConnackPacket :=
  let '(flags, err, b) := decodeByte b in
  match err with
  | Some e => (ca, Some (IOErr e), b)
  | None =>
      reads decodeByte (λ v ca, ca {{ cak_ReturnCode := v }}) return_nil
        (ca {{ cak_SessionPresent := bool_decide (Z.land 1 flags > 0) }}) b
  end.

Definition Publish_read_payload (payloadLength : Z) (p : PublishPacket) (b : list byte)
    : unpacked PublishPacket :=
  if decide (payloadLength < 0) then (p, Some ErrPayloadLength, b)
  else reads (Buffer_Read (Z.to_nat payloadLength)) (λ v p, p {{ pub_Payload := v }})
         return_nil p b.

Definition PublishPacket_Unpack (p : PublishPacket) (b : list byte) : unpacked PublishPacket :=
  let payloadLength := RemainingLength (pub_FixedHeader p) in
  reads decodeString (λ v p, p {{ pub_TopicName := v }})
  (λ p b,
     if decide (Qos (pub_FixedHeader p) > 0) then
       reads decodeUint16 (λ v p, p {{ pub_MessageID := v }})
       (λ p b, Publish_read_payload
                 (payloadLength - (Z.of_nat (String.length (pub_TopicName p)) + 4)) p b) p b
     else
       Publish_read_payload
         (payloadLength - (Z.of_nat (String.length (pub_TopicName p)) + 2)) p b) p b.

Definition AckPacket_Unpack : AckPacket → list byte → unpacked AckPacket :=
  reads decodeUint16 (λ v p, p {{ ack_MessageID := v }}) return_nil.

(** The loop [for payloadLength > 0].  A turn that does not return consumes at
    least two bytes, so [S (length b)] units of fuel are enough
    ([Subscribe_loop_fuel]). *)
Fixpoint Subscribe_loop (fuel : nat) (payloadLength : Z) (s : SubscribePacket) (b : list byte)
    : unpacked SubscribePacket :=
  match fuel with
  | O => (s, None, b)
  | S fuel' =>
      if decide (payloadLength > 0) then
        let '(topic, err, b) := decodeString b in
        match err with
        | Some e => (s, Some (IOErr e), b)
        | None =>
            let s := s {{ sub_Topics ::= (λ l, l ++ [topic]) }} in
            let '(qos, err, b) := decodeByte b in
            match err with
            | Some e => (s, Some (IOErr e), b)
            | None =>
                Subscribe_loop fuel' (payloadLength - (2 + Z.of_nat (String.length topic) + 1))
                  (s {{ sub_Qoss ::= (λ l, l ++ [z2b qos]) }}) b
            end
        end
      else (s, None, b)
  end.

Definition SubscribePacket_Unpack : SubscribePacket → list byte → unpacked SubscribePacket :=
  reads decodeUint16 (λ v s, s {{ sub_MessageID := v }})
  (λ s b, Subscribe_loop (S (length b)) (RemainingLength (sub_FixedHeader s) - 2) s b).

(** [qosBuffer.ReadFrom(b)] takes all that is left. *)
Definition SubackPacket_Unpack : SubackPacket → list byte → unpacked SubackPacket :=
  reads decodeUint16 (λ v sa, sa {{ sak_MessageID := v }})
  (λ sa b, (sa {{ sak_ReturnCodes := b }}, None, [])).

(** The loop variables [topic, err] shadow the outer [err], so the loop's error
    is dropped and the method returns nil. *)
Fixpoint Unsubscribe_loop (fuel : nat) (u : UnsubscribePacket) (b : list byte)
    : unpacked UnsubscribePacket :=
  match fuel with
  | O => (u, None, b)
  | S fuel' =>
      let '(topic, err, b) := decodeString b in
      match err with
      | Some _ => (u, None, b)
      | None =>
          if decide (topic = ""%string) then (u, None, b)
          else Unsubscribe_loop fuel' (u {{ uns_Topics ::= (λ l, l ++ [topic]) }}) b
      end
  end.

Definition UnsubscribePacket_Unpack : UnsubscribePacket → list byte → unpacked UnsubscribePacket :=
  reads decodeUint16 (λ v u, u {{ uns_MessageID := v }})
  (λ u b, Unsubscribe_loop (S (length b)) u b).

Definition lift_unpacked {P} (f : P → ControlPacket) (u : unpacked P) : unpacked ControlPacket :=
  let '(p, err, b) := u in (f p, err, b).

Definition ControlPacket_Unpack (cp : ControlPacket) (b : list byte) : unpacked ControlPacket :=
  match cp with
  | PConnect p => lift_unpacked PConnect (ConnectPacket_Unpack p b)
  | PConnack p => lift_unpacked PConnack (ConnackPacket_Unpack p b)
  | PPublish p => lift_unpacked PPublish (PublishPacket_Unpack p b)
  | PPuback p => lift_unpacked PPuback (AckPacket_Unpack p b)
  | PPubrec p => lift_unpacked PPubrec (AckPacket_Unpack p b)
  | PPubrel p => lift_unpacked PPubrel (AckPacket_Unpack p b)
  | PPubcomp p => lift_unpacked PPubcomp (AckPacket_Unpack p b)
  | PSubscribe p => lift_unpacked PSubscribe (SubscribePacket_Unpack p b)
  | PSuback p => lift_unpacked PSuback (SubackPacket_Unpack p b)
  | PUnsubscribe p => lift_unpacked PUnsubscribe (UnsubscribePacket_Unpack p b)
  | PUnsuback p => lift_unpacked PUnsuback (AckPacket_Unpack p b)
  | PPingreq _ | PPingresp _ | PDisconnect _ => (cp, None, b)
  end.

(** ** Validation of a connect packet *)

Definition ConnectPacket_Validate (c : ConnectPacket) : Z :=
  if con_PasswordFlag c && negb (con_UsernameFlag c) then ErrRefusedBadUsernameOrPassword
  else if decide (con_ReservedBit c ≠ 0) then ErrProtocolViolation
  else if decide ((con_ProtocolName c = "MQIsdp"%string ∧ con_ProtocolVersion c ≠ 3)
                  ∨ (con_ProtocolName c = "MQTT"%string ∧ con_ProtocolVersion c ≠ 4))
  then ErrRefusedBadProtocolVersion
  else if decide (con_ProtocolName c ≠ "MQIsdp"%string ∧ con_ProtocolName c ≠ "MQTT"%string)
  then ErrProtocolViolation
  else if decide (Z.of_nat (String.length (con_ClientIdentifier c)) > 65535
                  ∨ Z.of_nat (String.length (con_Username c)) > 65535
                  ∨ Z.of_nat (length (con_Password c)) > 65535)
  then ErrProtocolViolation
  else if decide (String.length (con_ClientIdentifier c) = O ∧ con_CleanSession c = false)
  then ErrRefusedIDRejected
  else Accepted.

(** ** Reading a packet from a connection *)

(** The two results of [ReadPacket] and what is left of the stream. *)
Definition ReadPacket (r : list byte) : option ControlPacket * option perr * list byte :=
  let '(b, err, r) := ReadFull 1 r in
  match err with
  | Some e => (None, Some (IOErr e), r)
  | None =>
      let '(fh, err, r) := FixedHeader_unpack (b2z (nth 0 b zero)) r in
      match err with
      | Some e => (None, Some (IOErr e), r)
      | None =>
          match NewControlPacketWithHeader fh with
          | None => (None, Some (ErrUnsupportedType (MessageType fh)), r)
          | Some cp =>
              let '(packetBytes, err, r) := ReadFull (Z.to_nat (RemainingLength fh)) r in
              match err with
              | Some e => (None, Some (IOErr e), r)
              | None =>
                  if decide (Z.of_nat (length packetBytes) ≠ RemainingLength fh)
                  then (None, Some ErrShortRead, r)
                  else let '(cp, err, _) := ControlPacket_Unpack cp packetBytes in
                       (Some cp, err, r)
              end
          end
      end
  end.
