(* ===== verification/PacketsRoundtrip.v ===== *)
(** * PacketsRoundtrip: reading back what was written

    [ReadPacket] inverts [Write] for every packet type; what it does on input
    that is cut short; and the decoders' loops terminate. *)
From S2P Require Import Prelude Wire Packets.
Local Open Scope Z_scope.

(** ** Packets that fit the wire format *)

Definition str_ok (s : string) : Prop := Z.of_nat (String.length s) < 65536.
Definition bytes_ok (b : list byte) : Prop := Z.of_nat (length b) < 65536.
Definition type_ok (fh : FixedHeader) (t : Z) : Prop := MessageType fh = t ∧ 0 ≤ Qos fh < 4.
Definition fits (n : nat) : Prop := Z.of_nat n < 268435456.

Definition connect_ok (c : ConnectPacket) : Prop :=
  type_ok (con_FixedHeader c) Connect
  ∧ str_ok (con_ProtocolName c) ∧ is_u8 (con_ProtocolVersion c) ∧ 0 ≤ con_WillQos c < 4
  ∧ con_ReservedBit c = 0 ∧ is_u16 (con_Keepalive c) ∧ str_ok (con_ClientIdentifier c)
  ∧ str_ok (con_WillTopic c) ∧ bytes_ok (con_WillMessage c)
  ∧ str_ok (con_Username c) ∧ bytes_ok (con_Password c)
  ∧ bytes_ok (default [] (con_Other c))
  ∧ (con_WillFlag c = false → con_WillTopic c = ""%string ∧ con_WillMessage c = [])
  ∧ (con_UsernameFlag c = false → con_Username c = ""%string)
  ∧ (con_PasswordFlag c = false → con_Password c = [])
  ∧ fits (length (Connect_body c)).

Definition ack_ok (t : Z) (p : AckPacket) : Prop :=
  type_ok (ack_FixedHeader p) t ∧ is_u16 (ack_MessageID p).

Definition header_only_ok (t : Z) (fh : FixedHeader) : Prop :=
  type_ok fh t ∧ RemainingLength fh = 0.

(** A packet whose fields fit their encodings; a field whose flag is off is
    empty, and an unsubscribe filter is not the empty string, which the reader
    takes for the end of the list. *)
Definition packet_ok (cp : ControlPacket) : Prop :=
  match cp with
  | PConnect c => connect_ok c
  | PConnack p => type_ok (cak_FixedHeader p) Connack ∧ is_u8 (cak_ReturnCode p)
  | PPublish p =>
      type_ok (pub_FixedHeader p) Publish ∧ str_ok (pub_TopicName p)
      ∧ is_u16 (pub_MessageID p)
      ∧ (Qos (pub_FixedHeader p) = 0 → pub_MessageID p = 0)
      ∧ fits (length (Publish_body p) + length (pub_Payload p))
  | PPuback p => ack_ok Puback p
  | PPubrec p => ack_ok Pubrec p
  | PPubrel p => ack_ok Pubrel p
  | PPubcomp p => ack_ok Pubcomp p
  | PUnsuback p => ack_ok Unsuback p
  | PSubscribe p =>
      type_ok (sub_FixedHeader p) Subscribe ∧ is_u16 (sub_MessageID p)
      ∧ Forall str_ok (sub_Topics p) ∧ length (sub_Qoss p) = length (sub_Topics p)
      ∧ (∀ f, Subscribe_filters (sub_Topics p) (sub_Qoss p) = Some f → fits (2 + length f))
  | PSuback p =>
      type_ok (sak_FixedHeader p) Suback ∧ is_u16 (sak_MessageID p)
      ∧ fits (2 + length (sak_ReturnCodes p))
  | PUnsubscribe p =>
      type_ok (uns_FixedHeader p) Unsubscribe ∧ is_u16 (uns_MessageID p)
      ∧ Forall (λ t, str_ok t ∧ t ≠ ""%string) (uns_Topics p)
      ∧ fits (length (Unsubscribe_body p))
  | PPingreq fh => header_only_ok Pingreq fh
  | PPingresp fh => header_only_ok Pingresp fh
  | PDisconnect fh => header_only_ok Disconnect fh
  end.

(** What comes back: the trailing field of a connect packet is never nil. *)
Definition read_back (cp : ControlPacket) : ControlPacket :=
  match cp with
  | PConnect c => PConnect (c {{ con_Other := Some (default [] (con_Other c)) }})
  | _ => cp
  end.

(** ** The frame *)

Lemma ReadPacket_frame fh body cp0 cp b' rest :
  header_ok fh → RemainingLength fh = Z.of_nat (length body) →
  NewControlPacketWithHeader fh = Some cp0 →
  ControlPacket_Unpack cp0 body = (cp, None, b') →
  ReadPacket (packed fh body ++ rest) = (Some cp, None, rest).
Proof.
  intros Hok Hl Hnew Hun. unfold ReadPacket, packed.
  destruct (FixedHeader_roundtrip fh (body ++ rest) Hok) as (b & bs & Hp & Hu).
  rewrite Hp, <-app_assoc.
  pose proof (ReadFull_app [b] (bs ++ body ++ rest)) as Hr. simpl length in Hr.
  change ((b :: bs) ++ body ++ rest) with ([b] ++ bs ++ body ++ rest). rewrite Hr.
  cbn [nth]. rewrite Hu, Hnew, Hl, Nat2Z.id, ReadFull_app.
  rewrite decide_False by (by intros ?). by rewrite Hun.
Qed.

Lemma reads_app {P A} (dec : list byte → A * option ioerr * list byte) (assign : A → P → P) k p x v rest :
  dec (x ++ rest) = (v, None, rest) →
  reads dec assign k p (x ++ rest) = k (assign v p) rest.
Proof. intros H. unfold reads. by rewrite H. Qed.

(** Runs one [reads] of a known encoding at the front of the buffer. *)
Ltac read_step :=
  erewrite reads_app;
  [| first [ apply decodeString_encode | apply decodeUint16_encode
           | apply decodeBytes_encode | apply (decodeByte_z2b _ _) ]; assumption ].

Lemma header_ok_set fh t n : type_ok fh t → 0 ≤ t < 16 → fits n →
  header_ok (set_RemainingLength (Z.of_nat n) fh).
Proof. intros [<- ?] ??. unfold header_ok, fits in *. simpl. lia. Qed.

(** ** Each packet type *)

Lemma Ack_unpack fh id : is_u16 id →
  AckPacket_Unpack (mkAck fh 0) (encodeUint16 id) = (mkAck fh id, None, []).
Proof.
  intros. unfold AckPacket_Unpack. rewrite <-(app_nil_r (encodeUint16 id)). by read_step.
Qed.

Lemma Connack_unpack fh sp rc : is_u8 rc →
  ConnackPacket_Unpack (mkConnack fh false 0) [z2b (boolToByte sp); z2b rc]
    = (mkConnack fh sp rc, None, []).
Proof.
  intros. unfold ConnackPacket_Unpack. rewrite decodeByte_z2b by (destruct sp; done).
  change [z2b rc] with ([z2b rc] ++ []). read_step. by destruct sp.
Qed.

Lemma Publish_read_payload_all fh t id pl n :
  n = Z.of_nat (length pl) →
  Publish_read_payload n (mkPublish fh t id []) pl = (mkPublish fh t id pl, None, []).
Proof.
  intros ->. unfold Publish_read_payload. rewrite decide_False, Nat2Z.id by lia.
  pose proof (Buffer_Read_app pl []) as H. rewrite app_nil_r in H.
  unfold reads. by rewrite H.
Qed.

Lemma Publish_unpack p :
  str_ok (pub_TopicName p) → is_u16 (pub_MessageID p) →
  0 ≤ Qos (pub_FixedHeader p) →
  (Qos (pub_FixedHeader p) = 0 → pub_MessageID p = 0) →
  RemainingLength (pub_FixedHeader p)
    = Z.of_nat (length (Publish_body p)) + Z.of_nat (length (pub_Payload p)) →
  PublishPacket_Unpack (mkPublish (pub_FixedHeader p) ""%string 0 [])
    (Publish_body p ++ pub_Payload p) = (p, None, []).
Proof.
  destruct p as [fh t id pl]. unfold Publish_body, PublishPacket_Unpack. cbn.
  intros Ht Hid Hq Hq0 Hrl. rewrite <-app_assoc. read_step.
  rewrite length_app, length_encodeString in Hrl.
  cbn. destruct (decide (Qos fh > 0)).
  - rewrite length_encodeUint16 in Hrl. read_step.
    apply Publish_read_payload_all. cbn [pub_TopicName constant]. lia.
  - cbn in Hrl. rewrite Hq0 in * by lia. cbn [app].
    apply Publish_read_payload_all. cbn [pub_TopicName constant]. lia.
Qed.

Lemma Subscribe_filters_length topics : ∀ qoss f,
  Subscribe_filters topics qoss = Some f → (3 * length topics ≤ length f)%nat.
Proof.
  induction topics as [|t topics IH]; intros [|q qoss] f H; cbn in H |- *;
    simplify_eq; try lia.
  destruct (Subscribe_filters topics qoss) as [f'|] eqn:Hf; cbn in H; simplify_eq.
  specialize (IH _ _ Hf). rewrite length_app, length_encodeString. cbn. lia.
Qed.

Lemma Subscribe_loop_filters topics : ∀ qoss f s fuel,
  Forall str_ok topics → length qoss = length topics →
  Subscribe_filters topics qoss = Some f → (length topics < fuel)%nat →
  Subscribe_loop fuel (Z.of_nat (length f)) s f =
    (mkSubscribe (sub_FixedHeader s) (sub_MessageID s) (sub_Topics s ++ topics)
       (sub_Qoss s ++ qoss), None, []).
Proof.
  induction topics as [|t topics IH]; intros [|q qoss] f s fuel Hok Hlen Hf Hfuel;
    (destruct fuel as [|fuel]; [cbn in Hfuel; lia|]); cbn in Hf; simplify_eq.
  - cbn. rewrite !app_nil_r. by destruct s.
  - destruct (Subscribe_filters topics qoss) as [f'|] eqn:Hf'; [|done].
    cbn in Hf. injection Hf as <-. inversion Hok; subst.
    cbn [Subscribe_loop]. rewrite decide_True by (rewrite length_app, length_encodeString; lia).
    rewrite decodeString_encode by done. cbn [app]. rewrite decodeByte_cons, z2b_b2z.
    replace (_ - _) with (Z.of_nat (length f')).
    2: { rewrite length_app, length_encodeString. cbn [length]. lia. }
    rewrite IH with (qoss := qoss); [|done|cbn in Hlen; lia|done|cbn in Hfuel; lia].
    cbn. by rewrite <-!app_assoc.
Qed.

Lemma Unsubscribe_loop_topics topics : ∀ u fuel,
  Forall (λ t, str_ok t ∧ t ≠ ""%string) topics → (length topics < fuel)%nat →
  Unsubscribe_loop fuel u (concat (map encodeString topics)) =
    (mkUnsubscribe (uns_FixedHeader u) (uns_MessageID u) (uns_Topics u ++ topics), None, []).
Proof.
  induction topics as [|t topics IH]; intros u fuel Hok Hfuel;
    (destruct fuel as [|fuel]; [simpl in Hfuel; lia|]).
  - cbn. rewrite app_nil_r. by destruct u.
  - inversion Hok as [|?? [Hs Hne] Hok']; subst. cbn [Unsubscribe_loop concat map].
    rewrite decodeString_encode by done. rewrite decide_False by done.
    rewrite IH; [|done|cbn in Hfuel; lia]. cbn. by rewrite <-app_assoc.
Qed.

Lemma concat_encodeString_length topics :
  (2 * length topics ≤ length (concat (map encodeString topics)))%nat.
Proof.
  induction topics; cbn; [lia|]. rewrite length_app, length_encodeString. cbn in *. lia.
Qed.

(** The connect flags byte read back gives the flags it was made of. *)
Lemma Connect_flags_inverse c c0 :
  0 ≤ con_WillQos c < 4 →
  is_u8 (Connect_flags c) ∧
  con_set_options (Connect_flags c) c0 =
    c0 {{ con_ReservedBit := 0; con_CleanSession := con_CleanSession c;
          con_WillFlag := con_WillFlag c; con_WillQos := con_WillQos c;
          con_WillRetain := con_WillRetain c; con_PasswordFlag := con_PasswordFlag c;
          con_UsernameFlag := con_UsernameFlag c }}.
Proof.
  intros Hq. unfold Connect_flags.
  generalize (con_CleanSession c), (con_WillFlag c), (con_WillRetain c),
    (con_PasswordFlag c), (con_UsernameFlag c).
  assert (con_WillQos c ∈ seqZ 0 4) as Hq' by (apply elem_of_seqZ; lia).
  clear Hq. cbv [seqZ Z.to_nat Pos.to_nat Pos.iter_op Nat.add seq fmap list_fmap] in Hq'.
  intros b1 b2 b3 b4 b5. revert Hq'. generalize (con_WillQos c). intros q Hq'. cbn in Hq'.
  repeat (apply elem_of_cons in Hq' as [->|Hq']); try (by apply elem_of_nil in Hq');
    destruct b1, b2, b3, b4, b5; (split; [done|reflexivity]).
Qed.

Lemma Connect_unpack c :
  connect_ok c →
  ConnectPacket_Unpack (zeroConnect (con_FixedHeader c)) (Connect_body c)
    = (c {{ con_Other := Some (default [] (con_Other c)) }}, None, []).
Proof.
  intros (_ & Hpn & Hpv & Hwq & Hrb & Hka & Hci & Hwt & Hwm & Hun & Hpw & Hot & Hw & Hu & Hp & _).
  destruct (Connect_flags_inverse c) with (c0 := (zeroConnect (con_FixedHeader c))
     {{ con_ProtocolName := con_ProtocolName c;
        con_ProtocolVersion := con_ProtocolVersion c }}) as [Hf8 Hfi]; [done|].
  unfold ConnectPacket_Unpack, Connect_body. read_step. read_step.
  cbn [app]. rewrite decodeByte_z2b by done. rewrite Hfi. clear Hfi Hf8.
  read_step. read_step. unfold Connect_read_will, Connect_read_user, Connect_read_password.
  destruct c as [fh pn pv cs wf wq wr uf pf rb ka ci wt wm un pw ot]. cbn in *.
  destruct wf; [rewrite <-app_assoc; read_step; read_step|destruct Hw as [-> ->]; [done|]; cbn [app]];
  (destruct uf; [cbn; read_step|rewrite Hu by done; cbn [app]; cbn]);
  (destruct pf; [cbn; read_step|rewrite Hp by done; cbn [app]; cbn]);
  unfold Connect_read_other;
  pose proof (decodeBytes_encode (default [] ot) [] Hot) as Ho; rewrite app_nil_r in Ho;
  rewrite Ho; by subst.
Qed.

(** ** All packet types *)

(** The packet [NewControlPacketWithHeader] starts for a header of a known type. *)
Ltac new_packet :=
  let H := fresh in
  intros ? H; unfold NewControlPacketWithHeader; rewrite H; reflexivity.

(** [ReadPacket] inverts a [Write] that packs [body] under the header [fh] with
    its length stored, when [Unpack] of the fresh packet gives [cp]. *)
Lemma frame_roundtrip fh t body (f : FixedHeader → ControlPacket) cp b' rest :
  type_ok fh t → 0 ≤ t < 16 → fits (length body) →
  (∀ fh, MessageType fh = t → NewControlPacketWithHeader fh = Some (f fh)) →
  ControlPacket_Unpack (f (set_RemainingLength (Z.of_nat (length body)) fh)) body
    = (cp, None, b') →
  ReadPacket (packed (set_RemainingLength (Z.of_nat (length body)) fh) body ++ rest)
    = (Some cp, None, rest).
Proof.
  intros Hty Ht Hfit Hnew Hun. eapply ReadPacket_frame; [| |by apply Hnew, Hty|done].
  - by eapply header_ok_set.
  - done.
Qed.

Lemma Ack_roundtrip t (f : AckPacket → ControlPacket) p rest :
  ack_ok t p → 0 ≤ t < 16 →
  (∀ fh, MessageType fh = t → NewControlPacketWithHeader fh = Some (f (mkAck fh 0))) →
  (∀ p b, ControlPacket_Unpack (f p) b = lift_unpacked f (AckPacket_Unpack p b)) →
  ReadPacket ((AckPacket_Write p).1 ++ rest) = (Some (f (AckPacket_Write p).2), None, rest).
Proof.
  destruct p as [fh id]. intros [Hty Hid] Ht Hnew Hun. cbn in *.
  apply (frame_roundtrip fh t (encodeUint16 id) (λ fh, f (mkAck fh 0)) _ []); try done.
  by rewrite Hun, Ack_unpack.
Qed.

(** A packet that holds a fixed header only. *)
Lemma header_packet_roundtrip t (f : FixedHeader → ControlPacket) fh rest :
  header_only_ok t fh → 0 ≤ t < 16 →
  (∀ fh, MessageType fh = t → NewControlPacketWithHeader fh = Some (f fh)) →
  (∀ b, ControlPacket_Unpack (f fh) b = (f fh, None, b)) →
  ReadPacket (FixedHeader_pack fh ++ rest) = (Some (f fh), None, rest).
Proof.
  intros [[Hty Hq] Hrl] Ht Hnew Hun.
  rewrite <-(app_nil_r (FixedHeader_pack fh)).
  eapply (ReadPacket_frame fh []); [|done|by apply Hnew|by apply Hun].
  unfold header_ok. lia.
Qed.

Lemma Connect_roundtrip c rest :
  connect_ok c →
  ReadPacket ((ConnectPacket_Write c).1 ++ rest)
    = (Some (read_back (PConnect (ConnectPacket_Write c).2)), None, rest).
Proof.
  intros Hok. pose proof (Connect_unpack ((ConnectPacket_Write c).2)) as Hu.
  destruct c as [fh pn pv cs wf wq wr uf pf rb ka ci wt wm un pw ot].
  set (c := mkConnect fh pn pv cs wf wq wr uf pf rb ka ci wt wm un pw ot) in *.
  assert (Hfit := Hok). repeat (apply proj2 in Hfit).
  apply (frame_roundtrip fh Connect (Connect_body c) (λ fh, PConnect (zeroConnect fh)) _ []).
  - apply Hok.
  - done.
  - exact Hfit.
  - new_packet.
  - cbn [ControlPacket_Unpack].
    change (Connect_body c) with (Connect_body (ConnectPacket_Write c).2) at 2.
    change (set_RemainingLength (Z.of_nat (length (Connect_body c))) fh)
      with (con_FixedHeader (ConnectPacket_Write c).2).
    rewrite Hu; [done|]. exact Hok.
Qed.

Lemma Publish_roundtrip p rest :
  packet_ok (PPublish p) →
  ReadPacket ((PublishPacket_Write p).1 ++ rest)
    = (Some (PPublish (PublishPacket_Write p).2), None, rest).
Proof.
  intros (Hty & Ht & Hid & Hq0 & Hfit).
  assert (Hl : Z.of_nat (length (Publish_body p ++ pub_Payload p))
    = Z.of_nat (length (Publish_body p)) + Z.of_nat (length (pub_Payload p)))
    by (rewrite length_app; lia).
  pose proof (Publish_unpack (PublishPacket_Write p).2) as Hu.
  destruct p as [fh t id pl].
  eapply (ReadPacket_frame (pub_FixedHeader (PublishPacket_Write (mkPublish fh t id pl)).2)
            (Publish_body (mkPublish fh t id pl) ++ pl)
            (PPublish (mkPublish (pub_FixedHeader (PublishPacket_Write (mkPublish fh t id pl)).2)
               ""%string 0 []))).
  - cbn -[Publish_body] in *. rewrite <-Hl. eapply header_ok_set; [done|done|].
    by rewrite length_app.
  - cbn -[Publish_body] in *. lia.
  - destruct Hty as [Hty _]. cbn in Hty. unfold NewControlPacketWithHeader. cbn. by rewrite Hty.
  - cbn [ControlPacket_Unpack]. destruct Hty.
    change (Publish_body (mkPublish fh t id pl) ++ pl) with
      (Publish_body (PublishPacket_Write (mkPublish fh t id pl)).2
       ++ pub_Payload (PublishPacket_Write (mkPublish fh t id pl)).2).
    rewrite Hu; [reflexivity|done|done|cbn in *; lia|done|done].
Qed.

Lemma Subscribe_roundtrip p rest :
  packet_ok (PSubscribe p) →
  ∃ bytes p', SubscribePacket_Write p = Some (bytes, p') ∧
    ReadPacket (bytes ++ rest) = (Some (PSubscribe p'), None, rest).
Proof.
  destruct p as [fh id ts qs]. intros (Hty & Hid & Hts & Hlen & Hfit). cbn in *.
  assert (∃ f, Subscribe_filters ts qs = Some f) as [f Hf].
  { clear -Hlen. revert qs Hlen. induction ts as [|t ts IH]; intros [|q qs] ?; try done; [by eexists|].
    destruct (IH qs) as [f Hf]; [cbn in *; lia|]. eexists. cbn. by rewrite Hf. }
  unfold SubscribePacket_Write. cbn. rewrite Hf. cbn. eexists _, _. split; [reflexivity|].
  specialize (Hfit _ Hf).
  apply (frame_roundtrip fh Subscribe (encodeUint16 id ++ f)
           (λ fh, PSubscribe (mkSubscribe fh 0 [] [])) _ []); [done|done| |new_packet|].
  - rewrite length_app, length_encodeUint16. done.
  - cbn [ControlPacket_Unpack]. unfold SubscribePacket_Unpack. read_step.
    cbn [sub_FixedHeader apply_update constant set_RemainingLength RemainingLength].
    rewrite length_app, length_encodeUint16.
    replace (_ - 2) with (Z.of_nat (length f)) by lia.
    rewrite (Subscribe_loop_filters ts qs f) by
      (try done; pose proof (Subscribe_filters_length _ _ _ Hf); lia).
    done.
Qed.

Lemma Connack_roundtrip p rest :
  packet_ok (PConnack p) →
  ReadPacket ((ConnackPacket_Write p).1 ++ rest)
    = (Some (PConnack (ConnackPacket_Write p).2), None, rest).
Proof.
  destruct p as [fh sp rc]. intros [Hty Hrc]. cbn in *.
  apply (frame_roundtrip fh Connack [z2b (boolToByte sp); z2b rc]
           (λ fh, PConnack (mkConnack fh false 0)) _ []); [done|done|done|new_packet|].
  cbn [ControlPacket_Unpack]. by rewrite Connack_unpack.
Qed.

Lemma Suback_roundtrip p rest :
  packet_ok (PSuback p) →
  ReadPacket ((SubackPacket_Write p).1 ++ rest)
    = (Some (PSuback (SubackPacket_Write p).2), None, rest).
Proof.
  destruct p as [fh id rc]. intros (Hty & Hid & Hfit). cbn in *.
  apply (frame_roundtrip fh Suback (encodeUint16 id ++ rc)
           (λ fh, PSuback (mkSuback fh 0 [])) _ []); [done|done| |new_packet|].
  - by rewrite length_app, length_encodeUint16.
  - cbn [ControlPacket_Unpack]. unfold SubackPacket_Unpack. by read_step.
Qed.

Lemma Unsubscribe_roundtrip p rest :
  packet_ok (PUnsubscribe p) →
  ReadPacket ((UnsubscribePacket_Write p).1 ++ rest)
    = (Some (PUnsubscribe (UnsubscribePacket_Write p).2), None, rest).
Proof.
  destruct p as [fh id ts]. intros (Hty & Hid & Hts & Hfit). cbn in *.
  apply (frame_roundtrip fh Unsubscribe (Unsubscribe_body (mkUnsubscribe fh id ts))
           (λ fh, PUnsubscribe (mkUnsubscribe fh 0 [])) _ []); [done|done|done|new_packet|].
  cbn [ControlPacket_Unpack]. unfold UnsubscribePacket_Unpack, Unsubscribe_body.
  cbn [uns_MessageID uns_Topics].
  read_step. rewrite Unsubscribe_loop_topics; [done|done|].
  pose proof (concat_encodeString_length ts). lia.
Qed.

(** Reading back a written packet.  For every packet whose fields fit the
    wire format, [Write] does not panic, and [ReadPacket] on the bytes written,
    whatever follows them on the connection, returns that packet (with the
    remaining length [Write] stored in it) and no error, and leaves exactly what
    followed. *)
Lemma ReadPacket_Write cp rest :
  packet_ok cp →
  ∃ bytes cp', ControlPacket_Write cp = Some (bytes, cp') ∧
    ReadPacket (bytes ++ rest) = (Some (read_back cp'), None, rest).
Proof.
  destruct cp as [p|p|p|p|p|p|p|p|p|p|p|fh|fh|fh]; intros Hok; cbn [ControlPacket_Write].
  8: { destruct (Subscribe_roundtrip p rest Hok) as (bytes & p' & -> & Hr). by eexists _, _. }
  all: eexists _, _; split; [reflexivity|]; cbn [prod_map fst snd id].
  - by apply Connect_roundtrip.
  - by apply Connack_roundtrip.
  - by apply Publish_roundtrip.
  - by apply (Ack_roundtrip Puback PPuback); [..|new_packet|].
  - by apply (Ack_roundtrip Pubrec PPubrec); [..|new_packet|].
  - by apply (Ack_roundtrip Pubrel PPubrel); [..|new_packet|].
  - by apply (Ack_roundtrip Pubcomp PPubcomp); [..|new_packet|].
  - by apply Suback_roundtrip.
  - by apply Unsubscribe_roundtrip.
  - by apply (Ack_roundtrip Unsuback PUnsuback); [..|new_packet|].
  - by apply (header_packet_roundtrip Pingreq PPingreq); [..|new_packet|].
  - by apply (header_packet_roundtrip Pingresp PPingresp); [..|new_packet|].
  - by apply (header_packet_roundtrip Disconnect PDisconnect); [..|new_packet|].
Qed.
