(* ===== verification/PacketsStream.v ===== *)
(** * PacketsStream: [ReadPacket] on arbitrary input

    What [ReadPacket] does on a stream that no [Write] of this package made: it
    looks only at the bytes it consumes, a packet that is cut short is never
    delivered, the header it accepts is bounded, an accepted PUBLISH is exactly
    the bytes it came from, and the loops over filter lists end.  Two examples
    record where the decoders accept less than they should. *)
From S2P Require Import Prelude Wire Packets PacketsRoundtrip.
Local Open Scope Z_scope.
#[local] Transparent decodeLength decodeByte decodeUint16 decodeBytes decodeString
  encodeUint16 encodeBytes encodeString.

(** ** The readers consume a prefix *)

Lemma ReadFull_ok n r b r' :
  ReadFull n r = (b, None, r') → r = b ++ r' ∧ length b = n.
Proof.
  unfold ReadFull. case_decide; intros [= <- <-].
  by rewrite take_drop, length_take, Nat.min_l.
Qed.

Lemma ReadFull_err n r b e r' : ReadFull n r = (b, Some e, r') → r' = [].
Proof. unfold ReadFull. case_decide; by intros [=]. Qed.

Lemma ReadFull_ext n r q b r' :
  ReadFull n r = (b, None, r') → ReadFull n (r ++ q) = (b, None, r' ++ q).
Proof. intros [-> <-]%ReadFull_ok. by rewrite <-app_assoc, ReadFull_app. Qed.

Lemma decodeLength_loop_err fuel : ∀ acc m r v e r',
  decodeLength_loop fuel acc m r = (v, Some e, r') → r' = [].
Proof.
  induction fuel as [|fuel IH]; intros acc m r v e r'; cbn -[ReadFull]; [done|].
  case_decide; [|done].
  destruct (ReadFull 1 r) as [[b [e'|]] r1] eqn:Hr.
  - intros [= <- <- <-]. by eapply ReadFull_err.
  - case_decide; [done|]. apply IH.
Qed.

Lemma decodeLength_loop_ext fuel q : ∀ acc m r v r',
  decodeLength_loop fuel acc m r = (v, None, r') →
  decodeLength_loop fuel acc m (r ++ q) = (v, None, r' ++ q).
Proof.
  induction fuel as [|fuel IH]; intros acc m r v r'; cbn -[ReadFull]; [by intros [= <- <-]|].
  case_decide; [|by intros [= <- <-]].
  destruct (ReadFull 1 r) as [[b [e'|]] r1] eqn:Hr; [done|].
  rewrite (ReadFull_ext _ _ q _ _ Hr).
  case_decide; [by intros [= <- <-]|]. apply IH.
Qed.

(** The [k] digits consumed and the value's bound: each digit adds seven bits. *)
Lemma decodeLength_loop_bound fuel : ∀ acc m r v r',
  0 ≤ m → (7 | m) → m ≤ 28 → 0 ≤ acc < 2 ^ m →
  decodeLength_loop fuel acc m r = (v, None, r') →
  0 ≤ v < 268435456 ∧
  ∃ ds, r = ds ++ r' ∧ 7 * Z.of_nat (length ds) ≤ 28 - m.
Proof.
  induction fuel as [|fuel IH]; intros acc m r v r' Hm [k ->] Hm' Hacc; cbn -[ReadFull].
  - intros [= <- <-]. pose proof (Z.pow_le_mono_r 2 (k * 7) 28). split; [lia|].
    exists []. split; [done|]. cbn. lia.
  - case_decide.
    2: { intros [= <- <-]. pose proof (Z.pow_le_mono_r 2 (k * 7) 28). split; [lia|].
         exists []. split; [done|]. cbn. lia. }
    destruct (ReadFull 1 r) as [[b [e'|]] r1] eqn:Hr; [done|].
    apply ReadFull_ok in Hr as [-> Hb]. assert (k * 7 ≤ 21) by lia.
    set (d := Z.land (b2z (nth 0 b zero)) 127).
    assert (0 ≤ d < 128) by (unfold d; rewrite land_127; apply Z.mod_pos_bound; lia).
    rewrite digit_fits, lor_shiftl_add by lia.
    assert (0 ≤ acc + d * 2 ^ (k * 7) < 2 ^ (k * 7 + 7)).
    { rewrite Z.pow_add_r by lia. nia. }
    case_decide.
    + intros [= <- <-]. pose proof (Z.pow_le_mono_r 2 (k * 7 + 7) 28). split; [lia|].
      exists b. split; [done|]. lia.
    + intros Hd. apply IH in Hd as [Hv (ds & -> & Hds)]; try lia; [|exists (k + 1); lia].
      split; [done|]. exists (b ++ ds). rewrite length_app, app_assoc. split; [done|]. lia.
Qed.

(** ** Streams *)

(** [r] does not hold a whole packet yet: the reader stops at its end. *)
Definition incomplete (r : list byte) : Prop :=
  ∃ e, ReadPacket r = (None, Some (IOErr e), []).

(** One step of [ReadPacket]'s chain of readers. *)
Ltac stuck := left; eexists; reflexivity.

Lemma decodeLength_cases r :
  (∃ v e, decodeLength r = (v, Some e, [])) ∨
  (∃ v r', decodeLength r = (v, None, r') ∧ ∀ q, decodeLength (r ++ q) = (v, None, r' ++ q)).
Proof.
  destruct (decodeLength r) as [[v [e|]] r'] eqn:H.
  - left. exists v, e. by rewrite (decodeLength_loop_err _ _ _ _ _ _ _ H).
  - right. exists v, r'. split; [done|]. intros q. by apply decodeLength_loop_ext.
Qed.

Lemma ReadFull_cases n r :
  (∃ v e, ReadFull n r = (v, Some e, [])) ∨
  (∃ v r', ReadFull n r = (v, None, r') ∧ ∀ q, ReadFull n (r ++ q) = (v, None, r' ++ q)).
Proof.
  destruct (ReadFull n r) as [[v [e|]] r'] eqn:H.
  - left. exists v, e. by rewrite (ReadFull_err _ _ _ _ _ H).
  - right. exists v, r'. split; [done|]. intros q. by apply ReadFull_ext.
Qed.

(** Locality: either the stream ends inside the packet, or what [ReadPacket]
    returns (packet, error, or both) depends only on the bytes it has consumed:
    more input behind them changes nothing but the rest of the stream. *)
Lemma ReadPacket_stream r q :
  incomplete r ∨
  ∃ o e r', ReadPacket r = (o, e, r') ∧ ReadPacket (r ++ q) = (o, e, r' ++ q).
Proof.
  unfold incomplete, ReadPacket.
  destruct (ReadFull_cases 1 r) as [(v & e & ->)|(b & r1 & -> & Hx)]; [stuck|]. rewrite Hx.
  unfold FixedHeader_unpack.
  destruct (decodeLength_cases r1) as [(v & e & ->)|(rl & r2 & -> & Hx')]; [stuck|].
  rewrite Hx'. clear Hx Hx'. set (fh := mkFixedHeader _ _ _ _ _).
  destruct (NewControlPacketWithHeader fh) as [cp|]; [|right; by eexists _, _, _].
  destruct (ReadFull_cases (Z.to_nat (RemainingLength fh)) r2)
    as [(v & e & ->)|(pb & r3 & -> & Hx)]; [stuck|]. rewrite Hx.
  right. case_decide; [by eexists _, _, _|].
  destruct (ControlPacket_Unpack cp pb) as [[cp' err] b'] eqn:Hu.
  eexists _, _, _. split; [reflexivity|done].
Qed.

(** Reading more does not need less: if a prefix of a stream already gives a
    result, the whole stream gives the same one. *)
Lemma ReadPacket_prefix p q o e :
  ReadPacket (p ++ q) = (o, e, []) → q ≠ [] → incomplete p.
Proof.
  intros H Hq. destruct (ReadPacket_stream p q) as [|(o' & e' & r' & Hp & Hr)]; [done|].
  rewrite H in Hr. injection Hr as _ _ Hr. by destruct r'; [destruct q|].
Qed.

(** C39: A packet that is cut short is not delivered: on every strict prefix of the
    bytes of a written packet [ReadPacket] gives no packet and an I/O error. *)
Theorem ReadPacket_truncated cp bytes cp' p q :
  packet_ok cp → ControlPacket_Write cp = Some (bytes, cp') →
  bytes = p ++ q → q ≠ [] → incomplete p.
Proof.
  intros Hok Hw -> Hq. destruct (ReadPacket_Write cp [] Hok) as (b & c & Hw' & Hr).
  rewrite Hw in Hw'. simplify_eq. rewrite app_nil_r in Hr. by eapply ReadPacket_prefix.
Qed.

Lemma NewControlPacketWithHeader_type fh cp :
  NewControlPacketWithHeader fh = Some cp → Connect ≤ MessageType fh ≤ Disconnect.
Proof.
  unfold NewControlPacketWithHeader.
  repeat (case_decide as Ht; [intros _; rewrite Ht; by vm_compute|clear Ht]). done.
Qed.

(** Bounds.  Whatever the bytes, a packet that [ReadPacket] hands out (with or
    without an error) has a known type, a QoS of at most three, and a remaining
    length below 2^28; the bytes consumed are the type byte, at most four length
    digits and exactly the remaining length. *)
Theorem ReadPacket_bounds r cp e r' :
  ReadPacket r = (Some cp, e, r') →
  ∃ b ds body fh, r = b :: ds ++ body ++ r'
    ∧ Z.of_nat (length body) = RemainingLength fh ∧ 0 ≤ RemainingLength fh < 268435456
    ∧ (length ds ≤ 4)%nat ∧ Connect ≤ MessageType fh ≤ Disconnect ∧ 0 ≤ Qos fh ≤ 3
    ∧ ∃ cp0 b', NewControlPacketWithHeader fh = Some cp0
        ∧ ControlPacket_Unpack cp0 body = (cp, e, b').
Proof.
  unfold ReadPacket.
  destruct (ReadFull 1 r) as [[b [x|]] r1] eqn:H1; [done|].
  apply ReadFull_ok in H1 as [-> Hb]. destruct b as [|b [|]]; try done. cbn [nth app].
  unfold FixedHeader_unpack, decodeLength.
  destruct (decodeLength_loop 5 0 0 r1) as [[rl [x|]] r2] eqn:H2; [done|].
  apply decodeLength_loop_bound in H2 as [Hrl (ds & -> & Hds)]; [|lia|by exists 0|lia|done].
  set (fh := mkFixedHeader _ _ _ _ _).
  destruct (NewControlPacketWithHeader fh) as [cp0|] eqn:Hn; [|done].
  destruct (ReadFull _ r2) as [[body [x|]] r3] eqn:H3; [done|].
  apply ReadFull_ok in H3 as [-> Hl]. case_decide; [done|].
  destruct (ControlPacket_Unpack cp0 body) as [[cp' err] b'] eqn:Hu. intros [= -> -> ->].
  apply NewControlPacketWithHeader_type in Hn as Ht.
  pose proof (Z.land_ones (Z.shiftr (b2z b) 1) 2 ltac:(lia)) as Hq.
  pose proof (Z.mod_pos_bound (Z.shiftr (b2z b) 1) 4 ltac:(lia)).
  change (Z.ones 2) with 3 in Hq. change (2 ^ 2) with 4 in Hq.
  exists b, ds, body, fh. repeat (split; [first [done|cbn; lia]|]).
  by exists cp0, b'.
Qed.

(** ** What a successful decode says about the bytes *)

Lemma Buffer_Read_length n b v e b' : Buffer_Read n b = (v, e, b') → length v = n.
Proof.
  unfold Buffer_Read. destruct b; intros [= <- <- <-].
  - apply length_replicate.
  - rewrite length_app, length_take, length_replicate. cbn [length]. lia.
Qed.

Lemma Buffer_Read_ok n b v b' :
  Buffer_Read n b = (v, None, b') → (n ≤ length b)%nat → b = v ++ b'.
Proof.
  unfold Buffer_Read. destruct b as [|a b].
  - intros [= <- _ <-] Hn. by destruct n; [|cbn in Hn; lia].
  - intros [= <- <-] Hn. cbn [length] in *. replace (n - S (length b))%nat with O by lia.
    cbn [replicate]. by rewrite app_nil_r, take_drop.
Qed.

(** A short read still empties the buffer. *)
Lemma Buffer_Read_rest n b v e b' :
  Buffer_Read n b = (v, e, b') → length b' = (length b - n)%nat.
Proof. unfold Buffer_Read. destruct b; intros [= <- <- <-]; [done|]. by rewrite length_drop. Qed.

Lemma BigEndian_inverse p : length p = 2%nat → BigEndian_PutUint16 (BigEndian_Uint16 p) = p.
Proof.
  destruct p as [|x [|y [|]]]; try done. intros _.
  unfold BigEndian_PutUint16, BigEndian_Uint16. cbn [nth].
  pose proof (b2z_range x). pose proof (b2z_range y).
  rewrite lor_shiftl_add by (change (2 ^ 8) with 256; lia).
  rewrite Z.shiftr_div_pow2 by lia. change (2 ^ 8) with 256.
  rewrite Z.div_add, Z.div_small, Z.add_0_l, z2b_b2z by lia. f_equal.
  unfold z2b at 1. rewrite Z.mod_add by lia. fold (z2b (b2z y)). by rewrite z2b_b2z.
Qed.

Lemma BigEndian_range p : is_u16 (BigEndian_Uint16 p).
Proof.
  unfold BigEndian_Uint16, is_u16. pose proof (b2z_range (nth 0 p zero)).
  pose proof (b2z_range (nth 1 p zero)).
  rewrite lor_shiftl_add by (change (2 ^ 8) with 256; lia). change (2 ^ 8) with 256. lia.
Qed.

(** A 16-bit read: the value is in range; with two bytes there it is their value. *)
Lemma decodeUint16_ok b v b' :
  decodeUint16 b = (v, None, b') →
  is_u16 v ∧ length b' = (length b - 2)%nat ∧ (1 ≤ length b)%nat
  ∧ ((2 ≤ length b)%nat → b = encodeUint16 v ++ b').
Proof.
  unfold decodeUint16. destruct (Buffer_Read 2 b) as [[n [e|]] b1] eqn:H; [done|].
  intros [= <- <-]. split; [apply BigEndian_range|]. split; [by eapply Buffer_Read_rest|].
  split; [destruct b; cbn in *; [done|lia]|]. intros Hl.
  rewrite (Buffer_Read_ok _ _ _ _ H Hl). unfold encodeUint16.
  by rewrite BigEndian_inverse by (by eapply Buffer_Read_length).
Qed.

(** A string read: its length is the announced one; with enough bytes there it is
    exactly the encoding, otherwise the buffer is used up. *)
Lemma decodeString_ok b s b' :
  decodeString b = (s, None, b') →
  str_ok s ∧ length b' = (length b - (2 + String.length s))%nat ∧ (1 ≤ length b)%nat
  ∧ ((2 + String.length s ≤ length b)%nat → b = encodeString s ++ b').
Proof.
  unfold decodeString, decodeBytes, str_ok.
  destruct (decodeUint16 b) as [[l [e|]] b1] eqn:H1; [done|].
  apply decodeUint16_ok in H1 as (Hl & Hb1 & Hb & Hx).
  destruct (Buffer_Read (Z.to_nat l) b1) as [[f [e|]] b2] eqn:H2; [done|].
  intros [= <- <-]. cbn [default]. rewrite length_string_of.
  pose proof (Buffer_Read_length _ _ _ _ _ H2) as Hf. pose proof (Buffer_Read_rest _ _ _ _ _ H2).
  unfold is_u16 in Hl. split; [lia|]. split; [lia|]. split; [lia|].
  unfold encodeString, encodeBytes. rewrite bytes_of_string_of, Hf. intros Hle.
  rewrite Z2Nat.id, Z.mod_small by lia. rewrite <-app_assoc.
  rewrite <-(Buffer_Read_ok _ _ _ _ H2) by lia. apply Hx. lia.
Qed.

Lemma Publish_read_payload_ok n p b p' b' :
  n = Z.of_nat (length b) →
  Publish_read_payload n p b = (p', None, b') → p' = p {{ pub_Payload := b }}.
Proof.
  intros ->. unfold Publish_read_payload. case_decide; [done|]. rewrite Nat2Z.id. unfold reads.
  destruct (Buffer_Read (length b) b) as [[v [e|]] b1] eqn:H2; [done|].
  intros [= <- <-]. pose proof (Buffer_Read_rest _ _ _ _ _ H2) as Hr.
  apply Buffer_Read_ok in H2; [|done]. rewrite Nat.sub_diag in Hr.
  destruct b1; [|done]. by rewrite app_nil_r in H2; subst.
Qed.

(** Soundness of PUBLISH.  If [Unpack] accepts a body of the announced length,
    the body is exactly topic, message id (for QoS above 0) and payload of the
    packet it returns: a topic or id cut off by the end of the body is never
    taken for a message. *)
Theorem Publish_unpack_sound fh b p b' :
  RemainingLength fh = Z.of_nat (length b) →
  PublishPacket_Unpack (mkPublish fh ""%string 0 []) b = (p, None, b') →
  b = Publish_body p ++ pub_Payload p ∧ pub_FixedHeader p = fh
  ∧ str_ok (pub_TopicName p) ∧ is_u16 (pub_MessageID p)
  ∧ (Qos fh ≤ 0 → pub_MessageID p = 0).
Proof.
  intros Hrl. unfold PublishPacket_Unpack, Publish_body. unfold reads at 1.
  destruct (decodeString b) as [[t [e|]] b1] eqn:Ht; [done|].
  apply decodeString_ok in Ht as (Hs & Hb1 & Hb & Hx). cbn [pub_FixedHeader apply_update constant].
  case_decide as Hq.
  - unfold reads at 1. destruct (decodeUint16 b1) as [[id [e|]] b2] eqn:Hid; [done|].
    apply decodeUint16_ok in Hid as (Hu & Hb2 & Hl & Hx'). cbn. rewrite Hrl. intros Hp.
    destruct (decide (2 ≤ length b1)%nat) as [Hlen|Hlen].
    + apply Publish_read_payload_ok in Hp as ->; [|lia]. cbn. rewrite decide_True by done.
      split; [rewrite <-app_assoc, <-Hx' by done; apply Hx; lia|].
      repeat (split; [done|]). intros. lia.
    + unfold Publish_read_payload in Hp. by rewrite decide_True in Hp by lia.
  - cbn. rewrite Hrl. intros Hp.
    destruct (decide (2 + String.length t ≤ length b)%nat).
    + apply Publish_read_payload_ok in Hp as ->; [|lia]. cbn. rewrite decide_False by done.
      rewrite app_nil_r. split; [by apply Hx|]. done.
    + unfold Publish_read_payload in Hp. by rewrite decide_True in Hp by lia.
Qed.

(** ** The loops over filter lists end *)

Lemma decodeByte_ok b v b' : decodeByte b = (v, None, b') → length b = S (length b').
Proof. unfold decodeByte, Buffer_Read. destruct b; intros [= <- <-]. cbn. by rewrite drop_0. Qed.

Lemma Subscribe_loop_fuel fuel k : ∀ n s b,
  (length b < fuel)%nat → Subscribe_loop (fuel + k) n s b = Subscribe_loop fuel n s b.
Proof.
  induction fuel as [|fuel IH]; intros n s b Hf; [lia|]. cbn -[decodeString decodeByte].
  case_decide; [|done].
  destruct (decodeString b) as [[t [e|]] b1] eqn:Ht; [done|].
  apply decodeString_ok in Ht as (_ & Hb1 & Hb & _).
  destruct (decodeByte b1) as [[q [e|]] b2] eqn:Hq; [done|].
  apply decodeByte_ok in Hq. apply IH. lia.
Qed.

Lemma Unsubscribe_loop_fuel fuel k : ∀ u b,
  (length b < fuel)%nat → Unsubscribe_loop (fuel + k) u b = Unsubscribe_loop fuel u b.
Proof.
  induction fuel as [|fuel IH]; intros u b Hf; [lia|]. cbn -[decodeString].
  destruct (decodeString b) as [[t [e|]] b1] eqn:Ht; [done|].
  apply decodeString_ok in Ht as (_ & Hb1 & Hb & _).
  case_decide; [done|]. apply IH. lia.
Qed.

(** Termination.  On every body the loops of the SUBSCRIBE and UNSUBSCRIBE
    decoders reach their own exit within one turn per byte: no number of further
    turns changes the packet, the error or what is left of the buffer. *)
Theorem filter_loops_terminate k n s u b :
  Subscribe_loop (S (length b) + k) n s b = Subscribe_loop (S (length b)) n s b ∧
  Unsubscribe_loop (S (length b) + k) u b = Unsubscribe_loop (S (length b)) u b.
Proof.
  split; [apply Subscribe_loop_fuel|apply Unsubscribe_loop_fuel]; lia.
Qed.

(** ** Validation *)

(** [Validate] accepts exactly the connect packets that have a user name when
    they have a password, a clear reserved bit, one of the two protocol names with
    its own version, fields of at most 65535 bytes, and a client id unless the
    session is clean. *)
Theorem Validate_accepts c :
  ConnectPacket_Validate c = Accepted ↔
    (con_PasswordFlag c = true → con_UsernameFlag c = true)
    ∧ con_ReservedBit c = 0
    ∧ ((con_ProtocolName c = "MQIsdp"%string ∧ con_ProtocolVersion c = 3)
       ∨ (con_ProtocolName c = "MQTT"%string ∧ con_ProtocolVersion c = 4))
    ∧ str_ok (con_ClientIdentifier c) ∧ str_ok (con_Username c) ∧ bytes_ok (con_Password c)
    ∧ (con_ClientIdentifier c = ""%string → con_CleanSession c = true).
Proof.
  unfold ConnectPacket_Validate, str_ok, bytes_ok.
  assert (Hid : String.length (con_ClientIdentifier c) = O ↔ con_ClientIdentifier c = ""%string)
    by (destruct (con_ClientIdentifier c); naive_solver).
  destruct (con_PasswordFlag c && negb (con_UsernameFlag c)) eqn:Hpw.
  { apply andb_true_iff in Hpw as [-> Hu]. apply negb_true_iff in Hu as ->.
    split; [done|]. intros [H _]. by specialize (H eq_refl). }
  assert (Hpw' : con_PasswordFlag c = true → con_UsernameFlag c = true)
    by (destruct (con_PasswordFlag c), (con_UsernameFlag c); done).
  assert ("MQIsdp" ≠ "MQTT")%string by done.
  case_decide; [split; [done|intros (_ & ? & _); lia]|].
  case_decide; [split; [done|intros (_ & _ & ? & _); intuition congruence]|].
  case_decide; [split; [done|intros (_ & _ & ? & _); intuition congruence]|].
  case_decide; [split; [done|intros (_ & _ & _ & ? & ? & ? & _); lia]|].
  case_decide as Hc.
  { split; [done|]. intros (_ & _ & _ & _ & _ & _ & Hcl). destruct Hc as [Hc1 Hc2].
    apply Hid, Hcl in Hc1. congruence. }
  split; [intros _|done]. split; [done|]. split; [lia|].
  split; [|repeat (split; [lia|]); destruct (con_CleanSession c); tauto].
  destruct (decide (con_ProtocolName c = "MQIsdp"%string));
    destruct (decide (con_ProtocolName c = "MQTT"%string));
    destruct (decide (con_ProtocolVersion c = 3));
    destruct (decide (con_ProtocolVersion c = 4)); tauto.
Qed.

(** ** The broker's read loop *)

Definition DisconnectedPacket : ControlPacket := PDisconnect (header_of_type Disconnect 0).

Definition is_disconnect (cp : ControlPacket) : bool :=
  match cp with PDisconnect _ => true | _ => false end.

Section ReadLoop.
(** Whether the [i]-th [nc.SetReadDeadline] of the connection succeeds. *)
Context (deadline : nat → bool).
Context (keepAlive : Z).

(** [client.readLoop]: the packets it submits to the client's worker, in order,
    and the client's will message when it returns.  [r] is what the connection
    delivers until it fails or its deadline passes; [i] counts the turns.  After
    a DISCONNECT the context is cancelled, so the next turn returns.  Every turn
    that goes on consumes a type byte and a length digit, so [S (length r)] turns
    are enough. *)
Fixpoint readLoop (fuel i : nat) (willMsg : option PublishPacket) (r : list byte)
    : list ControlPacket * option PublishPacket :=
  match fuel with
  | O => ([], willMsg)
  | S fuel' =>
      if bool_decide (keepAlive > 0) && negb (deadline i) then ([DisconnectedPacket], willMsg)
      else
        match ReadPacket r with
        | (_, Some _, _) => ([DisconnectedPacket], willMsg)
        | (None, None, _) => ([], willMsg)
        | (Some packet, None, r') =>
            if is_disconnect packet then ([packet], None)
            else let '(sent, will') := readLoop fuel' (S i) willMsg r' in
                 (packet :: sent, will')
        end
  end.

Lemma ReadPacket_consumes r o r' : ReadPacket r = (o, None, r') → (length r' < length r)%nat.
Proof.
  unfold ReadPacket. destruct (ReadFull 1 r) as [[b [x|]] r1] eqn:H1; [done|].
  apply ReadFull_ok in H1 as [-> Hb]. unfold FixedHeader_unpack, decodeLength.
  destruct (decodeLength_loop 5 0 0 r1) as [[rl [x|]] r2] eqn:H2; [done|].
  apply decodeLength_loop_bound in H2 as [_ (ds & -> & _)]; [|lia|by exists 0|lia|done].
  destruct (NewControlPacketWithHeader _); [|done].
  destruct (ReadFull _ r2) as [[body [x|]] r3] eqn:H3; [done|].
  apply ReadFull_ok in H3 as [-> _]. case_decide; [done|].
  destruct (ControlPacket_Unpack _ _) as [[??]?]. intros [= _ _ <-].
  rewrite !length_app. lia.
Qed.

Lemma ReadPacket_none r r' : ReadPacket r ≠ (None, None, r').
Proof. unfold ReadPacket. repeat case_match; congruence. Qed.

(** The read loop always comes to its own end: with one turn per byte of input
    it never stops for lack of fuel, and the last packet it submits is a
    DISCONNECT, the client's or the one that stands for a failed connection. *)
Theorem readLoop_terminates k i will r :
  readLoop (S (length r) + k) i will r = readLoop (S (length r)) i will r ∧
  ∃ ps fh, (readLoop (S (length r)) i will r).1 = ps ++ [PDisconnect fh].
Proof.
  assert (H : ∀ fuel i will r, (length r < fuel)%nat →
    readLoop (fuel + k) i will r = readLoop fuel i will r
    ∧ ∃ ps fh, (readLoop fuel i will r).1 = ps ++ [PDisconnect fh]).
  2: { apply H. lia. }
  clear i will r. induction fuel as [|fuel IH]; intros i will r Hf; [lia|]. cbn.
  destruct (bool_decide _ && negb _); [split; [done|by eexists [], _]|].
  destruct (ReadPacket r) as [[[p|] [e|]] r'] eqn:Hr; try (split; [done|by eexists [], _]).
  - destruct (is_disconnect p) eqn:Hd; [destruct p; try done; split; [done|by eexists [], _]|].
    apply ReadPacket_consumes in Hr. destruct (IH (S i) will r') as [-> (ps & fh & Hps)]; [lia|].
    split; [done|]. destruct (readLoop fuel (S i) will r'). cbn in *.
    exists (p :: ps), fh. by rewrite Hps.
  - by apply ReadPacket_none in Hr.
Qed.

(** The bytes of packets written one after the other, and the packets as [Write]
    leaves them. *)
Fixpoint write_all (cps : list ControlPacket) : option (list byte * list ControlPacket) :=
  match cps with
  | [] => Some ([], [])
  | cp :: cps =>
      w ← ControlPacket_Write cp; ws ← write_all cps;
      Some (w.1 ++ ws.1, w.2 :: ws.2)
  end.

Lemma Write_keeps_disconnect cp bytes cp' :
  ControlPacket_Write cp = Some (bytes, cp') → is_disconnect (read_back cp') = is_disconnect cp.
Proof.
  destruct cp as [| | | | | | |p| | | | | |]; cbn;
    try (intros H; injection H; intros <- <-; reflexivity).
  unfold SubscribePacket_Write. by destruct (Subscribe_filters _ _); cbn; intros; simplify_eq/=.
Qed.

Lemma readLoop_all cps cps' bytes tail i will :
  Forall packet_ok cps → Forall (λ cp, is_disconnect cp = false) cps →
  write_all cps = Some (bytes, cps') → incomplete tail →
  (∀ j, keepAlive > 0 → deadline j = true) →
  readLoop (S (length (bytes ++ tail))) i will (bytes ++ tail)
    = (map read_back cps' ++ [DisconnectedPacket], will).
Proof.
  intros Hok Hnd Hw [e Ht] Hdl.
  assert (H : ∀ fuel i, (length (bytes ++ tail) < fuel)%nat →
    readLoop fuel i will (bytes ++ tail) = (map read_back cps' ++ [DisconnectedPacket], will)).
  2: { apply H. lia. }
  assert (Hd : ∀ j, bool_decide (keepAlive > 0) && negb (deadline j) = false).
  { intros j. destruct (bool_decide_reflect (keepAlive > 0)); [by rewrite Hdl|done]. }
  clear i. revert bytes cps' Hw.
  induction Hok as [|cp cps Hcp Hok IH]; intros bytes cps' Hw fuel i Hf;
    (destruct fuel as [|fuel]; [lia|]); cbn -[ControlPacket_Write] in Hw |- *; rewrite Hd.
  - injection Hw as <- <-. cbn [app]. by rewrite Ht.
  - inversion Hnd as [|?? Hn1 Hn2]; subst.
    destruct (ControlPacket_Write cp) as [[w cp']|] eqn:Hwr; [|done]. cbn in Hw.
    destruct (write_all cps) as [[ws cps'']|]; [|done]. cbn in Hw. injection Hw as <- <-.
    rewrite <-app_assoc in *.
    destruct (ReadPacket_Write cp (ws ++ tail) Hcp) as (w' & c & Hw' & Hr).
    rewrite Hwr in Hw'. injection Hw' as <- <-. rewrite Hr.
    rewrite (Write_keeps_disconnect _ _ _ Hwr), Hn1.
    apply ReadPacket_consumes in Hr. by rewrite (IH Hn2 ws cps'') by (done || lia).
Qed.

(** C1: Everything a peer sends arrives, in order and once.  Packets that fit the
    wire format are written back to back, the last one followed by the beginning
    of a packet that never becomes complete (or by nothing).  The broker's read
    loop submits exactly those packets, in order, then the packet that stands for
    the lost connection; the client's will message is kept. *)
Theorem readLoop_delivers cps cps' bytes tail i will :
  Forall packet_ok cps → Forall (λ cp, is_disconnect cp = false) cps →
  write_all cps = Some (bytes, cps') → incomplete tail →
  (∀ j, keepAlive > 0 → deadline j = true) →
  readLoop (S (length (bytes ++ tail))) i will (bytes ++ tail)
    = (map read_back cps' ++ [DisconnectedPacket], will).
Proof. exact (readLoop_all cps cps' bytes tail i will). Qed.
End ReadLoop.

(** ** Witnesses *)

Definition sample_publish : PublishPacket :=
  mkPublish (mkFixedHeader Publish false 1 false 0) "a/b"%string 7 [z2b 104; z2b 105].

Definition sample_bytes : list byte := (PublishPacket_Write sample_publish).1.

Lemma sample_publish_ok : packet_ok (PPublish sample_publish).
Proof.
  cbn -[Publish_body]. unfold type_ok, str_ok, is_u16, fits, Publish_body. cbn.
  repeat split; try done; lia.
Qed.

Lemma readLoop_delivers_witness :
  readLoop (λ _, true) 60 (S (length (sample_bytes ++ take 3 sample_bytes))) 0 None
    (sample_bytes ++ take 3 sample_bytes)
  = ([PPublish (PublishPacket_Write sample_publish).2; DisconnectedPacket], None).
Proof.
  apply (readLoop_delivers (λ _, true) 60 [PPublish sample_publish]
           [PPublish (PublishPacket_Write sample_publish).2] sample_bytes (take 3 sample_bytes)).
  - constructor; [exact sample_publish_ok|constructor].
  - by repeat constructor.
  - by vm_compute.
  - exists ErrUnexpectedEOF. by vm_compute.
  - done.
Defined.

Lemma ReadPacket_truncated_witness : incomplete (take 3 sample_bytes).
Proof.
  apply (ReadPacket_truncated (PPublish sample_publish) sample_bytes
           (PPublish (PublishPacket_Write sample_publish).2) _ (drop 3 sample_bytes)).
  - exact sample_publish_ok.
  - by vm_compute.
  - by vm_compute.
  - by vm_compute.
Defined.

Lemma ReadPacket_bounds_witness :
  ∃ b ds body fh, sample_bytes = b :: ds ++ body ++ [] ∧
    Z.of_nat (length body) = RemainingLength fh ∧ 0 ≤ RemainingLength fh < 268435456
    ∧ (length ds ≤ 4)%nat.
Proof.
  destruct (ReadPacket_bounds sample_bytes (PPublish (PublishPacket_Write sample_publish).2)
    None []) as (b & ds & body & fh & Hr & Hl & Hrl & Hds & _); [by vm_compute|].
  by exists b, ds, body, fh.
Defined.

Lemma Publish_unpack_sound_witness :
  drop 2 sample_bytes = Publish_body (PublishPacket_Write sample_publish).2
    ++ [z2b 104; z2b 105].
Proof.
  apply (Publish_unpack_sound (mkFixedHeader Publish false 1 false 9) (drop 2 sample_bytes)
           (PublishPacket_Write sample_publish).2 []); by vm_compute.
Defined.

(** ** Where the decoders accept too much *)

(** A CONNECT whose client id field announces five bytes and has two. *)
Definition short_client_id : list byte :=
  map z2b [16; 14;  0; 4; 77; 81; 84; 84;  4;  2;  0; 60;  0; 5; 97; 98].

(** A field that is cut off by the end of the packet is filled up with zero
    bytes and accepted: [decodeBytes] does not look at the number of bytes read.
    The CONNECT above gives the five-byte client id "ab" and three zero bytes, no
    error, and [Validate] accepts it. *)
Theorem Connect_truncated_accepted :
  ∃ c, ReadPacket short_client_id = (Some (PConnect c), None, [])
    ∧ con_ClientIdentifier c = string_of (map z2b [97; 98; 0; 0; 0])
    ∧ ConnectPacket_Validate c = Accepted.
Proof. eexists. split; [vm_compute; reflexivity|]. by vm_compute. Qed.

(** [ReadPacket] can return a packet and an error at once, where its comment
    says that one of the two is always nil: here a PUBACK with an empty body. *)
Theorem ReadPacket_packet_and_error :
  ReadPacket [z2b 64; z2b 0] = (Some (PPuback (mkAck (header_of_type Puback 0) 0)),
    Some (IOErr EOF), []).
Proof. by vm_compute. Qed.
