(* ===== verification/Topics.v ===== *)
(** * Topics: the broker's topic store

    Models [src/broker/lib/topics/memtopics.go] and the provider table of
    [topics.go]: [nextTopicLevel], the subscription tree ([snode] with [sinsert],
    [sremove], [smatch]), the tree of retained messages ([rnode] with
    [rinsertOrUpdate], [rremove], [rmatch], [allRetained]) and the [memTopics]
    methods over both.  A node is a value, not a pointer: no node has two parents,
    so the in-place updates of the code are functional updates along the path.

    The recursive methods take the rest of the topic; every level shortens it, so
    [S (length topic)] units of fuel are enough, and [None] (out of fuel) is never
    the answer ([TopicsSpec]).  A Go map is iterated in an unspecified order; the
    definitions take the order of [map_to_list], and what is proved of a list that
    comes out of such a loop is up to permutation.  The mutexes serialise the
    methods, each of which is one definition. *)
From S2P Require Import Prelude Packets.
Local Open Scope Z_scope.

(** ** Levels of a topic *)

Definition MWC : string := "#".
Definition SWC : string := "+".

(** The errors of the package. *)
Inductive terr :=
  | InvalidQoS
  | SubscriberNil
  | MultiLevelNotLast
  | HashNotWholeLevel
  | PlusNotWholeLevel
  | WildcardNotWholeLevel
  | NoTopicForSubscriber
  | NoTopicFound
  | OutOfFuel.

Inductive ntl_state := stateCHR | stateMWC | stateSWC.

#[export] Instance terr_eq_dec : EqDecision terr.
Proof. solve_decision. Defined.
#[export] Instance ntl_state_eq_dec : EqDecision ntl_state.
Proof. solve_decision. Defined.

(** The loop [for i, c := range topic]: [rest] is the topic from index [i] on. *)
Fixpoint nextTopicLevel_loop (topic : string) (s : ntl_state) (i : nat) (rest : string)
    : result terr (string * string) :=
  match rest with
  | EmptyString => Ok (topic, ""%string)
  | String c rest' =>
      if decide (c = SLASH) then
        if decide (s = stateMWC) then Err MultiLevelNotLast
        else if decide (i = O) then Ok (SWC, rest')
        else Ok (take_string i topic, rest')
      else if decide (c = HASH) then
        if decide (i ≠ O) then Err HashNotWholeLevel
        else nextTopicLevel_loop topic stateMWC (S i) rest'
      else if decide (c = PLUS) then
        if decide (i ≠ O) then Err PlusNotWholeLevel
        else nextTopicLevel_loop topic stateSWC (S i) rest'
      else
        if decide (s = stateMWC ∨ s = stateSWC) then Err WildcardNotWholeLevel
        else nextTopicLevel_loop topic stateCHR (S i) rest'
  end.

Definition nextTopicLevel (topic : string) : result terr (string * string) :=
  nextTopicLevel_loop topic stateCHR O topic.

Definition ValidQos (qos : Z) : bool :=
  bool_decide (qos = 0) || bool_decide (qos = 1) || bool_decide (qos = 2).

Definition QosFailure : Z := 128.

(** ** The subscription tree *)

Section Subscriptions.
(** The subscribers the callers pass: the broker passes [*subscription] pointers,
    on which [equal] is pointer identity. *)
Context {Sub : Type} `{EqDecision Sub}.

(** [subs] and [qos] are parallel slices. *)
Inductive snode := SNode {
  subs : list Sub;
  qos : list Z;
  snodes : gmap string snode
}.

Definition newSNode : snode := SNode [] [] ∅.

(** The index of the first subscriber that is [equal] to [sub]. *)
Fixpoint find_sub (sub : Sub) (l : list Sub) : option nat :=
  match l with
  | [] => None
  | x :: l' => if decide (x = sub) then Some O else S <$> find_sub sub l'
  end.

Definition sinsert_here (this : snode) (q : Z) (sub : Sub) : snode :=
  match find_sub sub (subs this) with
  | Some i => SNode (subs this) (<[i := q]> (qos this)) (snodes this)
  | None => SNode (subs this ++ [sub]) (qos this ++ [q]) (snodes this)
  end.

Fixpoint sinsert (fuel : nat) (this : snode) (topic : string) (q : Z) (sub : Sub)
    : snode * option terr :=
  match fuel with
  | O => (this, Some OutOfFuel)
  | S fuel' =>
      if decide (topic = ""%string) then (sinsert_here this q sub, None)
      else
        match nextTopicLevel topic with
        | Err e => (this, Some e)
        | Ok (level, rem) =>
            let n := default newSNode (snodes this !! level) in
            let '(n, err) := sinsert fuel' n rem q sub in
            (SNode (subs this) (qos this) (<[level := n]> (snodes this)), err)
        end
  end.

(** [append(l[:i], l[i+1:]...)]. *)
Definition remove_at {A} (i : nat) (l : list A) : list A := take i l ++ drop (S i) l.

(** A nil [sub] removes all subscribers of the node. *)
Definition sremove_here (this : snode) (sub : option Sub) : snode * option terr :=
  match sub with
  | None => (SNode [] [] (snodes this), None)
  | Some sub =>
      match find_sub sub (subs this) with
      | Some i => (SNode (remove_at i (subs this)) (remove_at i (qos this)) (snodes this), None)
      | None => (this, Some NoTopicForSubscriber)
      end
  end.

Fixpoint sremove (fuel : nat) (this : snode) (topic : string) (sub : option Sub)
    : snode * option terr :=
  match fuel with
  | O => (this, Some OutOfFuel)
  | S fuel' =>
      if decide (topic = ""%string) then sremove_here this sub
      else
        match nextTopicLevel topic with
        | Err e => (this, Some e)
        | Ok (level, rem) =>
            match snodes this !! level with
            | None => (this, Some NoTopicFound)
            | Some n =>
                let '(n, err) := sremove fuel' n rem sub in
                let this' := SNode (subs this) (qos this) (<[level := n]> (snodes this)) in
                match err with
                | Some e => (this', Some e)
                | None =>
                    if decide (length (subs n) = O ∧ size (snodes n) = O)
                    then (SNode (subs this) (qos this) (delete level (snodes this)), None)
                    else (this', None)
                end
            end
        end
  end.

(** Appends every subscriber of the node, with the QoS of the published message. *)
Definition matchQos (this : snode) (q : Z) (out : list (Sub * Z)) : list (Sub * Z) :=
  out ++ map (λ s, (s, q)) (subs this).

(** The loop over [this.snodes]: [visit n out] is the recursive call. *)
Definition smatch_children (visit : snode → list (Sub * Z) → result terr (list (Sub * Z)))
    (level : string) (q : Z) (children : list (string * snode)) (out : list (Sub * Z))
    : result terr (list (Sub * Z)) :=
  foldl (λ acc '(k, n),
    rbind acc (λ out,
      if decide (k = MWC) then Ok (matchQos n q out)
      else if decide (k = SWC ∨ k = level) then visit n out
      else Ok out)) (Ok out) children.

Fixpoint smatch (fuel : nat) (this : snode) (topic : string) (q : Z) (out : list (Sub * Z))
    : result terr (list (Sub * Z)) :=
  match fuel with
  | O => Err OutOfFuel
  | S fuel' =>
      if decide (topic = ""%string) then
        let out := matchQos this q out in
        Ok (match snodes this !! MWC with
            | Some mwcn => matchQos mwcn q out
            | None => out
            end)
      else
        match nextTopicLevel topic with
        | Err e => Err e
        | Ok (level, rem) =>
            smatch_children (λ n out, smatch fuel' n rem q out) level q
              (map_to_list (snodes this)) out
        end
  end.
End Subscriptions.
Arguments snode Sub : clear implicits.

(** ** The tree of retained messages *)

Inductive rnode := RNode {
  msg : option PublishPacket;
  rnodes : gmap string rnode
}.

Definition newRNode : rnode := RNode None ∅.

Fixpoint rinsertOrUpdate (fuel : nat) (this : rnode) (topic : string) (m : PublishPacket)
    : rnode * option terr :=
  match fuel with
  | O => (this, Some OutOfFuel)
  | S fuel' =>
      if decide (topic = ""%string) then (RNode (Some m) (rnodes this), None)
      else
        match nextTopicLevel topic with
        | Err e => (this, Some e)
        | Ok (level, rem) =>
            let n := default newRNode (rnodes this !! level) in
            let '(n, err) := rinsertOrUpdate fuel' n rem m in
            (RNode (msg this) (<[level := n]> (rnodes this)), err)
        end
  end.

Fixpoint rremove (fuel : nat) (this : rnode) (topic : string) : rnode * option terr :=
  match fuel with
  | O => (this, Some OutOfFuel)
  | S fuel' =>
      if decide (topic = ""%string) then (RNode None (rnodes this), None)
      else
        match nextTopicLevel topic with
        | Err e => (this, Some e)
        | Ok (level, rem) =>
            match rnodes this !! level with
            | None => (this, Some NoTopicFound)
            | Some n =>
                let '(n, err) := rremove fuel' n rem in
                let this' := RNode (msg this) (<[level := n]> (rnodes this)) in
                match err with
                | Some e => (this', Some e)
                | None =>
                    if decide (size (rnodes n) = O)
                    then (RNode (msg this) (delete level (rnodes this)), None)
                    else (this', None)
                end
            end
        end
  end.

(** The messages [allRetained] appends, in the order it appends them. *)
Fixpoint allRetained (this : rnode) : list PublishPacket :=
  match this with
  | RNode m children =>
      option_list m ++ map_fold (λ _ n acc, allRetained n ++ acc) [] children
  end.

Fixpoint rmatch (fuel : nat) (this : rnode) (topic : string) (msgs : list PublishPacket)
    : result terr (list PublishPacket) :=
  match fuel with
  | O => Err OutOfFuel
  | S fuel' =>
      if decide (topic = ""%string) then Ok (msgs ++ option_list (msg this))
      else
        match nextTopicLevel topic with
        | Err e => Err e
        | Ok (level, rem) =>
            if decide (level = MWC) then Ok (msgs ++ allRetained this)
            else if decide (level = SWC) then
              foldl (λ acc '(_, n), rbind acc (rmatch fuel' n rem)) (Ok msgs)
                (map_to_list (rnodes this))
            else
              match rnodes this !! level with
              | Some n => rmatch fuel' n rem msgs
              | None => Ok msgs
              end
        end
  end.

(** ** [memTopics] *)

Section MemTopics.
Context {Sub : Type} `{EqDecision Sub}.

Record memTopics := mkMemTopics {
  sroot : snode Sub;
  rroot : rnode
}.

Definition NewMemProvider : memTopics := mkMemTopics newSNode newRNode.

Definition enough (topic : string) : nat := S (String.length topic).

(** The granted QoS and the error. *)
Definition memTopics_Subscribe (this : memTopics) (topic : string) (q : Z) (sub : option Sub)
    : memTopics * Z * option terr :=
  if negb (ValidQos q) then (this, QosFailure, Some InvalidQoS)
  else
    match sub with
    | None => (this, QosFailure, Some SubscriberNil)
    | Some sub =>
        let q := if decide (q > 2) then 2 else q in
        let '(root, err) := sinsert (enough topic) (sroot this) topic q sub in
        let this := mkMemTopics root (rroot this) in
        match err with
        | Some e => (this, QosFailure, Some e)
        | None => (this, q, None)
        end
    end.

Definition memTopics_Unsubscribe (this : memTopics) (topic : string) (sub : option Sub)
    : memTopics * option terr :=
  let '(root, err) := sremove (enough topic) (sroot this) topic sub in
  (mkMemTopics root (rroot this), err).

(** The two result slices are emptied first and filled in parallel. *)
Definition memTopics_Subscribers (this : memTopics) (topic : string) (q : Z)
    : result terr (list (Sub * Z)) :=
  if negb (ValidQos q) then Err InvalidQoS
  else smatch (enough topic) (sroot this) topic q [].

Definition memTopics_Retain (this : memTopics) (m : PublishPacket) : memTopics * option terr :=
  let topic := pub_TopicName m in
  let '(root, err) :=
    match pub_Payload m with
    | [] => rremove (enough topic) (rroot this) topic
    | _ => rinsertOrUpdate (enough topic) (rroot this) topic m
    end in
  (mkMemTopics (sroot this) root, err).

(** Appends to the caller's slice; when it gives an error nothing was appended,
    since a message is only appended after every level of the topic was read. *)
Definition memTopics_Retained (this : memTopics) (topic : string) (msgs : list PublishPacket)
    : result terr (list PublishPacket) :=
  rmatch (enough topic) (rroot this) topic msgs.
End MemTopics.
Arguments memTopics Sub : clear implicits.
