(* ===== verification/TopicLevels.v ===== *)
(** * TopicLevels: the levels of topics and filters, and MQTT matching

    [levels] is the sequence of keys along which the trees of [Topics] are
    walked.  It is compared with the plain reading of a topic, its parts between
    slashes: the two agree except that an empty part is read as the key "+" and
    an empty last part is dropped.  [fmatch] is MQTT's matching of a filter with
    a topic, level by level, and [candidates] enumerates the filters that match
    a topic. *)
From S2P Require Import Prelude Topics.
Local Open Scope Z_scope.
#[local] Arguments String.append : simpl nomatch.

(** ** The walk along a topic *)

Fixpoint levels_loop (fuel : nat) (topic : string) : list string * option terr :=
  match fuel with
  | O => ([], Some OutOfFuel)
  | S fuel' =>
      if decide (topic = ""%string) then ([], None)
      else match nextTopicLevel topic with
           | Err e => ([], Some e)
           | Ok (l, rem) => let '(ls, e) := levels_loop fuel' rem in (l :: ls, e)
           end
  end.

Definition levels (topic : string) : list string * option terr :=
  levels_loop (enough topic) topic.

(** ** One level *)

(** The part before the first slash and what follows that slash. *)
Fixpoint cut_slash (s : string) : string * option string :=
  match s with
  | EmptyString => (""%string, None)
  | String a s' =>
      if decide (a = SLASH) then (""%string, Some s')
      else let '(h, o) := cut_slash s' in (String a h, o)
  end.

Definition no_wildcard (s : string) : bool :=
  negb (contains_byte HASH s) && negb (contains_byte PLUS s).

(** A wildcard stands alone in its level. *)
Definition valid_level (s : string) : bool :=
  no_wildcard s || bool_decide (s = MWC) || bool_decide (s = SWC).

Definition level_ok (h : string) (more : bool) : bool :=
  valid_level h && negb (bool_decide (h = MWC) && more).

(** The key of a level: an empty one followed by a slash is taken for "+". *)
Definition level_key (h : string) : string := if decide (h = ""%string) then SWC else h.

(** What the state of the scanner says about the part read so far. *)
Definition scanned (s : ntl_state) (pre : string) : Prop :=
  match s with
  | stateCHR => no_wildcard pre = true
  | stateMWC => pre = MWC
  | stateSWC => pre = SWC
  end.

Lemma scanned_empty s pre : scanned s pre → String.length pre = O → s = stateCHR ∧ pre = ""%string.
Proof. destruct s, pre; cbn; try done; intros [=]. Qed.

(** No level starts with a wildcard and goes on. *)
Lemma no_wildcard_app a b : no_wildcard (a ++ b) = no_wildcard a && no_wildcard b.
Proof.
  unfold no_wildcard. rewrite !contains_byte_app.
  destruct (contains_byte HASH a), (contains_byte PLUS a), (contains_byte HASH b),
    (contains_byte PLUS b); done.
Qed.

Lemma long_level_invalid pre c h :
  pre ≠ ""%string → no_wildcard (pre ++ String c h) = false → valid_level (pre ++ String c h) = false.
Proof.
  intros Hp Hn. unfold valid_level. rewrite Hn. cbn.
  destruct pre as [|a [|b pre]]; [done|..]; cbn;
    by rewrite !bool_decide_eq_false_2 by (intros [=]).
Qed.

(** The rest of a level after a wildcard, or with a wildcard inside, is refused. *)
Lemma nextTopicLevel_loop_spec rest : ∀ pre s,
  scanned s pre →
  let h := (pre ++ (cut_slash rest).1)%string in
  match nextTopicLevel_loop (pre ++ rest) s (String.length pre) rest with
  | Ok (l, rem) =>
      level_ok h (bool_decide (is_Some (cut_slash rest).2)) = true
      ∧ rem = default ""%string (cut_slash rest).2
      ∧ l = (if bool_decide (is_Some (cut_slash rest).2) then level_key h else h)
  | Err _ => level_ok h (bool_decide (is_Some (cut_slash rest).2)) = false
  end.
Proof.
  induction rest as [|c rest IH]; intros pre s Hs.
  - cbn. rewrite append_empty_r. unfold level_ok, valid_level.
    rewrite andb_false_r, andb_true_r. split; [|done].
    destruct s; cbn in Hs; subst; [by rewrite Hs|done|done].
  - cbn [nextTopicLevel_loop cut_slash]. destruct (decide (c = SLASH)) as [->|Hc].
    + cbn. rewrite append_empty_r. unfold level_ok.
      destruct (decide (s = stateMWC)) as [->|]; [by cbn in Hs; subst|].
      assert (valid_level pre && negb (bool_decide (pre = MWC) && true) = true).
      { unfold valid_level. destruct s; cbn in Hs; subst; [|done|done]. rewrite Hs. cbn.
        rewrite bool_decide_eq_false_2; [done|]. by intros ->. }
      unfold level_key. destruct (decide (String.length pre = O)) as [Hl|Hl].
      * apply (scanned_empty s) in Hl as [_ ->]; done.
      * rewrite decide_False by (by intros ->). by rewrite take_string_app.
    + destruct (cut_slash rest) as [h o] eqn:Hcut. cbn [fst snd] in *.
      assert (Hgo : ∀ s', scanned s' (pre ++ String c "") →
        match nextTopicLevel_loop (pre ++ String c rest) s' (S (String.length pre)) rest with
        | Ok (l, rem) => level_ok (pre ++ String c h) (bool_decide (is_Some o)) = true
            ∧ rem = default ""%string o
            ∧ l = (if bool_decide (is_Some o) then level_key (pre ++ String c h)
                   else (pre ++ String c h)%string)
        | Err _ => level_ok (pre ++ String c h) (bool_decide (is_Some o)) = false
        end).
      { intros s' Hs'. specialize (IH _ _ Hs'). rewrite !append_assoc in IH. cbn in IH.
        rewrite length_append in IH. cbn in IH. by rewrite Nat.add_1_r in IH. }
      assert (Hbad : pre ≠ ""%string → no_wildcard pre && no_wildcard (String c "") = false →
        level_ok (pre ++ String c h) (bool_decide (is_Some o)) = false).
      { intros Hp Hn. unfold level_ok. rewrite long_level_invalid; [done|done|].
        change (String c h) with (String c "" ++ h)%string. rewrite !no_wildcard_app, andb_assoc.
        by rewrite Hn. }
      assert (Hnil : String.length pre = O → s = stateCHR ∧ pre = ""%string)
        by (intros; by apply scanned_empty).
      assert (Hlen : pre ≠ ""%string ∨ pre = ""%string) by (destruct pre; auto).
      repeat case_decide; subst; try (apply Hbad; [by intros ->|by rewrite andb_false_r]).
      * destruct (Hnil ltac:(lia)) as [-> ->]. by apply Hgo.
      * destruct (Hnil ltac:(lia)) as [-> ->]. by apply Hgo.
      * apply Hbad; [by intros ->; destruct H1; subst|]. destruct H1; subst; cbn in Hs; by subst.
      * apply Hgo. destruct s; [|tauto..]. cbn in Hs |- *. rewrite no_wildcard_app, Hs.
        unfold no_wildcard. cbn. rewrite !bool_decide_eq_false_2 by done. done.
Qed.

Lemma nextTopicLevel_spec topic :
  match nextTopicLevel topic with
  | Ok (l, rem) =>
      level_ok (cut_slash topic).1 (bool_decide (is_Some (cut_slash topic).2)) = true
      ∧ rem = default ""%string (cut_slash topic).2
      ∧ l = (if bool_decide (is_Some (cut_slash topic).2)
             then level_key (cut_slash topic).1 else (cut_slash topic).1)
  | Err _ => level_ok (cut_slash topic).1 (bool_decide (is_Some (cut_slash topic).2)) = false
  end.
Proof. exact (nextTopicLevel_loop_spec topic "" stateCHR eq_refl). Qed.

Lemma cut_slash_length s : (String.length (cut_slash s).1 ≤ String.length s)%nat ∧
  ∀ r, (cut_slash s).2 = Some r → (String.length r < String.length s)%nat.
Proof.
  induction s as [|a s [IH1 IH2]]; cbn; [done|].
  case_decide; cbn; [split; [lia|intros r [= <-]; lia]|].
  destruct (cut_slash s) as [h o]. cbn in *. split; [lia|].
  intros r Hr. specialize (IH2 r Hr). lia.
Qed.

(** The walk gets shorter at every level: the fuel of the tree methods suffices. *)
Lemma nextTopicLevel_shorter topic l rem :
  nextTopicLevel topic = Ok (l, rem) → topic ≠ ""%string →
  (String.length rem < String.length topic)%nat.
Proof.
  intros H Hne. pose proof (nextTopicLevel_spec topic) as Hs. rewrite H in Hs.
  destruct Hs as (_ & -> & _). destruct (cut_slash_length topic) as [_ Hl].
  destruct (cut_slash topic).2 as [r|]; [by apply Hl|]. destruct topic; [done|]. cbn. lia.
Qed.

(** ** The walk and the parts between slashes *)

(** Empty parts become "+", an empty last part is dropped. *)
Fixpoint path_of (parts : list string) : list string :=
  match parts with
  | [] => []
  | [p] => if decide (p = ""%string) then [] else [p]
  | p :: rest => level_key p :: path_of rest
  end.

(** Every part is a plain name or one wildcard, "#" only as the last. *)
Fixpoint parts_ok (parts : list string) : bool :=
  match parts with
  | [] => true
  | p :: rest => level_ok p (bool_decide (rest ≠ [])) && parts_ok rest
  end.

Definition topic_ok (topic : string) : bool := parts_ok (split_slash topic).

Lemma split_cut s :
  split_slash s = (cut_slash s).1 :: match (cut_slash s).2 with
                                     | Some r => split_slash r | None => [] end.
Proof.
  unfold split_slash. induction s as [|a s IH]; cbn; [done|].
  case_decide; [done|]. rewrite IH. by destruct (cut_slash s).
Qed.

Lemma levels_loop_spec fuel : ∀ topic,
  (String.length topic < fuel)%nat →
  if topic_ok topic then levels_loop fuel topic = (path_of (split_slash topic), None)
  else is_Some (levels_loop fuel topic).2.
Proof.
  induction fuel as [|fuel IH]; intros topic Hf; [lia|]. cbn [levels_loop].
  case_decide as Hne; [by subst|]. unfold topic_ok. rewrite split_cut.
  pose proof (nextTopicLevel_spec topic) as Hs.
  pose proof (nextTopicLevel_shorter topic) as Hsh.
  destruct (cut_slash topic) as [h o] eqn:Hcut. cbn [fst snd] in Hs |- *. cbn [parts_ok].
  assert (Hdec : bool_decide (match o with Some r => split_slash r | None => [] end ≠ [])
                 = bool_decide (is_Some o)).
  { destruct o as [r|]; apply bool_decide_ext; [|by split; [|intros [? [=]]]].
    split; [by eexists|]. intros _. apply split_on_nonempty. }
  rewrite Hdec. destruct (nextTopicLevel topic) as [[l rem]|e] eqn:Hn.
  - destruct Hs as (-> & -> & ->). specialize (Hsh _ _ eq_refl Hne). cbn [andb].
    destruct o as [r|].
    + specialize (IH r ltac:(cbn in Hsh; lia)). cbn [default] in *. change (id r) with r in *. unfold topic_ok in IH.
      destruct (levels_loop fuel r) as [ls e] eqn:Hl. cbn [option_map].
      rewrite bool_decide_eq_true_2 by done.
      destruct (parts_ok (split_slash r)); [|exact IH]. injection IH as -> ->.
      cbn [path_of]. destruct (split_slash r) eqn:Hr; [by apply split_on_nonempty in Hr|done].
    + cbn. destruct fuel as [|fuel]; [destruct topic; [done|cbn in Hf; lia]|]. cbn.
      rewrite (decide_False (P := h = ""%string)); [done|]. intros ->. revert Hcut. destruct topic; [done|]. cbn.
      case_decide; [done|]. by destruct (cut_slash topic).
  - rewrite Hs. by eexists.
Qed.

(** A topic with well-placed wildcards is walked along its parts; any other one
    gives an error. *)
Lemma levels_ok topic : topic_ok topic = true → levels topic = (path_of (split_slash topic), None).
Proof.
  intros H. pose proof (levels_loop_spec (enough topic) topic) as Hl. rewrite H in Hl.
  apply Hl. unfold enough. lia.
Qed.

Lemma levels_error topic : topic_ok topic = false → is_Some (levels topic).2.
Proof.
  intros H. pose proof (levels_loop_spec (enough topic) topic) as Hl. rewrite H in Hl.
  apply Hl. unfold enough. lia.
Qed.

(** Without empty parts the walk is the list of parts. *)
Lemma path_of_plain parts : Forall (λ p, p ≠ ""%string) parts → path_of parts = parts.
Proof.
  induction 1 as [|p ps Hp Hps IH]; cbn; [done|]. destruct ps.
  - by rewrite decide_False.
  - unfold level_key. by rewrite decide_False, IH.
Qed.

(** ** Matching *)

(** MQTT's matching of a filter with a topic: "+" stands for any one level, "#"
    as the last level for any number of levels, the level before it included. *)
Fixpoint fmatch (f t : list string) : bool :=
  match f, t with
  | [], [] => true
  | [], _ :: _ => false
  | l :: f', [] => bool_decide (l = MWC) && bool_decide (f' = [])
  | l :: f', x :: t' =>
      if decide (l = MWC) then bool_decide (f' = [])
      else (bool_decide (l = SWC) || bool_decide (l = x)) && fmatch f' t'
  end.

(** The filters that match a topic, each once. *)
Fixpoint candidates (t : list string) : list (list string) :=
  match t with
  | [] => [[]; [MWC]]
  | x :: t' =>
      [MWC] :: map (cons SWC) (candidates t')
      ++ (if decide (x = SWC ∨ x = MWC) then [] else map (cons x) (candidates t'))
  end.

Lemma elem_of_candidates t : ∀ f, f ∈ candidates t ↔ fmatch f t = true.
Proof.
  induction t as [|x t IH]; intros f; cbn.
  - rewrite !elem_of_cons, elem_of_nil. destruct f as [|l f]; cbn; [naive_solver|].
    rewrite andb_true_iff, !bool_decide_eq_true. naive_solver.
  - rewrite elem_of_cons, elem_of_app, (list_elem_of_fmap (cons SWC)).
    destruct f as [|l f]; cbn.
    + split; [|done]. intros [?|[(?&?&?)|Hx]]; try done. case_decide; [by apply elem_of_nil in Hx|].
      apply (list_elem_of_fmap (cons x)) in Hx as (?&?&?). done.
    + destruct (decide (l = MWC)) as [->|Hl].
      * rewrite bool_decide_eq_true. split; [|naive_solver].
        intros [?|[(?&?&?)|Hx]]; [naive_solver|done|]. case_decide; [by apply elem_of_nil in Hx|].
        apply (list_elem_of_fmap (cons x)) in Hx as (?&[= ? ?]&?). naive_solver.
      * rewrite andb_true_iff, orb_true_iff, !bool_decide_eq_true, <-IH. split.
        -- intros [?|[(?&[= -> ->]&?)|Hx]]; [naive_solver|naive_solver|].
           case_decide; [by apply elem_of_nil in Hx|].
           apply (list_elem_of_fmap (cons x)) in Hx as (?&[= -> ->]&?). naive_solver.
        -- intros [[->| ->] Hf]; [right; left; naive_solver|].
           destruct (decide (x = SWC)) as [->|]; [right; left; naive_solver|].
           right; right. rewrite decide_False by naive_solver.
           apply (list_elem_of_fmap (cons x)). naive_solver.
Qed.

Lemma NoDup_candidates t : NoDup (candidates t).
Proof.
  induction t as [|x t IH]; cbn.
  - apply NoDup_cons. rewrite list_elem_of_singleton. split; [done|]. apply NoDup_singleton.
  - apply NoDup_cons. split.
    + rewrite elem_of_app, (list_elem_of_fmap (cons SWC)). intros [(?&?&?)|Hx]; [done|].
      case_decide; [by apply elem_of_nil in Hx|].
      apply (list_elem_of_fmap (cons x)) in Hx as (?&[= ? ?]&?). naive_solver.
    + apply NoDup_app. split; [by apply (NoDup_fmap_2 (cons SWC))|].
      split; [|case_decide; [constructor|by apply (NoDup_fmap_2 (cons x))]].
      intros f (f'&->&_)%(list_elem_of_fmap (cons SWC)). case_decide; [apply not_elem_of_nil|].
      intros (?&[= ? ?]&?)%(list_elem_of_fmap (cons x)). naive_solver.
Qed.

(** ** Filters and topics as strings *)

(** No level is empty: "/a", "a/" and "a//b" are not plain. *)
Definition plain (topic : string) : bool :=
  forallb (λ p, negb (bool_decide (p = ""%string))) (split_slash topic).

Definition starts_wild (f : string) : bool := has_prefix f "+" || has_prefix f "#".

(** MQTT's matching of a filter with a topic name: level by level, and a filter
    that starts with a wildcard does not match a topic that starts with "$". *)
Definition mqtt_match (f topic : string) : bool :=
  fmatch (split_slash f) (split_slash topic) && negb (has_prefix topic "$" && starts_wild f).

Lemma plain_parts topic : plain topic = true ↔ Forall (λ p, p ≠ ""%string) (split_slash topic).
Proof.
  unfold plain. rewrite forallb_forall, List.Forall_forall.
  by setoid_rewrite negb_true_iff; setoid_rewrite bool_decide_eq_false.
Qed.

Lemma plain_path topic : plain topic = true → path_of (split_slash topic) = split_slash topic.
Proof. intros H. by apply path_of_plain, plain_parts. Qed.

Lemma split_slash_inj s s' : split_slash s = split_slash s' → s = s'.
Proof. intros H. by rewrite <-(join_split s), H, join_split. Qed.

#[export] Instance split_slash_Inj : Inj (=) (=) split_slash := split_slash_inj.

Lemma mqtt_match_plain f topic :
  has_prefix topic "$" = false → mqtt_match f topic = fmatch (split_slash f) (split_slash topic).
Proof. unfold mqtt_match. intros ->. by rewrite andb_true_r. Qed.
