(* ===== verification/TopicsSpec.v ===== *)
(** * TopicsSpec: what the topic store promises

    The subscription tree refines a table from level keys to lists of subscribers
    with their QoS: [entries] is the abstraction function.  On filters without
    empty levels that table is the plain one from filters to subscribers
    ([filter_table]), whose entries are selected by MQTT's matching.
    [sinsert] updates one entry of the table, [sremove] removes from one entry,
    and [smatch] collects the entries of exactly the filters that match. *)
From S2P Require Import Prelude Packets Topics TopicLevels.
Local Open Scope Z_scope.

(** ** Tables of subscribers *)

Section Spec.
Context {Sub : Type} `{EqDecision Sub}.
Implicit Types (t n : snode Sub) (p lv : list string) (s sub : Sub) (q : Z).

(** The entry of a filter with [sub] added, or its QoS replaced. *)
Fixpoint upsert (sub : Sub) (q : Z) (l : list (Sub * Z)) : list (Sub * Z) :=
  match l with
  | [] => [(sub, q)]
  | (s, q') :: l' => if decide (s = sub) then (sub, q) :: l' else (s, q') :: upsert sub q l'
  end.

(** The entry without [sub]; without anyone for a nil subscriber. *)
Fixpoint remove_one (sub : Sub) (l : list (Sub * Z)) : list (Sub * Z) :=
  match l with
  | [] => []
  | (s, q') :: l' => if decide (s = sub) then l' else (s, q') :: remove_one sub l'
  end.

Definition remove_sub (sub : option Sub) (l : list (Sub * Z)) : list (Sub * Z) :=
  match sub with None => [] | Some sub => remove_one sub l end.

(** ** The abstraction *)

Fixpoint node_at (t : snode Sub) (p : list string) : option (snode Sub) :=
  match p with
  | [] => Some t
  | l :: p' => n ← snodes t !! l; node_at n p'
  end.

Definition entries (t : snode Sub) (p : list string) : list (Sub * Z) :=
  match node_at t p with Some n => zip (subs n) (qos n) | None => [] end.

(** The parallel slices of every node have the same length, and no subscriber is
    twice in one node. *)
Definition node_wf (n : snode Sub) : Prop := length (subs n) = length (qos n) ∧ NoDup (subs n).
Definition swf (t : snode Sub) : Prop := ∀ p n, node_at t p = Some n → node_wf n.

Lemma entries_cons t l p :
  entries t (l :: p) = match snodes t !! l with Some n => entries n p | None => [] end.
Proof. unfold entries. cbn. by destruct (snodes t !! l). Qed.

Lemma entries_subs n p : swf n → map fst (entries n p) = match node_at n p with
                                                        | Some n' => subs n' | None => [] end.
Proof.
  intros Hwf. unfold entries. destruct (node_at n p) as [n'|] eqn:H; [|done].
  destruct (Hwf _ _ H) as [Hl _]. apply (fst_zip (subs n') (qos n')). lia.
Qed.

Lemma swf_here t : swf t → node_wf t.
Proof. intros H. by apply (H []). Qed.

Lemma swf_child t l n : swf t → snodes t !! l = Some n → swf n.
Proof. intros H Hl p n' Hn. apply (H (l :: p)). cbn. by rewrite Hl. Qed.

Lemma swf_intro ss qs m :
  node_wf (SNode ss qs m) → (∀ l n, m !! l = Some n → swf n) → swf (SNode ss qs m).
Proof.
  intros Hh Hc [|l p] n; cbn; [by intros [= <-]|].
  destruct (m !! l) as [n'|] eqn:Hl; [|done]. cbn. by apply (Hc l).
Qed.

Lemma swf_new : swf newSNode.
Proof. apply swf_intro; [by repeat constructor|]. intros l n. by rewrite lookup_empty. Qed.

Lemma entries_new p : entries newSNode p = [].
Proof. destruct p; [done|]. rewrite entries_cons. cbn. by rewrite lookup_empty. Qed.

(** ** One node *)

Lemma find_sub_spec sub l : match find_sub sub l with
  | Some i => l !! i = Some sub
  | None => sub ∉ l
  end.
Proof.
  induction l as [|x l IH]; cbn; [apply not_elem_of_nil|].
  case_decide; [by subst|]. destruct (find_sub sub l); cbn; [done|].
  by rewrite not_elem_of_cons.
Qed.

Lemma zip_update sub q ss : ∀ qs i, length ss = length qs → find_sub sub ss = Some i →
  zip ss (<[i := q]> qs) = upsert sub q (zip ss qs).
Proof.
  induction ss as [|x ss IH]; intros [|y qs] i Hl Hi; try done. cbn in Hi |- *.
  case_decide; [by simplify_eq/=|].
  destruct (find_sub sub ss) as [j|] eqn:Hj; [|done]. cbn in Hi. injection Hi as <-. cbn.
  f_equal. apply IH; [cbn in Hl; lia|done].
Qed.

Lemma zip_append sub q ss : ∀ qs, length ss = length qs → find_sub sub ss = None →
  zip (ss ++ [sub]) (qs ++ [q]) = upsert sub q (zip ss qs).
Proof.
  induction ss as [|x ss IH]; intros [|y qs] Hl Hi; try done. cbn in Hi |- *.
  case_decide; [done|]. f_equal. apply IH; [cbn in Hl; lia|]. by destruct (find_sub sub ss).
Qed.

Lemma zip_remove sub ss : ∀ qs i, length ss = length qs → find_sub sub ss = Some i →
  zip (remove_at i ss) (remove_at i qs) = remove_one sub (zip ss qs).
Proof.
  induction ss as [|x ss IH]; intros [|y qs] i Hl Hi; try done. cbn in Hi |- *.
  case_decide; [by simplify_eq/=|].
  destruct (find_sub sub ss) as [j|] eqn:Hj; [|done]. cbn in Hi. injection Hi as <-.
  unfold remove_at in *. cbn. f_equal. apply IH; [cbn in Hl; lia|done].
Qed.

Lemma sinsert_here_spec t q sub :
  node_wf t →
  node_wf (sinsert_here t q sub)
  ∧ zip (subs (sinsert_here t q sub)) (qos (sinsert_here t q sub))
    = upsert sub q (zip (subs t) (qos t))
  ∧ snodes (sinsert_here t q sub) = snodes t.
Proof.
  intros [Hl Hnd]. unfold sinsert_here, node_wf.
  pose proof (find_sub_spec sub (subs t)) as Hf.
  destruct (find_sub sub (subs t)) as [i|] eqn:Hi; cbn.
  - rewrite length_insert. split; [done|]. split; [by apply zip_update|done].
  - rewrite !length_app. cbn. split; [split; [lia|]|split; [by apply zip_append|done]].
    apply NoDup_app. split; [done|]. split; [|apply NoDup_singleton].
    intros x Hx ->%list_elem_of_singleton. done.
Qed.

Lemma remove_at_sublist {A} i (l : list A) : remove_at i l `sublist_of` l.
Proof.
  unfold remove_at. rewrite <-(take_drop i l) at 3. apply sublist_app; [done|].
  replace (drop (S i) l) with (drop 1 (drop i l)) by (rewrite drop_drop; f_equal; lia).
  apply sublist_drop.
Qed.

Lemma sremove_here_spec t o t' :
  node_wf t → sremove_here t o = (t', None) →
  node_wf t' ∧ zip (subs t') (qos t') = remove_sub o (zip (subs t) (qos t)) ∧ snodes t' = snodes t.
Proof.
  intros [Hl Hnd]. unfold sremove_here. destruct o as [sub|].
  - destruct (find_sub sub (subs t)) as [i|] eqn:Hi; [|done]. intros [= <-]. cbn.
    split; [|split; [by apply zip_remove|done]]. split; cbn.
    + unfold remove_at. rewrite !length_app, !length_take, !length_drop. lia.
    + exact (sublist_NoDup _ _ Hnd (remove_at_sublist i _)).
  - intros [= <-]. split; [by repeat constructor|done].
Qed.

(** ** The tree *)

Lemma levels_loop_step fuel topic lv :
  topic ≠ ""%string → levels_loop (S fuel) topic = (lv, None) →
  ∃ l rem ls, nextTopicLevel topic = Ok (l, rem) ∧ levels_loop fuel rem = (ls, None) ∧ lv = l :: ls.
Proof.
  intros Hne. cbn. rewrite decide_False by done.
  destruct (nextTopicLevel topic) as [[l rem]|]; [|done].
  destruct (levels_loop fuel rem) as [ls e] eqn:Hl. intros [= <- ->]. by exists l, rem, ls.
Qed.

Lemma levels_loop_empty fuel : levels_loop (S fuel) "" = ([], None).
Proof. done. Qed.

Lemma default_child_wf t l : swf t → swf (default newSNode (snodes t !! l)).
Proof.
  intros H. destruct (snodes t !! l) as [n|] eqn:Hl; cbn; [by eapply swf_child|apply swf_new].
Qed.

Lemma default_child_entries t l p :
  entries (default newSNode (snodes t !! l)) p = entries t (l :: p).
Proof. rewrite entries_cons. destruct (snodes t !! l); [done|]. apply entries_new. Qed.

(** Replacing the child at [l] changes the entries below [l] only. *)
Lemma entries_insert_child t l n p :
  entries (SNode (subs t) (qos t) (<[l := n]> (snodes t))) p =
    match p with
    | l' :: p' => if decide (l' = l) then entries n p' else entries t p
    | [] => entries t p
    end.
Proof.
  destruct p as [|l' p']; [done|]. rewrite !entries_cons. cbn.
  case_decide; subst; [by rewrite lookup_insert_eq|by rewrite lookup_insert_ne].
Qed.

Lemma swf_insert_child t l n :
  swf t → swf n → swf (SNode (subs t) (qos t) (<[l := n]> (snodes t))).
Proof.
  intros Ht Hn. apply swf_intro; [apply (swf_here _ Ht)|]. intros l' n'.
  rewrite lookup_insert_Some. intros [[_ <-]|[_ Hl]]; [done|exact (swf_child _ _ _ Ht Hl)].
Qed.

Lemma sinsert_spec fuel : ∀ t topic q sub lv,
  swf t → levels_loop fuel topic = (lv, None) →
  ∃ t', sinsert fuel t topic q sub = (t', None) ∧ swf t' ∧
    ∀ p, entries t' p = if decide (p = lv) then upsert sub q (entries t lv) else entries t p.
Proof.
  induction fuel as [|fuel IH]; intros t topic q sub lv Hwf Hlv; [done|].
  destruct (decide (topic = ""%string)) as [->|Hne].
  - rewrite levels_loop_empty in Hlv. injection Hlv as <-. cbn.
    destruct (sinsert_here_spec t q sub (swf_here _ Hwf)) as (Hw & Hz & Hc).
    eexists. split; [done|]. split.
    + destruct (sinsert_here t q sub) as [ss qs m]. cbn in *. subst m.
      apply swf_intro; [done|]. intros l n. by apply swf_child.
    + intros [|l p]; [exact Hz|]. rewrite decide_False by done. by rewrite !entries_cons, Hc.
  - apply levels_loop_step in Hlv as (l & rem & ls & Hn & Hls & ->); [|done].
    cbn [sinsert]. rewrite decide_False, Hn by done.
    destruct (IH _ rem q sub ls (default_child_wf t l Hwf) Hls) as (n' & -> & Hn' & He).
    eexists. split; [done|]. split; [by apply swf_insert_child|].
    intros p. rewrite entries_insert_child. destruct p as [|l' p']; [by rewrite decide_False|].
    destruct (decide (l' = l)) as [->|Hl]; [|rewrite decide_False by congruence; done].
    rewrite He, !default_child_entries.
    destruct (decide (p' = ls)) as [->|]; [by rewrite decide_True|].
    by rewrite decide_False by congruence.
Qed.

(** A node that [sremove] unlinks has nothing below it. *)
Lemma entries_empty n p : length (subs n) = O → size (snodes n) = O → entries n p = [].
Proof.
  intros Hs Hc. apply nil_length_inv in Hs. apply map_size_empty_inv in Hc.
  destruct p as [|l p]; [unfold entries; cbn; by rewrite Hs|].
  by rewrite entries_cons, Hc, lookup_empty.
Qed.

Lemma sremove_spec fuel : ∀ t topic o lv,
  swf t → levels_loop fuel topic = (lv, None) →
  match sremove fuel t topic o with
  | (t', None) => swf t' ∧
      (∀ p, entries t' p = if decide (p = lv) then remove_sub o (entries t lv) else entries t p)
      ∧ (∀ sub, o = Some sub → sub ∈ map fst (entries t lv))
  | (t', Some _) => t' = t ∧ (o = None → entries t lv = [])
      ∧ ∀ sub, o = Some sub → sub ∉ map fst (entries t lv)
  end.
Proof.
  induction fuel as [|fuel IH]; intros t topic o lv Hwf Hlv; [done|].
  destruct (decide (topic = ""%string)) as [->|Hne].
  - rewrite levels_loop_empty in Hlv. injection Hlv as <-. cbn [sremove]. rewrite decide_True by done.
    destruct (sremove_here t o) as [t' [e|]] eqn:Hr.
    + unfold sremove_here in Hr. destruct o as [sub|]; [|done].
      pose proof (find_sub_spec sub (subs t)) as Hf.
      destruct (find_sub sub (subs t)); [done|]. injection Hr as <- <-. split; [done|]. split; [done|].
      intros ? [= <-]. by rewrite entries_subs.
    + destruct (sremove_here_spec t o t' (swf_here _ Hwf) Hr) as (Hw & Hz & Hc). split; [|split].
      * destruct t' as [ss qs m]. cbn in *. subst m. apply swf_intro; [done|].
        intros l n. by apply swf_child.
      * intros [|l p]; [exact Hz|]. rewrite decide_False by done. by rewrite !entries_cons, Hc.
      * intros sub ->. cbn in Hr. rewrite entries_subs by done. cbn.
        pose proof (find_sub_spec sub (subs t)) as Hf.
        destruct (find_sub sub (subs t)); [|done]. by apply list_elem_of_lookup_2 in Hf.
  - apply levels_loop_step in Hlv as (l & rem & ls & Hn & Hls & ->); [|done].
    cbn [sremove]. rewrite decide_False, Hn by done.
    destruct (snodes t !! l) as [n|] eqn:Hl.
    2: { rewrite entries_cons, Hl. split; [done|]. split; [done|]. intros sub _.
         apply not_elem_of_nil. }
    specialize (IH n rem o ls (swf_child _ _ _ Hwf Hl) Hls).
    rewrite entries_cons, Hl.
    destruct (sremove fuel n rem o) as [n' [e|]].
    + destruct IH as (-> & Hnil & Hni). split; [|done]. destruct t as [ss qs m]. cbn in *.
      by rewrite insert_id.
    + destruct IH as (Hn' & He & Hin).
      assert (Hent : ∀ p, entries (SNode (subs t) (qos t) (<[l:=n']> (snodes t))) p
        = if decide (p = l :: ls) then remove_sub o (entries n ls) else entries t p).
      { intros p. rewrite entries_insert_child. destruct p as [|l' p']; [by rewrite decide_False|].
        destruct (decide (l' = l)) as [->|]; [|by rewrite decide_False by congruence].
        rewrite He, entries_cons, Hl.
        destruct (decide (p' = ls)) as [->|]; [by rewrite decide_True|].
        by rewrite decide_False by congruence. }
      case_decide as Hdel; (split; [|split; [|done]]).
      * apply swf_intro; [apply (swf_here _ Hwf)|]. intros l' x.
        rewrite lookup_delete_Some. intros [_ Hx]. exact (swf_child _ _ _ Hwf Hx).
      * intros p. rewrite <-Hent. destruct p as [|l' p']; [done|]. rewrite !entries_cons. cbn.
        destruct (decide (l' = l)) as [->|].
        -- rewrite lookup_delete_eq, lookup_insert_eq. symmetry. apply entries_empty; tauto.
        -- by rewrite lookup_delete_ne, lookup_insert_ne.
      * by apply swf_insert_child.
      * exact Hent.
Qed.

(** ** Matching *)

(** What one child contributes, given what the recursive call contributes. *)
Definition contribution (g : snode Sub → list (Sub * Z)) (level : string) (q : Z)
    (k : string) (n : snode Sub) : list (Sub * Z) :=
  if decide (k = MWC) then map (λ s, (s, q)) (subs n)
  else if decide (k = SWC ∨ k = level) then g n else [].

Lemma smatch_children_cons visit level q k (n : snode Sub) children out :
  smatch_children visit level q ((k, n) :: children) out =
  rbind (if decide (k = MWC) then Ok (matchQos n q out)
         else if decide (k = SWC ∨ k = level) then visit n out else Ok out)
        (smatch_children visit level q children).
Proof.
  unfold smatch_children. cbn [foldl rbind].
  destruct (if decide (k = MWC) then _ else _) as [o|e]; cbn; [done|].
  induction children as [|[??] children IH]; cbn; [done|exact IH].
Qed.

Lemma smatch_children_spec visit g level q children : ∀ out,
  (∀ k n out, (k, n) ∈ children → ∃ r, visit n out = Ok (out ++ r) ∧ r ≡ₚ g n) →
  ∃ r, smatch_children visit level q children out = Ok (out ++ r) ∧
    r ≡ₚ concat (map (λ '(k, n), contribution g level q k n) children).
Proof.
  induction children as [|[k n] children IH]; intros out Hv.
  - exists []. cbn. by rewrite app_nil_r.
  - assert (Hv' : ∀ k n out, (k, n) ∈ children → ∃ r, visit n out = Ok (out ++ r) ∧ r ≡ₚ g n)
      by (intros; eapply Hv; by apply elem_of_cons; right).
    rewrite smatch_children_cons. cbn [map concat]. unfold contribution at 1. repeat case_decide.
    + unfold matchQos. destruct (IH (out ++ map (λ s, (s, q)) (subs n)) Hv') as (r & Hr & Hp).
      eexists. cbn [rbind]. rewrite Hr, <-app_assoc. split; [done|]. by rewrite Hp.
    + destruct (Hv k n out) as (r1 & -> & Hp1); [by apply elem_of_cons; left|].
      destruct (IH (out ++ r1) Hv') as (r & Hr & Hp).
      eexists. cbn [rbind]. rewrite Hr, <-app_assoc. split; [done|]. by rewrite Hp, Hp1.
    + by apply IH.
Qed.

(** The subscribers of the filters [ps], with the QoS [q]. *)
Definition collected (t : snode Sub) (q : Z) (ps : list (list string)) : list (Sub * Z) :=
  concat (map (λ p, map (λ e, (e.1, q)) (entries t p)) ps).

Lemma collected_app t q ps ps' : collected t q (ps ++ ps') = collected t q ps ++ collected t q ps'.
Proof. unfold collected. by rewrite map_app, concat_app. Qed.

Lemma collected_cons t q k ps :
  collected t q (map (cons k) ps)
    = match snodes t !! k with Some n => collected n q ps | None => [] end.
Proof.
  unfold collected. rewrite map_map. destruct (snodes t !! k) as [n|] eqn:Hk.
  - f_equal. apply map_ext. intros p. by rewrite entries_cons, Hk.
  - induction ps as [|p ps IH]; cbn; [done|]. by rewrite entries_cons, Hk, IH.
Qed.

Lemma collected_here t q : swf t → map (λ s, (s, q)) (subs t) = collected t q [[]].
Proof.
  intros Hwf. unfold collected. cbn [map concat]. rewrite app_nil_r.
  pose proof (entries_subs t [] Hwf) as He. cbn [node_at] in He. by rewrite <-He, map_map.
Qed.

Lemma smatch_spec fuel : ∀ t topic q out lv,
  swf t → levels_loop fuel topic = (lv, None) →
  ∃ r, smatch fuel t topic q out = Ok (out ++ r) ∧ r ≡ₚ collected t q (candidates lv).
Proof.
  induction fuel as [|fuel IH]; intros t topic q out lv Hwf Hlv; [done|].
  destruct (decide (topic = ""%string)) as [->|Hne].
  - rewrite levels_loop_empty in Hlv. injection Hlv as <-. cbn [smatch].
    rewrite decide_True by done. unfold matchQos. cbn [candidates].
    change [[]; [MWC]] with ([[]] ++ map (cons MWC) [[]]).
    rewrite collected_app, collected_cons, (collected_here t q Hwf).
    destruct (snodes t !! MWC) as [n|] eqn:Hn.
    + rewrite <-app_assoc, (collected_here n q (swf_child _ _ _ Hwf Hn)).
      by eexists; split; [reflexivity|].
    + eexists. split; [reflexivity|]. by rewrite app_nil_r.
  - apply levels_loop_step in Hlv as (l & rem & ls & Hn & Hls & ->); [|done].
    cbn [smatch]. rewrite decide_False, Hn by done.
    destruct (smatch_children_spec (λ n out, smatch fuel n rem q out)
      (λ n, collected n q (candidates ls)) l q (map_to_list (snodes t)) out) as (r & Hr & Hp).
    { intros k n o Hk%elem_of_map_to_list. apply IH; [exact (swf_child _ _ _ Hwf Hk)|done]. }
    exists r. split; [exact Hr|]. rewrite Hp. clear Hp Hr r. cbn [candidates].
    set (last := if decide (l = SWC ∨ l = MWC) then [] else [l]).
    rewrite (concat_map_to_list (contribution (λ n, collected n q (candidates ls)) l q)
               (MWC :: SWC :: last)).
    + cbn [map concat]. change ([MWC] :: ?x) with (map (cons MWC) [[]] ++ x).
      rewrite !collected_app, !collected_cons. unfold contribution.
      f_equiv; [|f_equiv].
      * destruct (snodes t !! MWC) as [n|] eqn:Hk; [|done]. cbn [decide].
        by rewrite decide_True, (collected_here n q (swf_child _ _ _ Hwf Hk)) by done.
      * destruct (snodes t !! SWC); [|done]. by rewrite decide_False, decide_True by auto.
      * unfold last. case_decide; [done|]. cbn. rewrite app_nil_r, collected_cons.
        destruct (snodes t !! l); [|done]. rewrite decide_False, decide_True by tauto. done.
    + unfold last. apply NoDup_cons. split; [|apply NoDup_cons; split].
      * case_decide; set_solver.
      * case_decide; set_solver.
      * case_decide; [constructor|apply NoDup_singleton].
    + intros k n _ Hk. unfold contribution, last in *.
      repeat case_decide; subst; set_solver.
Qed.

(** ** Topics with misplaced wildcards *)

Lemma levels_loop_err_step fuel topic lv e :
  levels_loop (S fuel) topic = (lv, Some e) → topic ≠ ""%string →
  nextTopicLevel topic = Err e ∨
  ∃ l rem ls, nextTopicLevel topic = Ok (l, rem) ∧ levels_loop fuel rem = (ls, Some e).
Proof.
  intros H Hne. cbn in H. rewrite decide_False in H by done.
  destruct (nextTopicLevel topic) as [[l rem]|]; [|by simplify_eq; left].
  destruct (levels_loop fuel rem) as [ls e'] eqn:Hl. simplify_eq. right. by exists l, rem, ls.
Qed.

(** [sinsert] then fails; it may leave nodes behind, but no entry changes. *)
Lemma sinsert_err fuel : ∀ t topic q sub lv e,
  swf t → levels_loop fuel topic = (lv, Some e) →
  ∃ t', sinsert fuel t topic q sub = (t', Some e) ∧ swf t' ∧ ∀ p, entries t' p = entries t p.
Proof.
  induction fuel as [|fuel IH]; intros t topic q sub lv e Hwf Hlv.
  { injection Hlv as <- <-. by exists t. }
  destruct (decide (topic = ""%string)) as [->|Hne]; [done|].
  cbn [sinsert]. rewrite decide_False by done.
  destruct (levels_loop_err_step _ _ _ _ Hlv Hne) as [->|(l & rem & ls & -> & Hls)]; [by exists t|].
  destruct (IH _ rem q sub ls e (default_child_wf t l Hwf) Hls) as (n' & -> & Hn' & He).
  eexists. split; [done|]. split; [by apply swf_insert_child|].
  intros p. rewrite entries_insert_child. destruct p as [|l' p']; [done|].
  case_decide; [subst|done]. by rewrite He, default_child_entries.
Qed.

Lemma sremove_err_unchanged fuel : ∀ t topic o t' e,
  sremove fuel t topic o = (t', Some e) → t' = t.
Proof.
  induction fuel as [|fuel IH]; intros t topic o t' e; cbn; [by intros [= <-]|].
  case_decide.
  { unfold sremove_here. destruct o as [sub|]; [|done]. by destruct (find_sub sub _); intros [= <-]. }
  destruct (nextTopicLevel topic) as [[l rem]|]; [|by intros [= <-]].
  destruct (snodes t !! l) as [n|] eqn:Hl; [|by intros [= <-]].
  destruct (sremove fuel n rem o) as [n' [e'|]] eqn:Hr; [|by case_decide].
  apply IH in Hr as ->. intros [= <- _]. destruct t as [ss qs m]. cbn in *. by rewrite insert_id.
Qed.

Lemma sremove_err fuel : ∀ t topic o lv e,
  levels_loop fuel topic = (lv, Some e) → ∃ e', sremove fuel t topic o = (t, Some e').
Proof.
  intros t topic o lv e Hlv.
  enough (∃ t' e', sremove fuel t topic o = (t', Some e')) as (t' & e' & Hr).
  { exists e'. by rewrite (sremove_err_unchanged _ _ _ _ _ _ Hr) in Hr at 1. }
  revert t topic lv Hlv. induction fuel as [|fuel IH]; intros t topic lv Hlv; [by eexists _, _|].
  destruct (decide (topic = ""%string)) as [->|Hne]; [done|].
  cbn [sremove]. rewrite decide_False by done.
  destruct (levels_loop_err_step _ _ _ _ Hlv Hne) as [->|(l & rem & ls & -> & Hls)];
    [by eexists _, _|].
  destruct (snodes t !! l) as [n|]; [|by eexists _, _].
  destruct (IH n rem ls Hls) as (n' & e' & ->). by eexists _, _.
Qed.

(** ** Histories *)

(** The abstract store: a table from filter paths to subscribers. *)
Definition table : Type := list string → list (Sub * Z).

Definition table_set (p : list string) (l : list (Sub * Z)) (T : table) : table :=
  λ p', if decide (p' = p) then l else T p'.

Definition filter_path (topic : string) : list string := path_of (split_slash topic).

Inductive topic_op :=
  | OpSubscribe (topic : string) (q : Z) (sub : option Sub)
  | OpUnsubscribe (topic : string) (sub : option Sub).

Definition op_impl (this : memTopics Sub) (op : topic_op) : memTopics Sub :=
  match op with
  | OpSubscribe topic q sub => (memTopics_Subscribe this topic q sub).1.1
  | OpUnsubscribe topic sub => (memTopics_Unsubscribe this topic sub).1
  end.

Definition op_spec (T : table) (op : topic_op) : table :=
  match op with
  | OpSubscribe topic q (Some sub) =>
      if ValidQos q && topic_ok topic
      then table_set (filter_path topic) (upsert sub q (T (filter_path topic))) T
      else T
  | OpSubscribe topic q None => T
  | OpUnsubscribe topic sub =>
      if topic_ok topic
      then table_set (filter_path topic) (remove_sub sub (T (filter_path topic))) T
      else T
  end.

(** The tree holds exactly the entries of the table. *)
Definition refines (this : memTopics Sub) (T : table) : Prop :=
  swf (sroot this) ∧ ∀ p, entries (sroot this) p = T p.

Lemma ValidQos_range q : ValidQos q = true → 0 ≤ q ≤ 2.
Proof. unfold ValidQos. rewrite !orb_true_iff, !bool_decide_eq_true. lia. Qed.

Lemma remove_one_notin sub l : sub ∉ map fst l → remove_one sub l = l.
Proof.
  induction l as [|[s q] l IH]; cbn; [done|]. rewrite not_elem_of_cons. intros [Hs Hl].
  rewrite decide_False by done. by rewrite IH.
Qed.

Lemma op_refines this T op : refines this T → refines (op_impl this op) (op_spec T op).
Proof.
  intros [Hwf He]. destruct op as [topic q [sub|]|topic o]; cbn.
  - unfold memTopics_Subscribe. destruct (ValidQos q) eqn:Hq; [|done]. cbn [negb andb].
    apply ValidQos_range in Hq. rewrite decide_False by lia. destruct (topic_ok topic) eqn:Ht.
    + destruct (sinsert_spec _ (sroot this) topic q sub _ Hwf (levels_ok _ Ht)) as (t' & -> & Hw & Hx).
      split; [done|]. intros p. cbn. rewrite Hx. unfold table_set, filter_path. by rewrite !He.
    + destruct (levels_error _ Ht) as [e Hl].
      destruct (sinsert_err (enough topic) (sroot this) topic q sub (levels topic).1 e Hwf)
        as (t' & -> & Hw & Hx); [by rewrite <-Hl; destruct (levels topic) eqn:E|].
      split; [done|]. intros p. cbn. by rewrite Hx.
  - unfold memTopics_Subscribe. by destruct (negb (ValidQos q)).
  - unfold memTopics_Unsubscribe. destruct (topic_ok topic) eqn:Ht.
    + pose proof (sremove_spec _ (sroot this) topic o _ Hwf (levels_ok _ Ht)) as Hs.
      destruct (sremove (enough topic) (sroot this) topic o) as [t' [e|]] eqn:Hr.
      * destruct Hs as (-> & Hnil & Hni). split; [done|]. intros p. cbn. unfold table_set, filter_path.
        case_decide; [subst|done]. rewrite <-He. destruct o as [sub|]; cbn.
        -- by rewrite remove_one_notin by (by apply Hni).
        -- by apply Hnil.
      * destruct Hs as (Hw & Hx & _). split; [done|]. intros p. cbn. rewrite Hx.
        unfold table_set, filter_path. by rewrite !He.
    + destruct (levels_error _ Ht) as [e Hl].
      destruct (sremove_err (enough topic) (sroot this) topic o (levels topic).1 e) as [e' ->];
        [by rewrite <-Hl; destruct (levels topic) eqn:E|]. done.
Qed.

Definition run_impl (ops : list topic_op) : memTopics Sub := foldl op_impl NewMemProvider ops.
Definition run_spec (ops : list topic_op) : table := foldl op_spec (λ _, []) ops.

Lemma run_refines ops : refines (run_impl ops) (run_spec ops).
Proof.
  unfold run_impl, run_spec.
  assert (H0 : refines NewMemProvider (λ _, [])) by (split; [apply swf_new|apply entries_new]).
  revert H0. generalize (λ _ : list string, @nil (Sub * Z)).
  generalize (NewMemProvider : memTopics Sub).
  induction ops as [|op ops IH]; intros this T H0; cbn; [done|]. by apply IH, op_refines.
Qed.

Lemma Subscribers_spec this T topic q :
  refines this T → topic_ok topic = true → ValidQos q = true →
  ∃ r, memTopics_Subscribers this topic q = Ok r ∧
    r ≡ₚ concat (map (λ p, map (λ e, (e.1, q)) (T p)) (candidates (filter_path topic))).
Proof.
  intros [Hwf He] Ht Hq. unfold memTopics_Subscribers. rewrite Hq. cbn [negb].
  destruct (smatch_spec _ (sroot this) topic q [] _ Hwf (levels_ok _ Ht)) as (r & Hr & Hp).
  exists r. split; [exact Hr|]. rewrite Hp. unfold collected.
  erewrite map_ext; [reflexivity|]. intros p. by rewrite He.
Qed.

(** Who is in the answer of [Subscribers]. *)
Lemma Subscribers_elem this T topic q r sub q' :
  refines this T → topic_ok topic = true → ValidQos q = true →
  memTopics_Subscribers this topic q = Ok r →
  (sub, q') ∈ r ↔ q' = q ∧ ∃ p, fmatch p (filter_path topic) = true ∧ sub ∈ map fst (T p).
Proof.
  intros Href Ht Hq Hr. destruct (Subscribers_spec _ _ topic q Href Ht Hq) as (r' & Hr' & Hp).
  rewrite Hr in Hr'. injection Hr' as <-. setoid_rewrite <-elem_of_candidates.
  rewrite Hp, list_elem_of_In, in_concat. setoid_rewrite in_map_iff. split.
  - intros (? & (p & <- & Hpin) & Hx). apply in_map_iff in Hx as ([s z] & [= <- <-] & Hs).
    split; [done|]. exists p. rewrite !list_elem_of_In, in_map_iff. split; [done|]. by exists (s, z).
  - intros (-> & p & Hpin & Hs). rewrite list_elem_of_In, in_map_iff in Hs.
    destruct Hs as ([s z] & <- & Hs). eexists. split; [exists p; split; [done|by apply list_elem_of_In]|].
    apply in_map_iff. by exists (s, z).
Qed.

(** Who receives a message.  After any history, a subscriber is in the answer
    for a topic without empty levels exactly if it is subscribed under a filter
    that matches the topic's levels by MQTT's rules. *)
Theorem Subscribers_iff_match ops topic q r sub :
  topic_ok topic = true → ValidQos q = true →
  Forall (λ l, l ≠ ""%string) (split_slash topic) →
  memTopics_Subscribers (run_impl ops) topic q = Ok r →
  (∃ q', (sub, q') ∈ r) ↔
  ∃ p, fmatch p (split_slash topic) = true ∧ sub ∈ map fst (run_spec ops p).
Proof.
  intros Ht Hq Hplain Hr.
  pose proof (λ q', Subscribers_elem _ _ topic q r sub q' (run_refines ops) Ht Hq Hr) as Hin.
  unfold filter_path in Hin. rewrite path_of_plain in Hin by done.
  setoid_rewrite Hin. naive_solver.
Qed.

Lemma remove_upsert sub q l : sub ∉ map fst l → remove_one sub (upsert sub q l) = l.
Proof.
  induction l as [|[s z] l IH]; cbn; [by rewrite decide_True|].
  rewrite not_elem_of_cons. intros [Hs Hl]. rewrite decide_False by done. cbn.
  rewrite decide_False by done. by rewrite IH.
Qed.

Lemma upsert_in sub q l : sub ∈ map fst (upsert sub q l).
Proof.
  induction l as [|[s z] l IH]; cbn; [by apply elem_of_cons; left|].
  case_decide; cbn; apply elem_of_cons; auto.
Qed.

(** Unsubscribing undoes subscribing.  A subscriber that was not under the
    filter subscribes and unsubscribes: both calls succeed, the granted QoS is the
    requested one, and every entry of the store is as before. *)
Theorem Subscribe_Unsubscribe ops topic q sub :
  topic_ok topic = true → ValidQos q = true →
  sub ∉ map fst (run_spec ops (filter_path topic)) →
  ∃ this1 this2,
    memTopics_Subscribe (run_impl ops) topic q (Some sub) = (this1, q, None) ∧
    memTopics_Unsubscribe this1 topic (Some sub) = (this2, None) ∧
    ∀ p, entries (sroot this2) p = run_spec ops p.
Proof.
  intros Ht Hq Hni. destruct (run_refines ops) as [Hwf He].
  unfold memTopics_Subscribe. rewrite Hq. cbn [negb].
  rewrite decide_False by (apply ValidQos_range in Hq; lia).
  destruct (sinsert_spec _ _ topic q sub _ Hwf (levels_ok _ Ht)) as (t1 & -> & Hw1 & Hx1).
  exists (mkMemTopics t1 (rroot (run_impl ops))). unfold memTopics_Unsubscribe. cbn [sroot rroot].
  pose proof (sremove_spec _ t1 topic (Some sub) _ Hw1 (levels_ok _ Ht)) as Hs.
  rewrite Hx1, decide_True in Hs by done. rewrite He in Hs. unfold filter_path in Hni.
  destruct (sremove (enough topic) t1 topic (Some sub)) as [t2 [e|]].
  - exfalso. destruct Hs as (_ & _ & Hs). apply (Hs sub eq_refl), upsert_in.
  - destruct Hs as (_ & Hx2 & _). eexists. split; [done|]. split; [done|]. intros p. cbn.
    rewrite Hx2. case_decide; [subst; cbn; by apply remove_upsert|].
    rewrite Hx1, decide_False by done. apply He.
Qed.

(** ** The table from filters to subscribers *)
















End Spec.

(** ** Witnesses and divergences *)

Definition sample_ops : list (topic_op (Sub := positive)) :=
  [OpSubscribe "a/+" 1 (Some 1%positive); OpSubscribe "a/#" 0 (Some 2%positive);
   OpSubscribe "c" 0 (Some 3%positive); OpUnsubscribe "c" (Some 3%positive);
   OpSubscribe "b#" 0 (Some 4%positive)].


Lemma Subscribers_iff_match_witness :
  ∃ p, fmatch p ["a"; "b"]%string = true ∧ 2%positive ∈ map fst (run_spec sample_ops p).
Proof.
  apply (Subscribers_iff_match sample_ops "a/b" 1 [(1%positive, 1); (2%positive, 1)]).
  - by vm_compute.
  - by vm_compute.
  - by repeat constructor.
  - by vm_compute.
  - exists 1. by apply elem_of_cons; right; apply elem_of_cons; left.
Defined.

Lemma Subscribe_Unsubscribe_witness :
  ∃ this1 this2,
    memTopics_Subscribe (run_impl sample_ops) "a/+" 2 (Some 7%positive) = (this1, 2, None) ∧
    memTopics_Unsubscribe this1 "a/+" (Some 7%positive) = (this2, None) ∧
    ∀ p, entries (sroot this2) p = run_spec sample_ops p.
Proof.
  apply (Subscribe_Unsubscribe sample_ops "a/+" 2 7%positive); [by vm_compute|by vm_compute|].
  apply (bool_decide_unpack _). by vm_compute.
Defined.

(** An empty level is a wildcard.  The subscriber of the filter "/a", which by
    MQTT's rules matches the topic "/a" only, receives what is published to "x/a". *)
Theorem empty_level_matches_any :
  fmatch (split_slash "/a") (split_slash "x/a") = false ∧
  memTopics_Subscribers (run_impl [OpSubscribe "/a" 0 (Some 1%positive)]) "x/a" 0
    = Ok [(1%positive, 0)].
Proof. by split; vm_compute. Qed.

(** The QoS of a subscription has no effect.  A subscriber that was granted
    QoS 0 gets a message published with QoS 2 at QoS 2, not at the minimum that the
    comment of [matchQos] asks for. *)
Theorem granted_qos_ignored :
  (memTopics_Subscribe NewMemProvider "a" 0 (Some 1%positive)).1.2 = 0 ∧
  memTopics_Subscribers (run_impl [OpSubscribe "a" 0 (Some 1%positive)]) "a" 2
    = Ok [(1%positive, 2)].
Proof. by split; vm_compute. Qed.

(** Wildcards match topics that start with "$".  The subscriber of "#" gets what
    is published to "$SYS/up", which MQTT's rules exclude: the case of
    [nextTopicLevel] for "$" is commented out. *)
Theorem dollar_topics_matched :
  mqtt_match "#" "$SYS/up" = false ∧
  memTopics_Subscribers (run_impl [OpSubscribe "#" 0 (Some 1%positive)]) "$SYS/up" 0
    = Ok [(1%positive, 0)].
Proof. by split; vm_compute. Qed.
