(* ===== verification/RetainedSpec.v ===== *)
(** * RetainedSpec: retained messages

    The tree of retained messages against the table from topic paths to
    messages: [msg_at] is the abstraction function and [rpaths] the enumeration
    of the table.  [rinsertOrUpdate] sets one entry, [rmatch] answers a filter
    with the messages of exactly the matching topics, and [rremove] clears its
    entry, and sometimes more than its entry. *)
From S2P Require Import Prelude Packets Topics TopicLevels TopicsSpec.
Local Open Scope Z_scope.

Fixpoint msg_at (t : rnode) (p : list string) : option PublishPacket :=
  match p with
  | [] => msg t
  | l :: p' => n ← rnodes t !! l; msg_at n p'
  end.

(** All retained messages with their paths. *)
Fixpoint rpaths (t : rnode) : list (list string * PublishPacket) :=
  match t with
  | RNode m children =>
      match m with Some m => [([], m)] | None => [] end
      ++ map_fold (λ k n acc, map (prod_map (cons k) id) (rpaths n) ++ acc) [] children
  end.

Lemma map_fold_concat {A B} (f : string → A → list B) (m : gmap string A) :
  map_fold (λ k a acc, f k a ++ acc) [] m = concat (map (λ '(k, a), f k a) (map_to_list m)).
Proof.
  rewrite map_fold_foldr. induction (map_to_list m) as [|[k a] l IH]; cbn; [done|]. by rewrite IH.
Qed.

Lemma rpaths_eq t :
  rpaths t = (match msg t with Some m => [([], m)] | None => [] end)
    ++ concat (map (λ '(k, n), map (prod_map (cons k) id) (rpaths n)) (map_to_list (rnodes t))).
Proof. destruct t as [m ch]. cbn [rpaths msg rnodes]. by rewrite map_fold_concat. Qed.

Lemma allRetained_eq t :
  allRetained t = option_list (msg t)
    ++ concat (map (λ '(_, n), allRetained n) (map_to_list (rnodes t))).
Proof.
  destruct t as [m ch]. cbn [allRetained msg rnodes].
  by rewrite (map_fold_concat (λ _ n, allRetained n)).
Qed.

(** The enumeration lists exactly the table. *)
Lemma elem_of_rpaths p : ∀ t m, (p, m) ∈ rpaths t ↔ msg_at t p = Some m.
Proof.
  induction p as [|l p IH]; intros t m; rewrite rpaths_eq, elem_of_app;
    rewrite (list_elem_of_In (concat _)), in_concat; setoid_rewrite in_map_iff; cbn.
  - split.
    + intros [H|(? & ([k n] & <- & _) & H)].
      * destruct (msg t); [by apply list_elem_of_singleton in H as [= ->]|by apply elem_of_nil in H].
      * apply in_map_iff in H as ([??] & [=] & _).
    + intros ->. left. by apply list_elem_of_singleton.
  - split.
    + intros [H|(? & ([k n] & <- & Hkn) & H)].
      * destruct (msg t); [by apply list_elem_of_singleton in H|by apply elem_of_nil in H].
      * apply in_map_iff in H as ([p' m'] & [= -> -> ->] & H).
        apply list_elem_of_In, elem_of_map_to_list in Hkn. rewrite Hkn. cbn.
        apply IH. by apply list_elem_of_In.
    + intros H. right. destruct (rnodes t !! l) as [n|] eqn:Hl; [|done]. cbn in H.
      eexists. split.
      * exists (l, n). split; [done|]. by apply list_elem_of_In, elem_of_map_to_list.
      * apply in_map_iff. exists (p, m). split; [done|]. by apply list_elem_of_In, IH.
Qed.

(** ** Induction on trees *)

Fixpoint rdepth (t : rnode) : nat :=
  match t with RNode _ ch => S (map_fold (λ _ n acc, rdepth n + acc)%nat O ch) end.

Lemma rdepth_child t k n : rnodes t !! k = Some n → (rdepth n < rdepth t)%nat.
Proof.
  destruct t as [m ch]. cbn. rewrite map_fold_foldr. intros Hk%elem_of_map_to_list.
  induction (map_to_list ch) as [|[k' n'] l IH]; [by apply elem_of_nil in Hk|].
  apply elem_of_cons in Hk as [[= <- <-]|Hk]; cbn; [lia|]. specialize (IH Hk). lia.
Qed.

Lemma rnode_children_ind (P : rnode → Prop) :
  (∀ t, (∀ k n, rnodes t !! k = Some n → P n) → P t) → ∀ t, P t.
Proof.
  intros H t. remember (rdepth t) as d eqn:Hd. revert t Hd.
  induction d as [d IH] using lt_wf_ind. intros t ->. apply H. intros k n Hk.
  eapply IH; [|done]. by eapply rdepth_child.
Qed.

Lemma concat_map_ext_in {A B} (f g : A → list B) l :
  (∀ x, x ∈ l → f x = g x) → concat (map f l) = concat (map g l).
Proof. intros H. f_equal. apply map_ext_in. intros x Hx. by apply H, list_elem_of_In. Qed.

Lemma map_concat_map {A B C} (h : B → C) (f : A → list B) l :
  map h (concat (map f l)) = concat (map (λ x, map h (f x)) l).
Proof. induction l; cbn; [done|]. by rewrite map_app, IHl. Qed.

Lemma allRetained_rpaths t : allRetained t = map snd (rpaths t).
Proof.
  induction t as [t IH] using rnode_children_ind. rewrite allRetained_eq, rpaths_eq, map_app.
  f_equal; [by destruct (msg t)|]. rewrite map_concat_map. apply concat_map_ext_in.
  intros [k n] Hk%elem_of_map_to_list. by rewrite (IH _ _ Hk), map_map.
Qed.

(** Every topic is listed once. *)
Lemma NoDup_rpaths t : NoDup (map fst (rpaths t)).
Proof.
  induction t as [t IH] using rnode_children_ind. rewrite rpaths_eq, map_app, map_concat_map.
  apply NoDup_app. split; [destruct (msg t); cbn; [apply NoDup_singleton|constructor]|].
  assert (Hhd : ∀ l p, p ∈ concat (map (λ x, map fst (let '(k, n) := x in
      map (prod_map (cons k) id) (rpaths n))) l) → ∃ k n p', (k, n) ∈ l ∧ p = k :: p').
  { clear. intros l p. rewrite list_elem_of_In, in_concat. intros (x & Hx & Hp).
    apply in_map_iff in Hx as ([k n] & <- & Hk). rewrite map_map in Hp.
    apply in_map_iff in Hp as ([p' m] & <- & _). exists k, n, p'. by rewrite list_elem_of_In. }
  split.
  - intros p Hp Hq. apply Hhd in Hq as (k & n & p' & _ & ->).
    destruct (msg t); cbn in Hp; [by apply list_elem_of_singleton in Hp|by apply elem_of_nil in Hp].
  - pose proof (NoDup_fst_map_to_list (rnodes t)) as Hnd.
    assert (Hc : ∀ k n, (k, n) ∈ map_to_list (rnodes t) → NoDup (map fst (rpaths n)))
      by (intros k n Hk%elem_of_map_to_list; by eapply IH).
    induction (map_to_list (rnodes t)) as [|[k n] l IHl]; cbn; [constructor|].
    cbn in Hnd. apply NoDup_cons in Hnd as [Hk Hnd].
    apply NoDup_app. split; [|split].
    + rewrite map_map.
      change (λ x, (prod_map (cons k) id x).1) with (λ x : list string * PublishPacket, k :: x.1).
      rewrite <-(map_map fst (cons k)). apply (NoDup_fmap_2 (cons k)), Hc with k. by apply elem_of_cons; left.
    + intros p Hp Hq. apply Hhd in Hq as (k' & n' & p' & Hk' & ->).
      rewrite map_map, list_elem_of_In in Hp. apply in_map_iff in Hp as ([??] & [= <- _] & _).
      apply Hk. apply list_elem_of_fmap. by exists (k, n').
    + apply IHl; [done|]. intros k' n' Hk'. apply (Hc k'). by apply elem_of_cons; right.
Qed.

(** ** Storing *)

Lemma msg_at_new p : msg_at newRNode p = None.
Proof. destruct p; [done|]. cbn. by rewrite lookup_empty. Qed.

Lemma msg_at_insert t l n p :
  msg_at (RNode (msg t) (<[l := n]> (rnodes t))) p =
    match p with
    | l' :: p' => if decide (l' = l) then msg_at n p' else msg_at t p
    | [] => msg_at t p
    end.
Proof.
  destruct p as [|l' p']; [done|]. cbn.
  case_decide; subst; [by rewrite lookup_insert_eq|by rewrite lookup_insert_ne].
Qed.

Lemma rinsertOrUpdate_spec fuel : ∀ t topic m lv,
  levels_loop fuel topic = (lv, None) →
  ∃ t', rinsertOrUpdate fuel t topic m = (t', None) ∧
    ∀ p, msg_at t' p = if decide (p = lv) then Some m else msg_at t p.
Proof.
  induction fuel as [|fuel IH]; intros t topic m lv Hlv; [done|].
  destruct (decide (topic = ""%string)) as [->|Hne].
  - rewrite levels_loop_empty in Hlv. injection Hlv as <-. cbn.
    eexists. split; [done|]. by intros [|l p].
  - apply levels_loop_step in Hlv as (l & rem & ls & Hn & Hls & ->); [|done].
    cbn [rinsertOrUpdate]. rewrite decide_False, Hn by done.
    destruct (IH (default newRNode (rnodes t !! l)) rem m ls Hls) as (n' & -> & He).
    eexists. split; [done|]. intros p. rewrite msg_at_insert.
    destruct p as [|l' p']; [by rewrite decide_False|].
    destruct (decide (l' = l)) as [->|]; [|by rewrite decide_False by congruence].
    rewrite He. destruct (decide (p' = ls)) as [->|]; [by rewrite decide_True|].
    rewrite decide_False by congruence. cbn.
    destruct (rnodes t !! l); cbn; [done|]. apply msg_at_new.
Qed.

(** ** Clearing *)

(** [rremove] clears its own entry and leaves every entry that is not on the way
    to it; an entry on the way is left or dropped. *)
Lemma rremove_spec fuel : ∀ t topic lv,
  levels_loop fuel topic = (lv, None) →
  match rremove fuel t topic with
  | (t', None) => msg_at t' lv = None
      ∧ (∀ p, ¬ p `prefix_of` lv → msg_at t' p = msg_at t p)
      ∧ (∀ p, msg_at t' p = msg_at t p ∨ msg_at t' p = None)
  | (t', Some _) => t' = t ∧ msg_at t lv = None
  end.
Proof.
  induction fuel as [|fuel IH]; intros t topic lv Hlv; [done|].
  destruct (decide (topic = ""%string)) as [->|Hne].
  - rewrite levels_loop_empty in Hlv. injection Hlv as <-. cbn. split; [done|]. split.
    + intros [|l p] Hp; [by destruct Hp; exists []|done].
    + intros [|l p]; cbn; auto.
  - apply levels_loop_step in Hlv as (l & rem & ls & Hn & Hls & ->); [|done].
    cbn [rremove]. rewrite decide_False, Hn by done.
    destruct (rnodes t !! l) as [n|] eqn:Hl; [|by cbn; rewrite Hl].
    specialize (IH n rem ls Hls). destruct (rremove fuel n rem) as [n' [e|]].
    + destruct IH as [-> Hm]. cbn. rewrite Hl. split; [|done].
      destruct t as [m ch]. cbn in *. by rewrite insert_id.
    + destruct IH as (H1 & H2 & H3).
      assert (Hup : ∀ p, ¬ l :: p `prefix_of` l :: ls → ¬ p `prefix_of` ls)
        by (intros p Hp Hc; by apply Hp, prefix_cons).
      case_decide as Hsz.
      * apply map_size_empty_inv in Hsz.
        assert (Hd : ∀ l' p', msg_at (RNode (msg t) (delete l (rnodes t))) (l' :: p')
          = if decide (l' = l) then None else msg_at t (l' :: p')).
        { intros l' p'. cbn. case_decide; subst; [by rewrite lookup_delete_eq|].
          by rewrite lookup_delete_ne. }
        split; [by rewrite Hd, decide_True|]. split.
        -- intros [|l' p'] Hp; [done|]. rewrite Hd. case_decide; [subst|done].
           cbn. rewrite Hl. cbn. rewrite <-(H2 p') by (by apply Hup).
           destruct p' as [|x p']; [by destruct Hp; exists ls|]. cbn. by rewrite Hsz, lookup_empty.
        -- intros [|l' p']; [by left|]. rewrite Hd. case_decide; auto.
      * split; [rewrite msg_at_insert, decide_True by done; exact H1|]. split.
        -- intros [|l' p'] Hp; [done|]. rewrite msg_at_insert. case_decide; [subst|done].
           rewrite H2 by (by apply Hup). cbn. by rewrite Hl.
        -- intros [|l' p']; [by left|]. rewrite msg_at_insert. case_decide; [subst|by left].
           cbn. rewrite Hl. cbn. apply H3.
Qed.

(** ** Matching *)

Lemma rfoldl_spec {A} (f : rnode → list A → result terr (list A)) (g : rnode → list A) ch : ∀ out,
  (∀ k n out, (k, n) ∈ ch → ∃ r, f n out = Ok (out ++ r) ∧ r ≡ₚ g n) →
  ∃ r, foldl (λ acc '(_, n), rbind acc (f n)) (Ok out) ch = Ok (out ++ r) ∧
    r ≡ₚ concat (map (λ e : string * rnode, g e.2) ch).
Proof.
  induction ch as [|[k n] ch IH]; intros out Hf; cbn.
  - exists []. by rewrite app_nil_r.
  - destruct (Hf k n out) as (r1 & -> & Hp1); [by apply elem_of_cons; left|].
    destruct (IH (out ++ r1)) as (r & -> & Hp);
      [by intros; eapply Hf; apply elem_of_cons; right|].
    exists (r1 ++ r). rewrite app_assoc. split; [done|]. by rewrite Hp, Hp1.
Qed.

(** The messages whose path the filter matches. *)
Definition retained_for (f : list string) (t : rnode) : list PublishPacket :=
  map snd (filter (λ e, fmatch f e.1 = true) (rpaths t)).

Lemma filter_concat {A} (P : A → Prop) `{∀ x, Decision (P x)} (l : list (list A)) :
  filter P (concat l) = concat (map (filter P) l).
Proof. induction l; cbn; [done|]. by rewrite filter_app, IHl. Qed.

Lemma filter_map_comm {A B} (P : B → Prop) (Q : A → Prop) `{∀ x, Decision (P x)}
    `{∀ x, Decision (Q x)} (h : A → B) l :
  (∀ x, P (h x) ↔ Q x) → filter P (map h l) = map h (filter Q l).
Proof.
  intros HPQ. induction l as [|x l IH]; [done|]. cbn [map]. rewrite !filter_cons.
  destruct (decide (Q x)) as [Hq|Hq].
  - rewrite decide_True by (by apply HPQ). cbn. by rewrite IH.
  - rewrite decide_False by (by rewrite HPQ). done.
Qed.

(** One level of the filter: what each child contributes. *)
Lemma retained_for_cons l f t :
  l ≠ MWC →
  retained_for (l :: f) t = concat (map (λ '(k, n),
    if decide (l = SWC ∨ l = k) then retained_for f n else []) (map_to_list (rnodes t))).
Proof.
  intros Hl. unfold retained_for. rewrite rpaths_eq, filter_app.
  assert (filter (λ e : list string * PublishPacket, fmatch (l :: f) e.1 = true)
    (match msg t with Some m => [([], m)] | None => [] end) = []) as ->.
  { destruct (msg t); [|done]. rewrite filter_cons, decide_False; [done|]. cbn.
    by rewrite bool_decide_eq_false_2. }
  cbn [app]. rewrite filter_concat, map_map, map_concat_map. apply concat_map_ext_in.
  intros [k n] _. case_decide as Hk.
  - rewrite (filter_map_comm _ (λ e, fmatch f e.1 = true)), map_map; [done|].
    intros [p m]. cbn. rewrite decide_False by done.
    assert (bool_decide (l = SWC) || bool_decide (l = k) = true) as ->; [|done].
    rewrite orb_true_iff, !bool_decide_eq_true. tauto.
  - rewrite (filter_map_comm _ (λ e, False)); [|].
    + by induction (rpaths n); [|rewrite filter_cons, decide_False by tauto].
    + intros [p m]. cbn. rewrite decide_False by done.
      rewrite !bool_decide_eq_false_2 by tauto. done.
Qed.

Lemma rmatch_spec fuel : ∀ t topic out lv,
  levels_loop fuel topic = (lv, None) → (∀ p x y, lv ≠ p ++ MWC :: x :: y) →
  ∃ r, rmatch fuel t topic out = Ok (out ++ r) ∧ r ≡ₚ retained_for lv t.
Proof.
  induction fuel as [|fuel IH]; intros t topic out lv Hlv Hlast; [done|].
  destruct (decide (topic = ""%string)) as [->|Hne].
  - rewrite levels_loop_empty in Hlv. injection Hlv as <-. cbn [rmatch].
    rewrite decide_True by done. eexists. split; [done|]. unfold retained_for.
    rewrite rpaths_eq, filter_app, map_app, filter_concat, map_map.
    assert (Hz : concat (map (λ x : string * rnode, filter (λ e, fmatch [] e.1 = true)
       (let '(k, n) := x in map (prod_map (cons k) id) (rpaths n))) (map_to_list (rnodes t))) = []).
    { induction (map_to_list (rnodes t)) as [|[k n] l IHl]; [done|]. cbn [map concat]. rewrite IHl, app_nil_r.
      by induction (rpaths n) as [|[p m] ps IHp]; [|cbn [map]; rewrite filter_cons, decide_False]. }
    rewrite Hz. destruct (msg t); [|done]. by rewrite filter_cons, decide_True.
  - apply levels_loop_step in Hlv as (l & rem & ls & Hn & Hls & ->); [|done].
    assert (Hlast' : ∀ p x y, ls ≠ p ++ MWC :: x :: y)
      by (intros p x y ->; by apply (Hlast (l :: p) x y)).
    cbn [rmatch]. rewrite decide_False, Hn by done. case_decide as Hm; [subst|].
    + destruct ls as [|x y]; [|by destruct (Hlast [] x y)].
      eexists. split; [done|]. rewrite allRetained_rpaths. unfold retained_for.
      assert (filter (λ e : list string * PublishPacket, fmatch [MWC] e.1 = true) (rpaths t)
              = rpaths t) as ->; [|done].
      induction (rpaths t) as [|[p m] ps IHp]; [done|].
      rewrite filter_cons, decide_True, IHp; [done|]. by destruct p; cbn.
    + rewrite retained_for_cons by done. case_decide as Hs.
      * destruct (rfoldl_spec (λ n, rmatch fuel n rem) (retained_for ls)
          (map_to_list (rnodes t)) out) as (r & Hr & Hp); [intros; by apply IH|].
        exists r. split; [exact Hr|]. rewrite Hp.
        erewrite concat_map_ext_in; [reflexivity|]. intros [k n] _. by rewrite decide_True by auto.
      * assert (Hc : concat (map (λ '(k, n), if decide (l = SWC ∨ l = k)
            then retained_for ls n else []) (map_to_list (rnodes t)))
          ≡ₚ match rnodes t !! l with Some n => retained_for ls n | None => [] end).
        { rewrite (concat_map_to_list (λ k n, if decide (l = SWC ∨ l = k)
            then retained_for ls n else []) [l]).
          - cbn. rewrite app_nil_r. destruct (rnodes t !! l); [|done]. by rewrite decide_True by auto.
          - apply NoDup_singleton.
          - intros k n _ Hk. rewrite decide_False; [done|]. set_solver. }
        destruct (rnodes t !! l) as [n|].
        -- destruct (IH n rem out ls Hls Hlast') as (r & Hr & Hp). exists r.
           split; [exact Hr|]. by rewrite Hp.
        -- exists []. rewrite app_nil_r. split; [done|]. by rewrite Hc.
Qed.

(** ** The store *)

Lemma level_ok_MWC more : level_ok MWC more = negb more.
Proof. by destruct more. Qed.

(** In a well-formed filter "#" is the last level. *)
Lemma path_of_last parts : parts_ok parts = true → ∀ p x y, path_of parts ≠ p ++ MWC :: x :: y.
Proof.
  induction parts as [|a parts IH]; intros Hok p x y; cbn in *; [by destruct p|].
  apply andb_true_iff in Hok as [Ha Hok]. specialize (IH Hok).
  destruct parts as [|b parts].
  { intros Hc%(f_equal length). rewrite length_app in Hc. case_decide; cbn in Hc; lia. }
  rewrite bool_decide_eq_true_2 in Ha by done.
  destruct p as [|c p]; intros [= Hc Hp]; [|by apply (IH p x y)].
  unfold level_key in Hc. destruct (decide (a = ""%string)); [discriminate Hc|]. subst. by rewrite level_ok_MWC in Ha.
Qed.

(** What [Retained] answers on the paths of the tree: the messages of the paths
    the filter's path matches, each once. *)
Lemma Retained_paths {Sub} (this : memTopics Sub) f msgs :
  topic_ok f = true →
  ∃ r, memTopics_Retained this f msgs = Ok (msgs ++ r) ∧
    r ≡ₚ map snd (filter (λ e, fmatch (filter_path f) e.1 = true) (rpaths (rroot this))).
Proof.
  intros Hf. destruct (rmatch_spec _ (rroot this) f msgs _ (levels_ok _ Hf)) as (r & Hr & Hp);
    [by apply path_of_last|]. by exists r.
Qed.

(** Storing a retained message.  A message with a payload becomes the retained
    message of its topic; the messages of all other topics and all subscriptions
    are untouched. *)
Theorem Retain_stores {Sub} (this : memTopics Sub) m :
  topic_ok (pub_TopicName m) = true → pub_Payload m ≠ [] →
  ∃ root, memTopics_Retain this m = (mkMemTopics (sroot this) root, None) ∧
    ∀ p, msg_at root p = if decide (p = filter_path (pub_TopicName m)) then Some m
                         else msg_at (rroot this) p.
Proof.
  intros Ht Hpl. unfold memTopics_Retain.
  destruct (rinsertOrUpdate_spec _ (rroot this) _ m _ (levels_ok _ Ht)) as (t' & He & Hm).
  exists t'. destruct (pub_Payload m); [done|]. by rewrite He.
Qed.

(** Clearing a retained message.  A message with an empty payload leaves its
    topic without a retained message, and every topic that is not a prefix of it
    as it was; a prefix keeps its message or loses it.  When there is nothing to
    clear the store is unchanged. *)
Theorem Retain_clears {Sub} (this : memTopics Sub) m :
  topic_ok (pub_TopicName m) = true → pub_Payload m = [] →
  let '(this', err) := memTopics_Retain this m in
  sroot this' = sroot this
  ∧ msg_at (rroot this') (filter_path (pub_TopicName m)) = None
  ∧ (∀ p, ¬ p `prefix_of` filter_path (pub_TopicName m) →
       msg_at (rroot this') p = msg_at (rroot this) p)
  ∧ (∀ p, msg_at (rroot this') p = msg_at (rroot this) p ∨ msg_at (rroot this') p = None)
  ∧ (is_Some err → this' = this).
Proof.
  intros Ht Hpl. unfold memTopics_Retain. rewrite Hpl.
  pose proof (rremove_spec _ (rroot this) _ _ (levels_ok _ Ht)) as Hs.
  destruct (rremove _ (rroot this) (pub_TopicName m)) as [t' [e|]]; cbn.
  - destruct Hs as [-> Hm]. split; [done|]. split; [done|]. split; [done|].
    split; [by left|]. by destruct this.
  - destruct Hs as (H1 & H2 & H3). do 4 (split; [done|]). by intros [? ?].
Qed.

Definition retained (topic payload : string) : PublishPacket :=
  mkPublish (Wire.mkFixedHeader Publish false 0 true 0) topic 0 (bytes_of payload).

Definition retain_all (ms : list PublishPacket) : memTopics positive :=
  foldl (λ this m, (memTopics_Retain this m).1) NewMemProvider ms.

(** ** The table from topics to retained messages *)

(** What the calls mean: a message is kept under its topic, one without a payload
    removes what is kept. *)
Definition retain_spec (M : gmap string PublishPacket) (m : PublishPacket) :
    gmap string PublishPacket :=
  match pub_Payload m with
  | [] => delete (pub_TopicName m) M
  | _ => <[pub_TopicName m := m]> M
  end.

Definition retained_table (ms : list PublishPacket) : gmap string PublishPacket :=
  foldl retain_spec ∅ ms.

(** A topic name as MQTT has it: well-formed, without empty levels, not a "$"
    topic. *)
Definition plain_name (t : string) : bool := topic_ok t && plain t && negb (has_prefix t "$").

(** No topic of [ms] lies above one that [m] clears. *)
Definition clears_apart (ms : list PublishPacket) (m : PublishPacket) : Prop :=
  pub_Payload m = [] → ∀ m', m' ∈ ms →
    split_slash (pub_TopicName m') `prefix_of` split_slash (pub_TopicName m) →
    pub_TopicName m' = pub_TopicName m.

(** The tree holds the messages of the table, each at the levels of its topic. *)
Definition holds_table (t : rnode) (M : gmap string PublishPacket) : Prop :=
  ∀ p m, msg_at t p = Some m ↔ ∃ topic, M !! topic = Some m ∧ p = split_slash topic.

Lemma plain_name_path t :
  plain_name t = true → topic_ok t = true ∧ filter_path t = split_slash t ∧ has_prefix t "$" = false.
Proof.
  unfold plain_name. rewrite !andb_true_iff, negb_true_iff. intros [[Ht Hp] Hd].
  split; [done|]. split; [|done]. by apply plain_path.
Qed.

Lemma holds_stored {Sub} (this : memTopics Sub) M m :
  holds_table (rroot this) M → plain_name (pub_TopicName m) = true → pub_Payload m ≠ [] →
  holds_table (rroot (memTopics_Retain this m).1) (<[pub_TopicName m := m]> M).
Proof.
  intros HM (Ht & Hpath & _)%plain_name_path Hpl.
  destruct (Retain_stores this m Ht Hpl) as (root & -> & Hm). rewrite Hpath in Hm.
  intros p m'. cbn. rewrite Hm. case_decide as Hp; [subst|rewrite (HM p m')]; split.
  - intros [= <-]. exists (pub_TopicName m). by rewrite lookup_insert_eq.
  - intros (t & Hl & Heq%split_slash_inj). subst. by rewrite lookup_insert_eq in Hl.
  - intros (t & Hl & ->). exists t. by rewrite lookup_insert_ne by (by intros <-).
  - intros (t & Hl & ->). exists t. by rewrite lookup_insert_ne in Hl by (by intros <-).
Qed.

Lemma holds_cleared {Sub} (this : memTopics Sub) M m :
  holds_table (rroot this) M → plain_name (pub_TopicName m) = true → pub_Payload m = [] →
  (∀ t, is_Some (M !! t) → split_slash t `prefix_of` split_slash (pub_TopicName m) →
        t = pub_TopicName m) →
  holds_table (rroot (memTopics_Retain this m).1) (delete (pub_TopicName m) M).
Proof.
  intros HM (Ht & Hpath & _)%plain_name_path Hpl Hap.
  pose proof (Retain_clears this m Ht Hpl) as Hc. rewrite Hpath in Hc.
  destruct (memTopics_Retain this m) as [this' err]. destruct Hc as (_ & H1 & H2 & H3 & _).
  intros p m'. cbn [fst]. split.
  - intros Hm. assert (Hm0 : msg_at (rroot this) p = Some m') by (destruct (H3 p); congruence).
    apply HM in Hm0 as (t & Hl & ->). exists t. rewrite lookup_delete_ne; [done|].
    intros <-. congruence.
  - intros (t & [Hne Hl]%lookup_delete_Some & ->).
    rewrite H2; [by apply HM; exists t|]. intros Hp. destruct Hne. symmetry. by apply Hap.
Qed.

Lemma retained_table_elem ms t m : retained_table ms !! t = Some m → m ∈ ms ∧ pub_TopicName m = t.
Proof.
  unfold retained_table. induction ms as [|m' ms IH] using rev_ind; [done|].
  rewrite foldl_app, elem_of_app. cbn. unfold retain_spec at 1.
  destruct (pub_Payload m') eqn:Hp.
  - intros [_ Hl]%lookup_delete_Some. naive_solver.
  - intros [[<- <-]|[_ Hl]]%lookup_insert_Some; [|naive_solver].
    split; [right; by apply list_elem_of_singleton|done].
Qed.

Lemma retain_all_holds ms :
  Forall (λ m, plain_name (pub_TopicName m) = true ∧ clears_apart ms m) ms →
  holds_table (rroot (retain_all ms)) (retained_table ms).
Proof.
  intros Hall. assert (Hgen : ∀ ms1 ms2, ms = ms1 ++ ms2 →
    holds_table (rroot (retain_all ms1)) (retained_table ms1)).
  { induction ms1 as [|m ms1 IH] using rev_ind; intros ms2 ->.
    - intros p m. rewrite msg_at_new. split; [done|]. by intros (? & ? & _).
    - specialize (IH (m :: ms2) ltac:(by rewrite <-app_assoc)).
      unfold retain_all, retained_table. rewrite !foldl_app. cbn. unfold retain_spec at 1.
      apply Forall_app in Hall as [[_ [Hm _]%Forall_cons]%Forall_app _].
      destruct Hm as [Hn Hap]. destruct (pub_Payload m) eqn:Hp.
      + apply holds_cleared; [done..|]. intros t [m' [Hin <-]%retained_table_elem] Hpre.
        apply Hap; [done| |done]. set_solver.
      + apply holds_stored; [done|done|]. by rewrite Hp. }
  apply (Hgen ms []). by rewrite app_nil_r.
Qed.

(** C30: What a new subscriber is sent.  Take any sequence of [Retain] calls from
    the empty store, for topics without empty levels that do not start with "$",
    in which no topic above a cleared one is used (see [clearing_drops_parent]).
    For every well-formed filter without empty levels [Retained] appends, in some
    order, the last message retained for each topic that the filter matches by
    MQTT's rules, once, and nothing else; it does not fail. *)
Theorem Retained_matches ms f msgs :
  Forall (λ m, plain_name (pub_TopicName m) = true ∧ clears_apart ms m) ms →
  topic_ok f = true → plain f = true →
  ∃ r, memTopics_Retained (retain_all ms) f msgs = Ok (msgs ++ r) ∧
    r ≡ₚ map snd (filter (λ e, mqtt_match f e.1 = true) (map_to_list (retained_table ms))).
Proof.
  intros Hms Hf Hpf. destruct (Retained_paths (retain_all ms) f msgs Hf) as (r & Hr & Hp).
  exists r. split; [done|]. rewrite Hp. unfold filter_path. rewrite plain_path by done.
  pose proof (retain_all_holds ms Hms) as Hh.
  set (R := filter _ (rpaths _)). set (L := filter _ (map_to_list _)).
  assert (HR : R ≡ₚ map (prod_map split_slash id) L).
  { apply NoDup_Permutation.
    - apply NoDup_filter. eapply NoDup_fmap_1, NoDup_rpaths.
    - apply (NoDup_fmap_2 _), NoDup_filter, NoDup_map_to_list.
    - intros [p m]. subst R L. rewrite list_elem_of_filter, elem_of_rpaths, (Hh p m).
      rewrite (list_elem_of_fmap (prod_map split_slash id)).
      setoid_rewrite list_elem_of_filter. split.
      + intros [Hm (t & Hl & ->)]. exists (t, m). cbn in *.
        rewrite elem_of_map_to_list, mqtt_match_plain; [done|].
        destruct (retained_table_elem _ _ _ Hl) as [Hin <-].
        rewrite Forall_forall in Hms. by destruct (Hms m Hin) as [(_ & _ & ?)%plain_name_path _].
      + intros ([t m'] & [= -> ->] & Hm & Hl%elem_of_map_to_list). cbn in *.
        unfold mqtt_match in Hm. apply andb_true_iff in Hm as [Hm _]. by eauto. }
  rewrite (Permutation_map snd HR), map_map. by erewrite map_ext; [|by intros [? ?]].
Qed.

Lemma Retained_matches_witness :
  ∃ r, memTopics_Retained
         (retain_all [retained "a" "1"; retained "a/b" "2"; retained "c/d" "3"; retained "c/d" ""])
         "a/#" [] = Ok r
    ∧ length r = 2%nat.
Proof.
  destruct (Retained_matches
    [retained "a" "1"; retained "a/b" "2"; retained "c/d" "3"; retained "c/d" ""] "a/#" [])
    as (r & Hr & Hp); [|by vm_compute|by vm_compute|].
  - apply Forall_forall. intros m Hm. rewrite !elem_of_cons, elem_of_nil in Hm.
    split; [by destruct Hm as [->|[->|[->|[->|[]]]]]|].
    intros He m' Hm' Hpre. rewrite !elem_of_cons, elem_of_nil in Hm'.
    destruct Hm as [->|[->|[->|[->|[]]]]]; try discriminate He.
    destruct Hm' as [->|[->|[->|[->|[]]]]]; try done;
      by apply (bool_decide_pack _) in Hpre; vm_compute in Hpre.
  - exists r. split; [exact Hr|]. rewrite Hp. by vm_compute.
Defined.

Lemma Retain_stores_witness :
  ∃ root, memTopics_Retain (retain_all []) (retained "a/b" "2")
      = (mkMemTopics newSNode root, None) ∧
    msg_at root ["a"; "b"]%string = Some (retained "a/b" "2").
Proof.
  destruct (Retain_stores (retain_all []) (retained "a/b" "2")) as (root & Hr & Hm);
    [by vm_compute|done|].
  exists root. split; [exact Hr|]. rewrite Hm. by vm_compute.
Defined.

Lemma Retain_clears_witness :
  msg_at (rroot (memTopics_Retain (retain_all [retained "a/b" "2"; retained "c" "3"])
            (retained "a/b" "")).1) ["c"]%string = Some (retained "c" "3").
Proof.
  pose proof (Retain_clears (retain_all [retained "a/b" "2"; retained "c" "3"])
    (retained "a/b" "") ltac:(by vm_compute) eq_refl) as H.
  destruct (memTopics_Retain _ _) as [this' err]. destruct H as (_ & _ & H & _).
  cbn [fst]. rewrite H; [by vm_compute|]. by apply (bool_decide_unpack _); vm_compute.
Defined.

(** Clearing a topic can lose the retained message of a shorter one.  With
    messages retained for "a" and "a/b", clearing "a/b" also drops the message of
    "a": [rremove] unlinks a node without children even if it holds a message. *)
Theorem clearing_drops_parent :
  memTopics_Retained (retain_all [retained "a" "1"; retained "a/b" "2"]) "a" []
    = Ok [retained "a" "1"] ∧
  memTopics_Retained (retain_all [retained "a" "1"; retained "a/b" "2"; retained "a/b" ""]) "a" []
    = Ok [].
Proof. by split; vm_compute. Qed.
