(* ===== verification/Acl.v ===== *)
(** * Acl: access control and authentication

    Models [src/model/acl.go] (the rules and their topic matching),
    [src/acl/etcdacl.go] and [src/acl/sort.go] (the rule store and its decision)
    and [src/auth/etcdauth.go] (the user store).  Go iterates a map in any order
    and [sort.Sort] is not stable, so the decision is stated for every list that
    [sortByPriority] may return ([sorted_rules]); [sortByPriority] itself returns
    one of them. *)
From S2P Require Import Prelude TopicLevels.
Local Open Scope Z_scope.

(** ** Rules *)

Record Acl := mkAcl {
  acl_ID : string;
  acl_Priority : Z;
  acl_Topic : string;
  acl_Classify : string;
  acl_Type : string;
  acl_Value : string;
  acl_Action : string;
  acl_CreateAt : Z
}.

Inductive split_error := ErrIndexHash | ErrIndexSlashes | ErrIndexPlus | ErrPublishWildcard.

(** The loops over [re]: the middle parts are checked, an empty first or last part
    becomes "/".  [i] and [n] are the index and [len(re)]. *)
Fixpoint sub_split_loop (i n : nat) (re : list string) : result split_error (list string) :=
  match re with
  | [] => Ok []
  | v :: re' =>
      if decide (i ≠ O ∧ i ≠ (n - 1)%nat) then
        if decide (v = ""%string) then Err ErrIndexSlashes
        else if contains_byte PLUS v && negb (bool_decide (v = "+"%string)) then Err ErrIndexPlus
        else rbind (sub_split_loop (S i) n re') (λ r, Ok (v :: r))
      else rbind (sub_split_loop (S i) n re')
             (λ r, Ok ((if decide (v = ""%string) then "/"%string else v) :: r))
  end.

Definition SubscribeTopicSpilt (topic : string) : result split_error (list string) :=
  if (match index_byte HASH topic with
      | Some i => bool_decide (Z.of_nat i ≠ Z.of_nat (String.length topic) - 1)
      | None => false
      end)
  then Err ErrIndexHash
  else let re := split_slash topic in sub_split_loop O (length re) re.

Fixpoint pub_split_loop (i n : nat) (re : list string) : result split_error (list string) :=
  match re with
  | [] => Ok []
  | v :: re' =>
      if decide (v = ""%string) then
        if decide (i ≠ O ∧ i ≠ (n - 1)%nat) then Err ErrIndexSlashes
        else rbind (pub_split_loop (S i) n re') (λ r, Ok ("/"%string :: r))
      else rbind (pub_split_loop (S i) n re') (λ r, Ok (v :: r))
  end.

Definition PublishTopicSpilt (topic : string) : result split_error (list string) :=
  if contains_byte HASH topic || contains_byte PLUS topic then Err ErrPublishWildcard
  else let re := split_slash topic in pub_split_loop O (length re) re.

(** [x, _ := f()]: the nil slice on an error. *)
Definition or_nil {E} (r : result E (list string)) : list string :=
  match r with Ok l => l | Err _ => [] end.

(** The loops [for i, t := range dest]; [same t x] is the test that goes on. *)
Fixpoint match_loop (same : string → string → bool) (topic : list string) (i : nat)
    (dest : list string) : bool :=
  match dest with
  | [] => true
  | t :: dest' =>
      match topic !! i with
      | None => false
      | Some x =>
          if decide (t = "#"%string) then true
          else if same t x then match_loop same topic (S i) dest' else false
      end
  end.

Definition pub_same (t x : string) : bool := bool_decide (t = "+"%string) || bool_decide (t = x).
Definition sub_same (t x : string) : bool :=
  bool_decide (t = "+"%string) || bool_decide ("+"%string = x) || bool_decide (t = x).

Definition pubTopicMatch (pub des : string) : bool :=
  let dest := or_nil (SubscribeTopicSpilt des) in
  let topic := or_nil (PublishTopicSpilt pub) in
  match_loop pub_same topic O dest.

Definition subTopicMatch (pub des : string) : bool :=
  let dest := or_nil (SubscribeTopicSpilt des) in
  let topic := or_nil (SubscribeTopicSpilt pub) in
  match_loop sub_same topic O dest.

Definition CheckAuth (a : Acl) (classify : string) : bool :=
  if decide (classify = "pub"%string) then bool_decide (acl_Action a = "allow"%string)
  else if decide (classify = "sub"%string) then bool_decide (acl_Action a = "allow"%string)
  else false.

(** The two results: whether the rule applies, and what it says. *)
Definition check_topic (a : Acl) (classify topic des : string) : bool * bool :=
  if decide (classify = "pub"%string) then
    if pubTopicMatch topic des then (true, CheckAuth a "pub") else (false, false)
  else if decide (classify = "sub"%string) then
    if subTopicMatch topic des then (true, CheckAuth a "sub") else (false, false)
  else (false, false).

Definition value_is (a : Acl) (v : string) : bool :=
  bool_decide (acl_Value a = "*"%string) || bool_decide (acl_Value a = v).

Definition CheckWithClientID (a : Acl) (classify clientid topic : string) : bool * bool :=
  if value_is a clientid
  then check_topic a classify topic (replace_all (acl_Topic a) "%c" clientid)
  else (false, false).

Definition CheckWithUsername (a : Acl) (classify username topic : string) : bool * bool :=
  if value_is a username
  then check_topic a classify topic (replace_all (acl_Topic a) "%u" username)
  else (false, false).

Definition CheckWithIP (a : Acl) (classify ip topic : string) : bool * bool :=
  if value_is a ip then check_topic a classify topic (acl_Topic a) else (false, false).

(** ** The rule store *)

Definition etcdAcl : Type := gmap string Acl.

Definition NewEtcdAcl : etcdAcl := ∅.

(** [None] is a nil map. *)
Definition Acl_Load (a : etcdAcl) (acls : option (gmap string Acl)) : etcdAcl :=
  match acls with None => a | Some m => m end.

Definition GetAcl (a : etcdAcl) (id : string) : option Acl := a !! id.
Definition AddOrUpdateAcl (a : etcdAcl) (acl : Acl) : etcdAcl := <[acl_ID acl := acl]> a.
Definition RemoveAcl (a : etcdAcl) (id : string) : etcdAcl :=
  match a !! id with Some _ => delete id a | None => a end.

(** [Less(i, j)] is [a[i].Priority > a[j].Priority]. *)
Definition not_after (x y : Acl) : Prop := acl_Priority y ≤ acl_Priority x.

#[export] Instance not_after_dec : RelDecision not_after.
Proof. intros x y. unfold not_after. apply _. Defined.
#[export] Instance not_after_total : Total not_after.
Proof. intros x y. unfold not_after. lia. Qed.
#[export] Instance not_after_trans : Transitive not_after.
Proof. intros x y z. unfold not_after. lia. Qed.

Definition rules_of (classify : string) (acls : etcdAcl) : list Acl :=
  filter (λ a, acl_Classify a = classify) (map snd (map_to_list acls)).

Definition sortByPriority (classify : string) (acls : etcdAcl) : list Acl :=
  merge_sort not_after (rules_of classify acls).

(** The lists [sortByPriority] may return. *)
Definition sorted_rules (classify : string) (acls : etcdAcl) (l : list Acl) : Prop :=
  l ≡ₚ rules_of classify acls ∧ Sorted not_after l.

(** One rule of the loop of [CheckAcl], by its type. *)
Definition check_rule (a : Acl) (classify clientid username ip topic : string) : bool * bool :=
  if decide (acl_Type a = "clientid"%string) then CheckWithClientID a classify clientid topic
  else if decide (acl_Type a = "username"%string) then CheckWithUsername a classify username topic
  else if decide (acl_Type a = "ip"%string) then CheckWithIP a classify ip topic
  else (false, false).

Fixpoint CheckAcl_loop (acls : list Acl) (classify clientid username ip topic : string) : bool :=
  match acls with
  | [] => false
  | a :: acls' =>
      let '(hit, auth) := check_rule a classify clientid username ip topic in
      if hit then auth else CheckAcl_loop acls' classify clientid username ip topic
  end.

Definition CheckAcl (a : etcdAcl) (classify clientid username ip topic : string) : bool :=
  CheckAcl_loop (sortByPriority classify a) classify clientid username ip topic.

(** ** Users *)

Record User := mkUser {
  user_ClientID : string;
  user_Name : string;
  user_Role : Z;
  user_Password : string;
  user_CreateAt : Z
}.

Definition etcdAuth : Type := gmap string User.

Definition GetUser (a : etcdAuth) (name : string) : option User := a !! name.
Definition AddOrUpdateUser (a : etcdAuth) (u : User) : etcdAuth := <[user_Name u := u]> a.
Definition RemoveUser (a : etcdAuth) (u : User) : etcdAuth :=
  match a !! user_Name u with Some _ => delete (user_Name u) a | None => a end.
Definition Auth_Load (a : etcdAuth) (users : option (gmap string User)) : etcdAuth :=
  match users with None => a | Some m => m end.

(** Package [bcrypt]: the hash of a password, for the salt that is drawn and the cost, and
    whether the comparison with a hash gives no error. *)
Class Bcrypt := {
  GenerateFromPassword : list byte → list byte → Z → option (list byte);
  CompareHashAndPassword : list byte → list byte → bool
}.
(** A password agrees with its hash, whatever the salt was. *)
Class BcryptLaws `{Bcrypt} :=
  compare_generated salt pwd cost hash : GenerateFromPassword salt pwd cost = Some hash → CompareHashAndPassword hash pwd = true.
Definition MinCost : Z := 4.

Section Connect.
Context `{Bcrypt}.

(** [src/utils/bcrypt.go]. *)
Definition HashSaltPassword (salt : list byte) (pwdStr : string) : option string :=
  string_of <$> GenerateFromPassword salt (bytes_of pwdStr) MinCost.
Definition ComparePassword (hashedPwd plainPwd : string) : bool :=
  CompareHashAndPassword (bytes_of hashedPwd) (bytes_of plainPwd).

Lemma hashed_compares `{!BcryptLaws} salt pwd hash : HashSaltPassword salt pwd = Some hash → ComparePassword hash pwd = true.
Proof.
  unfold HashSaltPassword, ComparePassword. destruct (GenerateFromPassword _ _ _) as [h|] eqn:Hg; [|done]. cbn.
  intros [= <-]. rewrite bytes_of_string_of. by eapply compare_generated.
Qed.

Definition CheckConnect (a : etcdAuth) (clientID username password : string) : bool :=
  match GetUser a username with
  | None => false
  | Some user =>
      if negb (bool_decide (user_ClientID user = ""%string))
         && negb (bool_decide (user_ClientID user = clientID))
      then false
      else ComparePassword (user_Password user) password
  end.
End Connect.

(** ** The decision *)

Definition applies (classify clientid username ip topic : string) (a : Acl) : bool :=
  (check_rule a classify clientid username ip topic).1.

Lemma check_topic_auth a classify topic des :
  (check_topic a classify topic des).1 = true →
  (check_topic a classify topic des).2 = bool_decide (acl_Action a = "allow"%string).
Proof. unfold check_topic, CheckAuth. by repeat case_match. Qed.

Lemma check_rule_auth a classify clientid username ip topic :
  applies classify clientid username ip topic a = true →
  (check_rule a classify clientid username ip topic).2
    = bool_decide (acl_Action a = "allow"%string).
Proof.
  unfold applies, check_rule, CheckWithClientID, CheckWithUsername, CheckWithIP.
  destruct (decide (acl_Type a = "clientid"%string));
    [|destruct (decide (acl_Type a = "username"%string));
      [|destruct (decide (acl_Type a = "ip"%string)); [|done]]];
    (destruct (value_is a _); [apply check_topic_auth|done]).
Qed.

Lemma sortByPriority_sorted classify acls :
  sorted_rules classify acls (sortByPriority classify acls).
Proof.
  split; [apply merge_sort_Permutation|]. apply Sorted_merge_sort. apply _.
Qed.

(** The first applying rule decides, and no applying rule of a sorted list has a
    higher priority than it. *)
Lemma CheckAcl_loop_spec l classify clientid username ip topic :
  Sorted not_after l →
  match list_find (λ a, applies classify clientid username ip topic a = true) l with
  | None => CheckAcl_loop l classify clientid username ip topic = false
  | Some (_, a) =>
      CheckAcl_loop l classify clientid username ip topic
        = bool_decide (acl_Action a = "allow"%string)
      ∧ ∀ b, b ∈ l → applies classify clientid username ip topic b = true →
          acl_Priority b ≤ acl_Priority a
  end.
Proof.
  intros Hs. apply Sorted_StronglySorted in Hs; [|apply _].
  induction Hs as [|a l Hs IH Ha]; [done|]. cbn [CheckAcl_loop list_find].
  rewrite Forall_forall in Ha.
  pose proof (check_rule_auth a classify clientid username ip topic) as Hau. unfold applies in Hau.
  assert (Happ : applies classify clientid username ip topic a
    = (check_rule a classify clientid username ip topic).1) by done.
  destruct (check_rule a classify clientid username ip topic) as [hit auth]. cbn in Hau, Happ.
  destruct hit; [rewrite decide_True by done|rewrite decide_False by congruence].
  - split; [by apply Hau|].
    intros b [->|Hb]%elem_of_cons _; [lia|]. specialize (Ha b Hb). unfold not_after in Ha. lia.
  - destruct (list_find _ l) as [[i c]|]; cbn; [|done]. destruct IH as [IH1 IH2].
    split; [done|]. intros b [->|Hb]%elem_of_cons Hbapp; [congruence|]. by apply IH2.
Qed.

Lemma elem_of_rules_of classify store a :
  a ∈ rules_of classify store ↔ acl_Classify a = classify ∧ ∃ id, store !! id = Some a.
Proof.
  unfold rules_of. rewrite list_elem_of_filter, (list_elem_of_fmap snd). split.
  - intros (Hc & [id x] & -> & Hx%elem_of_map_to_list). eauto.
  - intros (Hc & id & Hid). split; [done|]. exists (id, a). split; [done|].
    by apply elem_of_map_to_list.
Qed.

(** A rule of the store that a request falls under. *)
Definition applying (store : etcdAcl) (classify clientid username ip topic : string) (a : Acl) : Prop :=
  (∃ id, store !! id = Some a) ∧ acl_Classify a = classify
  ∧ applies classify clientid username ip topic a = true.

(** An applying rule that no applying rule has a higher priority than. *)
Definition top_rule (store : etcdAcl) (classify clientid username ip topic : string) (a : Acl) : Prop :=
  applying store classify clientid username ip topic a
  ∧ ∀ b, applying store classify clientid username ip topic b → acl_Priority b ≤ acl_Priority a.

(** C29: The access decision.  Whatever order sorting by priority leaves rules of
    equal priority in: a request to which no rule of its class applies is denied;
    otherwise the decision is the action of an applying rule that no applying rule
    has a higher priority than.  So where the applying rules of the highest
    priority agree, the request is allowed exactly if they say "allow". *)
Theorem CheckAcl_highest_priority store l classify clientid username ip topic :
  sorted_rules classify store l →
  let allowed := CheckAcl_loop l classify clientid username ip topic in
  let top := top_rule store classify clientid username ip topic in
  ((∀ a, ¬ applying store classify clientid username ip topic a) → allowed = false)
  ∧ (∀ a, applying store classify clientid username ip topic a →
       ∃ d, top d ∧ allowed = bool_decide (acl_Action d = "allow"%string))
  ∧ ((∀ a b, top a → top b → acl_Action a = acl_Action b) →
       allowed = true ↔ ∃ a, top a ∧ acl_Action a = "allow"%string).
Proof.
  intros [Hp Hs] allowed top.
  assert (Happ : ∀ a, a ∈ l ∧ applies classify clientid username ip topic a = true ↔
    applying store classify clientid username ip topic a).
  { intros a. unfold applying. rewrite Hp, elem_of_rules_of. tauto. }
  pose proof (CheckAcl_loop_spec l classify clientid username ip topic Hs) as Hl. fold allowed in Hl.
  destruct (list_find _ l) as [[i d]|] eqn:Hf.
  - destruct Hl as [-> Hmax]. apply list_find_Some in Hf as (Hi & Hd & _).
    apply list_elem_of_lookup_2 in Hi.
    assert (Htop : top d) by (split; [by apply Happ|]; intros b [Hb Hb']%Happ; by apply Hmax).
    split; [intros Hno; by destruct (Hno d), Htop|]. split; [by intros a _; exists d|].
    intros Hagree. rewrite bool_decide_eq_true. split; [by exists d|].
    intros (a & Ha & <-). by apply Hagree.
  - assert (Hno : ∀ a, ¬ applying store classify clientid username ip topic a).
    { intros a [Ha Ha']%Happ. apply list_find_None in Hf. rewrite Forall_forall in Hf.
      by apply (Hf a Ha). }
    rewrite Hl. split; [done|]. split; [by intros a ?%Hno|]. intros _. split; [done|].
    intros (a & [Ha _] & _). by apply Hno in Ha.
Qed.

(** ** What a rule covers *)

Lemma match_loop_drop same topic : ∀ dest i,
  match_loop same topic i dest = match_loop same (drop i topic) O dest.
Proof.
  assert (H : ∀ dest i j tp, drop i topic = drop j tp →
    match_loop same topic i dest = match_loop same tp j dest).
  { induction dest as [|t dest IH]; intros i j tp Hd; cbn; [done|].
    assert (Hl : topic !! i = tp !! j).
    { pose proof (lookup_drop topic i O) as H1. pose proof (lookup_drop tp j O) as H2.
      rewrite Nat.add_0_r in H1, H2. congruence. }
    rewrite Hl. destruct (tp !! j) as [x|]; [|done]. case_decide; [done|].
    destruct (same t x); [|done].
    apply IH. apply (f_equal (drop 1)) in Hd. rewrite !drop_drop, !Nat.add_1_r in Hd. done. }
  intros dest i. apply H. by rewrite drop_0.
Qed.

Lemma match_loop_covers dest : ∀ topic,
  (∀ p x y, dest ≠ p ++ "#"%string :: x :: y) →
  match_loop pub_same topic O dest = true ↔
  (length dest ≤ length topic)%nat ∧ fmatch dest (take (length dest) topic) = true.
Proof.
  induction dest as [|t dest IH]; intros topic Hlast; cbn [match_loop].
  { rewrite take_0. cbn. split; [split; [lia|done]|done]. }
  destruct topic as [|x topic]; cbn [lookup list_lookup].
  { cbn. split; [done|]. intros [? _]. lia. }
  assert (Hlast' : ∀ p x y, dest ≠ p ++ "#"%string :: x :: y)
    by (intros p a b ->; by apply (Hlast (t :: p) a b)).
  rewrite match_loop_drop. cbn [drop]. change "#"%string with Topics.MWC in *.
  cbn [length take fmatch]. rewrite drop_0.
  destruct (decide (t = Topics.MWC)) as [->|Ht].
  - destruct dest as [|a b]; [|by destruct (Hlast [] a b)]. cbn. split; [split; [lia|done]|done].
  - unfold pub_same at 1. change "+"%string with Topics.SWC.
    destruct (bool_decide (t = Topics.SWC) || bool_decide (t = x)); cbn [andb].
    + rewrite IH by done. split; intros [??]; (split; [lia|done]).
    + split; [done|]. by intros [_ ?].
Qed.

(** "#" followed by another level is not at the end of the string. *)
Lemma index_byte_app c a b i : index_byte c (a ++ String c b) = Some i → (i ≤ String.length a)%nat.
Proof.
  revert i. induction a as [|x a IH]; intros i.
  - change (("" ++ String c b)%string) with (String c b). cbn. rewrite decide_True by done.
    intros [= <-]. lia.
  - change ((String x a ++ String c b)%string) with (String x (a ++ String c b)). cbn.
    case_decide; [intros [= <-]; lia|].
    destruct (index_byte c (a ++ String c b)) as [j|]; [|done].
    intros [= <-]. specialize (IH j eq_refl). lia.
Qed.

Lemma index_byte_app_some c a b : is_Some (index_byte c (a ++ String c b)).
Proof.
  induction a as [|x a [j Hj]].
  - change (("" ++ String c b)%string) with (String c b). cbn. by rewrite decide_True.
  - change ((String x a ++ String c b)%string) with (String x (a ++ String c b)). cbn.
    case_decide; [done|]. by rewrite Hj.
Qed.

Lemma join_slash_app p : ∀ a l, ∃ s, join_slash (p ++ a :: l) = (s ++ join_slash (a :: l))%string.
Proof.
  induction p as [|x p IH]; intros a l; [by exists ""%string|].
  destruct (IH a l) as [s Hs]. exists (x ++ String SLASH s)%string.
  cbn [app join_slash]. destruct (p ++ a :: l) eqn:Hp; [by destruct p|].
  rewrite Hs, append_assoc. done.
Qed.

Lemma hash_last s p x y :
  (match index_byte HASH s with
   | Some i => bool_decide (Z.of_nat i ≠ Z.of_nat (String.length s) - 1)
   | None => false
   end) = false → split_slash s ≠ p ++ "#"%string :: x :: y.
Proof.
  intros Hi Hs. destruct (join_slash_app p "#" (x :: y)) as [a Ha].
  rewrite <-Hs, join_split in Ha. cbn [join_slash] in Ha.
  set (rest := join_slash (x :: y)) in Ha.
  assert (Hs' : s = (a ++ String HASH (String SLASH rest))%string) by (rewrite Ha; done).
  destruct (index_byte_app_some HASH a (String SLASH rest)) as [i Hx].
  pose proof (index_byte_app _ _ _ _ Hx) as Hle. rewrite <-Hs' in Hx. rewrite Hx in Hi.
  apply bool_decide_eq_false in Hi. apply Hi. rewrite Hs', length_append. cbn. lia.
Qed.

Lemma sub_split_loop_ok re : ∀ i n r,
  sub_split_loop i n re = Ok r →
  Forall2 (λ v w, w = v ∨ (v = ""%string ∧ w = "/"%string)) re r.
Proof.
  induction re as [|v re IH]; intros i n r; cbn; [intros [= <-]; constructor|].
  intros H. destruct (decide (i ≠ O ∧ i ≠ (n - 1)%nat));
    [destruct (decide (v = ""%string)); [done|]; destruct (contains_byte PLUS v && _); [done|]|];
    (destruct (sub_split_loop (S i) n re) as [r'|] eqn:Hr; [|done]); injection H as <-;
    constructor; eauto.
  case_decide; auto.
Qed.

(** The parts a rule topic is split into have "#" only at the end. *)
Lemma SubscribeTopicSpilt_last des dest :
  SubscribeTopicSpilt des = Ok dest → ∀ p x y, dest ≠ p ++ "#"%string :: x :: y.
Proof.
  unfold SubscribeTopicSpilt. intros H p x y ->. case_match eqn:Hi; [done|].
  apply sub_split_loop_ok in H.
  apply Forall2_app_inv_r in H as (p' & r' & _ & H & Hs).
  inversion H as [|v ? re ? [Hv|[_ Hv]] Ht]; subst; [|done].
  inversion Ht; subst. by eapply (hash_last des).
Qed.

(** What a rule for publishing covers.  When its topic and the published topic
    are well formed, the rule applies exactly if its levels match the first levels
    of the topic by MQTT's rules: it covers the topics it matches and everything
    below them, and a final "#" needs at least one level. *)
Theorem pubTopicMatch_covers pub des dest topic :
  SubscribeTopicSpilt des = Ok dest → PublishTopicSpilt pub = Ok topic →
  pubTopicMatch pub des = true ↔
  (length dest ≤ length topic)%nat ∧ fmatch dest (take (length dest) topic) = true.
Proof.
  intros Hd Hp. unfold pubTopicMatch. rewrite Hd, Hp. cbn [or_nil].
  apply match_loop_covers. by eapply SubscribeTopicSpilt_last.
Qed.

(** A rule whose topic is malformed applies to every topic: the split gives an
    error and no levels, and the loop over no levels accepts. *)
Theorem malformed_rule_applies_to_all des e :
  SubscribeTopicSpilt des = Err e →
  ∀ topic, pubTopicMatch topic des = true ∧ subTopicMatch topic des = true.
Proof. intros H topic. unfold pubTopicMatch, subTopicMatch. by rewrite H. Qed.

(** A connection is accepted exactly for a known user whose client id, if the
    account names one, is the connecting one, with the account's password. *)
Theorem CheckConnect_iff `{Bcrypt} users clientID username password :
  CheckConnect users clientID username password = true ↔
  ∃ u, users !! username = Some u
    ∧ (user_ClientID u = ""%string ∨ user_ClientID u = clientID)
    ∧ ComparePassword (user_Password u) password = true.
Proof.
  unfold CheckConnect, GetUser. destruct (users !! username) as [u|]; [|split; [done|naive_solver]].
  destruct (bool_decide_reflect (user_ClientID u = ""%string));
    destruct (bool_decide_reflect (user_ClientID u = clientID)); cbn; naive_solver.
Qed.

(** ** Witnesses *)

Definition rule (id : string) (prio : Z) (topic cls value action : string) : Acl :=
  mkAcl id prio topic cls "username" value action 0.

Definition sample_rules : etcdAcl :=
  AddOrUpdateAcl (AddOrUpdateAcl NewEtcdAcl (rule "1" 1 "#" "pub" "*" "allow"))
    (rule "2" 5 "sys/#" "pub" "*" "deny").

Lemma CheckAcl_highest_priority_witness :
  CheckAcl sample_rules "pub" "c" "u" "1.2.3.4" "sys/x" = false.
Proof.
  destruct (CheckAcl_highest_priority sample_rules (sortByPriority "pub" sample_rules)
    "pub" "c" "u" "1.2.3.4" "sys/x" (sortByPriority_sorted "pub" sample_rules)) as (_ & H & _).
  destruct (H (rule "2" 5 "sys/#" "pub" "*" "deny")) as (d & [Hd Hmax] & Hal).
  { split; [by exists "2"%string|]. by split; vm_compute. }
  unfold CheckAcl. rewrite Hal. destruct Hd as ((id & Hid) & _).
  unfold sample_rules, AddOrUpdateAcl in Hid. cbn in Hid.
  apply lookup_insert_Some in Hid as [[_ <-]|[_ Hid]]; [by vm_compute|].
  apply lookup_insert_Some in Hid as [[_ <-]|[_ Hid]]; [|done].
  specialize (Hmax (rule "2" 5 "sys/#" "pub" "*" "deny")). cbn in Hmax.
  enough (5 ≤ 1) by lia. apply Hmax. split; [by exists "2"%string|]. by split; vm_compute.
Defined.

Lemma pubTopicMatch_covers_witness : pubTopicMatch "a/b/c" "a/+" = true.
Proof.
  apply (pubTopicMatch_covers "a/b/c" "a/+" ["a"; "+"]%string ["a"; "b"; "c"]%string);
    [by vm_compute|by vm_compute|]. split; [cbn; lia|by vm_compute].
Defined.

Lemma malformed_rule_witness : pubTopicMatch "any/topic" "a/#/b" = true.
Proof. apply (malformed_rule_applies_to_all "a/#/b" ErrIndexHash). by vm_compute. Defined.

(** A subscription filter with "+" passes a rule for one concrete level: the
    rule that allows "tenant1/data" also allows subscribing to "+/data", which
    receives the data of every tenant. *)
Theorem plus_filter_passes_rule :
  CheckAcl (AddOrUpdateAcl NewEtcdAcl (rule "1" 1 "tenant1/data" "sub" "u" "allow"))
    "sub" "c" "u" "1.2.3.4" "+/data" = true ∧
  fmatch (split_slash "+/data") (split_slash "tenant2/data") = true.
Proof. by split; vm_compute. Qed.
