(* ===== verification/Router.v ===== *)
(** * Router: filters and routes of the client library

    Models [src/mqtt/topic.go] (which subscription filters the client accepts) and
    [src/mqtt/router.go] (the list of routes, their matching, and which handlers an
    incoming message is given to).  A route's callback is any value of a type
    [Handler]. *)
From S2P Require Import Prelude Topics TopicLevels.
Local Open Scope Z_scope.

(** ** Filters *)

Inductive topic_error := ErrInvalidQos | ErrInvalidTopicEmptyString | ErrInvalidTopicMultilevel
  | ErrEmptySubscribeMap.

#[export] Instance topic_error_eq_dec : EqDecision topic_error.
Proof. solve_decision. Defined.

(** The loop over the levels: "#" before the last one. *)
Fixpoint has_early_hash (levels : list string) : bool :=
  match levels with
  | [] => false
  | level :: rest => (bool_decide (level = "#"%string) && bool_decide (rest ≠ [])) || has_early_hash rest
  end.

(** [qos] is a byte, so it is not negative. *)
Definition validateTopicAndQos (topic : string) (qos : Z) : option topic_error :=
  if decide (String.length topic = O) then Some ErrInvalidTopicEmptyString
  else if has_early_hash (split_slash topic) then Some ErrInvalidTopicMultilevel
  else if decide (qos > 2) then Some ErrInvalidQos
  else None.

(** The topics and their QoS, in the order of the map's enumeration [subs]. *)
Fixpoint validate_entries (subs : list (string * Z)) : result topic_error (list string * list Z) :=
  match subs with
  | [] => Ok ([], [])
  | (topic, qos) :: subs' =>
      match validateTopicAndQos topic qos with
      | Some e => Err e
      | None => rbind (validate_entries subs') (λ r, Ok (topic :: r.1, qos :: r.2))
      end
  end.

Definition validateSubscribeMap (subs : gmap string Z) : result topic_error (list string * list Z) :=
  if decide (size subs = O) then Err ErrEmptySubscribeMap
  else validate_entries (map_to_list subs).

(** ** Matching *)

Fixpoint match_ (route topic : list string) : bool :=
  match route, topic with
  | [], _ => bool_decide (topic = [])
  | r :: _, [] => bool_decide (r = "#"%string)
  | r :: route', t :: topic' =>
      if decide (r = "#"%string) then true
      else if decide (r = "+"%string ∨ r = t) then match_ route' topic'
      else false
  end.

(** [None] is the panic of [strings.Split(route, "/")[2:]] on fewer than two parts. *)
Definition routeSplit (route : string) : option (list string) :=
  if has_prefix route "$share" then
    match split_slash route with
    | _ :: _ :: rest => Some rest
    | _ => None
    end
  else Some (split_slash route).

Definition routeIncludesTopic (route topic : string) : option bool :=
  parts ← routeSplit route; Some (match_ parts (split_slash topic)).

(** [route.match]. *)
Definition route_match (r : string) (topic : string) : option bool :=
  if decide (r = topic) then Some true else routeIncludesTopic r topic.

(** ** The list of routes *)

Section Router.
Context {Handler : Type}.

Record router := mkRouter {
  routes : list (string * Handler);
  defaultHandler : option Handler
}.

Definition newRouter : router := mkRouter [] None.

Fixpoint set_route (topic : string) (cb : Handler) (l : list (string * Handler)) :=
  match l with
  | [] => [(topic, cb)]
  | (t, h) :: l' => if decide (t = topic) then (t, cb) :: l' else (t, h) :: set_route topic cb l'
  end.

Definition addRoute (r : router) (topic : string) (callback : Handler) : router :=
  mkRouter (set_route topic callback (routes r)) (defaultHandler r).

Fixpoint del_route (topic : string) (l : list (string * Handler)) :=
  match l with
  | [] => []
  | (t, h) :: l' => if decide (t = topic) then l' else (t, h) :: del_route topic l'
  end.

Definition deleteRoute (r : router) (topic : string) : router :=
  mkRouter (del_route topic (routes r)) (defaultHandler r).

Definition setDefaultHandler (r : router) (h : Handler) : router := mkRouter (routes r) (Some h).

(** The handlers of the matching routes, in the order of the list. *)
Fixpoint matching (l : list (string * Handler)) (topic : string) : option (list Handler) :=
  match l with
  | [] => Some []
  | (t, h) :: l' =>
      b ← route_match t topic; hs ← matching l' topic; Some (if b : bool then h :: hs else hs)
  end.

(** The handlers [matchAndDispatch] calls for one message, each followed by an ack:
    the default handler if no route matched. *)
Definition handlers_for (r : router) (topic : string) : option (list Handler) :=
  hs ← matching (routes r) topic;
  Some (match hs with
        | [] => option_list (defaultHandler r)
        | _ => hs
        end).

(** ** Properties *)

Lemma has_early_hash_spec levels : has_early_hash levels = false →
  ∀ p x y, levels ≠ p ++ "#"%string :: x :: y.
Proof.
  induction levels as [|l levels IH]; cbn; intros H p x y; [by destruct p|].
  apply orb_false_iff in H as [H1 H2]. destruct p as [|a p]; intros [= -> ->]; [|by apply (IH H2 p x y)].
  by rewrite bool_decide_eq_true_2 in H1 by done.
Qed.

Lemma match_fmatch route : ∀ topic,
  (∀ p x y, route ≠ p ++ "#"%string :: x :: y) → match_ route topic = fmatch route topic.
Proof.
  induction route as [|r route IH]; intros topic Hlast; [by destruct topic|].
  assert (Hlast' : ∀ p x y, route ≠ p ++ "#"%string :: x :: y)
    by (intros p a b ->; by apply (Hlast (r :: p) a b)).
  destruct topic as [|t topic]; cbn; change "#"%string with MWC in *; change "+"%string with SWC.
  - destruct (bool_decide_reflect (r = MWC)) as [->|]; [|done].
    destruct route as [|a b]; [done|by destruct (Hlast [] a b)].
  - destruct (decide (r = MWC)) as [->|].
    + destruct route as [|a b]; [done|by destruct (Hlast [] a b)].
    + rewrite IH by done.
      destruct (bool_decide_reflect (r = SWC)), (bool_decide_reflect (r = t));
        first [rewrite decide_True by tauto; done | rewrite decide_False by tauto; done].
Qed.

Lemma route_match_levels f qos topic :
  validateTopicAndQos f qos = None → has_prefix f "$share" = false →
  route_match f topic = Some (bool_decide (f = topic) || fmatch (split_slash f) (split_slash topic)).
Proof.
  unfold validateTopicAndQos. intros Hv Hs. case_decide; [done|].
  destruct (has_early_hash (split_slash f)) eqn:Hh; [done|].
  unfold route_match, routeIncludesTopic, routeSplit. rewrite Hs.
  destruct (decide (f = topic)); [by rewrite bool_decide_eq_true_2|]. rewrite bool_decide_eq_false_2 by done. cbn.
  by rewrite match_fmatch by (by apply has_early_hash_spec).
Qed.

(** A well-formed filter matches the topic that is spelled like it. *)
Lemma fmatch_refl l : has_early_hash l = false → fmatch l l = true.
Proof.
  induction l as [|x l IH]; cbn; [done|]. rewrite orb_false_iff. intros [Hx Hl].
  change "#"%string with MWC in Hx. destruct (decide (x = MWC)) as [->|].
  - destruct l; [done|]. by rewrite !bool_decide_eq_true_2 in Hx by done.
  - by rewrite (bool_decide_eq_true_2 (x = x)), orb_true_r, IH.
Qed.

Lemma split_slash_share g f : contains_byte SLASH g = false →
  split_slash ("$share/" ++ g ++ String SLASH f) = "$share"%string :: g :: split_slash f.
Proof.
  intros Hg. assert (Hsplit : split_slash (g ++ String SLASH f) = g :: split_slash f).
  { unfold split_slash. induction g as [|a g IH]; [done|].
    change (String a g ++ String SLASH f)%string with (String a (g ++ String SLASH f)).
    cbn in Hg |- *. apply orb_false_iff in Hg as [Ha Hg]. apply bool_decide_eq_false in Ha.
    rewrite decide_False by done. by rewrite IH. }
  change ("$share/" ++ ?x)%string with
    (String "$" (String "s" (String "h" (String "a" (String "r" (String "e" (String SLASH x))))))).
  unfold split_slash in *. cbn [split_on]. by rewrite Hsplit.
Qed.

Lemma accepted_levels f qos : validateTopicAndQos f qos = None → has_early_hash (split_slash f) = false.
Proof.
  unfold validateTopicAndQos. case_decide; [done|]. by destruct (has_early_hash (split_slash f)).
Qed.

(** Shared filters.  The route of "$share/group/f" matches what "f" matches. *)
Lemma share_route_match g f topic :
  contains_byte SLASH g = false → has_early_hash (split_slash f) = false →
  has_prefix topic "$" = false →
  route_match ("$share/" ++ g ++ String SLASH f) topic
    = Some (fmatch (split_slash f) (split_slash topic)).
Proof.
  intros Hg Hf Hne. unfold route_match. rewrite decide_False by (by intros <-).
  unfold routeIncludesTopic, routeSplit.
  assert (has_prefix ("$share/" ++ g ++ String SLASH f) "$share" = true) as -> by reflexivity.
  rewrite split_slash_share by done. cbn. by rewrite match_fmatch by (by apply has_early_hash_spec).
Qed.

(** C38: Client and broker read filters alike.  Take a filter that the client
    accepts and a topic that does not start with "$".  If the filter does not begin
    with "$share", its route matches the topic exactly when the filter does by
    MQTT's rules; if it is "$share/group/f", exactly when "f" does.  (What else
    begins with "$share" is the subject of [share_prefix_misread].) *)
Theorem route_match_mqtt f qos topic :
  validateTopicAndQos f qos = None → has_prefix topic "$" = false →
  (has_prefix f "$share" = false → route_match f topic = Some (mqtt_match f topic))
  ∧ (∀ g f', f = ("$share/" ++ g ++ String SLASH f')%string → contains_byte SLASH g = false →
       route_match f topic = Some (mqtt_match f' topic)).
Proof.
  intros Hv Hd. pose proof (accepted_levels f qos Hv) as Hh. split.
  - intros Hs. rewrite (route_match_levels f qos) by done. rewrite mqtt_match_plain by done.
    destruct (bool_decide_reflect (f = topic)) as [<-|]; [|done]. by rewrite fmatch_refl.
  - intros g f' -> Hg. rewrite split_slash_share in Hh by done. cbn [has_early_hash] in Hh.
    rewrite mqtt_match_plain by done. apply share_route_match; [done| |done].
    rewrite !orb_false_iff in Hh. tauto.
Qed.

(** ** The list as a table *)

Fixpoint lookup_route (topic : string) (l : list (string * Handler)) : option Handler :=
  match l with
  | [] => None
  | (t, h) :: l' => if decide (t = topic) then Some h else lookup_route topic l'
  end.

(** A filter has one route. *)
Definition routes_ok (r : router) : Prop := NoDup (map fst (routes r)).

Lemma set_route_topics topic cb l x :
  x ∈ map fst (set_route topic cb l) ↔ x = topic ∨ x ∈ map fst l.
Proof.
  induction l as [|[t h] l IH]; cbn; [set_solver|].
  case_decide; cbn; rewrite !elem_of_cons, ?IH; naive_solver.
Qed.

Lemma del_route_topics topic l x : x ∈ map fst (del_route topic l) → x ∈ map fst l.
Proof.
  induction l as [|[t h] l IH]; cbn; [done|].
  case_decide; cbn; rewrite !elem_of_cons; naive_solver.
Qed.

Lemma lookup_route_notin topic l : topic ∉ map fst l → lookup_route topic l = None.
Proof.
  induction l as [|[t h] l IH]; cbn; [done|]. rewrite not_elem_of_cons. intros [Hne Hl].
  rewrite decide_False by done. by apply IH.
Qed.

(** The routes are a table from filters to handlers.  Adding a route sets the
    handler of its filter, whether or not the filter had one, deleting removes it,
    every other filter keeps its handler, and no filter ever has two routes. *)
Theorem routes_table r topic cb t :
  routes_ok r →
  routes_ok (addRoute r topic cb) ∧ routes_ok (deleteRoute r topic)
  ∧ lookup_route t (routes (addRoute r topic cb))
      = (if decide (t = topic) then Some cb else lookup_route t (routes r))
  ∧ lookup_route t (routes (deleteRoute r topic))
      = (if decide (t = topic) then None else lookup_route t (routes r)).
Proof.
  destruct r as [l d]. unfold routes_ok. cbn.
  induction l as [|[t' h] l IH]; intros Hnd; cbn in *.
  - split; [apply NoDup_singleton|]. split; [done|]. split; [|by case_decide].
    repeat case_decide; congruence.
  - apply NoDup_cons in Hnd as [Hni Hnd]. destruct (IH Hnd) as (H1 & H2 & H3 & H4).
    destruct (decide (t' = topic)) as [->|Hne]; cbn.
    + split; [by apply NoDup_cons|]. split; [done|].
      split; [repeat case_decide; congruence|].
      destruct (decide (t = topic)) as [->|]; [by apply lookup_route_notin|].
      by rewrite decide_False by congruence.
    + rewrite H3, H4. split; [apply NoDup_cons; split; [|done]|].
      * rewrite set_route_topics. naive_solver.
      * split; [apply NoDup_cons; split; [|done]; by intros ?%del_route_topics|].
        split; repeat case_decide; congruence.
Qed.
End Router.
Arguments router Handler : clear implicits.

(** ** Witnesses *)

Lemma route_match_mqtt_witness :
  route_match "a/+" "a/b" = Some true ∧ route_match "$share/g/a/#" "a" = Some true.
Proof.
  split.
  - rewrite (proj1 (route_match_mqtt "a/+" 1 "a/b" eq_refl eq_refl) eq_refl). by vm_compute.
  - rewrite (proj2 (route_match_mqtt "$share/g/a/#" 1 "a" eq_refl eq_refl) "g"%string "a/#"%string
      eq_refl eq_refl). by vm_compute.
Defined.

(** The client accepts the filter "$share", and then every message that is not
    spelled like it makes [routeSplit] panic; "$shared/x/+", which is no shared
    filter, takes the message of "a" and not that of "$shared/x/a". *)
Theorem share_prefix_misread :
  validateTopicAndQos "$share" 1 = None ∧ route_match "$share" "a" = None
  ∧ validateTopicAndQos "$shared/x/+" 1 = None
  ∧ route_match "$shared/x/+" "$shared/x/a" = Some false ∧ route_match "$shared/x/+" "a" = Some true.
Proof. by vm_compute. Qed.
