(* ===== verification/MessageIds.v ===== *)
(** * MessageIds: the client's message ids and tokens

    Models [src/mqtt/messageids.go] and the token life cycle of
    [src/mqtt/token.go].  A token is shared between the caller that waits for it
    and the index that completes it, so tokens live in a heap and the index holds
    their addresses.  Ids are [uint16] with their wrap-around. *)
From S2P Require Import Prelude Packets Router.
Local Open Scope Z_scope.

(** ** Tokens *)

Inductive token_kind :=
  | ConnectToken | SubscribeToken | PublishToken | UnsubscribeToken | DisconnectToken
  | PlaceHolderToken.

(** The errors the library sets on tokens. *)
Inductive flow_error :=
  | LostPublish | LostSubscribe | LostUnsubscribe
  | ErrNotConnected | ErrNoServers | ErrNoMessageIDs | ErrUnknownPayload
  | ErrResumeSubsNotSet | ErrReconnectingClean | ErrBrokenByTimeout
  | ErrTopic (e : topic_error) | ErrWrite | ErrConnect (e : conn_error).

#[export] Instance token_kind_eq_dec : EqDecision token_kind.
Proof. solve_decision. Defined.

(** [complete] tells whether the channel of that name is closed.  The other fields are
    those of the token types that have them. *)
Record token := mkToken {
  tok_kind : token_kind;
  complete : bool;
  err : option flow_error;
  tok_messageID : Z;
  tok_subs : list string;
  subResult : gmap string byte;
  returnCode : Z;
  sessionPresent : bool
}.

Definition new_token (k : token_kind) : token := mkToken k false None 0 [] ∅ 0 false.

Definition newToken (tType : Z) : option token :=
  if decide (tType = Connect) then Some (new_token ConnectToken)
  else if decide (tType = Subscribe) then Some (new_token SubscribeToken)
  else if decide (tType = Publish) then Some (new_token PublishToken)
  else if decide (tType = Unsubscribe) then Some (new_token UnsubscribeToken)
  else if decide (tType = Disconnect) then Some (new_token DisconnectToken)
  else None.

(** Both methods do nothing on a [PlaceHolderToken]. *)
Definition flowComplete (t : token) : token :=
  match tok_kind t with
  | PlaceHolderToken => t
  | _ => t {{ complete := true }}
  end.

Definition setError (e : flow_error) (t : token) : token :=
  match tok_kind t with
  | PlaceHolderToken => t
  | _ => flowComplete (t {{ err := Some e }})
  end.

(** ** The index *)

Definition midMax : Z := 65535.

Record messageIds := mkMids {
  index : gmap Z positive;
  lastIssuedID : Z;
  tokens : gmap positive token
}.

Definition freeID (id : Z) (m : messageIds) : messageIds := m {{ index ::= delete id }}.

(** [f] applied to the token at an address. *)
Definition on_token (f : token → token) (a : positive) (m : messageIds) : messageIds :=
  m {{ tokens ::= alter f a }}.

Definition claimID (a : positive) (id : Z) (m : messageIds) : messageIds :=
  let m := match index m !! id with
           | None => m {{ index ::= insert id a }}
           | Some old => (on_token flowComplete old m) {{ index ::= insert id a }}
           end in
  if decide (id > lastIssuedID m) then m {{ lastIssuedID := id }} else m.

(** [i++], and once more past 0, which is not a valid id. *)
Definition next_id (i : Z) (looped : bool) : Z * bool :=
  let i := (i + 1) mod 65536 in
  if decide (i = 0) then ((i + 1) mod 65536, true) else (i, looped).

(** One turn per unit of fuel; [None] when the fuel runs out.  The loop visits
    every id at most once ([getID_spec]). *)
Fixpoint getID_loop (fuel : nat) (a : positive) (i : Z) (looped : bool) (m : messageIds)
    : option (Z * messageIds) :=
  match fuel with
  | O => None
  | S fuel' =>
      let '(i, looped) := next_id i looped in
      match index m !! i with
      | None => Some (i, m {{ index ::= insert i a; lastIssuedID := i }})
      | Some _ =>
          if (looped && bool_decide (i = lastIssuedID m))
             || (bool_decide (lastIssuedID m = 0) && bool_decide (i = midMax))
          then Some (0, m)
          else getID_loop fuel' a i looped m
      end
  end.

Definition getID (a : positive) (m : messageIds) : option (Z * messageIds) :=
  getID_loop (Z.to_nat 65535) a (lastIssuedID m) false m.

(** [None] stands for the [DummyToken] of a lookup that fails. *)
Definition getToken (id : Z) (m : messageIds) : option positive := index m !! id.

(** The loop body of [cleanUp] for the token at [a]. *)
Definition cleanUp_token (t : token) : token :=
  flowComplete
    (match tok_kind t with
     | PublishToken => setError LostPublish t
     | SubscribeToken => setError LostSubscribe t
     | UnsubscribeToken => setError LostUnsubscribe t
     | _ => t
     end).

Definition cleanUp (m : messageIds) : messageIds :=
  let m := foldr (λ '(_, a), on_token cleanUp_token a) m (map_to_list (index m)) in
  m {{ index := ∅ }}.

Definition is_subscription (m : messageIds) (a : positive) : bool :=
  match tokens m !! a with
  | Some t => bool_decide (tok_kind t = SubscribeToken) || bool_decide (tok_kind t = UnsubscribeToken)
  | None => false
  end.

Definition cleanUpSubscribe_token (t : token) : token :=
  match tok_kind t with
  | SubscribeToken => setError LostSubscribe t
  | UnsubscribeToken => setError LostUnsubscribe t
  | _ => t
  end.

(** One entry of the loop of [cleanUpSubscribe]; a token's type never changes, so
    it can be looked up in the state [m0] before the loop. *)
Definition drop_entry (m0 : messageIds) (e : Z * positive) (m : messageIds) : messageIds :=
  if is_subscription m0 e.2
  then (on_token cleanUpSubscribe_token e.2 m) {{ index ::= delete e.1 }} else m.

Definition cleanUpSubscribe (m : messageIds) : messageIds :=
  foldr (drop_entry m) m (map_to_list (index m)).

(** ** Invariant *)

(** Ids in use are valid packet identifiers, and the counter is a [uint16]. *)
Definition mids_ok (m : messageIds) : Prop :=
  (∀ id a, index m !! id = Some a → 1 ≤ id ≤ midMax) ∧ 0 ≤ lastIssuedID m ≤ midMax.

Lemma next_id_eq i looped : 0 ≤ i ≤ midMax →
  next_id i looped = if decide (i = midMax) then (1, true) else (i + 1, looped).
Proof.
  unfold next_id, midMax. intros Hi. case_decide as H1.
  - destruct (decide (i = 65535)) as [->|]; [done|]. rewrite Z.mod_small in H1; lia.
  - destruct (decide (i = 65535)) as [->|]; [done|]. by rewrite Z.mod_small by lia.
Qed.

(** After [k] turns from [last]: the id looked at, and whether the counter wrapped. *)
Definition visited (last k : Z) : Z :=
  if decide (last + k ≤ midMax) then last + k else last + k - midMax.

Lemma next_visited last k :
  0 ≤ last ≤ midMax → 0 ≤ k < midMax →
  next_id (visited last k) (bool_decide (last + k > midMax))
    = (visited last (k + 1), bool_decide (last + (k + 1) > midMax)).
Proof.
  intros Hl Hk. unfold visited, midMax in *.
  rewrite next_id_eq by (unfold midMax; case_decide; lia). unfold midMax.
  repeat case_decide; f_equal; try lia; (apply bool_decide_ext || symmetry; apply bool_decide_eq_true);
    lia.
Qed.

Lemma visited_range last k : 0 ≤ last ≤ midMax → 1 ≤ k ≤ midMax → 1 ≤ visited last k ≤ midMax.
Proof. unfold visited, midMax. intros. case_decide; lia. Qed.

(** Every id is visited within [midMax] turns. *)
Lemma visited_surj last id :
  0 ≤ last ≤ midMax → 1 ≤ id ≤ midMax → ∃ k, 1 ≤ k ≤ midMax ∧ visited last k = id.
Proof.
  unfold visited, midMax. intros Hl Hi. destruct (decide (last < id)).
  - exists (id - last). rewrite decide_True by lia. lia.
  - exists (id - last + 65535). split; [lia|]. case_decide; lia.
Qed.

(** The loop from its [k]-th turn on, when all ids visited before are in use. *)
Lemma getID_loop_spec n : ∀ k a m,
  mids_ok m → 0 ≤ k → k + Z.of_nat n = midMax → (0 < n)%nat →
  (∀ j, 1 ≤ j ≤ k → is_Some (index m !! visited (lastIssuedID m) j)) →
  ∃ id m', getID_loop n a (visited (lastIssuedID m) k)
      (bool_decide (lastIssuedID m + k > midMax)) m = Some (id, m') ∧
    ((1 ≤ id ≤ midMax ∧ index m !! id = None
      ∧ m' = m {{ index ::= insert id a; lastIssuedID := id }})
     ∨ (id = 0 ∧ m' = m ∧ ∀ id', 1 ≤ id' ≤ midMax → is_Some (index m !! id'))).
Proof.
  induction n as [|n IH]; intros k a m Hok Hk Hn Hpos Hused; [lia|].
  pose proof (proj2 Hok) as Hlast. cbn [getID_loop]. rewrite next_visited by lia.
  set (i := visited (lastIssuedID m) (k + 1)).
  assert (Hi : 1 ≤ i ≤ midMax) by (apply visited_range; lia).
  destruct (index m !! i) as [b|] eqn:Hix.
  2: { eexists _, _. split; [done|]. left. done. }
  assert (Hused' : ∀ j, 1 ≤ j ≤ k + 1 → is_Some (index m !! visited (lastIssuedID m) j)).
  { intros j Hj. destruct (decide (j = k + 1)) as [->|]; [by eexists|]. apply Hused. lia. }
  destruct (decide (k + 1 = midMax)) as [Hend|Hend].
  - assert ((bool_decide (lastIssuedID m + (k + 1) > midMax) && bool_decide (i = lastIssuedID m))
      || (bool_decide (lastIssuedID m = 0) && bool_decide (i = midMax)) = true) as ->.
    { unfold i, visited. rewrite Hend. unfold midMax in *.
      destruct (decide (lastIssuedID m = 0)) as [H0|H0].
      - rewrite H0. done.
      - rewrite decide_False by lia. rewrite !bool_decide_eq_true_2 by lia. done. }
    exists 0, m. split; [done|]. right. split; [done|]. split; [done|].
    intros id' Hid'. destruct (visited_surj (lastIssuedID m) id' Hlast Hid') as (j & Hj & <-).
    apply Hused'. lia.
  - assert ((bool_decide (lastIssuedID m + (k + 1) > midMax) && bool_decide (i = lastIssuedID m))
      || (bool_decide (lastIssuedID m = 0) && bool_decide (i = midMax)) = false) as ->.
    { unfold i, visited, midMax in *.
      rewrite orb_false_iff, !andb_false_iff, !bool_decide_eq_false. case_decide; lia. }
    apply IH; try done; lia.
Qed.

Lemma getID_cases a m :
  mids_ok m →
  ∃ id m', getID a m = Some (id, m') ∧ mids_ok m' ∧
    ((1 ≤ id ≤ midMax ∧ index m !! id = None
      ∧ m' = m {{ index ::= insert id a; lastIssuedID := id }})
     ∨ (id = 0 ∧ m' = m ∧ ∀ id', 1 ≤ id' ≤ midMax → is_Some (index m !! id'))).
Proof.
  intros Hok. pose proof (proj2 Hok) as Hlast.
  destruct (getID_loop_spec (Z.to_nat 65535) 0 a m) as (id & m' & Hg & Hc);
    [done|lia|by vm_compute|lia|intros; lia|].
  assert (Hv : visited (lastIssuedID m) 0 = lastIssuedID m)
    by (unfold visited; rewrite decide_True by lia; lia).
  rewrite Hv in Hg. rewrite bool_decide_eq_false_2 in Hg by lia.
  exists id, m'. split; [exact Hg|]. split; [|done].
  destruct Hc as [(Hid & _ & ->)|(_ & -> & _)]; [|done]. split; cbn; [|lia].
  intros id' b. rewrite lookup_insert_Some. intros [[<- _]|[_ H]]; [done|]. by apply Hok in H.
Qed.

(** C28: Issuing message ids.  [getID] always returns.  It hands out an id between 1
    and 65535 that is not in use, reserves it for the caller's token and changes
    nothing else; it gives 0 only when all 65535 ids are in use, and then changes
    nothing. *)
Theorem getID_spec a m :
  mids_ok m →
  ∃ id m', getID a m = Some (id, m') ∧ mids_ok m' ∧
    ((1 ≤ id ≤ midMax ∧ index m !! id = None
      ∧ m' = m {{ index ::= insert id a; lastIssuedID := id }})
     ∨ (id = 0 ∧ m' = m ∧ ∀ id', 1 ≤ id' ≤ midMax → is_Some (index m !! id'))).
Proof. exact (getID_cases a m). Qed.

(** ** Connections that are lost *)

Lemma cleanUp_token_idem t : cleanUp_token (cleanUp_token t) = cleanUp_token t.
Proof. by destruct t as [[] ? ?]. Qed.

Lemma cleanUpSubscribe_token_idem t :
  cleanUpSubscribe_token (cleanUpSubscribe_token t) = cleanUpSubscribe_token t.
Proof. by destruct t as [[] ? ?]. Qed.

Lemma tokens_on_token f a m : tokens (on_token f a m) = alter f a (tokens m).
Proof. done. Qed.

(** A loop that applies an idempotent method to the tokens of a list of entries. *)
Lemma tokens_foldr (f : token → token) (l : list (Z * positive)) m a :
  (∀ t, f (f t) = f t) →
  tokens (foldr (λ '(_, a), on_token f a) m l) !! a
    = if decide (a ∈ map snd l) then f <$> tokens m !! a else tokens m !! a.
Proof.
  intros Hf. induction l as [|[id b] l IH]; [by rewrite decide_False by apply not_elem_of_nil|].
  cbn [foldr map snd]. rewrite tokens_on_token.
  destruct (decide (a = b)) as [->|Hne].
  - rewrite lookup_alter_eq, IH, (decide_True (P := b ∈ b :: _)) by (apply elem_of_cons; auto).
    case_decide; [|done]. destruct (tokens m !! b); cbn; [by rewrite Hf|done].
  - rewrite lookup_alter_ne, IH by done.
    destruct (decide (a ∈ map snd l)), (decide (a ∈ b :: map snd l)) as [Hin|Hin]; try done.
    + destruct Hin. by apply elem_of_cons; right.
    + apply elem_of_cons in Hin as [?|?]; done.
Qed.

Lemma elem_of_index m a : a ∈ map snd (map_to_list (index m)) ↔ ∃ id, index m !! id = Some a.
Proof.
  rewrite (list_elem_of_fmap snd). split.
  - intros ([id b] & -> & H%elem_of_map_to_list). eauto.
  - intros [id H]. exists (id, a). split; [done|]. by apply elem_of_map_to_list.
Qed.

Lemma tokens_cleanUp m a :
  tokens (cleanUp m) !! a = if decide (a ∈ map snd (map_to_list (index m)))
    then cleanUp_token <$> tokens m !! a else tokens m !! a.
Proof. apply (tokens_foldr cleanUp_token), cleanUp_token_idem. Qed.

(** Losing the connection ends every request.  [cleanUp] empties the index;
    every token that was in it is complete afterwards, the tokens of publish,
    subscribe and unsubscribe requests with an error, and no other token is
    touched. *)
Theorem cleanUp_completes m :
  index (cleanUp m) = ∅ ∧
  (∀ id a t, index m !! id = Some a → tokens m !! a = Some t → tok_kind t ≠ PlaceHolderToken →
     ∃ t', tokens (cleanUp m) !! a = Some t' ∧ complete t' = true ∧ tok_kind t' = tok_kind t ∧
       (tok_kind t = PublishToken ∨ tok_kind t = SubscribeToken ∨ tok_kind t = UnsubscribeToken →
        is_Some (err t'))) ∧
  (∀ a, (∀ id, index m !! id ≠ Some a) → tokens (cleanUp m) !! a = tokens m !! a).
Proof.
  split; [done|]. split.
  - intros id a t Hid Ht Hk. rewrite tokens_cleanUp.
    rewrite decide_True by (apply elem_of_index; eauto). rewrite Ht. eexists. split; [done|].
    destruct t as [[] ? ?]; cbn in *; naive_solver.
  - intros a Ha. rewrite tokens_cleanUp. rewrite decide_False; [done|]. rewrite elem_of_index. intros [id H]. by apply (Ha id).
Qed.

Lemma tokens_dropped f b id x :
  tokens ((on_token f b x) {{ index ::= delete id }}) = alter f b (tokens x).
Proof. done. Qed.

Lemma index_dropped f b id x :
  index ((on_token f b x) {{ index ::= delete id }}) = delete id (index x).
Proof. done. Qed.

Lemma drop_entries_spec m0 m l :
  let dropped := filter (λ e, is_subscription m0 e.2 = true) l in
  (∀ a, tokens (foldr (drop_entry m0) m l) !! a
     = if decide (a ∈ map snd dropped) then cleanUpSubscribe_token <$> tokens m !! a
       else tokens m !! a) ∧
  (∀ id, index (foldr (drop_entry m0) m l) !! id
     = if decide (id ∈ map fst dropped) then None else index m !! id).
Proof.
  induction l as [|[id b] l [IHt IHi]]; cbn zeta in *.
  { split; intros; by rewrite decide_False by apply not_elem_of_nil. }
  rewrite filter_cons. cbn [foldr].
  assert (Hd : ∀ x, drop_entry m0 (id, b) x = if is_subscription m0 b
    then (on_token cleanUpSubscribe_token b x) {{ index ::= delete id }} else x) by done.
  rewrite !Hd. cbn [fst snd].
  destruct (is_subscription m0 b) eqn:Hb; [|by rewrite decide_False by done].
  rewrite decide_True by done. cbn [map fst snd]. clear Hd. split.
  - intros a. rewrite tokens_dropped.
    destruct (decide (a = b)) as [->|Hne].
    + rewrite lookup_alter_eq, IHt, (decide_True (P := b ∈ b :: _)) by (apply elem_of_cons; auto).
      case_decide; [|done].
      destruct (tokens m !! b); cbn; [by rewrite cleanUpSubscribe_token_idem|done].
    + rewrite lookup_alter_ne, IHt by done.
      repeat case_decide; try done; rewrite elem_of_cons in *; tauto.
  - intros id'. rewrite index_dropped.
    destruct (decide (id' = id)) as [->|Hne].
    + rewrite lookup_delete_eq, decide_True by (apply elem_of_cons; auto). done.
    + rewrite lookup_delete_ne, IHi by done.
      repeat case_decide; try done; rewrite elem_of_cons in *; tauto.
Qed.

Lemma cleanUpSubscribe_cases m id a :
  index m !! id = Some a →
  if is_subscription m a
  then index (cleanUpSubscribe m) !! id = None ∧
       ∃ t', tokens (cleanUpSubscribe m) !! a = Some t' ∧ complete t' = true ∧ is_Some (err t')
  else index (cleanUpSubscribe m) !! id = Some a ∧
       tokens (cleanUpSubscribe m) !! a = tokens m !! a.
Proof.
  intros Hid. unfold cleanUpSubscribe.
  destruct (drop_entries_spec m m (map_to_list (index m))) as [Ht Hi].
  assert (Hin : (id, a) ∈ map_to_list (index m)) by (by apply elem_of_map_to_list).
  rewrite Ht, Hi. destruct (is_subscription m a) eqn:Hs.
  - assert (Hd : (id, a) ∈ filter (λ e, is_subscription m e.2 = true) (map_to_list (index m)))
      by (by apply list_elem_of_filter).
    rewrite !decide_True by (apply list_elem_of_fmap; by exists (id, a)). split; [done|].
    unfold is_subscription in Hs. destruct (tokens m !! a) as [t|]; [|done].
    eexists. split; [done|]. destruct t as [[] ? ?]; done.
  - rewrite !decide_False; [done|..].
    + intros ([id' a'] & -> & [Hs' _]%list_elem_of_filter)%(list_elem_of_fmap snd). cbn in *. congruence.
    + intros ([id' a'] & -> & [Hs' Hin']%list_elem_of_filter)%(list_elem_of_fmap fst).
      apply elem_of_map_to_list in Hin'. cbn in *. congruence.
Qed.

(** A lost connection that keeps its session.  [cleanUpSubscribe] ends exactly
    the subscribe and unsubscribe requests: their ids become free and their tokens
    complete with an error, while every other request keeps its id and its token
    as it was. *)
Theorem cleanUpSubscribe_spec m id a :
  index m !! id = Some a →
  if is_subscription m a
  then index (cleanUpSubscribe m) !! id = None ∧
       ∃ t', tokens (cleanUpSubscribe m) !! a = Some t' ∧ complete t' = true ∧ is_Some (err t')
  else index (cleanUpSubscribe m) !! id = Some a ∧
       tokens (cleanUpSubscribe m) !! a = tokens m !! a.
Proof. exact (cleanUpSubscribe_cases m id a). Qed.

(** ** Witnesses *)

Definition sample_mids : messageIds :=
  mkMids {[ 1 := 10%positive; 2 := 20%positive ]} 65535
    {[ 10%positive := new_token PublishToken;
       20%positive := new_token SubscribeToken ]}.

Lemma sample_mids_ok : mids_ok sample_mids.
Proof.
  split; [|cbn; unfold midMax; lia]. intros id a. cbn.
  rewrite lookup_insert_Some, lookup_singleton_Some. unfold midMax. intros [[<- _]|[_ [<- _]]]; lia.
Qed.

(** The counter has wrapped and both ids after it are in use. *)
Lemma getID_spec_witness :
  ∃ m', getID 30 sample_mids = Some (3, m') ∧ mids_ok m'.
Proof.
  destruct (getID_spec 30 sample_mids sample_mids_ok) as (id & m' & Hg & Hok & _).
  exists m'. split; [|exact Hok]. rewrite Hg. vm_compute in Hg. by injection Hg as <- _.
Defined.

Lemma cleanUpSubscribe_spec_witness :
  index (cleanUpSubscribe sample_mids) !! 1 = Some 10%positive ∧
  index (cleanUpSubscribe sample_mids) !! 2 = None.
Proof.
  split.
  - apply (cleanUpSubscribe_spec sample_mids 1 10%positive). by vm_compute.
  - apply (cleanUpSubscribe_spec sample_mids 2 20%positive). by vm_compute.
Defined.
