(* ===== verification/Bridge.v ===== *)
(** * Bridge: forwarding messages to Kafka

    Models [src/bridge/kafka.go]: the table from filters to Kafka topics and the
    publication of a message to the topics of the matching filters.  The producer
    is a parameter: whether it takes a message before the five seconds are over. *)
From S2P Require Import Prelude Wire Packets Topics TopicLevels Router.
Local Open Scope Z_scope.

(** [Elements.Payload] is a value of any type; [publish] takes bytes as they are and
    marshals the whole element otherwise. *)
Inductive payload := Bytes (b : list byte) | OtherPayload.

Record Elements := mkElements {
  el_ClientID : string;
  el_Username : string;
  el_Topic : string;
  el_Payload : payload;
  el_Timestamp : Z
}.

Record kafka := mkKafka { deliverMap : gmap string string }.

(** [sarama.ProducerMessage]. *)
Record ProducerMessage := mkProducerMessage {
  msg_Topic : string;
  msg_Key : string;
  msg_Value : list byte
}.

Inductive bridge_error := MarshalFailed | WriteTimeout.

Fixpoint kmatch (subTopic topic : list string) : bool :=
  match subTopic with
  | [] => match topic with [] => true | _ :: _ => false end
  | f :: subTopic' =>
      match topic with
      | [] => bool_decide (f = "#"%string)
      | t :: topic' =>
          if decide (f = "#"%string) then true
          else if decide (f = "+"%string ∨ f = t) then kmatch subTopic' topic'
          else false
      end
  end.

Definition matchTopic (subTopic topic : string) : bool :=
  kmatch (split_slash subTopic) (split_slash topic).

Section Kafka.
(** [json.Marshal] of an element, and whether the producer takes a message in time. *)
Context (Marshal : Elements → option (list byte)) (accepts : ProducerMessage → bool).

(** The loop of [publish]: the messages the producer was given, and the error. *)
Fixpoint publish_loop (topics : list string) (key : string) (value : list byte)
    : list ProducerMessage * option bridge_error :=
  match topics with
  | [] => ([], None)
  | t :: topics' =>
      let m := mkProducerMessage t key value in
      if accepts m then
        let '(ms, e) := publish_loop topics' key value in (m :: ms, e)
      else ([], Some WriteTimeout)
  end.

Definition kafka_publish (topics : list string) (key : string) (msg : Elements)
    : list ProducerMessage * option bridge_error :=
  match el_Payload msg with
  | Bytes b => publish_loop topics key b
  | OtherPayload =>
      match Marshal msg with
      | Some b => publish_loop topics key b
      | None => ([], Some MarshalFailed)
      end
  end.

(** [Publish]. *)
Definition kafka_Publish (k : kafka) (e : Elements) : list ProducerMessage * option bridge_error :=
  let topics := map snd (filter (λ r, matchTopic r.1 (el_Topic e) = true) (map_to_list (deliverMap k))) in
  kafka_publish topics (el_Topic e) e.
End Kafka.

(** [Load] of a nil map does nothing. *)
Definition kafka_Load (k : kafka) (objs : option (gmap string string)) : kafka :=
  match objs with Some m => mkKafka m | None => k end.
Definition AddOrUpdateObj (k : kafka) (key value : string) : kafka :=
  mkKafka (<[key := value]> (deliverMap k)).
Definition RemoveObj (k : kafka) (key : string) : kafka :=
  match deliverMap k !! key with Some _ => mkKafka (delete key (deliverMap k)) | None => k end.
Definition GetObj (k : kafka) (key : string) : option string := deliverMap k !! key.

(** ** Properties *)

(** The same matching as in the client's router. *)
Lemma kmatch_match f : ∀ t, kmatch f t = match_ f t.
Proof.
  induction f as [|l f IH]; intros [|x t]; cbn; try done. case_decide; [done|]. case_decide; [|done]. apply IH.
Qed.

Lemma matchTopic_fmatch f t :
  has_early_hash (split_slash f) = false → matchTopic f t = fmatch (split_slash f) (split_slash t).
Proof.
  intros H. unfold matchTopic. rewrite kmatch_match. by apply match_fmatch, has_early_hash_spec.
Qed.

Lemma publish_loop_spec accepts topics key value :
  ∃ n, (publish_loop accepts topics key value).1 = map (λ t, mkProducerMessage t key value) (take n topics)
    ∧ match (publish_loop accepts topics key value).2 with
      | None => n = length topics
      | Some e => e = WriteTimeout
          ∧ ∃ t, topics !! n = Some t ∧ accepts (mkProducerMessage t key value) = false
      end.
Proof.
  induction topics as [|t topics (n & IH1 & IH2)]; [by exists O|]. cbn.
  destruct (accepts _) eqn:Ha; [|exists O; split; [done|]; split; [done|]; by exists t].
  exists (S n). destruct (publish_loop accepts topics key value) as [ms [e|]]; cbn in *; subst; auto.
Qed.

(** What goes to Kafka.  [Publish] of an element with a byte payload offers the
    payload, with the element's topic as the key, to the Kafka topics of the table's
    entries whose filter matches the topic by MQTT's rules, once for each such
    entry; it stops with an error at the first one the producer does not take in
    time, and without one has sent all of them. *)
Theorem kafka_Publish_spec Marshal accepts k e b :
  el_Payload e = Bytes b →
  (∀ f q, deliverMap k !! f = Some q → has_early_hash (split_slash f) = false) →
  ∃ rules sent, NoDup (map fst rules)
    ∧ (∀ f q, (f, q) ∈ rules ↔ deliverMap k !! f = Some q
                               ∧ fmatch (split_slash f) (split_slash (el_Topic e)) = true)
    ∧ sent `prefix_of` rules
    ∧ (kafka_Publish Marshal accepts k e).1 = map (λ r, mkProducerMessage r.2 (el_Topic e) b) sent
    ∧ ((kafka_Publish Marshal accepts k e).2 = None ↔ sent = rules).
Proof.
  intros Hb Hok. unfold kafka_Publish, kafka_publish. rewrite Hb.
  set (rules := filter _ (map_to_list (deliverMap k))). exists rules.
  assert (Hrules : ∀ f q, (f, q) ∈ rules ↔ deliverMap k !! f = Some q
    ∧ fmatch (split_slash f) (split_slash (el_Topic e)) = true).
  { intros f q. unfold rules. rewrite list_elem_of_filter, elem_of_map_to_list. cbn [fst].
    split; intros [H1 H2]; [rewrite matchTopic_fmatch in H1 by eauto|rewrite matchTopic_fmatch by eauto]; done. }
  destruct (publish_loop_spec accepts (map snd rules) (el_Topic e) b) as (n & H1 & H2).
  exists (take n rules). split.
  { eapply sublist_NoDup; [apply (NoDup_fst_map_to_list (deliverMap k))|].
    apply (fmap_sublist fst), sublist_filter. }
  split; [exact Hrules|]. split; [exists (drop n rules); by rewrite take_drop|].
  rewrite H1, <-(fmap_take snd). split; [by rewrite (map_map snd)|].
  destruct (publish_loop accepts (map snd rules) (el_Topic e) b).2 as [er|].
  - destruct H2 as (_ & t & Ht%lookup_lt_Some & _). rewrite length_map in Ht.
    split; [done|]. intros Htk. apply (f_equal length) in Htk. rewrite length_take in Htk. lia.
  - rewrite length_map in H2. subst n. by rewrite firstn_all.
Qed.

Lemma kafka_Publish_spec_witness :
  kafka_Publish (λ _, None) (λ _, true)
    (mkKafka {[ "a/+"%string := "q1"%string; "b/#"%string := "q2"%string ]})
    (mkElements "c" "u" "a/x" (Bytes [z2b 104]) 0)
    = ([mkProducerMessage "q1" "a/x" [z2b 104]], None)
  ∧ ∃ rules sent : list (string * string), sent `prefix_of` rules ∧ NoDup (map fst rules).
Proof.
  split; [by vm_compute|].
  destruct (kafka_Publish_spec (λ _, None) (λ _, true)
    (mkKafka {[ "a/+"%string := "q1"%string; "b/#"%string := "q2"%string ]})
    (mkElements "c" "u" "a/x" (Bytes [z2b 104]) 0) [z2b 104]) as (rules & sent & Hn & _ & Hp & _);
    [reflexivity| |by exists rules, sent].
  intros f q. cbn [deliverMap]. intros [[<- <-]|[_ H]]%lookup_insert_Some; [by vm_compute|].
  apply lookup_singleton_Some in H as [<- <-]. by vm_compute.
Defined.
