(* ===== verification/Store.v ===== *)
(** * Store: message persistence of the client library

    Models [src/mqtt/store.go] (keys and what is persisted when), the two memory
    stores of [memstore.go] and [memstore_ordered.go], and the [Store] interface
    between them as a class: the persistence rules are proved against the laws of
    the class, and both stores are instances of it. *)
From S2P Require Import Prelude Wire Packets.
Local Open Scope Z_scope.

(** ** Keys *)

Definition digit (d : Z) : byte := z2b (48 + d).

(** [%d] of a [uint16]; five digits are enough. *)
Fixpoint itoa_loop (fuel : nat) (n : Z) (acc : string) : string :=
  match fuel with
  | O => acc
  | S fuel' =>
      let acc := String (digit (n mod 10)) acc in
      if decide (n / 10 = 0) then acc else itoa_loop fuel' (n / 10) acc
  end.
Definition itoa (n : Z) : string := itoa_loop 5 n ""%string.

Definition inboundKeyFromMID (id : Z) : string := String.append "i." (itoa id).
Definition outboundKeyFromMID (id : Z) : string := String.append "o." (itoa id).

(** [strconv.ParseUint(s, 10, 16)]: [None] for an error, on which [mIDFromKey]
    panics. *)
Fixpoint ParseUint_loop (s : string) (acc : Z) : option Z :=
  match s with
  | EmptyString => Some acc
  | String c s' =>
      let d := b2z c - 48 in
      if decide (0 ≤ d ≤ 9) then
        let acc := acc * 10 + d in
        if decide (acc > 65535) then None else ParseUint_loop s' acc
      else None
  end.
Definition ParseUint (s : string) : option Z :=
  if decide (s = ""%string) then None else ParseUint_loop s 0.

(** [key[2:]] panics on a key of fewer than two bytes. *)
Definition mIDFromKey (key : string) : option Z :=
  match key with
  | String _ (String _ s) => ParseUint s
  | _ => None
  end.

Definition isKeyOutbound (key : string) : bool := bool_decide (take_string 2 key = "o."%string).
Definition isKeyInbound (key : string) : bool := bool_decide (take_string 2 key = "i."%string).

(** ** The interface *)

(** The operations of [Store].  [Del] and [Get] are [None] when they panic on a
    malformed key; [store_model] is the table a store stands for. *)
Class Store (T : Type) := {
  store_model : T → gmap string ControlPacket;
  store_opened : T → bool;
  Store_Open : T → T;
  Store_Close : T → T;
  Store_Reset : T → T;
  Put : T → string → ControlPacket → T;
  Get : T → string → option (option ControlPacket);
  Del : T → string → option T;
  All : T → list string
}.

Class StoreLaws (T : Type) `{Store T} := {
  open_law s : store_model (Store_Open s) = store_model s ∧ store_opened (Store_Open s) = true;
  close_law s : store_model (Store_Close s) = store_model s ∧ store_opened (Store_Close s) = false;
  reset_law s : store_opened s = true → store_model (Store_Reset s) = ∅ ∧ store_opened (Store_Reset s) = true;
  closed_law s key m :
    store_opened s = false → Put s key m = s ∧ Del s key = Some s ∧ Get s key = Some None ∧ All s = [];
  put_law s key m :
    store_opened s = true →
    store_model (Put s key m) = <[key := m]> (store_model s) ∧ store_opened (Put s key m) = true;
  del_law s key id :
    store_opened s = true → mIDFromKey key = Some id →
    ∃ s', Del s key = Some s' ∧ store_model s' = delete key (store_model s) ∧ store_opened s' = true;
  get_law s key id :
    store_opened s = true → mIDFromKey key = Some id → Get s key = Some (store_model s !! key);
  all_law s : store_opened s = true → All s ≡ₚ map fst (map_to_list (store_model s))
}.

(** ** What is persisted *)

Section Persist.
Context {T : Type} `{Store T}.

Definition persistOutbound (s : T) (m : ControlPacket) : option T :=
  let d := ControlPacket_Details m in
  if decide (det_Qos d = 0) then
    match m with
    | PPuback _ | PPubcomp _ => Del s (inboundKeyFromMID (det_MessageID d))
    | _ => Some s
    end
  else if decide (det_Qos d = 1) then
    match m with
    | PPublish _ | PPubrel _ | PSubscribe _ | PUnsubscribe _ =>
        Some (Put s (outboundKeyFromMID (det_MessageID d)) m)
    | _ => Some s
    end
  else if decide (det_Qos d = 2) then
    match m with
    | PPublish _ => Some (Put s (outboundKeyFromMID (det_MessageID d)) m)
    | _ => Some s
    end
  else Some s.

Definition persistInbound (s : T) (m : ControlPacket) : option T :=
  let d := ControlPacket_Details m in
  if decide (det_Qos d = 0) then
    match m with
    | PPuback _ | PSuback _ | PUnsuback _ | PPubcomp _ => Del s (outboundKeyFromMID (det_MessageID d))
    | _ => Some s
    end
  else if decide (det_Qos d = 1) then
    match m with
    | PPublish _ | PPubrel _ => Some (Put s (inboundKeyFromMID (det_MessageID d)) m)
    | _ => Some s
    end
  else if decide (det_Qos d = 2) then
    match m with
    | PPublish _ => Some (Put s (inboundKeyFromMID (det_MessageID d)) m)
    | _ => Some s
    end
  else Some s.
End Persist.

(** ** [MemoryStore] *)

Record MemoryStore := mkMemoryStore {
  ms_messages : gmap string ControlPacket;
  ms_opened : bool
}.

Definition NewMemoryStore : MemoryStore := mkMemoryStore ∅ false.
Definition MemoryStore_Open (s : MemoryStore) : MemoryStore := mkMemoryStore (ms_messages s) true.

Definition MemoryStore_Put (s : MemoryStore) (key : string) (m : ControlPacket) : MemoryStore :=
  if negb (ms_opened s) then s
  else mkMemoryStore (<[key := m]> (ms_messages s)) (ms_opened s).

Definition MemoryStore_Get (s : MemoryStore) (key : string) : option (option ControlPacket) :=
  if negb (ms_opened s) then Some None
  else mid ← mIDFromKey key; Some (ms_messages s !! key).

Definition MemoryStore_All (s : MemoryStore) : list string :=
  if negb (ms_opened s) then [] else map fst (map_to_list (ms_messages s)).

Definition MemoryStore_Del (s : MemoryStore) (key : string) : option MemoryStore :=
  if negb (ms_opened s) then Some s
  else mid ← mIDFromKey key;
       Some (match ms_messages s !! key with
             | None => s
             | Some _ => mkMemoryStore (delete key (ms_messages s)) (ms_opened s)
             end).

Definition MemoryStore_Close (s : MemoryStore) : MemoryStore :=
  if negb (ms_opened s) then s else mkMemoryStore (ms_messages s) false.

(** Wipes the messages even when the store is not open. *)
Definition MemoryStore_Reset (s : MemoryStore) : MemoryStore := mkMemoryStore ∅ (ms_opened s).

#[export] Instance MemoryStore_Store : Store MemoryStore := {
  store_model := ms_messages; store_opened := ms_opened; Put := MemoryStore_Put;
  Store_Open := MemoryStore_Open; Store_Close := MemoryStore_Close; Store_Reset := MemoryStore_Reset;
  Get := MemoryStore_Get; Del := MemoryStore_Del; All := MemoryStore_All
}.

#[export] Instance MemoryStore_laws : StoreLaws MemoryStore.
Proof.
  split; intros [m o]; cbn; intros.
  - done.
  - by destruct o.
  - done.
  - by subst.
  - by subst.
  - subst. unfold MemoryStore_Del. cbn. rewrite H0. cbn. eexists. split; [done|].
    destruct (m !! key) eqn:Hk; cbn; [done|]. by rewrite delete_id.
  - subst. unfold MemoryStore_Get. cbn. by rewrite H0.
  - by subst.
Qed.

(** ** [OrderedMemoryStore] *)

Record storedMessage := mkStored { ts : Z; stored_msg : ControlPacket }.

(** [now] is the clock: what [time.Now()] gives at the next [Put]. *)
Record OrderedMemoryStore := mkOrdered {
  os_messages : gmap string storedMessage;
  os_opened : bool;
  now : Z
}.

Definition NewOrderedMemoryStore (t : Z) : OrderedMemoryStore := mkOrdered ∅ false t.
Definition Ordered_Open (s : OrderedMemoryStore) : OrderedMemoryStore :=
  mkOrdered (os_messages s) true (now s).

Definition Ordered_Put (s : OrderedMemoryStore) (key : string) (m : ControlPacket)
    : OrderedMemoryStore :=
  if negb (os_opened s) then s
  else mkOrdered (<[key := mkStored (now s) m]> (os_messages s)) (os_opened s) (now s).

Definition Ordered_Get (s : OrderedMemoryStore) (key : string) : option (option ControlPacket) :=
  if negb (os_opened s) then Some None
  else mid ← mIDFromKey key; Some (stored_msg <$> os_messages s !! key).

(** [tsKeys[a].ts.Before(tsKeys[b].ts)]. *)
Definition ts_le (a b : Z * string) : Prop := a.1 ≤ b.1.
#[export] Instance ts_le_dec : RelDecision ts_le.
Proof. intros a b. unfold ts_le. apply _. Defined.
#[export] Instance ts_le_total : Total ts_le.
Proof. intros a b. unfold ts_le. lia. Qed.
#[export] Instance ts_le_trans : Transitive ts_le.
Proof. intros a b c. unfold ts_le. lia. Qed.

Definition tsKeys (s : OrderedMemoryStore) : list (Z * string) :=
  map (λ e, (ts e.2, e.1)) (map_to_list (os_messages s)).

Definition Ordered_All (s : OrderedMemoryStore) : list string :=
  if negb (os_opened s) then [] else map snd (merge_sort ts_le (tsKeys s)).

Definition Ordered_Del (s : OrderedMemoryStore) (key : string) : option OrderedMemoryStore :=
  if negb (os_opened s) then Some s
  else mid ← mIDFromKey key;
       Some (match os_messages s !! key with
             | None => s
             | Some _ => mkOrdered (delete key (os_messages s)) (os_opened s) (now s)
             end).

Definition Ordered_Close (s : OrderedMemoryStore) : OrderedMemoryStore :=
  if negb (os_opened s) then s else mkOrdered (os_messages s) false (now s).
Definition Ordered_Reset (s : OrderedMemoryStore) : OrderedMemoryStore :=
  mkOrdered ∅ (os_opened s) (now s).

#[export] Instance Ordered_Store : Store OrderedMemoryStore := {
  store_model s := stored_msg <$> os_messages s; store_opened := os_opened;
  Store_Open := Ordered_Open; Store_Close := Ordered_Close; Store_Reset := Ordered_Reset;
  Put := Ordered_Put; Get := Ordered_Get; Del := Ordered_Del; All := Ordered_All
}.

#[export] Instance Ordered_laws : StoreLaws OrderedMemoryStore.
Proof.
  split; intros [m o t]; cbn; intros; subst.
  - done.
  - by destruct o.
  - by rewrite fmap_empty.
  - done.
  - unfold Ordered_Put. cbn. by rewrite fmap_insert.
  - unfold Ordered_Del. cbn. rewrite H0. cbn. eexists. split; [done|].
    destruct (m !! key) eqn:Hk; cbn; [by rewrite fmap_delete|].
    by rewrite delete_id by (by rewrite lookup_fmap, Hk).
  - unfold Ordered_Get. cbn. by rewrite H0, lookup_fmap.
  - unfold Ordered_All. cbn. rewrite merge_sort_Permutation. unfold tsKeys. cbn.
    by rewrite map_to_list_fmap, !map_map.
Qed.

(** ** Keys *)

Lemma digit_value n : b2z (digit (n mod 10)) - 48 = n mod 10.
Proof.
  unfold digit. pose proof (Z.mod_pos_bound n 10). rewrite b2z_z2b_small; [lia|]. unfold is_u8. lia.
Qed.

Lemma itoa_loop_S fuel n t :
  itoa_loop (S fuel) n t = if decide (n / 10 = 0) then String (digit (n mod 10)) t
                           else itoa_loop fuel (n / 10) (String (digit (n mod 10)) t).
Proof. done. Qed.

(** Reading the digits of [n] gives [n]. *)
Lemma ParseUint_itoa fuel : ∀ n t,
  0 ≤ n ≤ 65535 → n < 10 ^ Z.of_nat (S fuel) →
  ParseUint_loop (itoa_loop (S fuel) n t) 0 = ParseUint_loop t n.
Proof.
  induction fuel as [|fuel IH]; intros n t Hn Hf;
    pose proof (Z.mod_pos_bound n 10); pose proof (Z.div_mod n 10);
    assert (Hd : ∀ a, a * 10 + n mod 10 = n → ParseUint_loop (String (digit (n mod 10)) t) a = ParseUint_loop t n)
      by (intros a Ha; cbn [ParseUint_loop]; rewrite digit_value, Ha, decide_True, decide_False by lia; done);
    rewrite itoa_loop_S.
  - assert (n / 10 = 0) as Hz by (apply Z.div_small; lia). rewrite decide_True by done. apply Hd. lia.
  - destruct (decide (n / 10 = 0)); [apply Hd; lia|].
    rewrite Nat2Z.inj_succ, Z.pow_succ_r in Hf by lia.
    rewrite IH; [apply Hd; lia|lia|apply Z.div_lt_upper_bound; lia].
Qed.

Lemma itoa_nonempty fuel : ∀ n t, itoa_loop (S fuel) n t ≠ ""%string.
Proof. induction fuel as [|fuel IH]; intros n t; rewrite itoa_loop_S; by case_decide. Qed.

Lemma ParseUint_itoa_u16 id : is_u16 id → ParseUint (itoa id) = Some id.
Proof.
  intros Hid. unfold ParseUint, itoa. rewrite decide_False by apply itoa_nonempty.
  unfold is_u16 in Hid. by rewrite ParseUint_itoa by lia.
Qed.

Lemma key_roundtrip id : is_u16 id →
  mIDFromKey (inboundKeyFromMID id) = Some id ∧ mIDFromKey (outboundKeyFromMID id) = Some id
  ∧ isKeyInbound (inboundKeyFromMID id) = true ∧ isKeyOutbound (inboundKeyFromMID id) = false
  ∧ isKeyOutbound (outboundKeyFromMID id) = true ∧ isKeyInbound (outboundKeyFromMID id) = false.
Proof. intros Hid%ParseUint_itoa_u16. by repeat split. Qed.

(** Keys.  The keys of two messages are equal only if direction and message id
    are, and the id can be read back from the key. *)
Theorem keys_injective id1 id2 :
  is_u16 id1 → is_u16 id2 →
  inboundKeyFromMID id1 ≠ outboundKeyFromMID id2
  ∧ (inboundKeyFromMID id1 = inboundKeyFromMID id2 → id1 = id2)
  ∧ (outboundKeyFromMID id1 = outboundKeyFromMID id2 → id1 = id2)
  ∧ mIDFromKey (inboundKeyFromMID id1) = Some id1.
Proof.
  intros H1 H2. apply key_roundtrip in H1 as (Hi1 & Ho1 & Hb1 & _), H2 as (Hi2 & Ho2 & _ & _ & _ & Hb2).
  split; [congruence|]. split; [congruence|]. split; [congruence|done].
Qed.

(** ** Handshakes *)

Section Handshakes.
Context {T : Type} `{StoreLaws T}.

Lemma persistOutbound_put s m :
  store_opened s = true →
  match m with
  | PPublish _ => det_Qos (ControlPacket_Details m) = 1 ∨ det_Qos (ControlPacket_Details m) = 2
  | PPubrel _ => det_Qos (ControlPacket_Details m) = 1
  | PSubscribe _ | PUnsubscribe _ => True
  | _ => False
  end →
  ∃ s', persistOutbound s m = Some s' ∧ store_opened s' = true ∧
    store_model s' = <[outboundKeyFromMID (det_MessageID (ControlPacket_Details m)) := m]> (store_model s).
Proof.
  intros Ho Hm.
  assert (persistOutbound s m
    = Some (Put s (outboundKeyFromMID (det_MessageID (ControlPacket_Details m))) m)) as ->.
  { unfold persistOutbound. destruct m; try done; cbn in Hm |- *.
    - destruct Hm as [->| ->]; done.
    - by rewrite Hm. }
  destruct (put_law s (outboundKeyFromMID (det_MessageID (ControlPacket_Details m))) m Ho).
  eauto.
Qed.

Lemma persistInbound_del s m id :
  store_opened s = true → is_u16 id →
  ControlPacket_Details m = mkDetails 0 id →
  match m with PPuback _ | PSuback _ | PUnsuback _ | PPubcomp _ => True | _ => False end →
  ∃ s', persistInbound s m = Some s' ∧ store_opened s' = true ∧
    store_model s' = delete (outboundKeyFromMID id) (store_model s).
Proof.
  intros Ho Hid Hd Hm. unfold persistInbound. rewrite Hd. cbn.
  destruct (key_roundtrip id Hid) as (_ & Hk & _).
  destruct (del_law s (outboundKeyFromMID id) id Ho Hk) as (s' & -> & Hs' & Ho').
  destruct m; try done; by exists s'.
Qed.

(** An outgoing QoS 2 message is kept until it is complete.  Sending PUBLISH
    stores it, sending PUBREL replaces it under the same key, receiving PUBCOMP
    removes it; every other stored message, incoming ones with the same id
    included, is untouched at every step.  This holds for every store that obeys
    the interface. *)
Theorem outbound_qos2 s p rel comp id :
  store_opened s = true → is_u16 id →
  ControlPacket_Details (PPublish p) = mkDetails 2 id →
  ControlPacket_Details (PPubrel rel) = mkDetails 1 id →
  ControlPacket_Details (PPubcomp comp) = mkDetails 0 id →
  ∃ s1 s2 s3,
    persistOutbound s (PPublish p) = Some s1 ∧ persistOutbound s1 (PPubrel rel) = Some s2
    ∧ persistInbound s2 (PPubcomp comp) = Some s3
    ∧ Get s1 (outboundKeyFromMID id) = Some (Some (PPublish p))
    ∧ Get s2 (outboundKeyFromMID id) = Some (Some (PPubrel rel))
    ∧ Get s3 (outboundKeyFromMID id) = Some None
    ∧ ∀ key, key ≠ outboundKeyFromMID id →
        store_model s1 !! key = store_model s !! key ∧ store_model s2 !! key = store_model s !! key
        ∧ store_model s3 !! key = store_model s !! key.
Proof.
  intros Ho Hid Hp Hr Hc.
  destruct (persistOutbound_put s (PPublish p) Ho) as (s1 & E1 & O1 & M1); [rewrite Hp; by right|].
  destruct (persistOutbound_put s1 (PPubrel rel) O1) as (s2 & E2 & O2 & M2); [by rewrite Hr|].
  destruct (persistInbound_del s2 (PPubcomp comp) id O2 Hid Hc I) as (s3 & E3 & O3 & M3).
  rewrite Hp in M1. rewrite Hr in M2. cbn [det_MessageID] in M1, M2.
  destruct (key_roundtrip id Hid) as (_ & Hk & _).
  exists s1, s2, s3. split; [done|]. split; [done|]. split; [done|].
  rewrite (get_law s1 _ id O1 Hk), (get_law s2 _ id O2 Hk), (get_law s3 _ id O3 Hk).
  rewrite M3, M2, M1, !lookup_insert_eq, lookup_delete_eq.
  split; [done|]. split; [done|]. split; [done|].
  intros key Hne. by rewrite !lookup_delete_ne, !lookup_insert_ne by done.
Qed.
End Handshakes.

(** ** Order of resending *)

(** The packets stored one after the other, with the clock advancing. *)
Fixpoint put_all (l : list (string * ControlPacket)) (s : OrderedMemoryStore) : OrderedMemoryStore :=
  match l with
  | [] => s
  | (k, m) :: l' =>
      let s := Ordered_Put s k m in
      put_all l' (mkOrdered (os_messages s) (os_opened s) (now s + 1))
  end.

Lemma put_all_model l : ∀ s,
  os_opened s = true → NoDup (map fst l) →
  (∀ k m, os_messages s !! k = Some m → ts m < now s) →
  (∀ k, k ∈ map fst l → os_messages s !! k = None) →
  os_opened (put_all l s) = true ∧
  tsKeys (put_all l s) ≡ₚ tsKeys s ++ zip (seqZ (now s) (Z.of_nat (length l))) (map fst l).
Proof.
  induction l as [|[k m] l IH]; intros s Ho Hnd Hts Hfresh; cbn [put_all].
  { cbn. by rewrite app_nil_r. }
  cbn in Hnd. apply NoDup_cons in Hnd as [Hk Hnd]. unfold Ordered_Put. rewrite Ho. cbn [negb os_messages os_opened now].
  set (s' := mkOrdered (<[k := mkStored (now s) m]> (os_messages s)) true (now s + 1)).
  assert (Hnone : os_messages s !! k = None) by (apply Hfresh; cbn; apply elem_of_cons; auto).
  destruct (IH s') as [Ho' Hp]; try done.
  - cbn. intros k' m'. rewrite lookup_insert_Some. intros [[_ <-]|[_ Hm]]; cbn; [lia|].
    specialize (Hts k' m' Hm). lia.
  - intros k' Hk'. cbn. rewrite lookup_insert_ne by (intros ->; done).
    apply Hfresh. cbn. by apply elem_of_cons; right.
  - split; [exact Ho'|]. rewrite Hp. cbn [length map fst].
    rewrite Nat2Z.inj_succ, (seqZ_cons (now s) (Z.succ _)), Z.pred_succ by lia. cbn [zip zip_with].
    unfold tsKeys, s'. cbn [os_messages now]. rewrite map_to_list_insert by done. cbn [map fst snd ts].
    rewrite <-Z.add_1_r. by rewrite <-Permutation_middle.
Qed.

Lemma sorted_zip_seqZ (ks : list string) n : ∀ t,
  Sorted ts_le (zip (seqZ t n) ks).
Proof.
  intros t. apply StronglySorted_Sorted. revert t n.
  induction ks as [|k ks IH]; intros t n; [rewrite zip_with_nil_r; constructor|].
  destruct (decide (0 < n)); [|by rewrite seqZ_nil by lia; constructor].
  rewrite seqZ_cons by done. cbn [zip zip_with]. constructor; [apply IH|].
  apply Forall_forall. intros [t' k'] Hin. apply elem_of_zip_l, elem_of_seqZ in Hin.
  unfold ts_le. cbn. lia.
Qed.

(** Messages are resent in the order they were stored: [All] of the ordered
    store lists the keys in the order of their [Put]s. *)
Theorem Ordered_All_order l t :
  NoDup (map fst l) →
  Ordered_All (put_all l (Ordered_Open (NewOrderedMemoryStore t))) = map fst l.
Proof.
  intros Hnd. set (s := Ordered_Open (NewOrderedMemoryStore t)).
  destruct (put_all_model l s) as [Ho Hp]; [done|done|..].
  { cbn. intros k m. by rewrite lookup_empty. }
  { cbn. intros k _. by rewrite lookup_empty. }
  unfold Ordered_All. rewrite Ho. cbn [negb].
  set (z := zip (seqZ (now s) (Z.of_nat (length l))) (map fst l)) in *.
  assert (Hlen : length (seqZ (now s) (Z.of_nat (length l))) = length (map fst l))
    by (rewrite length_seqZ, length_map; lia).
  assert (Hz : merge_sort ts_le (tsKeys (put_all l s)) = z).
  { apply (Sorted_unique_strong ts_le).
    - intros [t1 k1] [t2 k2] H1 H2 Ha Hb. rewrite merge_sort_Permutation, Hp in H1.
      unfold ts_le in *. cbn in Ha, Hb, H1. assert (t1 = t2) as -> by lia.
      apply list_elem_of_lookup_1 in H1 as [i1 H1], H2 as [i2 H2].
      apply lookup_zip_with_Some in H1 as (? & ? & [= -> ->] & Hs1 & Hk1).
      apply lookup_zip_with_Some in H2 as (? & ? & [= -> ->] & Hs2 & Hk2).
      apply lookup_seqZ in Hs1 as [Hs1 _], Hs2 as [Hs2 _].
      assert (i1 = i2) as -> by lia. congruence.
    - apply Sorted_merge_sort, _.
    - apply sorted_zip_seqZ.
    - by rewrite merge_sort_Permutation, Hp. }
  rewrite Hz. unfold z. apply snd_zip. lia.
Qed.

(** ** Witnesses *)

Lemma keys_injective_witness : inboundKeyFromMID 7 ≠ outboundKeyFromMID 7.
Proof. apply (keys_injective 7 7); unfold is_u16; lia. Defined.

Definition sample_qos2 : PublishPacket :=
  mkPublish (mkFixedHeader Publish false 2 false 0) "a"%string 9 [].

Lemma outbound_qos2_witness :
  ∃ s1 s2 s3 : MemoryStore,
    persistOutbound (MemoryStore_Open NewMemoryStore) (PPublish sample_qos2) = Some s1
    ∧ persistOutbound s1 (PPubrel (newPubrel 9)) = Some s2
    ∧ persistInbound s2 (PPubcomp (newAck Pubcomp 9)) = Some s3
    ∧ Get s3 (outboundKeyFromMID 9) = Some None.
Proof.
  destruct (outbound_qos2 (MemoryStore_Open NewMemoryStore) sample_qos2 (newPubrel 9)
    (newAck Pubcomp 9) 9) as (s1 & s2 & s3 & H1 & H2 & H3 & _ & _ & H4 & _);
    [done|unfold is_u16; lia|done|done|done|].
  by exists s1, s2, s3.
Defined.

Lemma Ordered_All_order_witness :
  Ordered_All (put_all [("o.9"%string, PPublish sample_qos2); ("o.3"%string, PPublish sample_qos2)]
    (Ordered_Open (NewOrderedMemoryStore 0))) = ["o.9"; "o.3"]%string.
Proof.
  apply (Ordered_All_order [("o.9"%string, PPublish sample_qos2); ("o.3"%string, PPublish sample_qos2)] 0).
  by apply (bool_decide_unpack _); vm_compute.
Defined.
