(* ===== verification/FileStore.v ===== *)
(** * FileStore: messages kept in files

    Models [src/mqtt/filestore.go].  The store's directory is a table from file names
    to contents and modification times, and the calls of package [os] that the store
    makes are operations on it; the clock is an argument.  A message is written to a
    temporary file that is then renamed, so that a crash at any moment leaves the
    message that was there before or the new one.  Keys hold no "/" (those of
    [store.go] do not), so a key and an extension make a file name. *)
From S2P Require Import Prelude Wire Packets PacketsRoundtrip PacketsStream Store.
Local Open Scope Z_scope.

(** ** Files *)

Record file := mkFile { content : list byte; modTime : Z }.
Abbreviation dir := (gmap string file).

Definition msgExt : string := ".msg".
Definition tmpExt : string := ".tmp".
Definition corruptExt : string := ".CORRUPT".

Definition fullpath (key : string) : string := String.append key msgExt.
Definition tmppath (key : string) : string := String.append key tmpExt.
Definition corruptpath (key : string) : string := String.append key corruptExt.

(** [os.Create] empties or makes the file; a write appends to it; [os.Rename] replaces
    the target at once; [os.Remove]; [os.Stat]. *)
Definition os_Create (now : Z) (name : string) (d : dir) : dir := <[name := mkFile [] now]> d.
Definition os_Write (now : Z) (name : string) (b : list byte) (d : dir) : dir :=
  alter (λ f, mkFile (content f ++ b) now) name d.
Definition os_Rename (old new : string) (d : dir) : dir :=
  match d !! old with Some f => <[new := f]> (delete old d) | None => d end.
Definition os_Remove (name : string) (d : dir) : dir := delete name d.
Definition exists_ (d : dir) (name : string) : bool := bool_decide (is_Some (d !! name)).

(** ** The store *)

Record FileStore := mkFileStore { directory : dir; fs_opened : bool }.

Definition NewFileStore (d : dir) : FileStore := mkFileStore d false.
Definition FileStore_Open (s : FileStore) : FileStore := mkFileStore (directory s) true.
Definition FileStore_Close (s : FileStore) : FileStore := mkFileStore (directory s) false.

(** The calls the store makes of package [os], and what they do. *)
Inductive os_call := CallCreate (name : string) | CallWrite (name : string) (b : list byte) | CallRename (old new : string).
Definition run_call (now : Z) (d : dir) (c : os_call) : dir :=
  match c with
  | CallCreate name => os_Create now name d
  | CallWrite name b => os_Write now name b d
  | CallRename old new => os_Rename old new d
  end.

(** [write], as the calls it makes in order; [None] is the panic of a packet that cannot be
    written. *)
Definition write (key : string) (m : ControlPacket) : option (list os_call) :=
  w ← ControlPacket_Write m;
  Some [CallCreate (tmppath key); CallWrite (tmppath key) w.1; CallRename (tmppath key) (fullpath key)].

(** What [Put] asks of the file system. *)
Definition Put_calls (key : string) (m : ControlPacket) (s : FileStore) : option (list os_call) :=
  if negb (fs_opened s) then Some [] else write key m.

Definition FileStore_Put (now : Z) (key : string) (m : ControlPacket) (s : FileStore) : option FileStore :=
  calls ← Put_calls key m s;
  Some (mkFileStore (foldl (run_call now) (directory s) calls) (fs_opened s)).

(** A file that cannot be read is archived under another name. *)
Definition FileStore_Get (key : string) (s : FileStore) : FileStore * option ControlPacket :=
  if negb (fs_opened s) then (s, None)
  else if negb (exists_ (directory s) (fullpath key)) then (s, None)
  else
    match directory s !! fullpath key with
    | None => (s, None)
    | Some f =>
        match ReadPacket (content f) with
        | (_, Some _, _) =>
            (mkFileStore (os_Rename (fullpath key) (corruptpath key) (directory s)) true, None)
        | (msg, None, _) => (s, msg)
        end
    end.

(** The key of a message file. *)
Definition key_of_name (name : string) : option string :=
  let n := String.length name in
  if decide (n < String.length msgExt)%nat then None
  else if decide (drop_string (n - String.length msgExt) name = msgExt)
       then Some (take_string (n - 4) name)
       else None.

Definition not_newer (f g : string * file) : Prop := modTime f.2 ≤ modTime g.2.
#[global] Instance not_newer_dec f g : Decision (not_newer f g).
Proof. unfold not_newer. apply _. Defined.

(** [all], by modification time. *)
Definition FileStore_all (s : FileStore) : list string :=
  if negb (fs_opened s) then []
  else omap (λ f, key_of_name f.1) (merge_sort not_newer (map_to_list (directory s))).

Definition FileStore_All (s : FileStore) : list string := FileStore_all s.

Definition FileStore_del (key : string) (s : FileStore) : FileStore :=
  if negb (fs_opened s) then s
  else if negb (exists_ (directory s) (fullpath key)) then s
  else mkFileStore (os_Remove (fullpath key) (directory s)) (fs_opened s).

Definition FileStore_Del (key : string) (s : FileStore) : FileStore := FileStore_del key s.

Definition FileStore_Reset (s : FileStore) : FileStore :=
  foldl (λ s key, FileStore_del key s) s (FileStore_all s).

(** ** Names *)

Lemma fullpath_inj k1 k2 : fullpath k1 = fullpath k2 → k1 = k2.
Proof. intros H. by apply append_inj_suffix in H as [-> _]. Qed.

Lemma fullpath_tmppath k1 k2 : fullpath k1 ≠ tmppath k2.
Proof. intros H. by apply append_inj_suffix in H as [_ H]. Qed.

Lemma key_of_fullpath key : key_of_name (fullpath key) = Some key.
Proof.
  unfold key_of_name, fullpath. rewrite length_append, decide_False by lia.
  change 4%nat with (String.length msgExt). rewrite Nat.add_sub, drop_string_app, decide_True by done.
  by rewrite take_string_app.
Qed.

Lemma key_of_name_Some name key : key_of_name name = Some key → name = fullpath key.
Proof.
  unfold key_of_name. case_decide; [done|]. case_decide as Hd; [|done]. intros [= <-].
  change 4%nat with (String.length msgExt). unfold fullpath. rewrite <-Hd at 2. symmetry. apply take_drop_string.
Qed.

(** ** Writing and reading *)

(** What the calls of [write] leave. *)
Lemma write_eq now key m bytes m' d :
  ControlPacket_Write m = Some (bytes, m') →
  ∃ calls, write key m = Some calls
    ∧ foldl (run_call now) d calls = <[fullpath key := mkFile bytes now]> (delete (tmppath key) d).
Proof.
  intros Hw. unfold write. rewrite Hw. cbn [mbind option_bind fst]. eexists. split; [done|]. cbn [foldl run_call].
  unfold os_Rename, os_Write, os_Create. rewrite lookup_alter_eq, lookup_insert_eq. cbn.
  f_equal. apply map_eq. intros name. destruct (decide (name = tmppath key)) as [->|].
  - by rewrite !lookup_delete_eq.
  - by rewrite !lookup_delete_ne, lookup_alter_ne, lookup_insert_ne.
Qed.

(** The message a directory holds under a key. *)
Definition stored (d : dir) (key : string) : option ControlPacket :=
  f ← d !! fullpath key;
  match ReadPacket (content f) with
  | (msg, None, _) => msg
  | (_, Some _, _) => None
  end.

Lemma get_stored_file key s : fs_opened s = true → (FileStore_Get key s).2 = stored (directory s) key.
Proof.
  intros Ho. unfold FileStore_Get, stored, exists_. rewrite Ho. cbn [negb].
  destruct (directory s !! fullpath key) as [f|]; [|done].
  rewrite bool_decide_eq_true_2 by done. cbn [negb mbind option_bind].
  by destruct (ReadPacket (content f)) as [[msg [e|]] r].
Qed.

Lemma Get_keeps key s m : (FileStore_Get key s).2 = Some m → (FileStore_Get key s).1 = s.
Proof.
  unfold FileStore_Get. repeat case_match; cbn; done.
Qed.

Lemma stored_written now key m bytes m' d :
  packet_ok m → ControlPacket_Write m = Some (bytes, m') →
  stored (<[fullpath key := mkFile bytes now]> d) key = Some (read_back m').
Proof.
  intros Hok Hw. unfold stored. rewrite lookup_insert_eq. cbn [mbind option_bind content].
  destruct (ReadPacket_Write m [] Hok) as (b & c & Hw' & Hr). rewrite Hw in Hw'. injection Hw' as <- <-.
  rewrite app_nil_r in Hr. by rewrite Hr.
Qed.

(** Files that are not the message file of [key] do not matter. *)
Lemma stored_other d name f key : name ≠ fullpath key → stored (<[name := f]> d) key = stored d key.
Proof. intros H. unfold stored. by rewrite lookup_insert_ne. Qed.
Lemma stored_delete d name key : name ≠ fullpath key → stored (delete name d) key = stored d key.
Proof. intros H. unfold stored. by rewrite lookup_delete_ne. Qed.

(** What is put is got.  For a packet that fits the wire format, [Put] on an open
    file store succeeds, [Get] of its key then gives the packet back (as decoding
    does, with the remaining length that was written) and changes nothing, and the
    messages under all other keys are as they were. *)
Theorem FileStore_Put_Get now key m s :
  fs_opened s = true → packet_ok m →
  ∃ bytes m' s', ControlPacket_Write m = Some (bytes, m')
    ∧ FileStore_Put now key m s = Some s'
    ∧ FileStore_Get key s' = (s', Some (read_back m'))
    ∧ ∀ key', key' ≠ key → (FileStore_Get key' s').2 = (FileStore_Get key' s).2.
Proof.
  intros Ho Hok. destruct (ReadPacket_Write m [] Hok) as (bytes & m' & Hw & _).
  destruct (write_eq now key m bytes m' (directory s) Hw) as (calls & Hc & Hd).
  exists bytes, m'. unfold FileStore_Put, Put_calls. rewrite Ho, Hc.
  cbn [negb mbind option_bind]. rewrite Hd. eexists. split; [done|]. split; [done|].
  set (s' := mkFileStore _ true).
  assert (Hg : (FileStore_Get key s').2 = Some (read_back m')).
  { rewrite get_stored_file by done. by apply (stored_written now key m). }
  split.
  - pose proof (Get_keeps _ _ _ Hg). destruct (FileStore_Get key s'); cbn in *. congruence.
  - intros key' Hne. rewrite !get_stored_file by done. unfold s'. cbn [directory].
    rewrite stored_other by (intros H%fullpath_inj; congruence).
    apply stored_delete. symmetry. apply fullpath_tmppath.
Qed.

(** ** Crashes *)

(** The calls made when the program dies: the first [k], and of the next one, if it is a
    write, the first [n] bytes; the other calls happen as a whole or not at all. *)
Definition cut_short (k n : nat) (calls : list os_call) : list os_call :=
  take k calls ++ match calls !! k with Some (CallWrite name b) => [CallWrite name (take n b)] | _ => [] end.

Definition reopen (d : dir) : FileStore := FileStore_Open (NewFileStore d).

(** Calls that do not touch a message file do not change what is stored. *)
Definition spares_messages (c : os_call) : Prop :=
  match c with
  | CallCreate name | CallWrite name _ => ∀ key, name ≠ fullpath key
  | CallRename _ _ => False
  end.
Lemma spared_stored now c d key : spares_messages c → stored (run_call now d c) key = stored d key.
Proof.
  destruct c as [name|name b|old new]; intros Hs; cbn in *; [by apply stored_other| |done].
  unfold stored, os_Write. by rewrite lookup_alter_ne.
Qed.
Lemma spared_all now calls : ∀ d key, Forall spares_messages calls → stored (foldl (run_call now) d calls) key = stored d key.
Proof.
  induction calls as [|c calls IH]; intros d key Hs; [done|]. apply Forall_cons in Hs as [Hc Hs]. cbn.
  by rewrite IH, spared_stored.
Qed.

(** Before the last call of [write] no message file is touched. *)
Lemma write_cut key m calls k n :
  write key m = Some calls → (k < length calls)%nat → Forall spares_messages (cut_short k n calls).
Proof.
  intros Hw Hk. unfold write in Hw. destruct (ControlPacket_Write m) as [w|]; [|done]. cbn in Hw. injection Hw as <-.
  assert (Ht : ∀ key', tmppath key ≠ fullpath key') by (intros key' H; by apply (fullpath_tmppath key' key)).
  destruct k as [|[|[|k]]]; [..|cbn in Hk; lia]; cbn; repeat constructor; exact Ht.
Qed.

(** C37: [Put] is atomic.  If the program dies at any moment during [Put], that is after any
    number of the calls it makes and after any part of a write, and the store is opened again,
    every other key has its message as before, and the key itself has what it had before or the
    new message, never a part of one; when all the calls were made it has the new one. *)
Theorem FileStore_crash_safe now key m s calls k n key' :
  packet_ok m → Put_calls key m s = Some calls → fs_opened s = true →
  let d' := foldl (run_call now) (directory s) (cut_short k n calls) in
  ((k < length calls)%nat → (FileStore_Get key' (reopen d')).2 = (FileStore_Get key' s).2)
  ∧ ((length calls ≤ k)%nat → FileStore_Put now key m s = Some (mkFileStore d' true)
       ∧ (FileStore_Get key' (reopen d')).2
         = if decide (key' = key) then read_back <$> (snd <$> ControlPacket_Write m) else (FileStore_Get key' s).2).
Proof.
  intros Hok Hcalls Ho d'. assert (Hp := Hcalls). unfold Put_calls in Hcalls. rewrite Ho in Hcalls. cbn in Hcalls.
  rewrite !get_stored_file by done. cbn [reopen FileStore_Open NewFileStore directory].
  split; intros Hk.
  - by apply spared_all, (write_cut key m).
  - unfold d', cut_short. rewrite take_ge, (lookup_ge_None_2 calls k), app_nil_r by done.
    unfold FileStore_Put. rewrite Hp, Ho. split; [done|].
    destruct (ReadPacket_Write m [] Hok) as (bytes & m' & Hw & _).
    destruct (write_eq now key m bytes m' (directory s) Hw) as (calls' & Hc & Hd').
    rewrite Hcalls in Hc. injection Hc as <-. rewrite Hd'. case_decide as Hd; [subst; rewrite Hw; cbn; by apply (stored_written now key m)|].
    rewrite stored_other by (intros H%fullpath_inj; congruence). apply stored_delete. symmetry. apply fullpath_tmppath.
Qed.

(** ** Listing, deleting, resetting *)

Lemma StronglySorted_omap {A B} (R : relation A) (R' : relation B) (g : A → option B) l :
  (∀ x y a b, R x y → g x = Some a → g y = Some b → R' a b) →
  StronglySorted R l → StronglySorted R' (omap g l).
Proof.
  intros HR. induction 1 as [|x l Hs IH Hf]; [constructor|]. cbn.
  destruct (g x) as [a|] eqn:Hx; [|done]. constructor; [done|].
  apply Forall_forall. intros b (y & Hy & Hb)%list_elem_of_omap.
  eapply (HR x y); [|done..]. by eapply Forall_forall in Hf.
Qed.

(** The keys with the times of their files. *)
Definition keyed (s : FileStore) : list (string * Z) :=
  omap (λ f, k ← key_of_name f.1; Some (k, modTime f.2)) (merge_sort not_newer (map_to_list (directory s))).

Lemma keyed_all s : fs_opened s = true → FileStore_all s = map fst (keyed s).
Proof.
  intros Ho. unfold FileStore_all, keyed. rewrite Ho. cbn [negb].
  induction (merge_sort _ _) as [|[n f] l IH]; [done|]. cbn. destruct (key_of_name n); cbn; [by f_equal|done].
Qed.

Lemma elem_of_keyed s k t :
  (k, t) ∈ keyed s ↔ ∃ f, directory s !! fullpath k = Some f ∧ modTime f = t.
Proof.
  unfold keyed. rewrite list_elem_of_omap. setoid_rewrite merge_sort_Permutation. split.
  - intros ([n f] & Hin%elem_of_map_to_list & Hk). cbn in Hk.
    destruct (key_of_name n) as [k'|] eqn:Hn; [|done]. injection Hk as <- <-.
    apply key_of_name_Some in Hn as ->. eauto.
  - intros (f & Hf & <-). exists (fullpath k, f). rewrite elem_of_map_to_list. cbn.
    by rewrite key_of_fullpath.
Qed.

Lemma NoDup_keyed s : NoDup (map fst (keyed s)).
Proof.
  unfold keyed. assert (Hnd : NoDup (map fst (merge_sort not_newer (map_to_list (directory s))))).
  { rewrite merge_sort_Permutation. apply NoDup_fst_map_to_list. }
  induction (merge_sort _ _) as [|[n f] l IH]; [constructor|].
  cbn in Hnd. apply NoDup_cons in Hnd as [Hn Hnd]. cbn.
  destruct (key_of_name n) as [k|] eqn:Hk; cbn; [|by apply IH].
  apply NoDup_cons. split; [|by apply IH]. intros ([k' t] & Heq & Hin)%list_elem_of_fmap.
  cbn in Heq. subst k'. apply list_elem_of_omap in Hin as ([n' f'] & Hin & Hk'). cbn in Hk'.
  destruct (key_of_name n') as [k2|] eqn:Hn'; [|done]. injection Hk' as -> _.
  apply key_of_name_Some in Hk as ->, Hn' as ->. apply Hn.
  by apply (list_elem_of_fmap_2' fst l (fullpath k, f')).
Qed.

#[global] Instance not_newer_total : Total not_newer.
Proof. intros f g. unfold not_newer. lia. Qed.
#[global] Instance not_newer_trans : Transitive not_newer.
Proof. intros f g h. unfold not_newer. lia. Qed.

(** What a file store lists.  [All] of an open store lists the key of every message
    file once, and no other file, ordered by the times the files were written, so
    that messages are resent oldest first. *)
Theorem FileStore_All_order s :
  fs_opened s = true →
  ∃ ks : list (string * Z), FileStore_All s = map fst ks ∧ NoDup (map fst ks)
    ∧ StronglySorted (λ a b, a.2 ≤ b.2) ks
    ∧ ∀ k t, (k, t) ∈ ks ↔ ∃ f, directory s !! fullpath k = Some f ∧ modTime f = t.
Proof.
  intros Ho. exists (keyed s). split; [by apply keyed_all|]. split; [apply NoDup_keyed|].
  split; [|intros; apply elem_of_keyed].
  eapply StronglySorted_omap; [|apply StronglySorted_merge_sort; apply _].
  intros [n1 f1] [n2 f2] [k1 t1] [k2 t2] Hle. cbn.
  destruct (key_of_name n1), (key_of_name n2); try done. by intros [= <- <-] [= <- <-].
Qed.

Lemma del_files key s :
  fs_opened s = true →
  fs_opened (FileStore_del key s) = true
  ∧ directory (FileStore_del key s) = delete (fullpath key) (directory s).
Proof.
  intros Ho. unfold FileStore_del, exists_. rewrite Ho. cbn [negb].
  destruct (directory s !! fullpath key) eqn:Hf.
  - rewrite bool_decide_eq_true_2 by done. done.
  - rewrite bool_decide_eq_false_2 by (by intros [? ?]). cbn. by rewrite delete_id.
Qed.

Lemma reset_files l : ∀ s,
  fs_opened s = true →
  let s' := foldl (λ s key, FileStore_del key s) s l in
  fs_opened s' = true
  ∧ (∀ k, k ∈ l → directory s' !! fullpath k = None)
  ∧ (∀ name, (∀ k, k ∈ l → name ≠ fullpath k) → directory s' !! name = directory s !! name)
  ∧ (∀ name, directory s !! name = None → directory s' !! name = None).
Proof.
  induction l as [|k l IH]; intros s Ho; cbn [foldl]; [set_solver|].
  destruct (del_files k s Ho) as [Ho1 Hd1]. destruct (IH _ Ho1) as (Ho2 & Hl & Hk & Hn).
  split; [done|]. split; [|split].
  - intros k' [->|Hk']%elem_of_cons; [|by apply Hl]. apply Hn. by rewrite Hd1, lookup_delete_eq.
  - intros name Hname. rewrite Hk by (intros; apply Hname; by right).
    rewrite Hd1, lookup_delete_ne; [done|]. symmetry. apply Hname. by left.
  - intros name Hname. apply Hn. rewrite Hd1. by apply lookup_delete_None; right.
Qed.

(** [Reset] removes exactly the messages: afterwards no message is listed or found,
    and every file that is not a message is untouched. *)
Theorem FileStore_Reset_clears s :
  fs_opened s = true →
  FileStore_All (FileStore_Reset s) = []
  ∧ (∀ k, (FileStore_Get k (FileStore_Reset s)).2 = None)
  ∧ ∀ name, key_of_name name = None → directory (FileStore_Reset s) !! name = directory s !! name.
Proof.
  intros Ho. unfold FileStore_Reset.
  destruct (reset_files (FileStore_all s) s Ho) as (Ho' & Hl & Hk & Hn).
  set (s' := foldl _ s _) in *.
  assert (Hnone : ∀ k, directory s' !! fullpath k = None).
  { intros k. destruct (directory s !! fullpath k) as [f|] eqn:Hf; [|by apply Hn].
    apply Hl. rewrite keyed_all by done. apply (list_elem_of_fmap_2' fst (keyed s) (k, modTime f)); [|done].
    apply elem_of_keyed. eauto. }
  split; [|split].
  - unfold FileStore_All. rewrite keyed_all by done.
    destruct (keyed s') as [|[k t] l] eqn:Hks; [done|]. exfalso.
    assert (Hin : (k, t) ∈ keyed s') by (rewrite Hks; by left).
    apply elem_of_keyed in Hin as (f & Hf & _). by rewrite Hnone in Hf.
  - intros k. rewrite get_stored_file by done. unfold stored. by rewrite Hnone.
  - intros name Hname. apply Hk. intros k _ ->. by rewrite key_of_fullpath in Hname.
Qed.

(** ** Witnesses *)

Definition sample_store : FileStore := reopen {[ "notes.txt"%string := mkFile [] 1 ]}.

Lemma sample_written :
  ControlPacket_Write (PPublish sample_publish)
    = Some (sample_bytes, PPublish (PublishPacket_Write sample_publish).2).
Proof. by vm_compute. Defined.

Lemma FileStore_Put_Get_witness :
  ∃ s', FileStore_Put 5 "o.7" (PPublish sample_publish) sample_store = Some s'
    ∧ (FileStore_Get "o.7" s').2 = Some (PPublish (PublishPacket_Write sample_publish).2).
Proof.
  destruct (FileStore_Put_Get 5 "o.7" (PPublish sample_publish) sample_store)
    as (bytes & m' & s' & Hw & Hp & Hg & _); [reflexivity|exact sample_publish_ok|].
  exists s'. split; [exact Hp|]. rewrite Hg. rewrite sample_written in Hw.
  apply (f_equal (fmap snd)) in Hw. cbn [fmap option_fmap option_map snd] in Hw.
  injection Hw as <-. reflexivity.
Defined.

(** The program dies after three bytes of the temporary file. *)
Definition sample_calls : list os_call := default [] (Put_calls "o.7" (PPublish sample_publish) sample_store).
Lemma FileStore_crash_safe_witness :
  (FileStore_Get "o.7" (reopen (foldl (run_call 5) (directory sample_store) (cut_short 1 3 sample_calls)))).2
    = (FileStore_Get "o.7" sample_store).2.
Proof.
  apply (FileStore_crash_safe 5 "o.7" (PPublish sample_publish) sample_store sample_calls 1 3 "o.7");
    [exact sample_publish_ok|reflexivity|reflexivity|cbn; lia].
Defined.

Lemma FileStore_All_order_witness :
  ∃ ks : list (string * Z), FileStore_All sample_store = map fst ks ∧ NoDup (map fst ks).
Proof.
  destruct (FileStore_All_order sample_store) as (ks & Ha & Hn & _); [reflexivity|].
  exists ks. split; [exact Ha|exact Hn].
Defined.

Lemma FileStore_Reset_clears_witness :
  directory (FileStore_Reset sample_store) !! "notes.txt"%string = Some (mkFile [] 1).
Proof.
  destruct (FileStore_Reset_clears sample_store) as (_ & _ & H); [reflexivity|].
  rewrite H; [reflexivity|by vm_compute].
Defined.
