(* ===== verification/Sessions.v ===== *)
(** * Sessions: client sessions

    Models [src/broker/lib/sessions/*.go] and [src/broker/sesson.go].  A session is
    shared by pointer between the provider's table and the connections of its
    client, so sessions live in a heap and both hold addresses. *)
From S2P Require Import Prelude Wire Packets.
Local Open Scope Z_scope.

Record Session := mkSession {
  cmsg : option ConnectPacket;
  Will : option PublishPacket;
  Retained : option PublishPacket;
  session_topics : gmap string Z;
  initted : bool;
  session_id : string
}.

Definition new_session (id : string) : Session := mkSession None None None ∅ false id.

Inductive sess_error := AlreadyInitialized | NotInitialized | NoSessionFound.

(** The will of the session; its QoS is the CONNECT packet's own header QoS. *)
Definition session_will (msg : ConnectPacket) : PublishPacket :=
  mkPublish
    (mkFixedHeader Publish false (Qos (con_FixedHeader msg)) (con_WillRetain msg) 0)
    (con_WillTopic msg) 0 (con_WillMessage msg).

Definition Session_Init (s : Session) (msg : ConnectPacket) : Session * option sess_error :=
  if initted s then (s, Some AlreadyInitialized)
  else (mkSession (Some msg) (if con_WillFlag msg then Some (session_will msg) else Will s)
          (Retained s) ∅ true (con_ClientIdentifier msg), None).

Definition Session_Update (s : Session) (msg : ConnectPacket) : Session * option sess_error :=
  (s {{ cmsg := Some msg }}, None).

Definition Session_RetainMessage (s : Session) (m : PublishPacket) : Session * option sess_error :=
  (s {{ Retained := Some m }}, None).

Definition Session_AddTopic (s : Session) (topic : string) (qos : Z) : Session * option sess_error :=
  if negb (initted s) then (s, Some NotInitialized)
  else (s {{ session_topics ::= insert topic qos }}, None).

Definition Session_RemoveTopic (s : Session) (topic : string) : Session * option sess_error :=
  if negb (initted s) then (s, Some NotInitialized)
  else (s {{ session_topics ::= delete topic }}, None).

(** The two slices, in parallel. *)
Definition Session_Topics (s : Session) : result sess_error (list string * list Z) :=
  if negb (initted s) then Err NotInitialized
  else let l := map_to_list (session_topics s) in Ok (map fst l, map snd l).

(** ** The provider *)

Record memProvider := mkProvider {
  sess_table : gmap string positive;
  sess_heap : gmap positive Session
}.

Definition fresh_session (p : memProvider) : positive := fresh (dom (sess_heap p)).

(** [Manager.New]: [generated] is the random id used for an empty one. *)
Definition Manager_New (generated : string) (p : memProvider) (id : string)
    : positive * memProvider :=
  let id := if decide (id = ""%string) then generated else id in
  let a := fresh_session p in
  (a, mkProvider (<[id := a]> (sess_table p)) (<[a := new_session id]> (sess_heap p))).

Definition Manager_Get (p : memProvider) (id : string) : option positive := sess_table p !! id.
Definition Manager_Del (p : memProvider) (id : string) : memProvider :=
  mkProvider (delete id (sess_table p)) (sess_heap p).
Definition Manager_Count (p : memProvider) : nat := size (sess_table p).

Definition on_session (f : Session → Session) (a : positive) (p : memProvider) : memProvider :=
  p {{ sess_heap ::= alter f a }}.

(** ** [getSession] *)

(** What [getSession] leaves: the session of the new client, whether it tells the
    client that the session was there before, the request as it modified it, the
    provider, and the error. *)
Definition getSession (generated : string) (p : memProvider) (req : ConnectPacket)
    : option positive * bool * ConnectPacket * memProvider * option sess_error :=
  let req := if decide (String.length (con_ClientIdentifier req) = O)
             then req {{ con_CleanSession := true }} else req in
  let cid := con_ClientIdentifier req in
  let found := if con_CleanSession req then None else Manager_Get p cid in
  match found with
  | Some a => (Some a, true, req, on_session (λ s, (Session_Update s req).1) a p, None)
  | None =>
      let '(a, p) := Manager_New generated p cid in
      match sess_heap p !! a with
      | Some s =>
          let '(s, err) := Session_Init s req in
          (Some a, false, req, on_session (λ _, s) a p, err)
      | None => (Some a, false, req, p, None)
      end
  end.

(** ** Properties *)

(** Every session of the table is in the heap, initialised, under its own id. *)
Definition provider_ok (p : memProvider) : Prop :=
  ∀ id a, sess_table p !! id = Some a → ∃ s, sess_heap p !! a = Some s ∧ initted s = true.

Lemma heap_on_session f a p : sess_heap (on_session f a p) = alter f a (sess_heap p).
Proof. done. Qed.

Lemma table_on_session f a p : sess_table (on_session f a p) = sess_table p.
Proof. done. Qed.

Lemma fresh_session_new p : sess_heap p !! fresh_session p = None.
Proof. apply not_elem_of_dom. unfold fresh_session. apply is_fresh. Qed.

(** Sessions.  [getSession] never fails.  A client that asks to resume and has
    a session gets that very session, with its subscriptions, and is told so; any
    other client gets a new, initialised session without subscriptions, stored
    under its id, and is told so; sessions of other clients are untouched. *)
Theorem getSession_spec generated p req :
  provider_ok p →
  let cid := con_ClientIdentifier req in
  ∃ a present req' p', getSession generated p req = (Some a, present, req', p', None) ∧
    (present = true ↔ con_CleanSession req = false ∧ cid ≠ ""%string ∧ is_Some (sess_table p !! cid)) ∧
    (present = true → sess_table p !! cid = Some a ∧ sess_table p' = sess_table p ∧
       ∃ s, sess_heap p !! a = Some s ∧ sess_heap p' !! a = Some (s {{ cmsg := Some req' }})) ∧
    (present = false → sess_heap p !! a = None ∧
       sess_table p' = <[(if decide (cid = ""%string) then generated else cid) := a]> (sess_table p) ∧
       ∃ s, sess_heap p' !! a = Some s ∧ initted s = true ∧ session_topics s = ∅) ∧
    (∀ b, b ≠ a → sess_heap p' !! b = sess_heap p !! b) ∧ provider_ok p'.
Proof.
  intros Hok cid. unfold getSession.
  set (req' := if decide (String.length (con_ClientIdentifier req) = O)
               then req {{ con_CleanSession := true }} else req).
  assert (Hcid : con_ClientIdentifier req' = cid) by (unfold req'; by case_decide).
  assert (Hcl : con_CleanSession req' = con_CleanSession req || bool_decide (cid = ""%string)).
  { unfold req', cid. destruct (con_ClientIdentifier req); cbn; [by rewrite orb_true_r|].
    by rewrite orb_false_r. }
  rewrite Hcid. clearbody req'.
  destruct (if con_CleanSession req' then None else Manager_Get p cid) as [a|] eqn:Hf.
  - destruct (con_CleanSession req') eqn:Hc; [done|]. symmetry in Hcl. apply orb_false_iff in Hcl as [Hc1 Hc2].
    apply bool_decide_eq_false in Hc2. unfold Manager_Get in Hf.
    destruct (Hok _ _ Hf) as (s & Hs & Hi).
    eexists a, true, req', _. split; [done|]. split; [by rewrite Hf|].
    split; [|split; [done|]].
    + intros _. split; [done|]. split; [done|]. exists s. split; [done|].
      by rewrite heap_on_session, lookup_alter_eq, Hs.
    + split; [intros b Hb; by rewrite heap_on_session, lookup_alter_ne|].
      intros id b. rewrite table_on_session, heap_on_session. intros Hb.
      destruct (decide (b = a)) as [->|Hne].
      * rewrite lookup_alter_eq, Hs. by eexists.
      * rewrite lookup_alter_ne by done. by eapply Hok.
  - unfold Manager_New. cbn [sess_heap]. rewrite lookup_insert_eq.
    set (a := fresh_session p). set (id' := if decide (cid = ""%string) then generated else cid).
    cbn [Session_Init new_session initted].
    eexists a, false, req', _. split; [done|].
    pose proof (fresh_session_new p) as Hnew.
    split; [|split; [done|split]].
    + split; [done|]. intros (Hc & Hne & [x Hx]). rewrite Hcl, Hc, bool_decide_eq_false_2 in Hf by done.
      cbn in Hf. unfold Manager_Get in Hf. congruence.
    + intros _. rewrite table_on_session, heap_on_session. split; [done|]. split; [done|].
      cbn [sess_heap]. rewrite lookup_alter_eq, lookup_insert_eq. by eexists.
    + rewrite heap_on_session. cbn [sess_heap].
      split; [intros b Hb; by rewrite lookup_alter_ne, lookup_insert_ne|].
      intros id b. rewrite table_on_session, heap_on_session. cbn [sess_heap sess_table].
      rewrite lookup_insert_Some. intros [[_ <-]|[_ Hb]].
      * rewrite lookup_alter_eq, lookup_insert_eq. by eexists.
      * destruct (Hok _ _ Hb) as (s & Hs & Hi). assert (b ≠ a) by (unfold a; congruence).
        rewrite lookup_alter_ne, lookup_insert_ne by done. eauto.
Qed.

(** ** Witness *)

Definition sample_provider : memProvider :=
  mkProvider {[ "c1"%string := 1%positive ]}
    {[ 1%positive := mkSession None None None {[ "a"%string := 1 ]} true "c1" ]}.

Definition sample_connect : ConnectPacket := newConnect {{ con_ClientIdentifier := "c1"%string }}.

Lemma getSession_spec_witness :
  ∃ a req' p', getSession "gen" sample_provider sample_connect = (Some a, true, req', p', None).
Proof.
  destruct (getSession_spec "gen" sample_provider sample_connect)
    as (a & present & req' & p' & Hg & Hp & _).
  - intros id a. cbn. rewrite lookup_singleton_Some. intros [_ <-]. by eexists.
  - exists a, req', p'. rewrite Hg. rewrite (proj2 Hp); [done|]. split; [done|]. split; [done|].
    by exists 1%positive.
Defined.
