(* ===== verification/Broker.v ===== *)
(** * Broker: connections and message routing

    Models [src/broker/client.go], [comm.go], [broker.go] (from the connection on)
    and the client and subscription parts of the cluster that touch the same
    state ([cluster_client.go], [cluster_sub.go], the receiving end of
    [etcdrouter.go]).

    The state is the broker's memory: clients and subscriptions live in heaps and
    are named by their addresses, since [Broker.clients], the subscription tree
    and the handlers share them.  What leaves the process (packets written,
    messages forwarded to other nodes or to the bridge, entries put into or
    deleted from the cluster store, notifications) is appended to the list [out].
    One handler runs at a time on the state: the worker pool runs the tasks of a
    client in order and each handler is a definition.  Configuration, clock and
    random numbers are arguments. *)
From S2P Require Import Prelude Wire Packets Topics TopicLevels TopicsSpec Acl Sessions PacketsStream.
Local Open Scope Z_scope.

(** ** State *)

Definition LOCAL : Z := 0.
Definition REMOTE : Z := 1.
Definition Connected : Z := 1.
Definition Disconnected : Z := 2.
Definition awaitRelTimeout : Z := 20.
Definition retryInterval : Z := 20.

(** The fields of [model.Client] that the broker reads. *)
Record Info := mkInfo {
  info_ID : string;
  info_NodeID : string;
  info_UserName : string;
  info_ConnectIP : string;
  info_KeepAlive : Z;
  info_Status : Z
}.

Inductive InflightStatus := InfPublish | InfPubrel.

Record inflightElem := mkInflight {
  inf_status : InflightStatus;
  inf_packet : PublishPacket;
  inf_timestamp : Z
}.

(** [conn] tells whether the connection is there (not nil), [conn_ok] whether a
    write to it succeeds, [retryTimer] the interval of the pending timer. *)
Record client := mkClient {
  typ : Z;
  conn : bool;
  conn_ok : bool;
  info : Info;
  willMsg : option PublishPacket;
  status : Z;
  ctx_done : bool;
  session : option positive;
  subMap : gmap string positive;
  rmsgs : list PublishPacket;
  awaitingRel : gmap Z Z;
  maxAwaitingRel : Z;
  inflight : gmap Z inflightElem;
  retryTimer : option Z
}.

Record subscription := mkSubscription {
  sub_client : positive;
  sub_topic : string;
  sub_qos : Z;
  sub_share : bool;
  sub_groupName : string
}.

Inductive notification :=
  | OnClientConnect | OnClientDisconnected | OnAgentConnect | OnAgentDisconnected
  | OnSubscribe (topic : string) | OnUnSubscribe (topic : string).

(** What leaves the process. *)
Inductive effect :=
  | Sent (c : positive) (p : ControlPacket)
  | ConnClosed (c : positive)
  | Forwarded (node clientID : string) (p : PublishPacket)
  | Bridged (clientID topic : string) (payload : list byte)
  | StorePutClient (id : string)
  | StoreDelClient (id : string)
  | StorePutSubscription (topic clientID : string) (qos : Z)
  | StoreDelSubscription (topic clientID : string)
  | Notified (n : notification) (clientID : string).

Record state := mkState {
  heap : gmap positive client;
  subs_heap : gmap positive subscription;
  clients : gmap string positive;
  topicsMgr : memTopics positive;
  sessionMgr : memProvider;
  out : list effect
}.

Record config := mkConfig {
  broker_id : string;
  acl_enable : bool;
  acl : option etcdAcl;
  auth_enable : bool;
  bridge_enable : bool;
  notify_enable : bool
}.

(** ** Updates *)

Definition set_heap (f : gmap positive client → gmap positive client) (s : state) : state :=
  mkState (f (heap s)) (subs_heap s) (clients s) (topicsMgr s) (sessionMgr s) (out s).
Definition set_subs (f : gmap positive subscription → gmap positive subscription) (s : state) : state :=
  mkState (heap s) (f (subs_heap s)) (clients s) (topicsMgr s) (sessionMgr s) (out s).
Definition set_clients (f : gmap string positive → gmap string positive) (s : state) : state :=
  mkState (heap s) (subs_heap s) (f (clients s)) (topicsMgr s) (sessionMgr s) (out s).
Definition set_topics (t : memTopics positive) (s : state) : state :=
  mkState (heap s) (subs_heap s) (clients s) t (sessionMgr s) (out s).
Definition set_sessions (p : memProvider) (s : state) : state :=
  mkState (heap s) (subs_heap s) (clients s) (topicsMgr s) p (out s).
Definition emit (e : effect) (s : state) : state :=
  mkState (heap s) (subs_heap s) (clients s) (topicsMgr s) (sessionMgr s) (out s ++ [e]).

(** [f] applied to the client at [a]. *)
Definition on_client (f : client → client) (a : positive) (s : state) : state :=
  set_heap (alter f a) s.

Definition with_status (z : Z) (c : client) : client :=
  mkClient (typ c) (conn c) (conn_ok c)
    (mkInfo (info_ID (info c)) (info_NodeID (info c)) (info_UserName (info c))
       (info_ConnectIP (info c)) (info_KeepAlive (info c)) z)
    (willMsg c) z (ctx_done c) (session c) (subMap c) (rmsgs c) (awaitingRel c)
    (maxAwaitingRel c) (inflight c) (retryTimer c).
Definition with_ctx_done (c : client) : client :=
  mkClient (typ c) (conn c) (conn_ok c) (info c) (willMsg c) (status c) true (session c)
    (subMap c) (rmsgs c) (awaitingRel c) (maxAwaitingRel c) (inflight c) (retryTimer c).
Definition with_conn (b : bool) (c : client) : client :=
  mkClient (typ c) b (conn_ok c) (info c) (willMsg c) (status c) (ctx_done c) (session c)
    (subMap c) (rmsgs c) (awaitingRel c) (maxAwaitingRel c) (inflight c) (retryTimer c).
Definition with_subMap (f : gmap string positive → gmap string positive) (c : client) : client :=
  mkClient (typ c) (conn c) (conn_ok c) (info c) (willMsg c) (status c) (ctx_done c) (session c)
    (f (subMap c)) (rmsgs c) (awaitingRel c) (maxAwaitingRel c) (inflight c) (retryTimer c).
Definition with_rmsgs (l : list PublishPacket) (c : client) : client :=
  mkClient (typ c) (conn c) (conn_ok c) (info c) (willMsg c) (status c) (ctx_done c) (session c)
    (subMap c) l (awaitingRel c) (maxAwaitingRel c) (inflight c) (retryTimer c).
Definition with_awaitingRel (f : gmap Z Z → gmap Z Z) (c : client) : client :=
  mkClient (typ c) (conn c) (conn_ok c) (info c) (willMsg c) (status c) (ctx_done c) (session c)
    (subMap c) (rmsgs c) (f (awaitingRel c)) (maxAwaitingRel c) (inflight c) (retryTimer c).
Definition with_inflight (f : gmap Z inflightElem → gmap Z inflightElem) (c : client) : client :=
  mkClient (typ c) (conn c) (conn_ok c) (info c) (willMsg c) (status c) (ctx_done c) (session c)
    (subMap c) (rmsgs c) (awaitingRel c) (maxAwaitingRel c) (f (inflight c)) (retryTimer c).
Definition with_retryTimer (t : option Z) (c : client) : client :=
  mkClient (typ c) (conn c) (conn_ok c) (info c) (willMsg c) (status c) (ctx_done c) (session c)
    (subMap c) (rmsgs c) (awaitingRel c) (maxAwaitingRel c) (inflight c) t.

Definition with_willMsg (w : option PublishPacket) (c : client) : client :=
  mkClient (typ c) (conn c) (conn_ok c) (info c) w (status c) (ctx_done c) (session c)
    (subMap c) (rmsgs c) (awaitingRel c) (maxAwaitingRel c) (inflight c) (retryTimer c).

(** A new client, as [init] leaves it. *)
Definition init_client (t : Z) (has_conn : bool) (i : Info) (will : option PublishPacket) : client :=
  mkClient t has_conn true i will Connected false None ∅ [] ∅ 0 ∅ None.

(** ** Validation of strings *)

(** [utf8.ValidString]: the continuation bytes a lead byte asks for, with the range
    of the first one (no overlong forms, no surrogates, nothing above U+10FFFF). *)
Definition utf8_lead (b : Z) : option (nat * Z * Z) :=
  if decide (b < 128) then Some (O, 0, 0)
  else if decide (194 ≤ b ≤ 223) then Some (1%nat, 128, 191)
  else if decide (b = 224) then Some (2%nat, 160, 191)
  else if decide (b = 237) then Some (2%nat, 128, 159)
  else if decide (225 ≤ b ≤ 239) then Some (2%nat, 128, 191)
  else if decide (b = 240) then Some (3%nat, 144, 191)
  else if decide (241 ≤ b ≤ 243) then Some (3%nat, 128, 191)
  else if decide (b = 244) then Some (3%nat, 128, 143)
  else None.

(** [n] continuation bytes are due, the next one between [lo] and [hi]. *)
Fixpoint utf8_valid_from (n : nat) (lo hi : Z) (s : string) : bool :=
  match s with
  | EmptyString => bool_decide (n = O)
  | String a s' =>
      let b := b2z a in
      match n with
      | O => match utf8_lead b with
             | Some (n', lo', hi') => utf8_valid_from n' lo' hi' s'
             | None => false
             end
      | S n' => bool_decide (lo ≤ b ≤ hi) && utf8_valid_from n' 128 191 s'
      end
  end.

Definition ValidString (s : string) : bool := utf8_valid_from O 0 0 s.

Definition extractPacketFields (p : ControlPacket) : list string :=
  match p with
  | PPublish p => [pub_TopicName p]
  | PUnsubscribe p => uns_Topics p
  | _ => []
  end.

Definition validatePacketFields (p : ControlPacket) : bool :=
  forallb (λ f, ValidString f && negb (contains_byte zero f)) (extractPacketFields p).

(** ** Shared and queue topics *)

Definition NEWLINE : byte := z2b 10.

Definition is_group_char (a : byte) : bool :=
  let z := b2z a in
  bool_decide (48 ≤ z ≤ 57) || bool_decide (97 ≤ z ≤ 122) || bool_decide (65 ≤ z ≤ 90)
  || bool_decide (z = 95) || bool_decide (z = 45).

(** [groupCompile.FindStringSubmatch]: the group (letters, digits, "_" and "-", at
    least one) and the topic of "$share/group/topic"; the topic part of the regular
    expression is made of dots, which do not match a newline. *)
Definition groupSubmatch (topic : string) : option (string * string) :=
  if has_prefix topic "$share/" then
    match cut_slash (drop_string 7 topic) with
    | (g, Some rest) =>
        if negb (bool_decide (g = ""%string)) && forallb is_group_char (bytes_of g)
           && negb (contains_byte NEWLINE rest)
        then Some (g, rest) else None
    | (_, None) => None
    end
  else None.

(** [queueCompile.FindStringSubmatch]: the topic of "$queue/topic". *)
Definition queueSubmatch (topic : string) : option string :=
  if has_prefix topic "$queue/" then
    let rest := drop_string 7 topic in
    if contains_byte NEWLINE rest then None else Some rest
  else None.

(** ** Handlers *)

Section Handlers.
Context (cfg : config).

Definition notify (n : notification) (clientID : string) (s : state) : state :=
  if notify_enable cfg then emit (Notified n clientID) s else s.

Definition agent_topic (id : string) : string := String.append "agents/" id.

(** [Cluster.RemoveClient]. *)
Definition RemoveClient (id : string) (s : state) : state :=
  match clients s !! id with Some _ => set_clients (delete id) s | None => s end.

(** [topicsMgr.Unsubscribe([]byte(sub.topic), sub)], its error dropped. *)
Definition unsubscribe_sub (a : positive) (s : state) : state :=
  match subs_heap s !! a with
  | Some sub => set_topics (memTopics_Unsubscribe (topicsMgr s) (sub_topic sub) (Some a)).1 s
  | None => s
  end.

Inductive write_error := ConnectLost | WriteFailed.

(** [WriterPacket], with [close] for its call of [Close]. *)
Definition WriterPacket_with (close : positive → state → state) (a : positive) (p : ControlPacket)
    (s : state) : state * option write_error :=
  match heap s !! a with
  | None => (s, None)
  | Some c =>
      if decide (status c = Disconnected) then (s, None)
      else if negb (conn c) then (close a s, Some ConnectLost)
      else if conn_ok c then (emit (Sent a p) s, None)
      else (s, Some WriteFailed)
  end.

(** [PublishMessage], with [write] for [WriterPacket]: everyone who is subscribed,
    members of shared groups included, is sent the packet as it is. *)
Definition PublishMessage_with
    (write : positive → ControlPacket → state → state * option write_error)
    (packet : PublishPacket) (s : state) : state :=
  match memTopics_Subscribers (topicsMgr s) (pub_TopicName packet) (Qos (pub_FixedHeader packet)) with
  | Err _ => s
  | Ok subs =>
      foldl (λ s '(a, _),
        match subs_heap s !! a with
        | Some sub => (write (sub_client sub) (PPublish packet) s).1
        | None => s
        end) s subs
  end.

(** One turn of [Close]'s loop over [c.subMap]. *)
Definition close_subscription (id : string) (s : state) (e : string * positive) : state :=
  let '(topic, a) := e in
  let s := unsubscribe_sub a s in
  let s := emit (StoreDelSubscription topic id) s in
  let s := notify (OnUnSubscribe topic) id s in
  if decide (topic = agent_topic id) then notify OnAgentDisconnected id s else s.

(** [Close] disconnects its client before it publishes the will, and a disconnected
    client is not closed again, so the calls nest at most once per connected
    client (proved in BrokerInv). *)
Fixpoint Close_loop (fuel : nat) (a : positive) (s : state) : state :=
  match fuel with
  | O => s
  | S fuel' =>
      match heap s !! a with
      | None => s
      | Some c =>
          if decide (status c = Disconnected) then s
          else
            let id := info_ID (info c) in
            let s := on_client with_ctx_done a s in
            let s := on_client (with_status Disconnected) a s in
            let s := if conn c then on_client (with_conn false) a (emit (ConnClosed a) s) else s in
            let s := RemoveClient id s in
            let s := emit (StoreDelClient id) s in
            let s := foldl (close_subscription id) s (map_to_list (subMap c)) in
            let s := notify OnClientDisconnected id s in
            match willMsg c with
            | Some w => PublishMessage_with (WriterPacket_with (Close_loop fuel')) w s
            | None => s
            end
      end
  end.

Definition close_fuel (s : state) : nat := S (size (heap s)).

Definition Close (a : positive) (s : state) : state := Close_loop (close_fuel s) a s.

Definition WriterPacket (a : positive) (p : ControlPacket) (s : state) : state * option write_error :=
  WriterPacket_with Close a p s.

Definition PublishMessage (packet : PublishPacket) (s : state) : state :=
  PublishMessage_with WriterPacket packet s.

(** ** Delivery: [comm.go] *)

Definition ensureRetryTimer (interval : option Z) (a : positive) (s : state) : state :=
  match heap s !! a with
  | None => s
  | Some c =>
      match retryTimer c with
      | Some _ => s
      | None => on_client (with_retryTimer (Some (default retryInterval interval))) a s
      end
  end.

Definition resetRetryTimer (a : positive) (s : state) : state :=
  on_client (with_retryTimer None) a s.

Definition set_inflight (now : Z) (packet : PublishPacket) (a : positive) (s : state) : state :=
  on_client (with_inflight (<[pub_MessageID packet := mkInflight InfPublish packet now]>)) a s.

Definition publish (now : Z) (sub : subscription) (packet : PublishPacket) (s : state) : state :=
  let a := sub_client sub in
  match heap s !! a with
  | None => s
  | Some c =>
      let forward := emit (Forwarded (info_NodeID (info c)) (info_ID (info c)) packet) in
      if decide (Qos (pub_FixedHeader packet) = 0) then
        if decide (typ c = LOCAL) then (WriterPacket a (PPublish packet) s).1 else forward s
      else if decide (Qos (pub_FixedHeader packet) = 1 ∨ Qos (pub_FixedHeader packet) = 2) then
        let s := set_inflight now packet a s in
        if decide (typ c = LOCAL)
        then ensureRetryTimer None a (WriterPacket a (PPublish packet) s).1
        else forward s
      else s
  end.

Definition publishFoward (now : Z) (a : positive) (packet : PublishPacket) (s : state) : state :=
  if decide (Qos (pub_FixedHeader packet) = 0) then (WriterPacket a (PPublish packet) s).1
  else if decide (Qos (pub_FixedHeader packet) = 1 ∨ Qos (pub_FixedHeader packet) = 2) then
    ensureRetryTimer None a (WriterPacket a (PPublish packet) (set_inflight now packet a s)).1
  else s.

(** One element of [retryDelivery]'s loop, named by its message id. *)
Definition retry_one (now : Z) (a : positive) (s : state) (e : Z * inflightElem) : state :=
  let '(id, el) := e in
  let age := now - inf_timestamp el in
  if decide (retryInterval ≤ age) then
    let p := match inf_status el with
             | InfPublish => PPublish (inf_packet el)
             | InfPubrel => PPubrel (newPubrel (pub_MessageID (inf_packet el)))
             end in
    on_client (with_inflight (alter (λ el, mkInflight (inf_status el) (inf_packet el) now) id)) a
      (WriterPacket a p s).1
  else
    let age := if decide (age < 0) then 0 else age in
    ensureRetryTimer (Some (retryInterval - age)) a s.

Definition retryDelivery (now : Z) (a : positive) (s : state) : state :=
  let s := resetRetryTimer a s in
  match heap s !! a with
  | None => s
  | Some c =>
      if negb (conn c) || bool_decide (size (inflight c) = O) then s
      else ensureRetryTimer None a (foldl (retry_one now a) s (map_to_list (inflight c)))
  end.

(** ** Messages of a client *)

Definition isAwaitingFull (c : client) : bool :=
  if decide (maxAwaitingRel c = 0) then false
  else if decide (Z.of_nat (size (awaitingRel c)) < maxAwaitingRel c) then false
  else true.

(** [None] for an error. *)
Definition registerPublishPacketId (now : Z) (packetId : Z) (c : client) : option client :=
  if isAwaitingFull c then None
  else match awaitingRel c !! packetId with
       | Some _ => None
       | None => Some (with_awaitingRel (<[packetId := now]>) c)
       end.

Definition expireAwaitingRel (now : Z) (c : client) : client :=
  with_awaitingRel (filter (λ e, ¬ awaitRelTimeout ≤ now - e.2)) c.

Definition pubRel (packetId : Z) (c : client) : client :=
  match awaitingRel c !! packetId with
  | Some _ => with_awaitingRel (delete packetId) c
  | None => c
  end.

(** The loop over [c.subs]: the members of the shared groups, in order, and the
    others, who get the message at once. *)
Definition add_member (a : positive) (g : string) (qsub : gmap string (list positive))
    : gmap string (list positive) :=
  match qsub !! g with
  | Some objs => <[g := objs ++ [a]]> qsub
  | None => <[g := [a]]> qsub
  end.

Definition sort_out (now : Z) (packet : PublishPacket)
    (acc : state * gmap string (list positive)) (e : positive * Z)
    : state * gmap string (list positive) :=
  let '(s, qsub) := acc in
  match subs_heap s !! e.1 with
  | Some sub =>
      if sub_share sub then (s, add_member e.1 (sub_groupName sub) qsub)
      else (publish now sub packet s, qsub)
  | None => acc
  end.

(** [r.Intn(n)]: a number below [n], drawn for each group. *)
Context (Intn : string → nat → nat).

Definition publish_group (now : Z) (packet : PublishPacket) (s : state)
    (e : string * list positive) : state :=
  let '(group, objs) := e in
  match objs !! Intn group (length objs) with
  | Some a => match subs_heap s !! a with
              | Some sub => publish now sub packet s
              | None => s
              end
  | None => s
  end.

Definition route (now : Z) (packet : PublishPacket) (s : state) : state :=
  match memTopics_Subscribers (topicsMgr s) (pub_TopicName packet) (Qos (pub_FixedHeader packet)) with
  | Err _ => s
  | Ok subs =>
      let '(s, qsub) := foldl (sort_out now packet) (s, ∅) subs in
      foldl (publish_group now packet) s (map_to_list qsub)
  end.

Definition ProcessPublishMessage (now : Z) (a : positive) (packet : PublishPacket) (forward : bool)
    (s : state) : state :=
  match heap s !! a with
  | None => s
  | Some c =>
      if bridge_enable cfg && has_prefix (pub_TopicName packet) "$queue/" then
        match queueSubmatch (pub_TopicName packet) with
        | None => s
        | Some topic => emit (Bridged (info_ID (info c)) topic (pub_Payload packet)) s
        end
      else
        let s := if Retain (pub_FixedHeader packet)
                 then set_topics (memTopics_Retain (topicsMgr s) packet).1 s else s in
        if forward then publishFoward now a packet s else route now packet s
  end.

Definition acl_allows (classify : string) (c : client) (topic : string) : bool :=
  if acl_enable cfg then
    match acl cfg with
    | Some store => CheckAcl store classify (info_ID (info c)) (info_UserName (info c))
                      (info_ConnectIP (info c)) topic
    | None => true
    end
  else true.

Definition ProcessPublish (now : Z) (a : positive) (packet : PublishPacket) (forward : bool)
    (s : state) : state :=
  match heap s !! a with
  | None => s
  | Some c =>
      if negb (acl_allows "pub" c (pub_TopicName packet)) then s
      else
        let q := Qos (pub_FixedHeader packet) in
        let id := pub_MessageID packet in
        if decide (q = 0) then ProcessPublishMessage now a packet forward s
        else if decide (q = 1) then
          match WriterPacket a (PPuback (newAck Puback id)) s with
          | (s, Some _) => s
          | (s, None) => ProcessPublishMessage now a packet forward s
          end
        else if decide (q = 2) then
          match registerPublishPacketId now id c with
          | None => s
          | Some c' =>
              match WriterPacket a (PPubrec (newAck Pubrec id)) (on_client (λ _, c') a s) with
              | (s, Some _) => s
              | (s, None) => ProcessPublishMessage now a packet forward s
              end
          end
        else s
  end.

(** ** Subscriptions *)

(** What the handlers do with an old subscription under the same filter. *)
Definition drop_old (a : positive) (t : string) (c : client) (s : state) : state :=
  match subMap c !! t with
  | Some old => on_client (with_subMap (delete t)) a (unsubscribe_sub old s)
  | None => s
  end.

Definition fresh_sub (s : state) : positive := fresh (dom (subs_heap s)).

(** The share group of a filter and the filter proper; [None] for a malformed
    "$share/" filter. *)
Definition split_share (topic : string) : option (bool * string * string) :=
  if has_prefix topic "$share/" then
    match groupSubmatch topic with
    | Some (g, rest) => Some (true, g, rest)
    | None => None
    end
  else Some (false, ""%string, topic).

(** One topic of [ProcessSubscribe]'s loop; [None] is a panic ([qoss[i]] out of range,
    or no session). *)
Definition subscribe_one (a : positive) (t : string) (qos_i : option Z) (s : state)
    : option (state * Z) :=
  c ← heap s !! a;
  if negb (acl_allows "sub" c t) then Some (s, QosFailure)
  else
    match split_share t with
    | None => Some (s, QosFailure)
    | Some (share, group, topic) =>
        let s := drop_old a t c s in
        q ← qos_i;
        let sa := fresh_sub s in
        let s := set_subs (<[sa := mkSubscription a topic q share group]>) s in
        let '(tm, rqos, err) := memTopics_Subscribe (topicsMgr s) topic q (Some sa) in
        let s := set_topics tm s in
        match err with
        | Some _ => Some (s, QosFailure)
        | None =>
            let s := on_client (with_subMap (<[t := sa]>)) a s in
            sess ← session c;
            let s := set_sessions (on_session (λ x, (Session_AddTopic x t q).1) sess (sessionMgr s)) s in
            let s := match memTopics_Retained (topicsMgr s) topic (rmsgs c) with
                     | Ok msgs => on_client (with_rmsgs msgs) a s
                     | Err _ => s
                     end in
            let id := info_ID (info c) in
            let s := emit (StorePutSubscription t id q) s in
            let s := notify (OnSubscribe t) id s in
            let s := if decide (t = agent_topic id) then notify OnAgentConnect id s else s in
            Some (s, rqos)
        end
    end.

Fixpoint subscribe_loop (a : positive) (topics : list string) (qoss : list byte)
    (retcodes : list byte) (s : state) : option (state * list byte) :=
  match topics with
  | [] => Some (s, retcodes)
  | t :: topics' =>
      r ← subscribe_one a t (b2z <$> head qoss) s;
      subscribe_loop a topics' (tail qoss) (retcodes ++ [z2b r.2]) r.1
  end.

Definition ProcessSubscribe (a : positive) (packet : SubscribePacket) (s : state) : option state :=
  c ← heap s !! a;
  if decide (status c = Disconnected) then Some s
  else
    r ← subscribe_loop a (sub_Topics packet) (sub_Qoss packet) [] s;
    let '(s, retcodes) := r : state * list byte in
    let suback := mkSuback (header_of_type Suback 0) (sub_MessageID packet) retcodes in
    match WriterPacket a (PSuback suback) s with
    | (s, Some _) => Some s
    | (s, None) =>
        c ← heap s !! a;
        Some (foldl (λ s rm, (WriterPacket a (PPublish rm) s).1) s (rmsgs c))
    end.

(** One topic of [ProcessUnSubscribe]'s loop; with notifications on, [sub.qos] of a
    filter that is not subscribed is a nil dereference. *)
Definition unsubscribe_one (a : positive) (topic : string) (s : state) : option state :=
  c ← heap s !! a;
  let id := info_ID (info c) in
  s ← match subMap c !! topic with
      | Some sa =>
          sess ← session c;
          let s := unsubscribe_sub sa s in
          let s := set_sessions (on_session (λ x, (Session_RemoveTopic x topic).1) sess (sessionMgr s)) s in
          Some (on_client (with_subMap (delete topic)) a s)
      | None => Some s
      end;
  let s := emit (StoreDelSubscription topic id) s in
  if notify_enable cfg then
    match subMap c !! topic with
    | None => None
    | Some _ =>
        let s := notify (OnUnSubscribe topic) id s in
        Some (if decide (topic = agent_topic id) then notify OnAgentDisconnected id s else s)
    end
  else Some s.

Fixpoint unsubscribe_loop (a : positive) (topics : list string) (s : state) : option state :=
  match topics with
  | [] => Some s
  | t :: topics' => s ← unsubscribe_one a t s; unsubscribe_loop a topics' s
  end.

Definition ProcessUnSubscribe (a : positive) (packet : UnsubscribePacket) (s : state) : option state :=
  c ← heap s !! a;
  if decide (status c = Disconnected) then Some s
  else
    s ← unsubscribe_loop a (uns_Topics packet) s;
    Some (WriterPacket a (PUnsuback (newAck Unsuback (uns_MessageID packet))) s).1.

Definition ProcessPing (a : positive) (s : state) : state :=
  match heap s !! a with
  | None => s
  | Some c =>
      if decide (status c = Disconnected) then s
      else (WriterPacket a (PPingresp (header_of_type Pingresp 0)) s).1
  end.

(** The PUBREC branch of [ProcessMessage]. *)
Definition process_pubrec (now : Z) (a : positive) (id : Z) (s : state) : state :=
  let s := on_client (with_inflight (alter (λ el,
             match inf_status el with
             | InfPublish => mkInflight InfPubrel (inf_packet el) now
             | InfPubrel => el
             end) id)) a s in
  (WriterPacket a (PPubrel (newPubrel id)) s).1.

(** What the read loop does itself when it reads a DISCONNECT, before it submits the
    packet: the will is cleared and the context cancelled. *)
Definition read_disconnect (a : positive) (s : state) : state :=
  on_client with_ctx_done a (on_client (with_willMsg None) a s).

(** A task of the worker pool; [None] is a panic. *)
Definition ProcessMessage (now : Z) (a : positive) (p : ControlPacket) (forward : bool) (s : state)
    : option state :=
  c ← heap s !! a;
  if negb (validatePacketFields p) then
    if negb (conn c) then None
    else Some (on_client (with_status Disconnected) a (emit (ConnClosed a) s))
  else
    match p with
    | PPublish p => Some (ProcessPublish now a p forward s)
    | PPuback p | PPubcomp p => Some (on_client (with_inflight (delete (ack_MessageID p))) a s)
    | PPubrec p => Some (process_pubrec now a (ack_MessageID p) s)
    | PPubrel p =>
        let s := on_client (pubRel (ack_MessageID p)) a s in
        Some (WriterPacket a (PPubcomp (newAck Pubcomp (ack_MessageID p))) s).1
    | PSubscribe p => ProcessSubscribe a p s
    | PUnsubscribe p => ProcessUnSubscribe a p s
    | PPingreq _ => Some (ProcessPing a s)
    | PDisconnect _ => Some (Close a s)
    | PConnect _ | PConnack _ | PSuback _ | PUnsuback _ | PPingresp _ => Some s
    end.

(** ** Connections *)

(** Package [bcrypt], the random session id, and what the JSON in a connect packet's
    trailing field makes of the client's data: the fields it has override others, and
    "null" leaves a nil pointer ([None]). *)
Context `{Bcrypt} (generated : string)
  (read_info : list byte → Info → option Info).

Definition will_of (msg : ConnectPacket) : option PublishPacket :=
  if con_WillFlag msg then
    Some (mkPublish (mkFixedHeader Publish (Dup (con_FixedHeader msg)) (con_WillQos msg)
                       (con_WillRetain msg) 0)
            (con_WillTopic msg) 0 (con_WillMessage msg))
  else None.

(** [info] after the JSON was read and [init] has set address and status; [None] is the
    nil dereference there. *)
Definition info_of (msg : ConnectPacket) (ip : string) : option Info :=
  let i := mkInfo (con_ClientIdentifier msg) (broker_id cfg) (con_Username msg) "" (con_Keepalive msg) 0 in
  i ← match con_Other msg with Some o => read_info o i | None => Some i end;
  Some (mkInfo (info_ID i) (info_NodeID i) (info_UserName i) ip (info_KeepAlive i) Connected).

Definition fresh_client (s : state) : positive := fresh (dom (heap s)).

(** [handleConnection(LOCAL, conn)] up to the read loop, for a connection that
    delivers [r] from the address [ip] and on which writes succeed or not: the
    state, and the new client with the rest of the stream; [None] is a panic.  The
    address of the client stands for the connection from the start. *)
Definition handleConnection (users : etcdAuth) (ip : string) (write_ok : bool) (r : list byte)
    (s : state) : option (state * option (positive * list byte)) :=
  let a := fresh_client s in
  match ReadPacket r with
  | (Some (PConnect msg), None, rest) =>
      let rc := ConnectPacket_Validate msg in
      let ack rc := PConnack (mkConnack (header_of_type Connack 0) (con_CleanSession msg) rc) in
      let send rc s := if write_ok then emit (Sent a (ack rc)) s else s in
      if decide (rc ≠ Accepted) then Some (emit (ConnClosed a) (send rc s), None)
      else if auth_enable cfg
           && negb (CheckConnect users (con_ClientIdentifier msg) (con_Username msg)
                      (string_of (con_Password msg)))
      then Some (emit (ConnClosed a) (send ErrRefusedNotAuthorised s), None)
      else if negb write_ok then Some (s, None)
      else
        let s := send rc s in
        i ← info_of msg ip;
        let c := init_client LOCAL true i (will_of msg) in
        let '(sess, _, _, prov, err) := getSession generated (sessionMgr s) msg in
        let c := mkClient (typ c) (conn c) (conn_ok c) (info c) (willMsg c) (status c) (ctx_done c)
                   sess (subMap c) (rmsgs c) (awaitingRel c) (maxAwaitingRel c) (inflight c)
                   (retryTimer c) in
        let s := set_sessions prov s in
        match err with
        | Some _ => Some (s, None)
        | None =>
            let s := set_heap (<[a := c]>) s in
            let cid := info_ID (info c) in
            let s := match clients s !! cid with Some old => Close old s | None => s end in
            let s := set_clients (<[cid := a]>) s in
            let s := emit (StorePutClient cid) s in
            Some (notify OnClientConnect cid s, Some (a, rest))
        end
  | _ => Some (s, None)
  end.

Definition DisConnClientByClientId (clientId : string) (s : state) : state :=
  match clients s !! clientId with
  | None => s
  | Some a => Close a (set_clients (delete clientId) s)
  end.

(** ** Events from the cluster *)

(** [model.Subscription] as it arrives from another node. *)
Record Subscription := mkSub {
  msub_ID : string;
  msub_ClientID : string;
  msub_NodeID : string;
  msub_Topic : string;
  msub_Qos : Z
}.

(** [Cluster.AddORUpdateClient]. *)
Definition AddORUpdateClient (i : Info) (s : state) : state :=
  let a := fresh_client s in
  set_clients (<[info_ID i := a]>) (set_heap (<[a := init_client REMOTE false i None]>) s).

Definition processRemoteSubscribe (a : positive) (obj : Subscription) (s : state) : state :=
  match heap s !! a with
  | None => s
  | Some c =>
      if decide (status c = Disconnected) then s
      else
        match split_share (msub_Topic obj) with
        | None => s
        | Some (share, group, topic) =>
            let t := msub_Topic obj in
            let q := msub_Qos obj mod 256 in
            let s := drop_old a t c s in
            let sa := fresh_sub s in
            let s := set_subs (<[sa := mkSubscription a topic q share group]>) s in
            let '(tm, _, err) := memTopics_Subscribe (topicsMgr s) topic q (Some sa) in
            let s := set_topics tm s in
            match err with
            | Some _ => s
            | None => on_client (with_subMap (<[t := sa]>)) a s
            end
        end
  end.

(** [doClientEvent]: a deletion names the client by the key. *)
Definition doClientEvent (deleted : bool) (key : string) (i : Info) (s : state) : state :=
  if deleted then RemoveClient key s else AddORUpdateClient i s.

(** [Cluster.AddORUpdateSubscription]. *)
Definition AddORUpdateSubscription (obj : Subscription) (s : state) : state :=
  match clients s !! msub_ClientID obj with
  | None => s
  | Some a =>
      match heap s !! a with
      | Some c => if decide (typ c = REMOTE) then processRemoteSubscribe a obj s else s
      | None => s
      end
  end.

(** [Cluster.RemoveSubscription]; [None] is the nil dereference of a remote client's
    session. *)
Definition RemoveSubscription (obj : Subscription) (s : state) : option state :=
  match clients s !! msub_ClientID obj with
  | None => Some s
  | Some a =>
      c ← heap s !! a;
      match subMap c !! msub_Topic obj with
      | None => Some s
      | Some sa =>
          sess ← session c;
          let s := unsubscribe_sub sa s in
          let s := set_sessions (on_session (λ x, (Session_RemoveTopic x (msub_Topic obj)).1)
                                   sess (sessionMgr s)) s in
          Some (on_client (with_subMap (delete (msub_Topic obj))) a s)
      end
  end.

(** [doSubscriptionEvent]: for a deletion the value is empty and the topic is taken
    from the key, which holds the topic's digest. *)
Definition doSubscriptionEvent (deleted : bool) (key : string) (obj : Subscription) (s : state)
    : option state :=
  if deleted then
    match split_on ":"%char key with
    | [topic; clientID] => RemoveSubscription (mkSub key clientID (msub_NodeID obj) topic (msub_Qos obj)) s
    | _ => RemoveSubscription obj s
    end
  else Some (AddORUpdateSubscription obj s).

(** [etcdRouter.Receive] for one forwarded message: the task it submits. *)
Definition Receive_one (now : Z) (clientID : string) (p : PublishPacket) (s : state) : option state :=
  match clients s !! clientID with
  | None => Some s
  | Some a =>
      c ← heap s !! a;
      if decide (typ c ≠ LOCAL) then Some s
      else ProcessMessage now a (PPublish p) true s
  end.
End Handlers.

#[global] Arguments Close : simpl never.
#[global] Arguments WriterPacket : simpl never.
#[global] Arguments PublishMessage : simpl never.
