(* ===== verification/BrokerInv.v ===== *)
(** * BrokerInv: the broker's subscriptions are consistent

    The invariant that ties the subscription tree to the clients: every subscriber
    in the tree is a subscription of a client that has it in its own table, and
    stands in the tree where its filter says.  Every handler keeps it, so it holds
    in every state the broker can reach; from it follows that closing a client
    takes it out of the tree completely. *)
From S2P Require Import Prelude Wire Packets Topics TopicLevels TopicsSpec Acl Sessions Broker.
Local Open Scope Z_scope.

Abbreviation tree s := (sroot (topicsMgr s)).

(** The tables of the clients. *)
Definition tables (s : state) : gmap positive (gmap string positive) := subMap <$> heap s.

(** The three parts of the state the invariant speaks of. *)
Definition inv_of (t : snode positive) (subs : gmap positive subscription)
    (tabs : gmap positive (gmap string positive)) : Prop :=
  swf t
  ∧ (∀ p x q, (x, q) ∈ entries t p → ∃ sub tab f,
       subs !! x = Some sub ∧ tabs !! sub_client sub = Some tab ∧ tab !! f = Some x
       ∧ p = filter_path (sub_topic sub) ∧ topic_ok (sub_topic sub) = true)
  ∧ (∀ a tab f x, tabs !! a = Some tab → tab !! f = Some x →
       ∃ sub, subs !! x = Some sub ∧ sub_client sub = a).

Definition inv (s : state) : Prop := inv_of (tree s) (subs_heap s) (tables s).

(** ** Steps that only shrink the tree *)

(** How a client may change. *)
Definition closed_stays (c c' : client) : Prop := status c = Disconnected → status c' = Disconnected.
Definition quiet_client (c c' : client) : Prop :=
  closed_stays c c' ∧ awaitingRel c' = awaitingRel c ∧ typ c' = typ c.

(** [s'] has the clients and subscriptions of [s], with some subscriptions perhaps
    taken out of the tree; each client has changed by [K] only. *)
Definition evolves (K : client → client → Prop) (s s' : state) : Prop :=
  subs_heap s' = subs_heap s ∧ tables s' = tables s
  ∧ (swf (tree s) → swf (tree s') ∧ ∀ p e, e ∈ entries (tree s') p → e ∈ entries (tree s) p)
  ∧ (∀ a c, heap s !! a = Some c → ∃ c', heap s' !! a = Some c' ∧ K c c').

(** The relations that allow what [Close], [WriterPacket] and the delivery of
    messages do to clients. *)
Class Calm (K : client → client → Prop) := {
  calm_preorder :: PreOrder K;
  calm_status c : K c (with_status Disconnected c);
  calm_ctx c : K c (with_ctx_done c);
  calm_conn b c : K c (with_conn b c);
  calm_timer t c : K c (with_retryTimer t c);
  calm_inflight f c : K c (with_inflight f c);
  calm_rmsgs l c : K c (with_rmsgs l c)
}.

#[export] Instance closed_stays_calm : Calm closed_stays | 0.
Proof.
  split; unfold closed_stays; [|done..].
  split; [by intros c|]. intros c1 c2 c3. unfold closed_stays. auto.
Qed.

#[export] Instance quiet_client_calm : Calm quiet_client | 10.
Proof.
  split; unfold quiet_client, closed_stays; [|done..]. split; [by intros c|].
  intros c1 c2 c3 (H1 & H2 & H3) (H4 & H5 & H6). unfold quiet_client, closed_stays in *.
  split; [auto|]. split; congruence.
Qed.

Lemma tables_on_client f a s :
  (∀ c, subMap (f c) = subMap c) → tables (on_client f a s) = tables s.
Proof.
  intros Hf. unfold tables, on_client. cbn. apply map_eq. intros b. rewrite !lookup_fmap.
  destruct (decide (b = a)) as [->|]; [|by rewrite lookup_alter_ne].
  rewrite lookup_alter_eq. destruct (heap s !! a); cbn; [by rewrite Hf|done].
Qed.

Lemma elem_of_remove_one {Sub} `{EqDecision Sub} (sub x : Sub) q l :
  NoDup (map fst l) → (x, q) ∈ remove_one sub l ↔ (x, q) ∈ l ∧ x ≠ sub.
Proof.
  induction l as [|[s z] l IH]; cbn; intros Hnd.
  { split; [by intros ?%elem_of_nil|by intros [?%elem_of_nil _]]. }
  apply NoDup_cons in Hnd as [Hs Hnd]. case_decide as Hd; subst; rewrite !elem_of_cons.
  - split.
    + intros Hx. split; [by right|]. intros ->. apply Hs.
      apply (list_elem_of_fmap_2 fst) in Hx. exact Hx.
    + intros [[[= -> ->]|Hx] Hne]; done.
  - rewrite IH by done. split; [intros [[= -> ->]|[??]]; split; auto|intros [[?|?] ?]; auto].
Qed.

Lemma entries_NoDup (t : snode positive) p : swf t → NoDup (map fst (entries t p)).
Proof.
  intros Hwf. rewrite entries_subs by done. destruct (node_at t p) as [n|] eqn:Hn; [|constructor].
  by apply (Hwf p n Hn).
Qed.

(** The tree after an unsubscription, entry by entry. *)
Lemma unsubscribe_sub_entries x sub s :
  swf (tree s) → subs_heap s !! x = Some sub →
  swf (tree (unsubscribe_sub x s)) ∧
  ∀ p, entries (tree (unsubscribe_sub x s)) p
    = if topic_ok (sub_topic sub) && bool_decide (p = filter_path (sub_topic sub))
      then remove_one x (entries (tree s) p) else entries (tree s) p.
Proof.
  intros Hwf Hsub. unfold unsubscribe_sub. rewrite Hsub. cbn.
  assert (Href : refines (topicsMgr s) (entries (tree s))) by done.
  destruct (op_refines _ _ (OpUnsubscribe (sub_topic sub) (Some x)) Href) as [Hwf' He].
  split; [exact Hwf'|]. intros p. etransitivity; [exact (He p)|]. cbn.
  destruct (topic_ok (sub_topic sub)); [|done]. unfold table_set. cbn.
  case_decide; subst; [by rewrite bool_decide_eq_true_2|by rewrite bool_decide_eq_false_2].
Qed.

Section Evolves.
Context {K : client → client → Prop} `{!Calm K}.

Lemma evolves_refl s : evolves K s s.
Proof. split; [done|]. split; [done|]. split; [done|]. intros a c Hc. by exists c. Qed.

Lemma evolves_trans s1 s2 s3 : evolves K s1 s2 → evolves K s2 s3 → evolves K s1 s3.
Proof.
  intros (Hs1 & Ht1 & He1 & Hc1) (Hs2 & Ht2 & He2 & Hc2). split; [congruence|]. split; [congruence|].
  split.
  - intros Hwf. destruct (He1 Hwf) as [Hwf1 Hs]. destruct (He2 Hwf1) as [Hwf2 Hs'].
    split; [done|]. intros p e He. by apply Hs, Hs'.
  - intros a c Ha. destruct (Hc1 a c Ha) as (c1 & Ha1 & H1). destruct (Hc2 a c1 Ha1) as (c2 & Ha2 & H2).
    exists c2. split; [done|]. by etransitivity.
Qed.

#[global] Instance evolves_preorder : PreOrder (evolves K).
Proof. split; [exact evolves_refl|exact evolves_trans]. Qed.

(** States that agree on the clients, the tree and the subscriptions. *)
Lemma evolves_same s s' :
  subs_heap s' = subs_heap s → heap s' = heap s → tree s' = tree s → evolves K s s'.
Proof.
  intros Hs Hh Htr. split; [done|]. split; [unfold tables; by rewrite Hh|].
  rewrite Htr. split; [done|]. intros a c Ha. rewrite Hh. by exists c.
Qed.

Lemma evolves_on_client f a s :
  (∀ c, subMap (f c) = subMap c) → (∀ c, K c (f c)) → evolves K s (on_client f a s).
Proof.
  intros Hf HK. split; [done|]. split; [by apply tables_on_client|]. split; [done|].
  intros b c Hb. unfold on_client. cbn. destruct (decide (b = a)) as [->|].
  - rewrite lookup_alter_eq, Hb. eexists. by split.
  - rewrite lookup_alter_ne by done. by exists c.
Qed.

Lemma evolves_emit e s : evolves K s (emit e s).
Proof. by apply evolves_same. Qed.

Lemma evolves_set_clients f s : evolves K s (set_clients f s).
Proof. by apply evolves_same. Qed.

Lemma evolves_set_sessions p s : evolves K s (set_sessions p s).
Proof. by apply evolves_same. Qed.

Lemma evolves_notify cfg n id s : evolves K s (notify cfg n id s).
Proof. unfold notify. destruct (notify_enable cfg); [apply evolves_emit|done]. Qed.

Lemma evolves_RemoveClient id s : evolves K s (RemoveClient id s).
Proof. unfold RemoveClient. case_match; [apply evolves_set_clients|done]. Qed.

#[local] Hint Resolve evolves_refl evolves_emit evolves_set_clients evolves_set_sessions
  evolves_notify evolves_RemoveClient : smq.

Lemma evolves_foldl {A} (f : state → A → state) l : ∀ s,
  (∀ s x, evolves K s (f s x)) → evolves K s (foldl f s l).
Proof.
  induction l as [|x l IH]; intros s Hf; cbn; [done|].
  eapply evolves_trans; [apply Hf|by apply IH].
Qed.

Lemma evolves_unsubscribe_sub x s : evolves K s (unsubscribe_sub x s).
Proof.
  destruct (subs_heap s !! x) as [sub|] eqn:Hx; [|unfold unsubscribe_sub; by rewrite Hx].
  split; [unfold unsubscribe_sub; by rewrite Hx|]. split; [unfold unsubscribe_sub; by rewrite Hx|].
  split; [|unfold unsubscribe_sub; rewrite Hx; intros a c Ha; by exists c].
  intros Hwf. destruct (unsubscribe_sub_entries x sub s Hwf Hx) as [Hwf' He]. split; [done|].
  intros p [y q]. rewrite He. case_match; [|done].
  rewrite elem_of_remove_one by (by apply entries_NoDup). by intros [? _].
Qed.
#[local] Hint Resolve evolves_unsubscribe_sub : smq.

(** ** Closing and writing *)

Lemma evolves_close_subscription cfg id s e : evolves K s (close_subscription cfg id s e).
Proof.
  destruct e as [topic x]. unfold close_subscription.
  etransitivity; [apply (evolves_unsubscribe_sub x)|].
  etransitivity; [apply (evolves_emit (StoreDelSubscription topic id))|].
  etransitivity; [apply (evolves_notify cfg (OnUnSubscribe topic) id)|].
  case_decide; auto with smq.
Qed.

Lemma evolves_WriterPacket_with close a p s :
  (∀ a s, evolves K s (close a s)) → evolves K s (WriterPacket_with close a p s).1.
Proof.
  intros Hc. unfold WriterPacket_with. destruct (heap s !! a) as [c|]; [|done].
  case_decide; [done|]. destruct (conn c); cbn; [|apply Hc].
  destruct (conn_ok c); cbn; auto with smq.
Qed.

Lemma evolves_PublishMessage_with write w s :
  (∀ a p s, evolves K s (write a p s).1) → evolves K s (PublishMessage_with write w s).
Proof.
  intros Hw. unfold PublishMessage_with. case_match; [|done].
  apply evolves_foldl. intros s' [x q]. case_match; [apply Hw|done].
Qed.

(** The state of [Close] before it goes through the subscriptions, and after. *)
Definition close_start (a : positive) (c : client) (s : state) : state :=
  let id := info_ID (info c) in
  let s := on_client with_ctx_done a s in
  let s := on_client (with_status Disconnected) a s in
  let s := if conn c then on_client (with_conn false) a (emit (ConnClosed a) s) else s in
  emit (StoreDelClient id) (RemoveClient id s).

Definition close_subs (cfg : config) (a : positive) (c : client) (s : state) : state :=
  notify cfg OnClientDisconnected (info_ID (info c))
    (foldl (close_subscription cfg (info_ID (info c))) (close_start a c s) (map_to_list (subMap c))).

Lemma Close_loop_S cfg fuel a s :
  Close_loop cfg (S fuel) a s =
    match heap s !! a with
    | None => s
    | Some c =>
        if decide (status c = Disconnected) then s
        else match willMsg c with
             | Some w => PublishMessage_with (WriterPacket_with (Close_loop cfg fuel)) w
                           (close_subs cfg a c s)
             | None => close_subs cfg a c s
             end
    end.
Proof. done. Qed.

Lemma evolves_close_start a c s : evolves K s (close_start a c s).
Proof.
  unfold close_start.
  etransitivity; [apply (evolves_on_client with_ctx_done a); [done|apply calm_ctx]|].
  etransitivity; [apply (evolves_on_client (with_status Disconnected) a); [done|apply calm_status]|].
  destruct (conn c).
  - etransitivity; [apply (evolves_emit (ConnClosed a))|].
    etransitivity; [apply (evolves_on_client (with_conn false) a); [done|apply calm_conn]|].
    etransitivity; [apply evolves_RemoveClient|apply evolves_emit].
  - etransitivity; [apply evolves_RemoveClient|apply evolves_emit].
Qed.

Lemma evolves_close_subs cfg a c s : evolves K s (close_subs cfg a c s).
Proof.
  unfold close_subs. etransitivity; [apply (evolves_close_start a c)|].
  etransitivity; [|apply evolves_notify].
  apply evolves_foldl. intros. apply evolves_close_subscription.
Qed.

Lemma evolves_Close_loop cfg fuel : ∀ a s, evolves K s (Close_loop cfg fuel a s).
Proof.
  induction fuel as [|fuel IH]; intros a s; [done|]. rewrite Close_loop_S.
  destruct (heap s !! a) as [c|]; [|done]. case_decide; [done|].
  destruct (willMsg c) as [w|]; [|apply evolves_close_subs].
  etransitivity; [apply (evolves_close_subs cfg a c)|].
  apply evolves_PublishMessage_with. intros. by apply evolves_WriterPacket_with.
Qed.

Lemma evolves_Close cfg a s : evolves K s (Close cfg a s).
Proof. apply evolves_Close_loop. Qed.

Lemma evolves_WriterPacket cfg a p s : evolves K s (WriterPacket cfg a p s).1.
Proof. apply evolves_WriterPacket_with. apply evolves_Close. Qed.

Lemma evolves_PublishMessage cfg w s : evolves K s (PublishMessage cfg w s).
Proof. apply evolves_PublishMessage_with, evolves_WriterPacket. Qed.
#[local] Hint Resolve evolves_Close evolves_WriterPacket evolves_PublishMessage : smq.

Lemma evolves_ensureRetryTimer i a s : evolves K s (ensureRetryTimer i a s).
Proof.
  unfold ensureRetryTimer. repeat case_match; try done. apply evolves_on_client; [done|apply calm_timer].
Qed.

Lemma evolves_set_inflight now p a s : evolves K s (set_inflight now p a s).
Proof. apply evolves_on_client; [done|apply calm_inflight]. Qed.

Lemma evolves_publish cfg now sub p s : evolves K s (publish cfg now sub p s).
Proof.
  unfold publish. destruct (heap s !! sub_client sub) as [c|]; [|done].
  case_decide; [case_decide; auto with smq|]. case_decide; [|done].
  etransitivity; [apply (evolves_set_inflight now p (sub_client sub))|].
  case_decide; [|auto with smq].
  etransitivity; [apply evolves_WriterPacket|apply evolves_ensureRetryTimer].
Qed.

Lemma evolves_publishFoward cfg now a p s : evolves K s (publishFoward cfg now a p s).
Proof.
  unfold publishFoward. case_decide; [auto with smq|]. case_decide; [|done].
  etransitivity; [apply (evolves_set_inflight now p a)|].
  etransitivity; [apply evolves_WriterPacket|apply evolves_ensureRetryTimer].
Qed.

Lemma evolves_retryDelivery cfg now a s : evolves K s (retryDelivery cfg now a s).
Proof.
  unfold retryDelivery.
  etransitivity; [apply (evolves_on_client (with_retryTimer None) a); [done|apply calm_timer]|].
  fold (resetRetryTimer a s). destruct (heap (resetRetryTimer a s) !! a) as [c|]; [|done].
  destruct (negb (conn c) || _); [done|].
  etransitivity; [|apply evolves_ensureRetryTimer]. apply evolves_foldl. intros s' [id el].
  unfold retry_one. case_decide; [|apply evolves_ensureRetryTimer].
  etransitivity; [apply evolves_WriterPacket|]. apply evolves_on_client; [done|apply calm_inflight].
Qed.

Lemma evolves_sort_out cfg now p l : ∀ s qsub,
  evolves K s (foldl (sort_out cfg now p) (s, qsub) l).1.
Proof.
  induction l as [|e l IH]; intros s qsub; [done|]. cbn.
  destruct (subs_heap s !! e.1) as [sub|]; [|apply IH].
  destruct (sub_share sub); [apply IH|].
  etransitivity; [apply (evolves_publish cfg now sub p)|apply IH].
Qed.

Lemma evolves_route cfg Intn now p s : evolves K s (route cfg Intn now p s).
Proof.
  unfold route. case_match; [|done].
  pose proof (evolves_sort_out cfg now p a s ∅) as Hs.
  destruct (foldl (sort_out cfg now p) (s, ∅) a) as [s1 qsub]. cbn in Hs.
  etransitivity; [exact Hs|]. apply evolves_foldl. intros s' [g objs]. unfold publish_group.
  repeat case_match; try done. apply evolves_publish.
Qed.

Lemma tree_Retain (t : memTopics positive) p : sroot (memTopics_Retain t p).1 = sroot t.
Proof. unfold memTopics_Retain. repeat case_match; done. Qed.

Lemma evolves_ProcessPublishMessage cfg Intn now a p fwd s :
  evolves K s (ProcessPublishMessage cfg Intn now a p fwd s).
Proof.
  unfold ProcessPublishMessage. destruct (heap s !! a) as [c|]; [|done].
  destruct (bridge_enable cfg && _); [case_match; auto with smq|].
  set (s1 := if Retain _ then _ else s).
  assert (Hs1 : evolves K s s1).
  { unfold s1. destruct (Retain (pub_FixedHeader p)); [|done].
    apply evolves_same; [done|done|]. apply tree_Retain. }
  etransitivity; [exact Hs1|]. destruct fwd; [apply evolves_publishFoward|apply evolves_route].
Qed.

Lemma evolves_written cfg a p s s' e : WriterPacket cfg a p s = (s', e) → evolves K s s'.
Proof. intros H. pose proof (evolves_WriterPacket cfg a p s) as Hs. by rewrite H in Hs. Qed.

End Evolves.

Abbreviation shrinks := (evolves closed_stays).
Abbreviation quiet := (evolves quiet_client).

Lemma inv_shrinks s s' : inv s → shrinks s s' → inv s'.
Proof.
  intros (Hwf & He & Ht) (Hs & Htab & Hsh & _). destruct (Hsh Hwf) as [Hwf' He'].
  unfold inv. rewrite Hs, Htab. split; [done|]. split; [|done].
  intros p x q Hx. by apply (He p x q), He'.
Qed.

Lemma quiet_shrinks s s' : quiet s s' → shrinks s s'.
Proof.
  intros (Hs & Ht & He & Hc). split; [done|]. split; [done|]. split; [done|].
  intros a c Ha. destruct (Hc a c Ha) as (c' & Ha' & Hk & _). eauto.
Qed.

(** Under the invariant the subscription is nowhere in the tree afterwards. *)
Lemma unsubscribe_sub_gone x s p q :
  inv s → (x, q) ∉ entries (tree (unsubscribe_sub x s)) p.
Proof.
  intros Hinv Hin. assert (Hinv' := Hinv). destruct Hinv' as (Hwf & He & _).
  assert (Hin' : (x, q) ∈ entries (tree s) p)
    by (apply (evolves_unsubscribe_sub x s); done).
  destruct (He p x q Hin') as (sub & tab & f & Hsub & _ & _ & -> & Hok).
  destruct (unsubscribe_sub_entries x sub s Hwf Hsub) as [_ Hx]. rewrite Hx, Hok in Hin.
  rewrite bool_decide_eq_true_2 in Hin by done. cbn in Hin.
  apply elem_of_remove_one in Hin; [|by apply entries_NoDup]. naive_solver.
Qed.

(** The loop of [Close] takes every subscription of the table out. *)
Lemma close_loop_gone cfg id l : ∀ s x q p,
  inv s → x ∈ map snd l →
  (x, q) ∉ entries (tree (foldl (close_subscription cfg id) s l)) p.
Proof.
  induction l as [|[f y] l IH]; intros s x q p Hinv Hx; [by apply elem_of_nil in Hx|]. cbn.
  pose proof (evolves_close_subscription cfg id s (f, y)) as Hsh.
  assert (Hinv' := inv_shrinks _ _ Hinv Hsh).
  apply elem_of_cons in Hx as [->|Hx]; [|by apply IH].
  intros Hin. cbn in Hin.
  assert (Hrest : shrinks (close_subscription cfg id s (f, y))
    (foldl (close_subscription cfg id) (close_subscription cfg id s (f, y)) l))
    by (apply evolves_foldl; intros; apply evolves_close_subscription).
  destruct Hinv' as [Hwf' _]. apply Hrest in Hin; [|done].
  apply (unsubscribe_sub_gone y s p q Hinv).
  assert (Hemit : tree (close_subscription cfg id s (f, y)) = tree (unsubscribe_sub y s)).
  { unfold close_subscription, notify. repeat case_match; done. }
  by rewrite <-Hemit.
Qed.

Lemma close_subs_gone cfg a c s p x q :
  inv s → heap s !! a = Some c → (x, q) ∈ entries (tree (close_subs cfg a c s)) p →
  ∀ sub, subs_heap s !! x = Some sub → sub_client sub ≠ a.
Proof.
  intros Hinv Hc Hin sub Hsub Ha.
  assert (Hinv1 := inv_shrinks _ _ Hinv (evolves_close_start a c s)).
  destruct (evolves_close_subs cfg a c s) as (_ & _ & Hsh & _).
  destruct Hinv as (Hwf & He & _). destruct (Hsh Hwf) as [_ Hsh'].
  destruct (He p x q (Hsh' _ _ Hin)) as (sub' & tab & f & Hs' & Htab & Hf & _).
  rewrite Hsub in Hs'. injection Hs' as <-. rewrite Ha in Htab.
  unfold tables in Htab. rewrite lookup_fmap, Hc in Htab. injection Htab as <-.
  unfold close_subs, notify in Hin.
  apply (close_loop_gone cfg (info_ID (info c)) (map_to_list (subMap c)) _ x q p Hinv1).
  - apply (list_elem_of_fmap_2' snd (map_to_list (subMap c)) (f, x)); [|done].
    by apply elem_of_map_to_list.
  - by destruct (notify_enable cfg).
Qed.

Lemma close_subs_status cfg a c s :
  heap s !! a = Some c → ∃ c', heap (close_subs cfg a c s) !! a = Some c' ∧ status c' = Disconnected.
Proof.
  intros Hc.
  assert (Hs : ∃ c', heap (close_start a c s) !! a = Some c' ∧ status c' = Disconnected).
  { unfold close_start, RemoveClient. destruct (conn c); cbn; case_match; cbn;
      rewrite !lookup_alter_eq, Hc; cbn; eauto. }
  destruct Hs as (c1 & H1 & Hst).
  assert (Hsh : shrinks (close_start a c s) (close_subs cfg a c s)).
  { unfold close_subs. etransitivity; [|apply evolves_notify].
    apply evolves_foldl. intros. apply evolves_close_subscription. }
  destruct Hsh as (_ & _ & _ & Hk). destruct (Hk a c1 H1) as (c2 & H2 & Hst2). eauto.
Qed.

(** ** The fuel of [Close] is enough *)

(** The addresses of the clients that are not disconnected. *)
Definition connected (s : state) : gset positive :=
  dom (filter (λ e, status e.2 ≠ Disconnected) (heap s)).

Lemma elem_of_connected s a :
  a ∈ connected s ↔ ∃ c, heap s !! a = Some c ∧ status c ≠ Disconnected.
Proof.
  unfold connected. rewrite elem_of_dom. split.
  - intros [c [Hc Hs]%map_lookup_filter_Some]. eauto.
  - intros (c & Hc & Hs). exists c. by apply map_lookup_filter_Some.
Qed.

Lemma tables_dom s s' a : tables s' = tables s → is_Some (heap s' !! a) → is_Some (heap s !! a).
Proof.
  intros Ht [c Hc]. apply (f_equal (lookup a)) in Ht. unfold tables in Ht.
  rewrite !lookup_fmap, Hc in Ht. by destruct (heap s !! a).
Qed.

Lemma connected_shrinks s s' : shrinks s s' → connected s' ⊆ connected s.
Proof.
  intros (_ & Ht & _ & Hk) a (c' & Hc' & Hs')%elem_of_connected. apply elem_of_connected.
  destruct (tables_dom s s' a Ht) as [c Hc]; [by rewrite Hc'|]. exists c. split; [done|].
  destruct (Hk a c Hc) as (c2 & Hc2 & Hcs). unfold closed_stays in Hcs. naive_solver.
Qed.

Lemma connected_close_subs cfg a c s :
  heap s !! a = Some c → status c ≠ Disconnected →
  (size (connected (close_subs cfg a c s)) < size (connected s))%nat.
Proof.
  intros Hc Hst. destruct (close_subs_status cfg a c s Hc) as (c1 & Hc1 & Hst1).
  apply subset_size. split; [apply connected_shrinks, evolves_close_subs|].
  intros Hsub. assert (Ha : a ∈ connected s) by (apply elem_of_connected; eauto).
  apply Hsub, elem_of_connected in Ha. naive_solver.
Qed.

(** Two ways to write that agree while at most [n] clients are connected. *)
Lemma PublishMessage_agree n w1 w2 w s :
  (∀ a p s, (size (connected s) ≤ n)%nat → w1 a p s = w2 a p s) →
  (∀ a p s, shrinks s (w1 a p s).1) →
  (size (connected s) ≤ n)%nat →
  PublishMessage_with w1 w s = PublishMessage_with w2 w s.
Proof.
  intros Hag Hsh. unfold PublishMessage_with. destruct (memTopics_Subscribers _ _ _) as [subs|]; [|done].
  revert s. induction subs as [|[x q] subs IH]; intros s Hn; [done|]. cbn [foldl].
  destruct (subs_heap s !! x) as [sub|]; [|by apply IH].
  rewrite <-Hag by done. apply IH.
  etransitivity; [|exact Hn]. apply subseteq_size, connected_shrinks, Hsh.
Qed.

Lemma Close_loop_fuel cfg n : ∀ f1 f2 a s,
  (size (connected s) ≤ n)%nat → (n < f1)%nat → (n < f2)%nat →
  Close_loop cfg f1 a s = Close_loop cfg f2 a s.
Proof.
  induction n as [|n IH]; intros [|f1] [|f2] a s Hn Hf1 Hf2; try lia; rewrite !Close_loop_S;
    destruct (heap s !! a) as [c|] eqn:Hc; try done; destruct (decide _) as [|Hst]; try done;
    pose proof (connected_close_subs cfg a c s Hc Hst) as Hlt; [lia|].
  destruct (willMsg c) as [w|]; [|done].
  apply (PublishMessage_agree n); [|intros; apply evolves_WriterPacket_with, evolves_Close_loop|lia].
  intros b p t Ht. unfold WriterPacket_with. destruct (heap t !! b); [|done].
  case_decide; [done|]. destruct (negb _); [|done]. f_equal. apply IH; [done|lia|lia].
Qed.

Lemma connected_size s : (size (connected s) ≤ size (heap s))%nat.
Proof.
  unfold connected. rewrite size_dom. apply map_subseteq_size. apply map_filter_subseteq.
Qed.

(** C27: [Close] terminates.  Closing a client publishes its will, and a write that
    finds a lost connection closes that client in turn; the calls nest at most once
    per connected client, so the recursion is finished within the fuel that [Close]
    starts with: any more fuel gives the same state. *)
Theorem Close_terminates cfg a s fuel :
  (close_fuel s ≤ fuel)%nat → Close_loop cfg fuel a s = Close cfg a s.
Proof.
  intros Hf. unfold Close, close_fuel in *. pose proof (connected_size s).
  apply (Close_loop_fuel cfg (size (heap s))); lia.
Qed.

(** C16: Closing a client.  In a consistent state, [Close] of a connected client
    marks it disconnected and takes all its subscriptions out of the tree, so that
    no later message finds it; it adds no subscription, and the state stays
    consistent. *)
Theorem Close_unsubscribes cfg a c s :
  inv s → heap s !! a = Some c → status c ≠ Disconnected →
  inv (Close cfg a s)
  ∧ (∃ c', heap (Close cfg a s) !! a = Some c' ∧ status c' = Disconnected)
  ∧ (∀ p x q, (x, q) ∈ entries (tree (Close cfg a s)) p →
       (x, q) ∈ entries (tree s) p ∧
       ∃ sub, subs_heap (Close cfg a s) !! x = Some sub ∧ sub_client sub ≠ a).
Proof.
  intros Hinv Hc Hst.
  assert (Hsh := evolves_Close cfg a s). assert (Hinv' := inv_shrinks _ _ Hinv Hsh).
  split; [done|]. destruct (close_subs_status cfg a c s Hc) as (c1 & Hc1 & Hst1).
  assert (Hmid : shrinks (close_subs cfg a c s) (Close cfg a s)).
  { unfold Close, close_fuel. rewrite Close_loop_S, Hc, decide_False by done.
    destruct (willMsg c); [|done]. apply evolves_PublishMessage_with. intros.
    apply evolves_WriterPacket_with, evolves_Close_loop. }
  assert (Hinvm := inv_shrinks _ _ Hinv (evolves_close_subs cfg a c s)).
  split.
  { destruct Hmid as (_ & _ & _ & Hk). destruct (Hk a c1 Hc1) as (c2 & Hc2 & Hst2). eauto. }
  intros p x q Hin.
  destruct Hsh as (Hsubs & _ & Hsh & _). destruct Hmid as (_ & _ & Hmid & _).
  destruct (Hsh (proj1 Hinv)) as [_ Hs]. destruct (Hmid (proj1 Hinvm)) as [_ Hm].
  split; [by apply Hs|].
  destruct Hinv' as (_ & He & _). destruct (He p x q Hin) as (sub & _ & _ & Hsub & _).
  exists sub. split; [done|]. rewrite Hsubs in Hsub.
  by apply (close_subs_gone cfg a c s p x q Hinv Hc (Hm _ _ Hin)).
Qed.

(** ** Publishing *)

(** An update of a client that leaves its table and does not reconnect it. *)
Definition client_keeps (f : client → client) : Prop :=
  ∀ c, subMap (f c) = subMap c ∧ closed_stays c (f c).

Lemma shrinks_on_client f a s : client_keeps f → shrinks s (on_client f a s).
Proof. intros Hf. apply evolves_on_client; apply Hf. Qed.

Lemma keeps_inflight f : client_keeps (with_inflight f).
Proof. intros c. by unfold closed_stays. Qed.
Lemma keeps_awaitingRel f : client_keeps (with_awaitingRel f).
Proof. intros c. by unfold closed_stays. Qed.
Lemma keeps_rmsgs l : client_keeps (with_rmsgs l).
Proof. intros c. by unfold closed_stays. Qed.
Lemma keeps_pubRel id : client_keeps (pubRel id).
Proof. intros c. unfold pubRel, closed_stays. by case_match. Qed.

Lemma evolves_ProcessPublish cfg Intn now a p fwd s :
  shrinks s (ProcessPublish cfg Intn now a p fwd s).
Proof.
  unfold ProcessPublish. destruct (heap s !! a) as [c|] eqn:Hc; [|done].
  destruct (negb (acl_allows _ _ _ _)); [done|].
  case_decide; [apply evolves_ProcessPublishMessage|]. case_decide.
  { destruct (WriterPacket cfg a _ s) as [s1 [e|]] eqn:Hw; apply evolves_written in Hw; [done|].
    etransitivity; [exact Hw|apply evolves_ProcessPublishMessage]. }
  case_decide; [|done]. unfold registerPublishPacketId.
  destruct (isAwaitingFull c); [done|]. destruct (awaitingRel c !! _); [done|].
  set (c' := with_awaitingRel _ c).
  assert (Hs1 : shrinks s (on_client (λ _, c') a s)).
  { assert (on_client (λ _, c') a s = on_client (with_awaitingRel (<[pub_MessageID p := now]>)) a s) as ->.
    { unfold on_client, set_heap. f_equal. apply map_eq. intros b.
      destruct (decide (b = a)) as [->|]; [|by rewrite !lookup_alter_ne].
      by rewrite !lookup_alter_eq, Hc. }
    apply shrinks_on_client, keeps_awaitingRel. }
  etransitivity; [exact Hs1|].
  destruct (WriterPacket cfg a _ _) as [s2 [e|]] eqn:Hw; apply evolves_written in Hw; [done|].
  etransitivity; [exact Hw|apply evolves_ProcessPublishMessage].
Qed.

(** ** Subscribing and unsubscribing *)

Lemma tables_with_subMap f a s : tables (on_client (with_subMap f) a s) = alter f a (tables s).
Proof.
  unfold tables, on_client. cbn. apply map_eq. intros b. rewrite lookup_fmap.
  destruct (decide (b = a)) as [->|].
  - rewrite !lookup_alter_eq, lookup_fmap. by destruct (heap s !! a).
  - by rewrite !lookup_alter_ne, lookup_fmap.
Qed.

Lemma tables_lookup s a c : heap s !! a = Some c → tables s !! a = Some (subMap c).
Proof. intros H. unfold tables. by rewrite lookup_fmap, H. Qed.

(** A subscription leaves the tree and its client's table. *)
Lemma inv_drop s a c t old :
  inv s → heap s !! a = Some c → subMap c !! t = Some old →
  inv_of (tree (unsubscribe_sub old s)) (subs_heap s) (alter (delete t) a (tables s)).
Proof.
  intros Hinv Hc Ht.
  destruct (inv_shrinks _ _ Hinv (evolves_unsubscribe_sub old s)) as (Hwf & He & Htab).
  destruct (evolves_unsubscribe_sub old s) as (Hs & Htb & _). rewrite Hs, Htb in *.
  split; [done|]. split.
  - intros p x q Hx. destruct (He p x q Hx) as (sub & tab & f & Hsub & Hta & Hf & Hp).
    assert (Hne : x ≠ old) by (intros ->; by apply (unsubscribe_sub_gone old s p q Hinv)).
    destruct (decide (sub_client sub = a)) as [Ha|Ha].
    + rewrite Ha, (tables_lookup _ _ _ Hc) in Hta. injection Hta as <-.
      exists sub, (delete t (subMap c)), f. rewrite Ha, lookup_alter_eq, (tables_lookup _ _ _ Hc).
      split; [done|]. split; [done|]. split; [|done].
      rewrite lookup_delete_ne; [done|]. congruence.
    + exists sub, tab, f. by rewrite lookup_alter_ne.
  - intros b tab f x Hb Hf. destruct (decide (b = a)) as [->|].
    + rewrite lookup_alter_eq, (tables_lookup _ _ _ Hc) in Hb. injection Hb as <-.
      apply lookup_delete_Some in Hf as [_ Hf]. by eapply Htab; [apply tables_lookup|].
    + rewrite lookup_alter_ne in Hb by done. by eapply Htab.
Qed.

Lemma inv_drop_old s a c t :
  inv s → heap s !! a = Some c →
  inv (drop_old a t c s) ∧ subs_heap (drop_old a t c s) = subs_heap s
  ∧ tables (drop_old a t c s) !! a = Some (delete t (subMap c)).
Proof.
  intros Hinv Hc. unfold drop_old. destruct (subMap c !! t) as [old|] eqn:Ht.
  - destruct (evolves_unsubscribe_sub old s) as (Hs & Htb & _).
    unfold inv. rewrite tables_with_subMap. cbn. rewrite Hs, Htb.
    split; [by eapply inv_drop|]. split; [done|]. by rewrite lookup_alter_eq, (tables_lookup _ _ _ Hc).
  - split; [done|]. split; [done|]. by rewrite delete_id, (tables_lookup _ _ _ Hc).
Qed.

(** [memTopics.Subscribe] succeeds exactly for a valid QoS and a well-formed filter. *)
Lemma Subscribe_cases (tm : memTopics positive) topic q x tm' rq e :
  swf (sroot tm) → memTopics_Subscribe tm topic q (Some x) = (tm', rq, e) →
  swf (sroot tm') ∧
  match e with
  | None => topic_ok topic = true ∧ ValidQos q = true ∧ rq = q ∧
      ∀ p, entries (sroot tm') p = if decide (p = filter_path topic)
        then upsert x q (entries (sroot tm) p) else entries (sroot tm) p
  | Some _ => ∀ p, entries (sroot tm') p = entries (sroot tm) p
  end.
Proof.
  intros Hwf Hsub. unfold memTopics_Subscribe in Hsub. destruct (ValidQos q) eqn:Hq; [|by injection Hsub as <- <- <-].
  cbn [negb] in Hsub. rewrite decide_False in Hsub by (apply ValidQos_range in Hq; lia).
  destruct (topic_ok topic) eqn:Ht.
  - destruct (sinsert_spec _ (sroot tm) topic q x _ Hwf (levels_ok _ Ht)) as (t' & Hi & Hw & Hx).
    rewrite Hi in Hsub. injection Hsub as <- <- <-. split; [done|]. do 3 (split; [done|]).
    intros p. cbn. rewrite Hx. unfold filter_path. case_decide; by subst.
  - destruct (levels_error _ Ht) as [e' Hl].
    destruct (sinsert_err (enough topic) (sroot tm) topic q x (levels topic).1 e' Hwf)
      as (t' & Hi & Hw & Hx); [by rewrite <-Hl; destruct (levels topic) eqn:E|].
    rewrite Hi in Hsub. injection Hsub as <- <- <-. done.
Qed.

Lemma elem_of_upsert (x y : positive) q z l : (y, z) ∈ upsert x q l → y = x ∨ (y, z) ∈ l.
Proof.
  induction l as [|[a b] l IH]; cbn.
  - rewrite list_elem_of_singleton. intros [= -> ->]. by left.
  - case_decide; rewrite !elem_of_cons; [|naive_solver]. intros [[= -> ->]|]; auto.
Qed.

(** A new subscription enters the tree and its client's table. *)
Lemma inv_add s a tab t x sub tm' rq e q :
  inv s → tables s !! a = Some tab → tab !! t = None → subs_heap s !! x = None →
  sub_client sub = a →
  memTopics_Subscribe (topicsMgr s) (sub_topic sub) q (Some x) = (tm', rq, e) →
  inv_of (sroot tm') (<[x := sub]> (subs_heap s))
    (match e with None => alter (<[t := x]>) a (tables s) | Some _ => tables s end).
Proof.
  intros (Hwf & He & Htab) Ha Ht Hx Hcl Hsub.
  destruct (Subscribe_cases _ _ _ _ _ _ _ Hwf Hsub) as [Hwf' Hc].
  assert (Hfresh : ∀ y sub', subs_heap s !! y = Some sub' → x ≠ y) by congruence.
  split; [done|]. destruct e as [e|].
  - split.
    + intros p y z. rewrite Hc. intros Hy. destruct (He p y z Hy) as (sub' & tab' & f & Hs' & Hr).
      exists sub', tab', f. rewrite lookup_insert_ne by (by eapply Hfresh). done.
    + intros b tab' f y Hb Hf. destruct (Htab b tab' f y Hb Hf) as (sub' & Hs' & Hr).
      exists sub'. by rewrite lookup_insert_ne by (by eapply Hfresh).
  - destruct Hc as (Hok & _ & _ & Hent). split.
    + intros p y z Hy. rewrite Hent in Hy.
      assert (y = x ∧ p = filter_path (sub_topic sub) ∨ (y, z) ∈ entries (tree s) p) as [[-> ->]|Hy'].
      { case_decide; [apply elem_of_upsert in Hy; naive_solver|auto]. }
      * exists sub, (<[t := x]> tab), t. rewrite !lookup_insert_eq, Hcl, lookup_alter_eq, Ha. done.
      * destruct (He p y z Hy') as (sub' & tab' & f & Hs' & Hta & Hf & Hr).
        rewrite lookup_insert_ne by (by eapply Hfresh).
        destruct (decide (sub_client sub' = a)) as [Hcl'|Hcl'].
        -- rewrite Hcl', Ha in Hta. injection Hta as <-.
           exists sub', (<[t := x]> tab), f. rewrite Hcl', lookup_alter_eq, Ha.
           split; [done|]. split; [done|]. rewrite lookup_insert_ne by congruence. done.
        -- exists sub', tab', f. by rewrite lookup_alter_ne.
    + intros b tab' f y Hb Hf. destruct (decide (b = a)) as [->|].
      * rewrite lookup_alter_eq, Ha in Hb. injection Hb as <-.
        apply lookup_insert_Some in Hf as [[<- <-]|[_ Hf]].
        -- exists sub. by rewrite lookup_insert_eq.
        -- destruct (Htab a tab f y Ha Hf) as (sub' & Hs' & Hr). exists sub'.
           by rewrite lookup_insert_ne by (by eapply Hfresh).
      * rewrite lookup_alter_ne in Hb by done.
        destruct (Htab b tab' f y Hb Hf) as (sub' & Hs' & Hr). exists sub'.
        by rewrite lookup_insert_ne by (by eapply Hfresh).
Qed.

Lemma fresh_sub_new s : subs_heap s !! fresh_sub s = None.
Proof. apply not_elem_of_dom. unfold fresh_sub. apply is_fresh. Qed.

(** The common part of [ProcessSubscribe] and [processRemoteSubscribe]: from the old
    subscription under the filter [t] to the new one. *)
Lemma inv_resubscribe s a c t sub tm' rq e q :
  inv s → heap s !! a = Some c → sub_client sub = a →
  let s1 := drop_old a t c s in
  let x := fresh_sub s1 in
  let s2 := set_subs (<[x := sub]>) s1 in
  memTopics_Subscribe (topicsMgr s2) (sub_topic sub) q (Some x) = (tm', rq, e) →
  inv (match e with
       | None => on_client (with_subMap (<[t := x]>)) a (set_topics tm' s2)
       | Some _ => set_topics tm' s2
       end).
Proof.
  intros Hinv Hc Hcl s1 x s2 Hsub.
  destruct (inv_drop_old s a c t Hinv Hc) as (Hinv1 & Hs1 & Ht1). fold s1 in Hinv1, Hs1, Ht1.
  pose proof (inv_add s1 a _ t x sub tm' rq e q Hinv1 Ht1 (lookup_delete_eq _ _)
    (fresh_sub_new s1) Hcl Hsub) as H.
  unfold inv. destruct e; [exact H|]. by rewrite tables_with_subMap.
Qed.

Lemma inv_subscribe_one cfg a t oq s s' rc :
  inv s → subscribe_one cfg a t oq s = Some (s', rc) → inv s'.
Proof.
  intros Hinv. unfold subscribe_one. destruct (heap s !! a) as [c|] eqn:Hc; [|done]. cbn [mbind option_bind].
  destruct (negb (acl_allows _ _ _ _)); [by intros [= <- _]|].
  destruct (split_share t) as [[[share g] topic]|]; [|by intros [= <- _]].
  destruct oq as [q|]; [|done]. cbn [mbind option_bind].
  pose proof (inv_resubscribe s a c t (mkSubscription a topic q share g)) as Hr. cbn zeta in Hr.
  destruct (memTopics_Subscribe _ topic q _) as [[tm rq] [e|]] eqn:Hs.
  - intros [= <- _]. by apply (Hr _ _ _ _ Hinv Hc eq_refl Hs).
  - specialize (Hr _ _ _ _ Hinv Hc eq_refl Hs). cbn in Hr.
    destruct (session c) as [sess|]; [|done]. cbn [mbind option_bind]. intros [= <- _].
    eapply inv_shrinks; [exact Hr|].
    etransitivity; [apply evolves_set_sessions|].
    etransitivity; [|case_decide; [apply evolves_notify|reflexivity]].
    etransitivity; [|apply evolves_notify]. etransitivity; [|apply evolves_emit].
    case_match; [apply shrinks_on_client, keeps_rmsgs|reflexivity].
Qed.

Lemma inv_subscribe_loop cfg a topics : ∀ qoss rcs s s' rcs',
  inv s → subscribe_loop cfg a topics qoss rcs s = Some (s', rcs') → inv s'.
Proof.
  induction topics as [|t topics IH]; intros qoss rcs s s' rcs' Hinv; cbn; [by intros [= <- _]|].
  destruct (subscribe_one cfg a t (b2z <$> head qoss) s) as [[s1 rc]|] eqn:Hs; [|done]. cbn.
  apply IH. by eapply inv_subscribe_one.
Qed.

Lemma inv_ProcessSubscribe cfg a p s s' : inv s → ProcessSubscribe cfg a p s = Some s' → inv s'.
Proof.
  intros Hinv. unfold ProcessSubscribe. destruct (heap s !! a) as [c|]; [|done]. cbn [mbind option_bind].
  case_decide; [by intros [= <-]|].
  destruct (subscribe_loop cfg a _ _ [] s) as [[s1 rcs]|] eqn:Hl; [|done]. cbn [mbind option_bind].
  apply inv_subscribe_loop in Hl; [|done].
  destruct (WriterPacket cfg a _ s1) as [s2 [e|]] eqn:Hw; apply evolves_written in Hw;
    apply (inv_shrinks _ _ Hl) in Hw; [by intros [= <-]|].
  destruct (heap s2 !! a) as [c2|]; [|done]. cbn [mbind option_bind]. intros [= <-].
  eapply inv_shrinks; [exact Hw|]. apply evolves_foldl. intros. apply evolves_WriterPacket.
Qed.

(** Removing a filter from tree, session and table. *)
Lemma inv_remove s a c t x prov :
  inv s → heap s !! a = Some c → subMap c !! t = Some x →
  inv (on_client (with_subMap (delete t)) a (set_sessions prov (unsubscribe_sub x s))).
Proof.
  intros Hinv Hc Ht. unfold inv. rewrite tables_with_subMap.
  destruct (evolves_unsubscribe_sub x s) as (Hs & Htb & _).
  change (inv_of (tree (unsubscribe_sub x s)) (subs_heap (unsubscribe_sub x s))
            (alter (delete t) a (tables (unsubscribe_sub x s)))).
  rewrite Hs, Htb. by eapply inv_drop.
Qed.

Lemma inv_unsubscribe_one cfg a t s s' : inv s → unsubscribe_one cfg a t s = Some s' → inv s'.
Proof.
  intros Hinv. unfold unsubscribe_one. destruct (heap s !! a) as [c|] eqn:Hc; [|done].
  cbn [mbind option_bind].
  assert (Hfin : ∀ s1, inv s1 → inv (emit (StoreDelSubscription t (info_ID (info c))) s1)
    ∧ inv (notify cfg (OnUnSubscribe t) (info_ID (info c))
        (emit (StoreDelSubscription t (info_ID (info c))) s1))).
  { intros s1 H1. split; (eapply inv_shrinks; [exact H1|]); [apply evolves_emit|].
    etransitivity; [apply evolves_emit|apply evolves_notify]. }
  destruct (subMap c !! t) as [x|] eqn:Ht.
  - destruct (session c) as [sess|]; [|done]. cbn [mbind option_bind].
    destruct (Hfin _ (inv_remove s a c t x (on_session (λ x, (Session_RemoveTopic x t).1) sess
      (sessionMgr (unsubscribe_sub x s))) Hinv Hc Ht)) as [H1 H2].
    destruct (notify_enable cfg); intros [= <-]; [|exact H1].
    case_decide; [|exact H2]. eapply inv_shrinks; [exact H2|apply evolves_notify].
  - cbn [mbind option_bind]. destruct (notify_enable cfg); [done|]. intros [= <-]. by apply Hfin.
Qed.

Lemma inv_unsubscribe_loop cfg a topics : ∀ s s',
  inv s → unsubscribe_loop cfg a topics s = Some s' → inv s'.
Proof.
  induction topics as [|t topics IH]; intros s s' Hinv; cbn; [by intros [= <-]|].
  destruct (unsubscribe_one cfg a t s) as [s1|] eqn:Hu; [|done]. cbn.
  apply IH. by eapply inv_unsubscribe_one.
Qed.

Lemma inv_ProcessUnSubscribe cfg a p s s' : inv s → ProcessUnSubscribe cfg a p s = Some s' → inv s'.
Proof.
  intros Hinv. unfold ProcessUnSubscribe. destruct (heap s !! a) as [c|]; [|done]. cbn [mbind option_bind].
  case_decide; [by intros [= <-]|].
  destruct (unsubscribe_loop cfg a _ s) as [s1|] eqn:Hu; [|done]. cbn [mbind option_bind].
  apply inv_unsubscribe_loop in Hu; [|done]. intros [= <-].
  eapply inv_shrinks; [exact Hu|apply evolves_WriterPacket].
Qed.

Lemma keeps_disconnect : client_keeps (with_status Disconnected).
Proof. intros c. by unfold closed_stays. Qed.

Lemma inv_ProcessMessage cfg Intn now a p fwd s s' :
  inv s → ProcessMessage cfg Intn now a p fwd s = Some s' → inv s'.
Proof.
  intros Hinv. unfold ProcessMessage. destruct (heap s !! a) as [c|]; [|done]. cbn [mbind option_bind].
  destruct (negb (validatePacketFields p)).
  { destruct (negb (conn c)); [done|]. intros [= <-]. eapply inv_shrinks; [exact Hinv|].
    etransitivity; [apply (evolves_emit (ConnClosed a))|]. apply shrinks_on_client, keeps_disconnect. }
  destruct p as [| |p|p|p|p|p|p| |p| | | |]; try (by intros [= <-]);
    try (intros [= <-]; eapply inv_shrinks; [exact Hinv|]).
  - apply evolves_ProcessPublish.
  - apply shrinks_on_client, keeps_inflight.
  - unfold process_pubrec. etransitivity; [|apply evolves_WriterPacket].
    apply shrinks_on_client, keeps_inflight.
  - etransitivity; [|apply evolves_WriterPacket]. apply shrinks_on_client, keeps_pubRel.
  - apply shrinks_on_client, keeps_inflight.
  - by apply inv_ProcessSubscribe.
  - by apply inv_ProcessUnSubscribe.
  - unfold ProcessPing. repeat case_match; try done. apply evolves_WriterPacket.
  - apply evolves_Close.
Qed.

(** ** Connections and cluster events *)

Lemma inv_new_client s a c :
  inv s → heap s !! a = None → subMap c = ∅ → inv (set_heap (<[a := c]>) s).
Proof.
  intros (Hwf & He & Ht) Ha Hc. unfold inv, tables. cbn. rewrite fmap_insert, Hc.
  fold (tables s). assert (Hn : tables s !! a = None) by (unfold tables; by rewrite lookup_fmap, Ha).
  split; [done|]. split.
  - intros p x q Hx. destruct (He p x q Hx) as (sub & tab & f & Hs & Hta & Hr).
    exists sub, tab, f. rewrite lookup_insert_ne by congruence. done.
  - intros b tab f x. rewrite lookup_insert_Some. intros [[_ <-]|[_ Hb]]; [by rewrite lookup_empty|].
    by eapply Ht.
Qed.

Lemma fresh_client_new s : heap s !! fresh_client s = None.
Proof. apply not_elem_of_dom. unfold fresh_client. apply is_fresh. Qed.

Lemma inv_handleConnection {bc : Bcrypt} cfg gen ri users ip ok r s s' x :
  inv s → handleConnection cfg gen ri users ip ok r s = Some (s', x) → inv s'.
Proof.
  intros Hinv. unfold handleConnection.
  destruct (ReadPacket r) as [[[p|] [e|]] rest]; try (by intros [= <- _]); [destruct p; by intros [= <- _]|].
  destruct p as [msg| | | | | | | | | | | | |]; try (by intros [= <- _]).
  set (a := fresh_client s).
  assert (Hemit : ∀ (b : bool) e s, inv s → inv (if b then emit e s else s)).
  { intros [] e' t H; [|done]. eapply inv_shrinks; [exact H|apply evolves_emit]. }
  case_decide.
  { intros [= <- _]. eapply inv_shrinks; [|apply evolves_emit]. by apply Hemit. }
  destruct (auth_enable cfg && _).
  { intros [= <- _]. eapply inv_shrinks; [|apply evolves_emit]. by apply Hemit. }
  destruct ok; [|by intros [= <- _]]. cbn [negb].
  destruct (info_of cfg ri msg ip) as [i|]; [|done]. cbn [mbind option_bind].
  set (s1 := emit _ s).
  destruct (getSession gen (sessionMgr s1) msg) as [[[[sess pr] rq] prov] err].
  assert (H1 : inv (set_sessions prov s1)).
  { eapply inv_shrinks; [|apply evolves_set_sessions].
    eapply inv_shrinks; [exact Hinv|apply evolves_emit]. }
  destruct err; [by intros [= <- _]|]. intros [= <- _].
  eapply inv_shrinks; [|apply evolves_notify]. eapply inv_shrinks; [|apply evolves_emit].
  eapply inv_shrinks; [|apply evolves_set_clients].
  assert (H2 : ∀ c, subMap c = ∅ → inv (set_heap (<[a := c]>) (set_sessions prov s1))).
  { intros c Hc. apply inv_new_client; [done|exact (fresh_client_new s)|done]. }
  case_match; [eapply inv_shrinks; [|apply evolves_Close]|]; by apply H2.
Qed.

Lemma inv_AddORUpdateClient i s : inv s → inv (AddORUpdateClient i s).
Proof.
  intros Hinv. unfold AddORUpdateClient. eapply inv_shrinks; [|apply evolves_set_clients].
  apply inv_new_client; [done|apply fresh_client_new|done].
Qed.

Lemma inv_AddORUpdateSubscription obj s : inv s → inv (AddORUpdateSubscription obj s).
Proof.
  intros Hinv. unfold AddORUpdateSubscription. destruct (clients s !! _) as [a|]; [|done].
  destruct (heap s !! a) as [c|] eqn:Hc; [|done]. case_decide; [|done].
  unfold processRemoteSubscribe. rewrite Hc. case_decide; [done|].
  destruct (split_share _) as [[[share g] topic]|]; [|done]. cbn zeta.
  pose proof (inv_resubscribe s a c (msub_Topic obj)
    (mkSubscription a topic (msub_Qos obj mod 256) share g)) as Hr. cbn zeta in Hr.
  destruct (memTopics_Subscribe _ topic _ _) as [[tm rq] [e|]] eqn:Hs;
    by apply (Hr _ _ _ _ Hinv Hc eq_refl Hs).
Qed.

Lemma inv_RemoveSubscription obj s s' : inv s → RemoveSubscription obj s = Some s' → inv s'.
Proof.
  intros Hinv. unfold RemoveSubscription. destruct (clients s !! _) as [a|]; [|by intros [= <-]].
  destruct (heap s !! a) as [c|] eqn:Hc; [|done]. cbn [mbind option_bind].
  destruct (subMap c !! _) as [x|] eqn:Hx; [|by intros [= <-]].
  destruct (session c); [|done]. cbn [mbind option_bind]. intros [= <-]. by eapply inv_remove.
Qed.

Lemma inv_doSubscriptionEvent d key obj s s' :
  inv s → doSubscriptionEvent d key obj s = Some s' → inv s'.
Proof.
  intros Hinv. unfold doSubscriptionEvent. destruct d.
  - repeat case_match; by apply inv_RemoveSubscription.
  - intros [= <-]. by apply inv_AddORUpdateSubscription.
Qed.

(** ** Reachable states *)

Definition initial (t : memProvider) : state := mkState ∅ ∅ ∅ NewMemProvider t [].

(** From now on writing to the connection of a client fails. *)
Definition conn_breaks (c : client) : client :=
  mkClient (typ c) (conn c) false (info c) (willMsg c) (status c) (ctx_done c) (session c)
    (subMap c) (rmsgs c) (awaitingRel c) (maxAwaitingRel c) (inflight c) (retryTimer c).

(** What can happen to the broker: a connection, a packet of a client (or of the read
    loop on its behalf), a forwarded message, a timer, an administrative
    disconnect, a DISCONNECT seen by the read loop, the loss of a connection, or an
    event from the cluster store. *)
Inductive step (cfg : config) : state → state → Prop :=
  | StepConnect (bc : Bcrypt) gen ri users ip ok r s s' x :
      handleConnection cfg gen ri users ip ok r s = Some (s', x) → step cfg s s'
  | StepMessage Intn now a p fwd s s' :
      ProcessMessage cfg Intn now a p fwd s = Some s' → step cfg s s'
  | StepForward Intn now cid p s s' : Receive_one cfg Intn now cid p s = Some s' → step cfg s s'
  | StepRetry now a s : step cfg s (retryDelivery cfg now a s)
  | StepExpire now a s : step cfg s (on_client (expireAwaitingRel now) a s)
  | StepDisconnect cid s : step cfg s (DisConnClientByClientId cfg cid s)
  | StepReadDisconnect a s : step cfg s (read_disconnect a s)
  | StepConnBreaks a s : step cfg s (on_client conn_breaks a s)
  | StepClient d key i s : step cfg s (doClientEvent d key i s)
  | StepSubscription d key obj s s' : doSubscriptionEvent d key obj s = Some s' → step cfg s s'.

Inductive reachable (cfg : config) : state → Prop :=
  | reach_init t : reachable cfg (initial t)
  | reach_step s s' : reachable cfg s → step cfg s s' → reachable cfg s'.

Lemma inv_initial t : inv (initial t).
Proof.
  split; [apply swf_new|]. split; [|intros a tab f x; unfold tables; cbn; by rewrite fmap_empty].
  intros p x q. cbn. rewrite entries_new. intros []%not_elem_of_nil.
Qed.

Lemma inv_step cfg s s' : inv s → step cfg s s' → inv s'.
Proof.
  intros Hinv Hstep. destruct Hstep.
  - by eapply inv_handleConnection.
  - by eapply inv_ProcessMessage.
  - unfold Receive_one in H. repeat case_match; simplify_eq; try done.
    destruct (heap s !! _) as [c|]; [|done]. cbn [mbind option_bind] in H.
    case_decide; simplify_eq; [done|]. by eapply inv_ProcessMessage.
  - eapply inv_shrinks; [done|apply evolves_retryDelivery].
  - eapply inv_shrinks; [done|]. apply shrinks_on_client. intros c. by unfold closed_stays.
  - unfold DisConnClientByClientId. case_match; [|done].
    eapply inv_shrinks; [|apply evolves_Close]. eapply inv_shrinks; [done|apply evolves_set_clients].
  - eapply inv_shrinks; [done|]. unfold read_disconnect.
    etransitivity; (apply shrinks_on_client; intros c; by unfold closed_stays).
  - eapply inv_shrinks; [done|]. apply shrinks_on_client. intros c. by unfold closed_stays.
  - destruct d; [eapply inv_shrinks; [done|apply evolves_RemoveClient]|by apply inv_AddORUpdateClient].
  - by eapply inv_doSubscriptionEvent.
Qed.

Lemma reachable_holds cfg s : reachable cfg s → inv s.
Proof. induction 1; [apply inv_initial|by eapply inv_step]. Qed.

(** C4: Consistency of every reachable state.  Whatever sequence of connections,
    packets, forwarded messages, timers and cluster events the broker goes through,
    the tree is well formed and every subscriber in it is a subscription that its
    client holds in its own table, filed under the levels of its own filter; and
    every subscription in a client's table belongs to that client. *)
Theorem reachable_inv cfg s :
  reachable cfg s → inv s.
Proof. apply reachable_holds. Qed.

(** ** A sample run *)

(** A broker with everything optional turned off; two clients connect, the second
    with a will on the topic "w". *)
Definition sample_cfg : config := mkConfig "n1" false None false false false.

Definition sample_connect (id : string) (will : bool) : list byte :=
  (ConnectPacket_Write (mkConnect (header_of_type Connect 0) "MQTT" 4 true will 0 false false false
     0 60 id (if will then "w" else "") [] "" [] None)).1.

(** No password is right. *)
#[local] Instance no_bcrypt : Bcrypt := { GenerateFromPassword _ _ _ := None; CompareHashAndPassword _ _ := false }.

Definition sample_join (id : string) (will : bool) (s : state) : state :=
  from_option fst s (handleConnection sample_cfg id (λ _ i, Some i) ∅ "10.0.0.1" true (sample_connect id will) s).

Definition sample_connected : state :=
  sample_join "c2" true (sample_join "c1" false (initial (mkProvider ∅ ∅))).

(** The first client subscribes to "a/+", and to "w" in the group "g". *)
Definition sample_filters : ControlPacket :=
  PSubscribe (mkSubscribe (header_of_type Subscribe 1) 1 ["a/+"; "$share/g/w"] [z2b 1; z2b 0]).

Definition sample_state : state :=
  default sample_connected
    (ProcessMessage sample_cfg (λ _ _, O) 0 1%positive sample_filters false sample_connected).

Lemma sample_join_step id will s : reachable sample_cfg s → reachable sample_cfg (sample_join id will s).
Proof.
  intros Hr. unfold sample_join. destruct (handleConnection _ _ _ _ _ _ _ s) as [[s' x]|] eqn:Hh; [|exact Hr].
  apply (reach_step _ s s'); [exact Hr|]. by eapply StepConnect.
Qed.

Lemma sample_reachable : reachable sample_cfg sample_state.
Proof.
  apply (reach_step _ sample_connected).
  - apply sample_join_step, sample_join_step, reach_init.
  - apply (StepMessage _ (λ _ _, O) 0 1%positive sample_filters false). by vm_compute.
Qed.

Lemma reachable_inv_witness :
  inv sample_state ∧ entries (tree sample_state) ["a"; "+"] = [(1%positive, 1)].
Proof.
  split; [apply (reachable_inv sample_cfg), sample_reachable|by vm_compute].
Defined.

Lemma sample_inv : inv sample_state.
Proof. apply (reachable_holds sample_cfg), sample_reachable. Qed.

Definition sample_client (a : positive) (s : state) : client :=
  default (init_client REMOTE false (mkInfo "" "" "" "" 0 0) None) (heap s !! a).

Lemma Close_unsubscribes_witness :
  inv (Close sample_cfg 1 sample_state)
  ∧ (1%positive, 1) ∉ entries (tree (Close sample_cfg 1 sample_state)) ["a"; "+"].
Proof.
  destruct (Close_unsubscribes sample_cfg 1%positive (sample_client 1 sample_state) sample_state)
    as (Hinv & _ & Hgone); [exact sample_inv|by vm_compute|by vm_compute|].
  split; [exact Hinv|]. intros Hin. destruct (Hgone _ _ _ Hin) as (_ & sub & Hsub & Hne).
  apply Hne. revert Hsub.
  assert (subs_heap (Close sample_cfg 1 sample_state) !! 1%positive
    = Some (mkSubscription 1 "a/+" 1 false "")) as -> by (by vm_compute).
  by intros [= <-].
Defined.

Lemma Close_terminates_witness :
  Close_loop sample_cfg 100 2 sample_state = Close sample_cfg 2 sample_state
  ∧ out (Close sample_cfg 2 sample_state) = out sample_state
      ++ [ConnClosed 2; StoreDelClient "c2"; Sent 1 (PPublish (mkPublish (header_of_type Publish 0) "w" 0 []))].
Proof.
  split; [|by vm_compute].
  apply (Close_terminates sample_cfg 2%positive sample_state 100). vm_compute. lia.
Defined.
