(* ===== verification/BrokerDelivery.v ===== *)
(** * BrokerDelivery: who gets a message, and how often

    What the broker does with a published message: the subscribers it is handed to
    and the choice in shared groups, what handing it to a connected client does,
    the retries, and the receiving side of QoS 2.  The last part records where the
    handlers do something else than the protocol asks. *)
From S2P Require Import Prelude Wire Packets Topics TopicLevels TopicsSpec Acl Sessions Broker BrokerInv.
Local Open Scope Z_scope.

(** ** QoS 2 from a publisher *)

Lemma quiet_written cfg a p s s' e : WriterPacket cfg a p s = (s', e) → quiet s s'.
Proof.
  intros H. pose proof (evolves_WriterPacket (K := quiet_client) cfg a p s) as Hs. by rewrite H in Hs.
Qed.

(** The id of an accepted QoS 2 message is registered, whatever happens then. *)
Lemma qos2_registered cfg Intn now a p fwd s c :
  heap s !! a = Some c → Qos (pub_FixedHeader p) = 2 → acl_allows cfg "pub" c (pub_TopicName p) = true →
  (∃ c', heap (ProcessPublish cfg Intn now a p fwd s) !! a = Some c'
     ∧ is_Some (awaitingRel c' !! pub_MessageID p))
  ∨ ProcessPublish cfg Intn now a p fwd s = s ∧ registerPublishPacketId now (pub_MessageID p) c = None.
Proof.
  intros Hc Hq Hacl. unfold ProcessPublish. rewrite Hc, Hacl, Hq. cbn [negb].
  rewrite !decide_False, decide_True by done.
  destruct (registerPublishPacketId now (pub_MessageID p) c) as [c1|] eqn:Hr; [left|by right].
  set (s1 := on_client (λ _, c1) a s).
  assert (H1 : heap s1 !! a = Some c1) by (unfold s1, on_client; cbn; by rewrite lookup_alter_eq, Hc).
  assert (Ha1 : is_Some (awaitingRel c1 !! pub_MessageID p)).
  { unfold registerPublishPacketId in Hr. destruct (isAwaitingFull c); [done|].
    destruct (awaitingRel c !! _); [done|]. injection Hr as <-. cbn. by rewrite lookup_insert_eq. }
  assert (Hgo : ∀ s', quiet s1 s' → ∃ c', heap s' !! a = Some c' ∧ is_Some (awaitingRel c' !! pub_MessageID p)).
  { intros s' (_ & _ & _ & Hk). destruct (Hk a c1 H1) as (c' & Hc' & _ & Haw & _). exists c'.
    by rewrite Haw. }
  destruct (WriterPacket cfg a _ s1) as [s2 [e|]] eqn:Hw; apply quiet_written in Hw; apply Hgo; [done|].
  etransitivity; [exact Hw|apply evolves_ProcessPublishMessage].
Qed.

Lemma register_again now2 id c x : awaitingRel c !! id = Some x → registerPublishPacketId now2 id c = None.
Proof. intros H. unfold registerPublishPacketId. destruct (isAwaitingFull c); [done|]. by rewrite H. Qed.

(** ** Routing *)

Definition publish_addr (cfg : config) (now : Z) (p : PublishPacket) (s : state) (x : positive) : state :=
  match subs_heap s !! x with Some sub => publish cfg now sub p s | None => s end.

Lemma publish_addr_subs cfg now p s x : subs_heap (publish_addr cfg now p s x) = subs_heap s.
Proof. unfold publish_addr. case_match; [|done]. apply (evolves_publish (K := closed_stays)). Qed.

(** The share group of a subscription, if it has one. *)
Definition group_of (subs : gmap positive subscription) (x : positive) : option string :=
  sub ← subs !! x; if sub_share sub then Some (sub_groupName sub) else None.

Definition plain_of (subs : gmap positive subscription) (xs : list positive) : list positive :=
  filter (λ x, is_Some (subs !! x) ∧ group_of subs x = None) xs.

(** The groups of the subscribers [xs] with their members. *)
Definition groups_of (subs : gmap positive subscription) (xs : list positive)
    (acc : gmap string (list positive)) : gmap string (list positive) :=
  foldl (λ qsub x, match group_of subs x with Some g => add_member x g qsub | None => qsub end) acc xs.

Lemma sort_out_eq cfg now p l : ∀ s qsub,
  foldl (sort_out cfg now p) (s, qsub) l
    = (foldl (publish_addr cfg now p) s (plain_of (subs_heap s) (map fst l)),
       groups_of (subs_heap s) (map fst l) qsub).
Proof.
  induction l as [|[x q] l IH]; intros s qsub; [done|]. cbn [foldl map fst].
  unfold plain_of, groups_of. rewrite filter_cons. cbn [foldl].
  assert (Hso : sort_out cfg now p (s, qsub) (x, q) = match subs_heap s !! x with
    | Some sub => if sub_share sub then (s, add_member x (sub_groupName sub) qsub)
                  else (publish cfg now sub p s, qsub)
    | None => (s, qsub) end) by done.
  rewrite Hso. clear Hso. destruct (subs_heap s !! x) as [sub|] eqn:Hx.
  - assert (Hg : group_of (subs_heap s) x = if sub_share sub then Some (sub_groupName sub) else None)
      by (unfold group_of; by rewrite Hx).
    destruct (sub_share sub).
    + rewrite decide_False by (by rewrite Hg; intros [_ ?]). rewrite Hg. apply IH.
    + rewrite decide_True by (by rewrite Hg). rewrite Hg. cbn [foldl]. rewrite IH.
      assert (publish_addr cfg now p s x = publish cfg now sub p s) as ->
        by (unfold publish_addr; by rewrite Hx).
      assert (Hs : subs_heap (publish cfg now sub p s) = subs_heap s)
        by apply (evolves_publish (K := closed_stays)).
      by rewrite Hs.
  - assert (Hg : group_of (subs_heap s) x = None) by (unfold group_of; by rewrite Hx).
    rewrite decide_False by (by intros [[? ?] _]). rewrite Hg. apply IH.
Qed.

Lemma groups_of_spec subs xs : ∀ acc g,
  (∀ g objs, acc !! g = Some objs → objs ≠ []) →
  match groups_of subs xs acc !! g with
  | None => acc !! g = None ∧ ∀ x, x ∈ xs → group_of subs x ≠ Some g
  | Some objs => objs ≠ [] ∧ ∀ x, x ∈ objs ↔ x ∈ default [] (acc !! g) ∨ (x ∈ xs ∧ group_of subs x = Some g)
  end.
Proof.
  induction xs as [|y xs IH]; intros acc g Hne.
  { unfold groups_of. cbn. destruct (acc !! g) as [objs|] eqn:Hg.
    - split; [by eapply Hne|]. intros x. cbn. set_solver.
    - split; [done|]. set_solver. }
  unfold groups_of. cbn [foldl].
  destruct (group_of subs y) as [g'|] eqn:Hy.
  - set (acc' := add_member y g' acc).
    assert (Hacc : ∀ h, acc' !! h = if decide (h = g') then Some (default [] (acc !! g') ++ [y]) else acc !! h).
    { intros h. unfold acc', add_member. case_decide; subst.
      - destruct (acc !! g'); by rewrite lookup_insert_eq.
      - destruct (acc !! g'); by rewrite lookup_insert_ne. }
    assert (Hne' : ∀ g objs, acc' !! g = Some objs → objs ≠ []).
    { intros h objs. rewrite Hacc. case_decide; [intros [= <-]; by destruct (default [] _)|]. apply Hne. }
    specialize (IH acc' g Hne'). unfold groups_of in IH. rewrite Hacc in IH.
    case_match; destruct IH as [IH1 IH2].
    + split; [done|]. intros x. rewrite IH2. case_decide; subst; cbn; set_solver.
    + case_decide; [done|]. split; [done|]. intros x [->|Hx]%elem_of_cons; [congruence|by apply IH2].
  - specialize (IH acc g Hne). unfold groups_of in IH. case_match; destruct IH as [IH1 IH2].
    + split; [done|]. intros x. rewrite IH2. set_solver.
    + split; [done|]. intros x [->|Hx]%elem_of_cons; [congruence|by apply IH2].
Qed.

(** The member drawn for each group. *)
Definition picks_of (Intn : string → nat → nat) (qsub : gmap string (list positive))
    : list (string * positive) :=
  omap (λ '(g, objs), x ← objs !! Intn g (length objs); Some (g, x)) (map_to_list qsub).

Lemma publish_groups_eq cfg Intn now p l : ∀ s,
  foldl (publish_group cfg Intn now p) s l
    = foldl (publish_addr cfg now p) s
        (map snd (omap (λ '(g, objs), x ← objs !! Intn g (length objs); Some (g, x)) l)).
Proof.
  induction l as [|[g objs] l IH]; intros s; [done|].
  change (omap ?f ((g, objs) :: l)) with
    (match (x ← objs !! Intn g (length objs); Some (g, x)) with
     | Some y => y :: omap f l | None => omap f l end).
  assert (Hg : publish_group cfg Intn now p s (g, objs)
    = match objs !! Intn g (length objs) with Some x => publish_addr cfg now p s x | None => s end) by done.
  cbn [foldl]. rewrite Hg. by destruct (objs !! Intn g (length objs)); cbn; rewrite IH.
Qed.

Lemma elem_of_picks Intn qsub g x :
  (g, x) ∈ picks_of Intn qsub ↔ ∃ objs, qsub !! g = Some objs ∧ objs !! Intn g (length objs) = Some x.
Proof.
  unfold picks_of. rewrite list_elem_of_omap. split.
  - intros ([g' objs] & Hin%elem_of_map_to_list & Hx).
    destruct (objs !! Intn g' (length objs)) as [y|] eqn:Hy; [|done]. injection Hx as <- <-. eauto.
  - intros (objs & Hg & Hx). exists (g, objs). rewrite elem_of_map_to_list, Hx. done.
Qed.

Lemma NoDup_picks Intn qsub : NoDup (map fst (picks_of Intn qsub)).
Proof.
  unfold picks_of. pose proof (NoDup_fst_map_to_list qsub) as Hnd.
  induction (map_to_list qsub) as [|[g objs] l IH]; [constructor|].
  cbn in Hnd. apply NoDup_cons in Hnd as [Hg Hnd]. cbn.
  destruct (objs !! Intn g (length objs)) as [x|]; cbn; [|by apply IH].
  apply NoDup_cons. split; [|by apply IH]. intros Hin. apply Hg.
  apply list_elem_of_fmap in Hin as ([g' y] & -> & Hin).
  apply list_elem_of_omap in Hin as ([g2 objs2] & Hin & Hy).
  apply list_elem_of_fmap. exists (g2, objs2). split; [|done].
  destruct (objs2 !! _); [|done]. by injection Hy as <- _.
Qed.

(** C24: Who a message is handed to.  [route] hands it to every matching
    subscription that is not shared, in the order they were found, and to exactly
    one member of each shared group that has a matching subscription: the picks
    name each such group once, with a matching subscription of that group. *)
Theorem route_targets cfg Intn now p s subs :
  (∀ g n, (0 < n)%nat → (Intn g n < n)%nat) →
  memTopics_Subscribers (topicsMgr s) (pub_TopicName p) (Qos (pub_FixedHeader p)) = Ok subs →
  ∃ picks : list (string * positive),
    route cfg Intn now p s
      = foldl (publish_addr cfg now p) s (plain_of (subs_heap s) (map fst subs) ++ map snd picks)
    ∧ NoDup (map fst picks)
    ∧ (∀ g, g ∈ map fst picks ↔ ∃ x, x ∈ map fst subs ∧ group_of (subs_heap s) x = Some g)
    ∧ (∀ g x, (g, x) ∈ picks → x ∈ map fst subs ∧ group_of (subs_heap s) x = Some g).
Proof.
  intros HI Hs. unfold route. rewrite Hs, sort_out_eq.
  set (qsub := groups_of (subs_heap s) (map fst subs) ∅).
  assert (Hq : ∀ g, match qsub !! g with
    | None => ∀ x, x ∈ map fst subs → group_of (subs_heap s) x ≠ Some g
    | Some objs => objs ≠ [] ∧ ∀ x, x ∈ objs ↔ x ∈ map fst subs ∧ group_of (subs_heap s) x = Some g end).
  { intros g. pose proof (groups_of_spec (subs_heap s) (map fst subs) ∅ g) as H.
    rewrite lookup_empty in H. cbn in H. fold qsub in H.
    destruct (qsub !! g); destruct H as [H1 H2]; try (by intros ? ?; rewrite lookup_empty); [|done].
    split; [done|]. intros x. rewrite H2. set_solver. }
  exists (picks_of Intn qsub). rewrite foldl_app. split; [apply publish_groups_eq|].
  split; [apply NoDup_picks|]. split.
  - intros g. rewrite (list_elem_of_fmap fst). specialize (Hq g). split.
    + intros ([g' x] & -> & (objs & Hg & Hx)%elem_of_picks). cbn in *. rewrite Hg in Hq.
      exists x. apply Hq. by eapply list_elem_of_lookup_2.
    + intros (x & Hx & Hgx). destruct (qsub !! g) as [objs|] eqn:Hg; [|by destruct (Hq x Hx)].
      destruct Hq as [Hne _].
      destruct (lookup_lt_is_Some_2 objs (Intn g (length objs))) as [y Hy].
      { apply HI. destruct objs; [done|cbn; lia]. }
      exists (g, y). split; [done|]. apply elem_of_picks. eauto.
  - intros g x (objs & Hg & Hx)%elem_of_picks. specialize (Hq g). rewrite Hg in Hq.
    apply Hq. by eapply list_elem_of_lookup_2.
Qed.

(** ** Delivery to connected clients *)

(** A client of this node with a working connection. *)
Definition live_client (c : client) : Prop :=
  typ c = LOCAL ∧ status c ≠ Disconnected ∧ conn c = true ∧ conn_ok c = true.
Definition live (s : state) (b : positive) : Prop := ∃ c, heap s !! b = Some c ∧ live_client c.

(** From [s] to [s'] the client at [b] stays live and nothing sent is taken back. *)
Definition spares (b : positive) (s s' : state) : Prop :=
  out s `prefix_of` out s' ∧ (live s b → live s' b).

#[global] Instance spares_preorder b : PreOrder (spares b).
Proof.
  split; [by intros s|]. intros s1 s2 s3 [H1 H2] [H3 H4]. split; [by etransitivity|auto].
Qed.

Lemma spares_same b s s' : heap s' = heap s → out s `prefix_of` out s' → spares b s s'.
Proof. intros Hh Ho. split; [done|]. unfold live. by rewrite Hh. Qed.

Lemma spares_emit b e s : spares b s (emit e s).
Proof. apply spares_same; [done|]. by exists [e]. Qed.

Lemma spares_on_client b f a s :
  (a ≠ b ∨ ¬ live s b) ∨ (∀ c, live_client c → live_client (f c)) → spares b s (on_client f a s).
Proof.
  intros Hf. split; [by exists []; rewrite app_nil_r|]. intros (c & Hc & Hl). unfold live, on_client. cbn.
  destruct (decide (a = b)) as [->|]; [|by exists c; rewrite lookup_alter_ne].
  rewrite lookup_alter_eq, Hc. destruct Hf as [[?|[]]|Hf]; [done|by exists c|].
  exists (f c). auto.
Qed.

Lemma spares_foldl {A} b (f : state → A → state) l : ∀ s,
  (∀ s x, spares b s (f s x)) → spares b s (foldl f s l).
Proof.
  induction l as [|x l IH]; intros s Hf; [done|]. cbn. etransitivity; [apply Hf|by apply IH].
Qed.

Lemma spares_notify b cfg n id s : spares b s (notify cfg n id s).
Proof. unfold notify. case_match; [apply spares_emit|done]. Qed.

Lemma spares_close_subscription b cfg id s e : spares b s (close_subscription cfg id s e).
Proof.
  destruct e as [topic x]. unfold close_subscription.
  assert (Hu : spares b s (unsubscribe_sub x s)).
  { unfold unsubscribe_sub. case_match; [|done]. by apply spares_same. }
  etransitivity; [exact Hu|]. etransitivity; [apply (spares_emit b (StoreDelSubscription topic id))|].
  etransitivity; [apply (spares_notify b cfg (OnUnSubscribe topic) id)|].
  case_decide; [apply spares_notify|done].
Qed.

Lemma spares_not_live b s s' : out s `prefix_of` out s' → ¬ live s b → spares b s s'.
Proof. by split. Qed.

Lemma spares_close_subs b cfg a c s :
  (live s b → a ≠ b) → spares b s (close_subs cfg a c s).
Proof.
  intros Hab. unfold close_subs. etransitivity; [|apply spares_notify].
  etransitivity; [|apply spares_foldl; intros; apply spares_close_subscription].
  unfold close_start, RemoveClient.
  assert (Hout : ∀ f t, out (on_client f a t) = out t) by done.
  destruct (decide (a = b)) as [->|Hne].
  { apply spares_not_live; [|naive_solver].
    destruct (conn c); case_match; cbn; rewrite <-?app_assoc; by apply prefix_app_r. }
  etransitivity; [|apply spares_emit].
  etransitivity; [apply (spares_on_client b with_ctx_done a); auto|].
  etransitivity; [apply (spares_on_client b (with_status Disconnected) a); auto|].
  destruct (conn c); [|case_match; by apply spares_same].
  etransitivity; [apply (spares_emit b (ConnClosed a))|].
  etransitivity; [apply (spares_on_client b (with_conn false) a); auto|].
  case_match; by apply spares_same.
Qed.

Lemma spares_WriterPacket_with b close a p s :
  (∀ a s, (live s b → a ≠ b) → spares b s (close a s)) →
  spares b s (WriterPacket_with close a p s).1.
Proof.
  intros Hclose. unfold WriterPacket_with. destruct (heap s !! a) as [c|] eqn:Hc; [|done].
  case_decide; [done|]. destruct (conn c) eqn:Hconn; cbn.
  - destruct (conn_ok c); [apply spares_emit|done].
  - apply Hclose. intros (c' & Hc' & Hl) ->. rewrite Hc in Hc'. injection Hc' as <-.
    destruct Hl as (_ & _ & Hl & _). congruence.
Qed.

Lemma spares_PublishMessage_with b write w s :
  (∀ a p s, spares b s (write a p s).1) → spares b s (PublishMessage_with write w s).
Proof.
  intros Hw. unfold PublishMessage_with. case_match; [|done].
  apply spares_foldl. intros s' [x q]. case_match; [apply Hw|done].
Qed.

Lemma spares_Close_loop b cfg fuel : ∀ a s,
  (live s b → a ≠ b) → spares b s (Close_loop cfg fuel a s).
Proof.
  induction fuel as [|fuel IH]; intros a s Hab; [done|]. rewrite Close_loop_S.
  destruct (heap s !! a) as [c|]; [|done]. case_decide; [done|].
  destruct (willMsg c) as [w|]; [|by apply spares_close_subs].
  etransitivity; [by apply (spares_close_subs b cfg a c)|].
  apply spares_PublishMessage_with. intros. by apply spares_WriterPacket_with.
Qed.

Lemma spares_WriterPacket b cfg a p s : spares b s (WriterPacket cfg a p s).1.
Proof. apply spares_WriterPacket_with. intros. by apply spares_Close_loop. Qed.

Lemma spares_ensureRetryTimer b i a s : spares b s (ensureRetryTimer i a s).
Proof. unfold ensureRetryTimer. repeat case_match; try done. apply spares_on_client. auto. Qed.

Lemma spares_set_inflight b now p a s : spares b s (set_inflight now p a s).
Proof. apply spares_on_client. auto. Qed.

Lemma spares_publish b cfg now sub p s : spares b s (publish cfg now sub p s).
Proof.
  unfold publish. destruct (heap s !! sub_client sub) as [c|]; [|done].
  case_decide; [case_decide; [apply spares_WriterPacket|apply spares_emit]|]. case_decide; [|done].
  etransitivity; [apply (spares_set_inflight b now p (sub_client sub))|].
  case_decide; [|apply spares_emit].
  etransitivity; [apply spares_WriterPacket|apply spares_ensureRetryTimer].
Qed.

Lemma spares_publish_addr b cfg now p s x : spares b s (publish_addr cfg now p s x).
Proof. unfold publish_addr. case_match; [apply spares_publish|done]. Qed.

Lemma WriterPacket_live cfg a p s : live s a → WriterPacket cfg a p s = (emit (Sent a p) s, None).
Proof.
  intros (c & Hc & _ & Hst & Hconn & Hok). unfold WriterPacket, WriterPacket_with.
  by rewrite Hc, decide_False, Hconn, Hok.
Qed.

Lemma live_set_inflight b now p a s : live s b → live (set_inflight now p a s) b.
Proof. apply spares_set_inflight. Qed.

(** The state after [publish] to a live client. *)
Lemma publish_live cfg now sub p s :
  live s (sub_client sub) → ValidQos (Qos (pub_FixedHeader p)) = true →
  publish cfg now sub p s =
    if decide (Qos (pub_FixedHeader p) = 0) then emit (Sent (sub_client sub) (PPublish p)) s
    else ensureRetryTimer None (sub_client sub)
           (emit (Sent (sub_client sub) (PPublish p)) (set_inflight now p (sub_client sub) s)).
Proof.
  intros Hl Hq. assert (Hl' := Hl). destruct Hl' as (c & Hc & Htyp & _). unfold publish. rewrite Hc.
  apply ValidQos_range in Hq. case_decide; rewrite (decide_True (P := typ c = LOCAL)) by done.
  - by rewrite WriterPacket_live.
  - rewrite decide_True by lia. rewrite WriterPacket_live; [done|]. by apply live_set_inflight.
Qed.

(** Handing a message to a connected client.  [publish] writes the packet to the
    client once and nothing else; with QoS 1 or 2 it is kept in the client's
    in-flight table under its message id, waiting for the acknowledgement, with the
    retry timer running, and with QoS 0 it is not kept.  All other clients, the
    tree and the sessions are untouched. *)
Theorem publish_delivers cfg now sub p s c :
  let b := sub_client sub in
  heap s !! b = Some c → live_client c → ValidQos (Qos (pub_FixedHeader p)) = true →
  let s' := publish cfg now sub p s in
  out s' = out s ++ [Sent b (PPublish p)]
  ∧ topicsMgr s' = topicsMgr s ∧ sessionMgr s' = sessionMgr s ∧ clients s' = clients s
  ∧ (∀ a, a ≠ b → heap s' !! a = heap s !! a)
  ∧ ∃ c', heap s' !! b = Some c' ∧ subMap c' = subMap c
      ∧ (Qos (pub_FixedHeader p) = 0 → c' = c)
      ∧ (Qos (pub_FixedHeader p) ≠ 0 →
           inflight c' = <[pub_MessageID p := mkInflight InfPublish p now]> (inflight c)
           ∧ retryTimer c' = Some (default retryInterval (retryTimer c))).
Proof.
  intros b Hc Hl Hq s'. assert (Hlive : live s b) by (by exists c).
  unfold s'. rewrite publish_live by done. fold b. case_decide as H0.
  { do 4 (split; [done|]). split; [done|]. exists c. naive_solver. }
  set (f := with_inflight (<[pub_MessageID p := mkInflight InfPublish p now]>)).
  assert (Hh : heap (emit (Sent b (PPublish p)) (set_inflight now p b s)) = alter f b (heap s)) by done.
  unfold ensureRetryTimer. rewrite Hh, lookup_alter_eq, Hc. cbn [fmap option_fmap option_map].
  change (retryTimer (f c)) with (retryTimer c). destruct (retryTimer c) as [t|] eqn:Ht.
  - do 4 (split; [done|]). split; [intros a Ha; rewrite Hh; by rewrite lookup_alter_ne|].
    exists (f c). rewrite Hh, lookup_alter_eq, Hc. split; [done|]. split; [done|]. split; [done|].
    intros _. split; [done|]. exact Ht.
  - do 4 (split; [done|]). unfold on_client. cbn.
    split; [intros a Ha; rewrite !lookup_alter_ne by done; done|].
    eexists. rewrite !lookup_alter_eq, Hc. cbn. done.
Qed.

Lemma publish_sends cfg now sub p s :
  live s (sub_client sub) → ValidQos (Qos (pub_FixedHeader p)) = true →
  out (publish cfg now sub p s) = out s ++ [Sent (sub_client sub) (PPublish p)].
Proof.
  intros Hl Hq. rewrite publish_live by done. case_decide; [done|].
  unfold ensureRetryTimer. repeat case_match; done.
Qed.

(** A client keeps its type and its name. *)
Definition same_name (c c' : client) : Prop :=
  typ c' = typ c ∧ info_ID (info c') = info_ID (info c) ∧ info_NodeID (info c') = info_NodeID (info c).
#[export] Instance same_name_calm : Calm same_name | 10.
Proof.
  split; unfold same_name; [|done..]. split; [by intros c|]. intros c1 c2 c3 (H1 & H2 & H3) (H4 & H5 & H6). split_and!; congruence.
Qed.

(** What was sent from [s] to [s']. *)
Definition sent_since (s s' : state) : list effect := drop (length (out s)) (out s').

Lemma sent_since_between s1 s2 s3 s4 e :
  out s1 `prefix_of` out s2 → out s2 ++ [e] = out s3 → out s3 `prefix_of` out s4 →
  e ∈ sent_since s1 s4.
Proof.
  intros [l1 H1] H2 [l2 H3]. unfold sent_since. rewrite H3, <-H2, H1, <-!app_assoc, drop_app_length.
  set_solver.
Qed.

Lemma sent_since_mono s1 s2 s3 s4 e :
  out s1 `prefix_of` out s2 → e ∈ sent_since s2 s3 → out s2 `prefix_of` out s3 →
  out s3 `prefix_of` out s4 → e ∈ sent_since s1 s4.
Proof.
  unfold sent_since. intros [l1 H1] He [l2 H2] [l3 H3].
  rewrite H2, drop_app_length in He. rewrite H3, H2, H1, <-!app_assoc, drop_app_length. set_solver.
Qed.

Lemma publish_all_sends cfg now p x sub l : ∀ s,
  ValidQos (Qos (pub_FixedHeader p)) = true →
  x ∈ l → subs_heap s !! x = Some sub → live s (sub_client sub) →
  Sent (sub_client sub) (PPublish p) ∈ sent_since s (foldl (publish_addr cfg now p) s l).
Proof.
  intros s Hq (l1 & l2 & ->)%list_elem_of_split Hsub Hl. rewrite foldl_app. cbn [foldl].
  set (b := sub_client sub). set (s1 := foldl _ s l1).
  assert (H1 : spares b s s1) by (apply spares_foldl; intros; apply spares_publish_addr).
  assert (Hs1 : subs_heap s1 !! x = Some sub).
  { rewrite <-Hsub. f_equal. unfold s1. apply (foldl_keeps subs_heap). intros. apply publish_addr_subs. }
  apply (sent_since_between s s1 (publish_addr cfg now p s1 x)); [apply H1| |].
  - unfold publish_addr. rewrite Hs1. symmetry. apply publish_sends; [by apply H1|done].
  - apply (spares_foldl b (publish_addr cfg now p)). intros. apply spares_publish_addr.
Qed.

(** A matching subscription that is not shared is among the targets. *)
Lemma route_plain cfg Intn now p s x q path sub :
  swf (tree s) → topic_ok (pub_TopicName p) = true → ValidQos (Qos (pub_FixedHeader p)) = true →
  (x, q) ∈ entries (tree s) path → fmatch path (filter_path (pub_TopicName p)) = true →
  subs_heap s !! x = Some sub → sub_share sub = false →
  ∃ l, route cfg Intn now p s = foldl (publish_addr cfg now p) s l ∧ x ∈ l.
Proof.
  intros Hwf Ht Hq Hx Hm Hsub Hsh.
  assert (Href : refines (topicsMgr s) (entries (tree s))) by done.
  destruct (Subscribers_spec _ _ _ _ Href Ht Hq) as (r & Hr & _).
  assert (Hin : (x, Qos (pub_FixedHeader p)) ∈ r).
  { eapply Subscribers_elem; [exact Href|done|done|done|]. split; [done|]. exists path. split; [done|].
    by apply (list_elem_of_fmap_2' fst (entries (tree s) path) (x, q)). }
  unfold route. rewrite Hr, sort_out_eq, publish_groups_eq, <-foldl_app. eexists. split; [reflexivity|].
  apply elem_of_app. left. unfold plain_of. apply list_elem_of_filter.
  split; [|by apply (list_elem_of_fmap_2' fst r (x, Qos (pub_FixedHeader p)))].
  rewrite Hsub. split; [done|]. unfold group_of. by rewrite Hsub; cbn; rewrite Hsh.
Qed.

Lemma route_sends cfg Intn now p s x q path sub :
  swf (tree s) → topic_ok (pub_TopicName p) = true → ValidQos (Qos (pub_FixedHeader p)) = true →
  (x, q) ∈ entries (tree s) path → fmatch path (filter_path (pub_TopicName p)) = true →
  subs_heap s !! x = Some sub → sub_share sub = false → live s (sub_client sub) →
  Sent (sub_client sub) (PPublish p) ∈ sent_since s (route cfg Intn now p s).
Proof.
  intros Hwf Ht Hq Hx Hm Hsub Hsh Hl.
  destruct (route_plain cfg Intn now p s x q path sub) as (l & -> & Hin); [done..|]. by apply publish_all_sends with x.
Qed.

(** What [ProcessPublish] needs from the publisher: it may publish, it can be
    answered, and a QoS 2 message has a message id that is not in use. *)
Definition accepted (cfg : config) (c : client) (p : PublishPacket) : Prop :=
  live_client c ∧ acl_allows cfg "pub" c (pub_TopicName p) = true
  ∧ (Qos (pub_FixedHeader p) = 2 → isAwaitingFull c = false ∧ awaitingRel c !! pub_MessageID p = None).

(** An accepted message is acknowledged as its QoS asks and then routed. *)
Lemma accepted_processed cfg Intn now a p s c :
  heap s !! a = Some c → accepted cfg c p → ValidQos (Qos (pub_FixedHeader p)) = true →
  ∃ s1, (∀ b, spares b s s1) ∧ topicsMgr s1 = topicsMgr s ∧ subs_heap s1 = subs_heap s
    ∧ is_Some (heap s1 !! a)
    ∧ (∀ b cb, heap s !! b = Some cb → ∃ cb', heap s1 !! b = Some cb' ∧ same_name cb cb')
    ∧ ProcessPublish cfg Intn now a p false s = ProcessPublishMessage cfg Intn now a p false s1.
Proof.
  intros Hc (Hl & Hacl & H2) Hq. apply ValidQos_range in Hq.
  unfold ProcessPublish. rewrite Hc, Hacl. cbn [negb].
  destruct (decide (Qos (pub_FixedHeader p) = 0)).
  { exists s. rewrite Hc. split_and!; [done..| |done]. intros b cb Hb. by exists cb. }
  destruct (decide (Qos (pub_FixedHeader p) = 1)).
  { rewrite WriterPacket_live by (by exists c). eexists. split; [intros b; apply spares_emit|].
    split; [done|]. split; [done|]. split; [cbn; by rewrite Hc|]. split; [|done]. intros b cb Hb. by exists cb. }
  rewrite decide_True by lia. destruct H2 as [Hf Ha]; [lia|].
  unfold registerPublishPacketId. rewrite Hf, Ha.
  set (c' := with_awaitingRel _ c). set (s1 := on_client (λ _, c') a s).
  assert (H1 : heap s1 !! a = Some c') by (unfold s1, on_client; cbn; by rewrite lookup_alter_eq, Hc).
  rewrite WriterPacket_live by (exists c'; by split). exists (emit (Sent a (PPubrec (newAck Pubrec (pub_MessageID p)))) s1).
  split; [|split; [done|]; split; [done|]; split; [cbn [emit heap]; by rewrite H1|]; split; [|done]]; cycle 1.
  { intros b cb Hb. unfold s1, on_client. cbn. destruct (decide (a = b)) as [<-|]; [|exists cb; by rewrite lookup_alter_ne].
    rewrite lookup_alter_eq, Hb. cbn. exists c'. split; [done|]. rewrite Hb in Hc. injection Hc as ->. done. }
  intros b. etransitivity; [|apply spares_emit]. apply spares_on_client. by right.
Qed.

(** The bridge takes the messages of its topics: they are not routed. *)
Definition bridged (cfg : config) (topic : string) : bool :=
  bridge_enable cfg && has_prefix topic "$queue/".

Lemma publish_sent cfg Intn now a c p s x q path sub :
  inv s → heap s !! a = Some c → accepted cfg c p → bridged cfg (pub_TopicName p) = false →
  topic_ok (pub_TopicName p) = true → ValidQos (Qos (pub_FixedHeader p)) = true →
  validatePacketFields (PPublish p) = true →
  (x, q) ∈ entries (tree s) path → fmatch path (filter_path (pub_TopicName p)) = true →
  subs_heap s !! x = Some sub → sub_share sub = false → live s (sub_client sub) →
  ∃ s', ProcessMessage cfg Intn now a (PPublish p) false s = Some s'
    ∧ Sent (sub_client sub) (PPublish p) ∈ sent_since s s'.
Proof.
  intros [Hwf _] Hc Hacc Hbr Ht Hq Hv Hx Hm Hsub Hsh Hl. unfold ProcessMessage. rewrite Hc, Hv.
  cbn [mbind option_bind negb]. eexists. split; [done|].
  destruct (accepted_processed cfg Intn now a p s c Hc Hacc Hq) as (s1 & Hsp & Htm & Hss & [c1 Hc1] & _ & ->).
  unfold bridged in Hbr. unfold ProcessPublishMessage. rewrite Hc1, Hbr.
  set (s2 := if Retain (pub_FixedHeader p) then _ else s1).
  assert (H2 : tree s2 = tree s ∧ subs_heap s2 = subs_heap s ∧ heap s2 = heap s1 ∧ out s2 = out s1).
  { unfold s2. rewrite <-Htm, <-Hss. destruct (Retain _); [|done]. cbn. by rewrite tree_Retain. }
  destruct H2 as (Htr & Hs2 & Hh2 & Ho2).
  assert (Hl2 : live s2 (sub_client sub)) by (unfold live; rewrite Hh2; by apply (Hsp (sub_client sub))).
  assert (Hsent : Sent (sub_client sub) (PPublish p) ∈ sent_since s2 (route cfg Intn now p s2)).
  { apply (route_sends cfg Intn now p s2 x q path sub); by rewrite ?Htr, ?Hs2. }
  eapply (sent_since_mono s s2 _ _ _); [|exact Hsent| |done].
  - rewrite Ho2. apply (Hsp a).
  - unfold route. case_match; [|done].
    rewrite sort_out_eq, publish_groups_eq, <-foldl_app.
    apply (spares_foldl a (publish_addr cfg now p)). intros. apply spares_publish_addr.
Qed.

(** The paths of a filter and a topic without empty levels match when MQTT's rules say so. *)
Lemma mqtt_match_paths f topic :
  plain f = true → plain topic = true → mqtt_match f topic = true →
  fmatch (filter_path f) (filter_path topic) = true.
Proof.
  intros Hf Ht. unfold mqtt_match, filter_path. rewrite !plain_path, andb_true_iff by done. tauto.
Qed.

(** C10: A message reaches its subscribers.  In every consistent state, when the broker
    accepts a PUBLISH (the publisher is connected, the ACL allows it, and at QoS 2 the
    id is free and the table of ids not full) whose topic is well formed, has no empty
    level and is not taken by the bridge, the packet is written to every connected
    client of this node that has a subscription, not in a shared group, under a filter
    without empty levels that matches the topic by MQTT's rules; whatever happens at
    the other subscribers (lost connections, the wills of clients that are closed on
    the way) does not prevent it. *)
Theorem publish_reaches_subscriber cfg Intn now a c p s f x q sub :
  inv s → heap s !! a = Some c → accepted cfg c p → bridged cfg (pub_TopicName p) = false →
  topic_ok (pub_TopicName p) = true → plain (pub_TopicName p) = true →
  ValidQos (Qos (pub_FixedHeader p)) = true → validatePacketFields (PPublish p) = true →
  plain f = true → mqtt_match f (pub_TopicName p) = true → (x, q) ∈ entries (tree s) (filter_path f) →
  subs_heap s !! x = Some sub → sub_share sub = false → live s (sub_client sub) →
  ∃ s', ProcessMessage cfg Intn now a (PPublish p) false s = Some s'
    ∧ Sent (sub_client sub) (PPublish p) ∈ sent_since s s'.
Proof.
  intros Hinv Hc Hacc Hbr Ht Hpt Hq Hv Hpf Hm Hx. eapply publish_sent; [done..|exact Hx|].
  by apply mqtt_match_paths.
Qed.

(** ** Retries *)

Definition due (now : Z) (el : inflightElem) : bool := bool_decide (retryInterval ≤ now - inf_timestamp el).

(** What is sent for an element, and the element afterwards. *)
Definition resent (el : inflightElem) : ControlPacket :=
  match inf_status el with
  | InfPublish => PPublish (inf_packet el)
  | InfPubrel => PPubrel (newPubrel (pub_MessageID (inf_packet el)))
  end.
Definition restamp (now : Z) (el : inflightElem) : inflightElem :=
  mkInflight (inf_status el) (inf_packet el) now.

Definition timer_ok (c : client) : Prop := ∀ t, retryTimer c = Some t → 0 < t ≤ retryInterval.

Lemma ensureRetryTimer_client i a s c :
  heap s !! a = Some c → live_client c → timer_ok c → (∀ t, i = Some t → 0 < t ≤ retryInterval) →
  ∃ c', heap (ensureRetryTimer i a s) !! a = Some c' ∧ live_client c' ∧ timer_ok c'
    ∧ inflight c' = inflight c ∧ is_Some (retryTimer c') ∧ out (ensureRetryTimer i a s) = out s.
Proof.
  intros Hc Hl Ht Hi. unfold ensureRetryTimer. rewrite Hc. destruct (retryTimer c) as [t|] eqn:Htc.
  - exists c. rewrite Htc. eauto 10.
  - unfold on_client. cbn. rewrite lookup_alter_eq, Hc. eexists. split; [done|].
    split; [done|]. split; [|by eauto].
    intros t [= <-]. destruct i as [i|]; cbn; [by apply Hi|unfold retryInterval; lia].
Qed.

Lemma retry_one_client cfg now a s c id el :
  heap s !! a = Some c → live_client c → timer_ok c →
  ∃ c', heap (retry_one cfg now a s (id, el)) !! a = Some c' ∧ live_client c' ∧ timer_ok c'
    ∧ inflight c' = (if due now el then alter (restamp now) id (inflight c) else inflight c)
    ∧ out (retry_one cfg now a s (id, el))
        = out s ++ (if due now el then [Sent a (resent el)] else []).
Proof.
  intros Hc Hl Ht. unfold retry_one, due. destruct (decide (retryInterval ≤ now - inf_timestamp el)) as [Hd|Hd].
  - rewrite bool_decide_eq_true_2 by done. rewrite WriterPacket_live by (by exists c).
    cbn. rewrite lookup_alter_eq, Hc. eexists. split; [done|]. by destruct el as [[] p t].
  - rewrite bool_decide_eq_false_2 by done. rewrite app_nil_r.
    destruct (ensureRetryTimer_client (Some (retryInterval
      - (if decide (now - inf_timestamp el < 0) then 0 else now - inf_timestamp el))) a s c)
      as (c' & H1 & H2 & H3 & H4 & _ & H5); [done|done|done| |eauto 10].
    intros t [= <-]. unfold retryInterval in *. case_decide; lia.
Qed.

(** The packets sent for the elements of [l], in order. *)
Definition resent_all (now : Z) (a : positive) (l : list (Z * inflightElem)) : list effect :=
  omap (λ e, if due now e.2 then Some (Sent a (resent e.2)) else None) l.

Lemma retry_all_client cfg now a l : ∀ s c,
  NoDup (map fst l) → heap s !! a = Some c → live_client c → timer_ok c →
  (∀ id el, (id, el) ∈ l → inflight c !! id = Some el) →
  let s' := foldl (retry_one cfg now a) s l in
  ∃ c', heap s' !! a = Some c' ∧ live_client c' ∧ timer_ok c'
    ∧ out s' = out s ++ resent_all now a l
    ∧ ∀ id, inflight c' !! id =
        (el ← inflight c !! id;
         Some (if bool_decide (id ∈ map fst l) && due now el then restamp now el else el)).
Proof.
  induction l as [|[id el] l IH]; intros s c Hnd Hc Hl Ht Hin; cbn [foldl].
  { exists c. rewrite app_nil_r. do 4 (split; [done|]). intros id. by destruct (inflight c !! id). }
  apply NoDup_cons in Hnd as [Hid Hnd].
  destruct (retry_one_client cfg now a s c id el Hc Hl Ht) as (c1 & Hc1 & Hl1 & Ht1 & Hi1 & Ho1).
  assert (Hel : inflight c !! id = Some el) by (apply Hin; by left).
  destruct (IH (retry_one cfg now a s (id, el)) c1 Hnd Hc1 Hl1 Ht1) as (c2 & Hc2 & Hl2 & Ht2 & Ho2 & Hi2).
  { intros id' el' Hin'. rewrite Hi1. destruct (decide (id' = id)) as [->|].
    - destruct Hid. by apply (list_elem_of_fmap_2' fst l (id, el')).
    - destruct (due now el); [rewrite lookup_alter_ne by done|]; apply Hin; by right. }
  exists c2. do 3 (split; [done|]). split.
  { rewrite Ho2, Ho1, <-app_assoc. f_equal. unfold resent_all. cbn. by destruct (due now el). }
  intros id'. rewrite Hi2, Hi1. cbn [map fst]. destruct (decide (id' = id)) as [->|Hne].
  - rewrite (bool_decide_eq_false_2 (id ∈ map fst l)) by done.
    rewrite (bool_decide_eq_true_2 (id ∈ id :: map fst l)) by (by left).
    destruct (due now el) eqn:Hd; [rewrite lookup_alter_eq|]; rewrite Hel; cbn; by rewrite Hd.
  - assert (bool_decide (id' ∈ id :: map fst l) = bool_decide (id' ∈ map fst l)) as ->
      by (apply bool_decide_ext; set_solver).
    destruct (due now el); [rewrite lookup_alter_ne by done|]; done.
Qed.

(** C25: Redelivery.  When the retry timer of a connected client fires, every
    in-flight message whose last attempt is at least the retry interval old is sent
    again (as a PUBREL once its PUBREC has come), nothing else is sent, no message
    leaves the table before it is acknowledged, the time of the attempt is recorded
    for exactly those messages, and the timer is set again to at most the interval. *)
Theorem retryDelivery_resends cfg now a s c :
  heap s !! a = Some c → live_client c → inflight c ≠ ∅ →
  let s' := retryDelivery cfg now a s in
  out s' = out s ++ resent_all now a (map_to_list (inflight c))
  ∧ ∃ c' t, heap s' !! a = Some c'
      ∧ inflight c' = (λ el, if due now el then restamp now el else el) <$> inflight c
      ∧ retryTimer c' = Some t ∧ 0 < t ≤ retryInterval.
Proof.
  intros Hc Hl Hne s'.
  set (s1 := resetRetryTimer a s). set (c1 := with_retryTimer None c).
  assert (Hc1 : heap s1 !! a = Some c1)
    by (unfold s1, resetRetryTimer, on_client; cbn; by rewrite lookup_alter_eq, Hc).
  assert (Hs' : s' = ensureRetryTimer None a (foldl (retry_one cfg now a) s1 (map_to_list (inflight c)))).
  { unfold s', retryDelivery. fold s1. rewrite Hc1. destruct Hl as (_ & _ & Hconn & _).
    change (conn c1) with (conn c). change (inflight c1) with (inflight c). rewrite Hconn.
    rewrite bool_decide_eq_false_2; [done|]. by rewrite map_size_empty_iff. }
  destruct (retry_all_client cfg now a (map_to_list (inflight c)) s1 c1) as (c2 & Hc2 & Hl2 & Ht2 & Ho2 & Hi2);
    [apply NoDup_fst_map_to_list|done|done|done|by intros id el ?%elem_of_map_to_list|].
  destruct (ensureRetryTimer_client None a _ c2 Hc2 Hl2 Ht2) as (c3 & Hc3 & _ & Ht3 & Hi3 & [t Ht] & Ho3);
    [done|]. rewrite Hs'. split; [by rewrite Ho3, Ho2|].
  exists c3, t. split; [done|]. split; [|split; [done|by apply Ht3]].
  rewrite Hi3. apply map_eq. intros id. rewrite Hi2, lookup_fmap.
  change (inflight c1) with (inflight c). destruct (inflight c !! id) as [el|] eqn:Hel; [|done].
  cbn. rewrite bool_decide_eq_true_2; [done|].
  apply (list_elem_of_fmap_2' fst (map_to_list (inflight c)) (id, el)); [|done].
  by apply elem_of_map_to_list.
Qed.

(** ** Wills *)

(** The subscribers of a will, with [close] for the calls of [Close] on the way. *)
Lemma PublishMessage_sends fuel cfg w s x q path sub :
  swf (tree s) → topic_ok (pub_TopicName w) = true → ValidQos (Qos (pub_FixedHeader w)) = true →
  (x, q) ∈ entries (tree s) path → fmatch path (filter_path (pub_TopicName w)) = true →
  subs_heap s !! x = Some sub → live s (sub_client sub) →
  Sent (sub_client sub) (PPublish w)
    ∈ sent_since s (PublishMessage_with (WriterPacket_with (Close_loop cfg fuel)) w s).
Proof.
  intros Hwf Ht Hq Hx Hm Hsub Hl.
  assert (Href : refines (topicsMgr s) (entries (tree s))) by done.
  destruct (Subscribers_spec _ _ _ _ Href Ht Hq) as (r & Hr & _).
  assert (Hin : (x, Qos (pub_FixedHeader w)) ∈ r).
  { eapply Subscribers_elem; [exact Href|done|done|done|]. split; [done|]. exists path. split; [done|].
    by apply (list_elem_of_fmap_2' fst (entries (tree s) path) (x, q)). }
  unfold PublishMessage_with. rewrite Hr. apply list_elem_of_split in Hin as (l1 & l2 & ->).
  rewrite foldl_app. cbn [foldl]. set (f := λ (t : state) '(y, _), _). set (s1 := foldl f s l1).
  assert (Hf : ∀ b t e, spares b t (f t e) ∧ subs_heap (f t e) = subs_heap t).
  { intros b t [y z]. unfold f. case_match; [|done]. split.
    - apply spares_WriterPacket_with. intros. by apply spares_Close_loop.
    - apply (evolves_WriterPacket_with (K := closed_stays)), evolves_Close_loop. }
  assert (H1 : spares (sub_client sub) s s1) by (apply spares_foldl; intros; apply Hf).
  assert (Hs1 : subs_heap s1 !! x = Some sub).
  { rewrite <-Hsub. f_equal. unfold s1. apply (foldl_keeps subs_heap). intros. by apply (Hf 1%positive). }
  assert (Hl1 : live s1 (sub_client sub)) by (by apply H1).
  apply (sent_since_between s s1 (f s1 (x, Qos (pub_FixedHeader w)))); [apply H1| |].
  - unfold f. rewrite Hs1. destruct Hl1 as (c & Hc & _ & Hst & Hcn & Hok).
    unfold WriterPacket_with. rewrite Hc, decide_False by done. by rewrite Hcn, Hok.
  - apply (spares_foldl 1%positive f). intros. apply Hf.
Qed.

(** Closing takes nobody else's subscriptions out of the tree. *)
Lemma unsubscribe_sub_keeps x y q s path :
  swf (tree s) → x ≠ y → (x, q) ∈ entries (tree s) path →
  (x, q) ∈ entries (tree (unsubscribe_sub y s)) path.
Proof.
  intros Hwf Hne Hx. destruct (subs_heap s !! y) as [sub|] eqn:Hy; [|unfold unsubscribe_sub; by rewrite Hy].
  destruct (unsubscribe_sub_entries y sub s Hwf Hy) as [_ ->]. case_match; [|done].
  by apply elem_of_remove_one; [apply entries_NoDup|].
Qed.

Lemma close_subscriptions_keep cfg id x q path l : ∀ s,
  swf (tree s) → x ∉ map snd l → (x, q) ∈ entries (tree s) path →
  (x, q) ∈ entries (tree (foldl (close_subscription cfg id) s l)) path.
Proof.
  induction l as [|[f y] l IH]; intros s Hwf Hl Hx; [done|].
  cbn in Hl. apply not_elem_of_cons in Hl as [Hne Hl]. cbn [foldl].
  assert (Htr : tree (close_subscription cfg id s (f, y)) = tree (unsubscribe_sub y s)).
  { unfold close_subscription, notify. repeat case_match; done. }
  destruct (evolves_close_subscription (K := closed_stays) cfg id s (f, y)) as (_ & _ & Hw & _).
  apply IH; [by apply Hw|done|]. rewrite Htr. by apply unsubscribe_sub_keeps.
Qed.

Lemma close_subs_keeps cfg a c s x q path sub :
  inv s → heap s !! a = Some c → subs_heap s !! x = Some sub → sub_client sub ≠ a →
  (x, q) ∈ entries (tree s) path → (x, q) ∈ entries (tree (close_subs cfg a c s)) path.
Proof.
  intros (Hwf & _ & Htab) Hc Hsub Hne Hx.
  assert (Htr : ∀ t, tree (notify cfg OnClientDisconnected (info_ID (info c)) t) = tree t).
  { intros t. unfold notify. by case_match. }
  unfold close_subs. rewrite Htr.
  assert (Hstart : tree (close_start a c s) = tree s).
  { unfold close_start, RemoveClient. destruct (conn c); by case_match. }
  apply close_subscriptions_keep; rewrite ?Hstart; [done| |done].
  intros ([f y] & -> & Hin%elem_of_map_to_list)%list_elem_of_fmap.
  destruct (Htab a (subMap c) f y) as (sub' & Hs' & Ha); [by apply tables_lookup|done|].
  cbn in Hsub. congruence.
Qed.

(** C26: The will of a client that is closed reaches its subscribers.  When a connected
    client with a will is closed, the will is written to every other connected
    client of this node with a subscription that matches the will's topic. *)
Theorem will_reaches_subscriber cfg a c w s x q path sub :
  inv s → heap s !! a = Some c → status c ≠ Disconnected → willMsg c = Some w →
  topic_ok (pub_TopicName w) = true → ValidQos (Qos (pub_FixedHeader w)) = true →
  (x, q) ∈ entries (tree s) path → fmatch path (filter_path (pub_TopicName w)) = true →
  subs_heap s !! x = Some sub → live s (sub_client sub) → sub_client sub ≠ a →
  Sent (sub_client sub) (PPublish w) ∈ sent_since s (Close cfg a s).
Proof.
  intros Hinv Hc Hst Hw Ht Hq Hx Hm Hsub Hl Hne.
  unfold Close, close_fuel. rewrite Close_loop_S, Hc, decide_False, Hw by done.
  set (s1 := close_subs cfg a c s).
  assert (Hsp : spares (sub_client sub) s s1) by (apply spares_close_subs; congruence).
  destruct (evolves_close_subs (K := closed_stays) cfg a c s) as (Hs1 & _ & Hwf & _).
  eapply (sent_since_mono s s1 _ _); [apply Hsp| | |reflexivity].
  - apply (PublishMessage_sends _ cfg w s1 x q path sub); [apply Hwf, Hinv|done|done| |done| |].
    + by eapply close_subs_keeps.
    + unfold s1. by rewrite Hs1.
    + by apply Hsp.
  - apply (spares_PublishMessage_with (sub_client sub)). intros.
    apply spares_WriterPacket_with. intros. by apply spares_Close_loop.
Qed.

Definition is_sent (e : effect) : Prop := match e with Sent _ _ => True | _ => False end.

(** From [s] to [s'] no packet is written. *)
Definition silent (s s' : state) : Prop := ∃ new, out s' = out s ++ new ∧ Forall (λ e, ¬ is_sent e) new.

#[global] Instance silent_preorder : PreOrder silent.
Proof.
  split; [intros s; by exists []; rewrite app_nil_r|].
  intros s1 s2 s3 (l1 & H1 & F1) (l2 & H2 & F2). exists (l1 ++ l2).
  rewrite H2, H1, app_assoc. by rewrite Forall_app.
Qed.

Lemma silent_sent s s' b p : silent s s' → Sent b p ∉ sent_since s s'.
Proof.
  intros (new & Ho & Hf). unfold sent_since. rewrite Ho, drop_app_length.
  rewrite Forall_forall in Hf. intros Hin. by apply (Hf _ Hin).
Qed.

Lemma silent_emit e s : ¬ is_sent e → silent s (emit e s).
Proof. intros He. exists [e]. split; [done|by constructor]. Qed.

Lemma silent_same s s' : out s' = out s → silent s s'.
Proof. intros Ho. exists []. by rewrite Ho, app_nil_r. Qed.

Lemma silent_notify cfg n id s : silent s (notify cfg n id s).
Proof. unfold notify. case_match; [apply silent_emit; by intros []|done]. Qed.

Lemma silent_close_subscription cfg id s e : silent s (close_subscription cfg id s e).
Proof.
  destruct e as [topic x]. unfold close_subscription.
  assert (Hu : silent s (unsubscribe_sub x s)) by (apply silent_same; unfold unsubscribe_sub; by case_match).
  etransitivity; [exact Hu|].
  etransitivity; [apply (silent_emit (StoreDelSubscription topic id)); by intros []|].
  etransitivity; [apply (silent_notify cfg (OnUnSubscribe topic) id)|].
  case_decide; [apply silent_notify|done].
Qed.

Lemma silent_foldl {A} (f : state → A → state) l : ∀ s,
  (∀ s x, silent s (f s x)) → silent s (foldl f s l).
Proof.
  induction l as [|x l IH]; intros s Hf; [done|]. cbn. etransitivity; [apply Hf|by apply IH].
Qed.

Lemma silent_close_subs cfg a c s : silent s (close_subs cfg a c s).
Proof.
  unfold close_subs. etransitivity; [|apply silent_notify].
  etransitivity; [|apply silent_foldl; intros; apply silent_close_subscription].
  unfold close_start, RemoveClient.
  etransitivity; [|apply silent_emit; by intros []]. destruct (conn c); case_match;
    try (by apply silent_same); exists [ConnClosed a]; (split; [done|]); apply Forall_singleton; by intros [].
Qed.

(** A client that says DISCONNECT leaves no will.  The read loop clears the will,
    so that the task that follows closes the client without writing anything to
    any client: what it adds to the outside is the end of the connection, the
    deletions from the store and notifications. *)
Theorem disconnect_without_will cfg Intn now a fh s s' b p :
  ProcessMessage cfg Intn now a (PDisconnect fh) false (read_disconnect a s) = Some s' →
  Sent b p ∉ sent_since s s'.
Proof.
  unfold ProcessMessage. destruct (heap (read_disconnect a s) !! a) as [c|] eqn:Hc; [|done].
  cbn [mbind option_bind]. intros [= <-]. apply silent_sent.
  transitivity (read_disconnect a s); [by exists []; rewrite app_nil_r|].
  unfold Close, close_fuel. rewrite Close_loop_S, Hc. case_decide; [done|].
  assert (willMsg c = None) as ->.
  { revert Hc. unfold read_disconnect, on_client. cbn. rewrite !lookup_alter_eq.
    destruct (heap s !! a); [|done]. by intros [= <-]. }
  apply silent_close_subs.
Qed.

(** ** Witnesses: the sample run goes on *)

(** The second client publishes, the first one is subscribed to "a/+". *)
Definition sample_message (topic : string) (q : Z) : PublishPacket :=
  mkPublish (mkFixedHeader Publish false q false 0) topic 7 [z2b 104].

Definition sample_subscription : subscription := mkSubscription 1 "a/+" 1 false "".

Lemma sample_live a : a = 1%positive ∨ a = 2%positive → live_client (sample_client a sample_state).
Proof. intros [->| ->]; by vm_compute. Defined.

Lemma route_targets_witness :
  ∃ picks : list (string * positive), NoDup (map fst picks) ∧ "g"%string ∈ map fst picks
    ∧ route sample_cfg (λ _ _, O) 5 (sample_message "w" 0) sample_state
        = foldl (publish_addr sample_cfg 5 (sample_message "w" 0)) sample_state (map snd picks).
Proof.
  destruct (route_targets sample_cfg (λ _ _, O) 5 (sample_message "w" 0) sample_state [(2%positive, 0)])
    as (picks & Hr & Hnd & Hg & _); [intros; lia|by vm_compute|].
  exists picks. split; [exact Hnd|]. split.
  - apply Hg. exists 2%positive. split; [by left|by vm_compute].
  - rewrite Hr. assert (plain_of (subs_heap sample_state) (map fst [(2%positive, 0)]) = []) as -> by (by vm_compute).
    reflexivity.
Defined.

Lemma publish_delivers_witness :
  out (publish sample_cfg 5 sample_subscription (sample_message "a/b" 1) sample_state)
    = out sample_state ++ [Sent 1 (PPublish (sample_message "a/b" 1))].
Proof.
  destruct (publish_delivers sample_cfg 5 sample_subscription (sample_message "a/b" 1) sample_state
    (sample_client 1 sample_state)) as [Ho _]; [by vm_compute|apply sample_live; auto|by vm_compute|exact Ho].
Defined.

Lemma publish_reaches_subscriber_witness :
  ∃ s', ProcessMessage sample_cfg (λ _ _, O) 5 2 (PPublish (sample_message "a/b" 1)) false sample_state = Some s'
    ∧ Sent 1 (PPublish (sample_message "a/b" 1)) ∈ sent_since sample_state s'.
Proof.
  apply (publish_reaches_subscriber sample_cfg (λ _ _, O) 5 2%positive (sample_client 2 sample_state)
    (sample_message "a/b" 1) sample_state "a/+" 1%positive 1 sample_subscription);
    try (by vm_compute).
  - exact sample_inv.
  - assert (entries (tree sample_state) (filter_path "a/+") = [(1%positive, 1)]) as -> by (by vm_compute).
    by left.
  - exists (sample_client 1 sample_state). split; [by vm_compute|apply sample_live; auto].
Defined.

(** The message of the last witness, with its subscriber not answering for a while. *)
Definition sample_waiting : state :=
  publish sample_cfg 5 sample_subscription (sample_message "a/b" 1) sample_state.

Lemma retryDelivery_resends_witness :
  out (retryDelivery sample_cfg 30 1 sample_waiting)
    = out sample_waiting ++ [Sent 1 (PPublish (sample_message "a/b" 1))].
Proof.
  destruct (retryDelivery_resends sample_cfg 30 1%positive sample_waiting (sample_client 1 sample_waiting))
    as [Ho _]; [by vm_compute|by vm_compute|by vm_compute|].
  assert (resent_all 30 1 (map_to_list (inflight (sample_client 1 sample_waiting)))
    = [Sent 1 (PPublish (sample_message "a/b" 1))]) as Hr by (by vm_compute).
  rewrite Hr in Ho. exact Ho.
Defined.

Lemma will_reaches_subscriber_witness :
  Sent 1 (PPublish (mkPublish (header_of_type Publish 0) "w" 0 []))
    ∈ sent_since sample_state (Close sample_cfg 2 sample_state).
Proof.
  apply (will_reaches_subscriber sample_cfg 2%positive (sample_client 2 sample_state)
    (mkPublish (header_of_type Publish 0) "w" 0 []) sample_state 2%positive 0 ["w"]%string
    (mkSubscription 1 "w" 0 true "g")); try (by vm_compute).
  - exact sample_inv.
  - assert (entries (tree sample_state) ["w"]%string = [(2%positive, 0)]) as -> by (by vm_compute).
    by left.
  - exists (sample_client 1 sample_state). split; [by vm_compute|apply sample_live; auto].
Defined.

Lemma disconnect_without_will_witness :
  Sent 1 (PPublish (mkPublish (header_of_type Publish 0) "w" 0 []))
    ∉ sent_since sample_state (Close sample_cfg 2 (read_disconnect 2 sample_state)).
Proof.
  apply (disconnect_without_will sample_cfg (λ _ _, O) 5 2%positive (header_of_type Disconnect 0)).
  by vm_compute.
Defined.
