(* ===== verification/BrokerFindings.v ===== *)
(** * BrokerFindings: where the handlers do something else

    Theorems about behaviour of the handlers that the protocol, or the rest of the
    code, does not expect: messages forwarded between nodes, unsubscriptions
    on other nodes, and packets with malformed strings. *)
From S2P Require Import Prelude Wire Packets Topics TopicLevels TopicsSpec Acl Sessions Broker BrokerInv BrokerDelivery.
Local Open Scope Z_scope.

(** ** Forwarded messages *)

Lemma publishFoward_sends cfg now a p s :
  live s a → Qos (pub_FixedHeader p) = 1 →
  out (publishFoward cfg now a p s) = out s ++ [Sent a (PPublish p)].
Proof.
  intros Hl Hq. unfold publishFoward. rewrite Hq.
  rewrite (decide_False (P := 1 = 0)), decide_True by (done || auto).
  rewrite WriterPacket_live by (by apply live_set_inflight).
  unfold ensureRetryTimer. repeat case_match; done.
Qed.

(** A subscriber is sent acknowledgements for what it receives.  A message with
    QoS 1 that another node forwards for a connected client goes through
    [ProcessPublish] as if that client had published it: it must be allowed to
    publish to the topic, and it is sent a PUBACK before the message. *)
Theorem forwarded_acked_to_subscriber cfg Intn now cid a c p s :
  clients s !! cid = Some a → heap s !! a = Some c → live_client c →
  validatePacketFields (PPublish p) = true → bridge_enable cfg = false →
  Qos (pub_FixedHeader p) = 1 →
  ∃ s', Receive_one cfg Intn now cid p s = Some s' ∧
    out s' = out s ++ (if acl_allows cfg "pub" c (pub_TopicName p)
                       then [Sent a (PPuback (newAck Puback (pub_MessageID p))); Sent a (PPublish p)]
                       else []).
Proof.
  intros Hcl Hc Hl Hv Hbr Hq. assert (Hl' := Hl). destruct Hl' as (Htyp & _).
  unfold Receive_one. rewrite Hcl, Hc. cbn [mbind option_bind]. rewrite decide_False by auto.
  unfold ProcessMessage. rewrite Hc, Hv. cbn [mbind option_bind negb]. eexists. split; [done|].
  unfold ProcessPublish. rewrite Hc, Hq. destruct (acl_allows _ _ _ _); cbn [negb]; [|by rewrite app_nil_r].
  rewrite (decide_False (P := 1 = 0)), decide_True by done.
  rewrite WriterPacket_live by (by exists c).
  unfold ProcessPublishMessage. cbn [emit heap]. rewrite Hc, Hbr. cbn [andb].
  set (s2 := if Retain _ then _ else _).
  assert (H2 : heap s2 = heap s ∧ out s2 = out s ++ [Sent a (PPuback (newAck Puback (pub_MessageID p)))])
    by (unfold s2; by destruct (Retain _)).
  destruct H2 as [Hh Ho]. rewrite publishFoward_sends by (done || (unfold live; rewrite Hh; by exists c)).
  by rewrite Ho, <-app_assoc.
Qed.

(** ** Unsubscriptions on other nodes *)

Lemma split_on_two sep a b :
  contains_byte sep a = false → contains_byte sep b = false →
  split_on sep (a ++ String sep b) = [a; b].
Proof.
  intros Ha Hb.
  assert (Hs : ∀ s, contains_byte sep s = false → split_on sep s = [s]).
  { induction s as [|x s IH]; cbn; [done|]. intros [Hx Hs]%orb_false_iff.
    rewrite IH by done. case_decide; [|done]. subst. by rewrite bool_decide_eq_true_2 in Hx. }
  induction a as [|x a IH].
  - change ("" +:+ String sep b) with (String sep b). cbn [split_on].
    rewrite decide_True by done. by rewrite Hs.
  - change (String x a +:+ String sep b) with (String x (a +:+ String sep b)). cbn [split_on].
    cbn in Ha. apply orb_false_iff in Ha as [Hx Ha]. rewrite IH by done.
    case_decide; [|done]. subst. by rewrite bool_decide_eq_true_2 in Hx.
Qed.

(** The end of a subscription on another node is not seen.  The deletion's key is
    the hex digest of the filter and the client id, and the digest is taken for the
    filter: unless the client has a subscription under the digest itself, nothing
    happens and the subscription stays in the tree. *)
Theorem remote_unsubscribe_ignored (md5_hex : string → string) topic cid obj s :
  contains_byte ":"%char (md5_hex topic) = false → contains_byte ":"%char cid = false →
  (∀ a c, clients s !! cid = Some a → heap s !! a = Some c → subMap c !! md5_hex topic = None) →
  (∀ a, clients s !! cid = Some a → is_Some (heap s !! a)) →
  doSubscriptionEvent true (md5_hex topic ++ String ":"%char cid) obj s = Some s.
Proof.
  intros Ht Hcid Hno Hheap. unfold doSubscriptionEvent. rewrite split_on_two by done.
  unfold RemoveSubscription. cbn [msub_ClientID msub_Topic].
  destruct (clients s !! cid) as [a|] eqn:Ha; [|done].
  destruct (Hheap a eq_refl) as [c Hc]. rewrite Hc. cbn [mbind option_bind]. by rewrite (Hno a c).
Qed.

(** ** Malformed strings *)

(** A packet with a malformed string leaks the client's subscriptions.
    [ProcessMessage] marks the client disconnected itself; the connection is gone,
    but the [Close] that follows finds the client disconnected and does nothing, so
    that its subscriptions stay in the tree and the client in the table, its will
    is not published and no notification is sent. *)
Theorem malformed_packet_leaks cfg Intn now a c p fwd s :
  heap s !! a = Some c → conn c = true → validatePacketFields p = false →
  ∃ s', ProcessMessage cfg Intn now a p fwd s = Some s'
    ∧ out s' = out s ++ [ConnClosed a]
    ∧ Close cfg a s' = s'
    ∧ topicsMgr s' = topicsMgr s ∧ clients s' = clients s
    ∧ ∃ c', heap s' !! a = Some c' ∧ status c' = Disconnected ∧ subMap c' = subMap c
        ∧ willMsg c' = willMsg c.
Proof.
  intros Hc Hconn Hv. unfold ProcessMessage. rewrite Hc, Hv. cbn [mbind option_bind negb].
  rewrite Hconn. cbn [negb]. eexists. split; [done|]. split; [done|].
  assert (Hh : heap (on_client (with_status Disconnected) a (emit (ConnClosed a) s)) !! a
    = Some (with_status Disconnected c)) by (unfold on_client; cbn; by rewrite lookup_alter_eq, Hc).
  split; [unfold Close, close_fuel; rewrite Close_loop_S, Hh; by rewrite decide_True|].
  split; [done|]. split; [done|]. exists (with_status Disconnected c). by split.
Qed.

(** ** Witnesses *)

Lemma forwarded_acked_to_subscriber_witness :
  ∃ s', Receive_one sample_cfg (λ _ _, O) 5 "c1" (sample_message "a/b" 1) sample_state = Some s' ∧
    out s' = out sample_state ++ [Sent 1 (PPuback (newAck Puback 7)); Sent 1 (PPublish (sample_message "a/b" 1))].
Proof.
  apply (forwarded_acked_to_subscriber sample_cfg (λ _ _, O) 5 "c1" 1%positive
    (sample_client 1 sample_state)); [by vm_compute|by vm_compute|apply sample_live; auto|by vm_compute..].
Defined.

(** A client of another node, subscribed to "a"; the digest is that of "a". *)
Definition sample_digest (topic : string) : string := "0cc175b9c0f1b6a831c399e269772661".

Definition sample_remote : state :=
  AddORUpdateSubscription (mkSub "" "r" "n2" "a" 0)
    (AddORUpdateClient (mkInfo "r" "n2" "" "" 0 0) (initial (mkProvider ∅ ∅))).

Lemma remote_unsubscribe_ignored_witness :
  doSubscriptionEvent true "0cc175b9c0f1b6a831c399e269772661:r" (mkSub "" "" "" "" 0) sample_remote
    = Some sample_remote
  ∧ entries (tree sample_remote) ["a"]%string = [(1%positive, 0)].
Proof.
  split; [|by vm_compute].
  apply (remote_unsubscribe_ignored sample_digest "a" "r"); [by vm_compute|by vm_compute| |].
  - assert (clients sample_remote !! "r"%string = Some 1%positive) as -> by (by vm_compute).
    assert (heap sample_remote !! 1%positive = Some (sample_client 1 sample_remote)) as Hh by (by vm_compute).
    intros a c [= <-]. rewrite Hh. intros [= <-]. by vm_compute.
  - assert (clients sample_remote !! "r"%string = Some 1%positive) as -> by (by vm_compute).
    intros a [= <-]. exists (sample_client 1 sample_remote). by vm_compute.
Defined.

(** A topic name with a zero byte. *)
Definition sample_bad_topic : string := String (z2b 97) (String (z2b 0) EmptyString).

Lemma malformed_packet_leaks_witness :
  ∃ s', ProcessMessage sample_cfg (λ _ _, O) 5 1 (PPublish (sample_message sample_bad_topic 0)) false sample_state
      = Some s' ∧ Close sample_cfg 1 s' = s' ∧ topicsMgr s' = topicsMgr sample_state.
Proof.
  destruct (malformed_packet_leaks sample_cfg (λ _ _, O) 5 1%positive (sample_client 1 sample_state)
    (PPublish (sample_message sample_bad_topic 0)) false sample_state)
    as (s' & Hs & _ & Hclose & Ht & _); [by vm_compute|by vm_compute|by vm_compute|].
  exists s'. split; [exact Hs|]. split; [exact Hclose|exact Ht].
Defined.

(** ** The data of a client *)

(** A CONNECT whose trailing field is the JSON "null", which [json.Unmarshal] turns into a nil
    pointer, makes the broker panic after it has accepted the connection. *)
Definition null_connect : list byte :=
  (ConnectPacket_Write (mkConnect (header_of_type Connect 0) "MQTT" 4 true false 0 false false false
     0 60 "c9" "" [] "" [] (Some (bytes_of "null")))).1.
#[local] Existing Instance no_bcrypt.
Theorem null_info_panics s :
  handleConnection sample_cfg "g" (λ o i, if decide (o = bytes_of "null") then None else Some i) ∅ "10.0.0.1" true
    null_connect s = None.
Proof. reflexivity. Qed.
