(* ===== verification/Pool.v ===== *)
(** * Pool: the worker pool

    Models [src/pool/fixpool.go], on which the broker runs the tasks of its clients,
    and [SubmitWork] of [src/broker/broker.go].  A pool is a list of bounded queues,
    one for each worker; a task goes to the queue its key hashes to, and a worker
    runs its tasks one after the other.  The system is a step relation: submissions,
    and workers that take and finish tasks, interleave freely.  The theorems are what
    the broker relies on: the tasks of one client run in the order they were
    submitted, never two at a time, and all of them finish. *)
From S2P Require Import Prelude.
Local Open Scope Z_scope.

Section Pool.
(** [fnv1a.HashString64], a 64-bit number. *)
Context (HashString64 : string → Z).
Context {task : Type}.

(** [running] is what each worker is executing. *)
Record WorkerPool := mkPool {
  maxWorkers : Z;
  taskQueue : list (list task);
  running : list (option task)
}.

Definition queue_cap : nat := 1024.

(** [New] with [dispatch]: an empty queue and an idle worker for each index. *)
Definition New (n : Z) : WorkerPool :=
  let n := if decide (n < 1) then 1 else n in
  mkPool n (replicate (Z.to_nat n) []) (replicate (Z.to_nat n) None).

Definition worker_of (p : WorkerPool) (uid : string) : nat :=
  Z.to_nat (HashString64 uid mod maxWorkers p).

(** What [Submit] does: it returns, waits for room in the queue, or panics. *)
Inductive submit_result :=
  | Submitted (p : WorkerPool)
  | Blocks
  | Panics.

Definition Submit (uid : string) (t : option task) (p : WorkerPool) : submit_result :=
  match t with
  | None => Submitted p
  | Some t =>
      match taskQueue p !! worker_of p uid with
      | None => Panics
      | Some q =>
          if decide (length q < queue_cap)%nat
          then Submitted (mkPool (maxWorkers p) (<[worker_of p uid := q ++ [t]]> (taskQueue p)) (running p))
          else Blocks
      end
  end.

(** [Broker.SubmitWork]: the pool is made on first use, and the task is the message. *)
Definition SubmitWork (workers : Z) (clientId : string) (msg : task) (wpool : option WorkerPool)
    : submit_result :=
  Submit clientId (Some msg) (default (New workers) wpool).

(** A turn of the loop of [startWorker]: receiving a task, and returning from it. *)
Definition take_task (i : nat) (p : WorkerPool) : option (WorkerPool * task) :=
  match running p !! i, taskQueue p !! i with
  | Some None, Some (t :: q) =>
      Some (mkPool (maxWorkers p) (<[i := q]> (taskQueue p)) (<[i := Some t]> (running p)), t)
  | _, _ => None
  end.

Definition finish_task (i : nat) (p : WorkerPool) : option (WorkerPool * task) :=
  match running p !! i with
  | Some (Some t) => Some (mkPool (maxWorkers p) (taskQueue p) (<[i := None]> (running p)), t)
  | _ => None
  end.

(** ** The system *)

(** The key a task is submitted with: [SubmitWork] uses the id of the task's
    client. *)
Context (owner : task → string).

(** The pool with the tasks submitted, started and finished so far, in order. *)
Record system := mkSystem {
  pool : WorkerPool;
  submitted : list task;
  started : list task;
  finished : list task
}.

Inductive worker_step : system → system → Prop :=
  | step_take i p p' t sub sta fin :
      take_task i p = Some (p', t) →
      worker_step (mkSystem p sub sta fin) (mkSystem p' sub (sta ++ [t]) fin)
  | step_finish i p p' t sub sta fin :
      finish_task i p = Some (p', t) →
      worker_step (mkSystem p sub sta fin) (mkSystem p' sub sta (fin ++ [t])).

Inductive pool_step : system → system → Prop :=
  | step_submit t p p' sub sta fin :
      Submit (owner t) (Some t) p = Submitted p' →
      pool_step (mkSystem p sub sta fin) (mkSystem p' (sub ++ [t]) sta fin)
  | step_worker s s' : worker_step s s' → pool_step s s'.

Inductive pool_reachable (n : Z) : system → Prop :=
  | pool_init : pool_reachable n (mkSystem (New n) [] [] [])
  | pool_more s s' : pool_reachable n s → pool_step s s' → pool_reachable n s'.

(** ** The invariant *)

Definition of_uid (uid : string) (l : list task) : list task := filter (λ t, owner t = uid) l.

(** What the worker [i] is executing, as a list. *)
Definition busy (p : WorkerPool) (i : nat) : list task :=
  match running p !! i with Some (Some t) => [t] | _ => [] end.
Definition queued (p : WorkerPool) (i : nat) : list task := default [] (taskQueue p !! i).

#[local] Arguments of_uid : simpl never.
#[local] Arguments busy : simpl never.
#[local] Arguments queued : simpl never.

Definition pool_inv (s : system) : Prop :=
  let p := pool s in
  1 ≤ maxWorkers p
  ∧ length (taskQueue p) = Z.to_nat (maxWorkers p) ∧ length (running p) = Z.to_nat (maxWorkers p)
  ∧ (∀ i t, t ∈ busy p i ++ queued p i → worker_of p (owner t) = i)
  ∧ (∀ i, (length (queued p i) ≤ queue_cap)%nat)
  ∧ (∀ uid, of_uid uid (submitted s) = of_uid uid (started s) ++ of_uid uid (queued p (worker_of p uid)))
  ∧ (∀ uid, of_uid uid (started s) = of_uid uid (finished s) ++ of_uid uid (busy p (worker_of p uid))).

Lemma of_uid_app uid l1 l2 : of_uid uid (l1 ++ l2) = of_uid uid l1 ++ of_uid uid l2.
Proof. apply filter_app. Qed.

Lemma of_uid_one uid t : of_uid uid [t] = if decide (owner t = uid) then [t] else [].
Proof. unfold of_uid. by rewrite filter_cons, filter_nil. Qed.

Lemma worker_of_lt p uid :
  1 ≤ maxWorkers p → length (taskQueue p) = Z.to_nat (maxWorkers p) →
  (worker_of p uid < length (taskQueue p))%nat.
Proof.
  intros H1 H2. unfold worker_of. pose proof (Z.mod_pos_bound (HashString64 uid) (maxWorkers p)). lia.
Qed.

Lemma queued_insert p i q p' :
  taskQueue p' = <[i := q]> (taskQueue p) → (i < length (taskQueue p))%nat →
  ∀ j, queued p' j = if decide (j = i) then q else queued p j.
Proof.
  intros Hq Hi j. unfold queued. rewrite Hq. case_decide; subst.
  - by rewrite list_lookup_insert_eq.
  - by rewrite list_lookup_insert_ne.
Qed.

Lemma busy_insert p i r p' :
  running p' = <[i := r]> (running p) → (i < length (running p))%nat →
  ∀ j, busy p' j = if decide (j = i) then match r with Some t => [t] | None => [] end else busy p j.
Proof.
  intros Hr Hi j. unfold busy. rewrite Hr. case_decide; subst.
  - by rewrite list_lookup_insert_eq.
  - by rewrite list_lookup_insert_ne.
Qed.

Lemma pool_inv_init n : pool_inv (mkSystem (New n) [] [] []).
Proof.
  unfold pool_inv, New. cbn. set (m := if decide (n < 1) then 1 else n).
  assert (Hm : 1 ≤ m) by (unfold m; case_decide; lia).
  assert (Hq : ∀ i, queued (mkPool m (replicate (Z.to_nat m) []) (replicate (Z.to_nat m) None)) i = []).
  { intros i. unfold queued. cbn. destruct (replicate _ _ !! i) eqn:H; [|done].
    by apply lookup_replicate in H as [-> _]. }
  assert (Hb : ∀ i, busy (mkPool m (replicate (Z.to_nat m) []) (replicate (Z.to_nat m) None)) i = []).
  { intros i. unfold busy. cbn. destruct (replicate _ _ !! i) eqn:H; [|done].
    by apply lookup_replicate in H as [-> _]. }
  rewrite !length_replicate. do 3 (split; [done|]).
  split; [intros i t; rewrite Hq, Hb; set_solver|].
  split; [intros i; rewrite Hq; cbn; lia|].
  split; intros uid; rewrite ?Hq, ?Hb; done.
Qed.

(** A submission reaches the end of its queue. *)
Lemma pool_inv_submit t p p' sub sta fin :
  pool_inv (mkSystem p sub sta fin) → Submit (owner t) (Some t) p = Submitted p' →
  pool_inv (mkSystem p' (sub ++ [t]) sta fin).
Proof.
  intros (Hm & Hlq & Hlr & Hown & Hcap & Hsub & Hsta). cbn in *.
  pose proof (worker_of_lt p (owner t) Hm Hlq) as Hlt.
  destruct (taskQueue p !! worker_of p (owner t)) as [q|] eqn:Hq; [|done].
  case_decide as Hc; [|done]. intros [= <-].
  assert (Hqd : queued p (worker_of p (owner t)) = q) by (unfold queued; by rewrite Hq).
  set (p' := mkPool _ _ _).
  assert (Hins : ∀ j, queued p' j = if decide (j = worker_of p (owner t)) then q ++ [t] else queued p j)
    by (by apply queued_insert).
  assert (Hw : ∀ uid, worker_of p' uid = worker_of p uid) by done.
  assert (Hb : ∀ j, busy p' j = busy p j) by done.
  split; [done|]. split; [cbn; by rewrite length_insert|]. split; [done|]. cbn.
  split; [|split; [|split; [|done]]].
  - intros i t'. rewrite Hb, Hins, Hw. case_decide; [subst i|apply Hown].
    rewrite app_assoc, elem_of_app, list_elem_of_singleton. intros [Ht| ->]; [|done].
    apply Hown. by rewrite Hqd.
  - intros i. rewrite Hins. case_decide; [|apply Hcap]. rewrite length_app. cbn. unfold queue_cap in *. lia.
  - intros uid. rewrite of_uid_app, Hsub, Hw, Hins, of_uid_one, <-app_assoc. f_equal.
    destruct (decide (worker_of p uid = worker_of p (owner t))) as [He|He].
    + by rewrite of_uid_app, of_uid_one, He, Hqd.
    + rewrite decide_False by congruence. by rewrite app_nil_r.
Qed.

(** A worker takes the head of its queue. *)
Lemma pool_inv_take i p p' t sub sta fin :
  pool_inv (mkSystem p sub sta fin) → take_task i p = Some (p', t) →
  pool_inv (mkSystem p' sub (sta ++ [t]) fin).
Proof.
  intros (Hm & Hlq & Hlr & Hown & Hcap & Hsub & Hsta) Ht. cbn in *.
  unfold take_task in Ht. destruct (running p !! i) as [[]|] eqn:Hr; try done.
  destruct (taskQueue p !! i) as [[|t' q]|] eqn:Hq; try done. injection Ht as <- <-.
  assert (Hi : (i < length (taskQueue p))%nat) by (by eapply lookup_lt_Some).
  assert (Hi' : (i < length (running p))%nat) by (by eapply lookup_lt_Some).
  assert (Hqd : queued p i = t' :: q) by (unfold queued; by rewrite Hq).
  assert (Hbd : busy p i = []) by (unfold busy; by rewrite Hr).
  set (p' := mkPool _ _ _).
  assert (Hins : ∀ j, queued p' j = if decide (j = i) then q else queued p j) by (by apply queued_insert).
  assert (Hb : ∀ j, busy p' j = if decide (j = i) then [t'] else busy p j)
    by (intros j; by rewrite (busy_insert p i (Some t') p')).
  assert (Hw : ∀ uid, worker_of p' uid = worker_of p uid) by done.
  assert (Ho : worker_of p (owner t') = i) by (apply Hown; rewrite Hbd, Hqd; by left).
  split; [done|]. split; [cbn; by rewrite length_insert|]. split; [cbn; by rewrite length_insert|]. cbn.
  split; [|split; [|split]].
  - intros j t. rewrite Hb, Hins, Hw. case_decide; [subst j|apply Hown].
    intros Hin. apply Hown. by rewrite Hbd, Hqd.
  - intros j. rewrite Hins. case_decide; [|apply Hcap]. specialize (Hcap i). rewrite Hqd in Hcap.
    cbn in Hcap. lia.
  - intros uid. rewrite Hsub, Hw, Hins, of_uid_app, of_uid_one, <-app_assoc. f_equal.
    destruct (decide (worker_of p uid = i)) as [He|He].
    + rewrite He, Hqd. unfold of_uid at 1. rewrite filter_cons. by case_decide.
    + rewrite decide_False by congruence. done.
  - intros uid. rewrite of_uid_app, Hsta, Hw, Hb, of_uid_one, <-app_assoc. f_equal.
    destruct (decide (worker_of p uid = i)) as [He|He].
    + by rewrite He, Hbd, of_uid_one.
    + rewrite decide_False by congruence. by rewrite app_nil_r.
Qed.

(** A worker finishes its task. *)
Lemma pool_inv_finish i p p' t sub sta fin :
  pool_inv (mkSystem p sub sta fin) → finish_task i p = Some (p', t) →
  pool_inv (mkSystem p' sub sta (fin ++ [t])).
Proof.
  intros (Hm & Hlq & Hlr & Hown & Hcap & Hsub & Hsta) Ht. cbn in *.
  unfold finish_task in Ht. destruct (running p !! i) as [[t'|]|] eqn:Hr; try done. injection Ht as <- <-.
  assert (Hi' : (i < length (running p))%nat) by (by eapply lookup_lt_Some).
  assert (Hbd : busy p i = [t']) by (unfold busy; by rewrite Hr).
  set (p' := mkPool _ _ _).
  assert (Hb : ∀ j, busy p' j = if decide (j = i) then [] else busy p j)
    by (intros j; by rewrite (busy_insert p i None p')).
  assert (Hins : ∀ j, queued p' j = queued p j) by done.
  assert (Hw : ∀ uid, worker_of p' uid = worker_of p uid) by done.
  assert (Ho : worker_of p (owner t') = i) by (apply Hown; rewrite Hbd; by left).
  split; [done|]. split; [done|]. split; [cbn; by rewrite length_insert|]. cbn.
  split; [|split; [|split]].
  - intros j t. rewrite Hb, Hins, Hw. case_decide; [subst j|apply Hown].
    intros Hin. apply Hown. set_solver.
  - done.
  - done.
  - intros uid. rewrite of_uid_app, Hsta, Hw, Hb, of_uid_one, <-app_assoc. f_equal.
    destruct (decide (worker_of p uid = i)) as [He|He].
    + by rewrite He, Hbd, of_uid_one, app_nil_r.
    + rewrite decide_False by congruence. done.
Qed.

Lemma pool_inv_reachable n s : pool_reachable n s → pool_inv s.
Proof.
  induction 1 as [|s s' _ IH Hstep]; [apply pool_inv_init|].
  destruct Hstep as [|? ? []]; eauto using pool_inv_submit, pool_inv_take, pool_inv_finish.
Qed.

(** C35: The tasks of a client run in order, one at a time.  In every reachable state
    of the pool, whatever the interleaving, the tasks of a client that have started
    are a prefix of those submitted, and those that have finished a prefix of
    those started; two workers never run tasks of the same client; and a
    submission never indexes outside the queues. *)
Theorem pool_order n s :
  pool_reachable n s →
  (∀ uid, of_uid uid (started s) `prefix_of` of_uid uid (submitted s)
     ∧ of_uid uid (finished s) `prefix_of` of_uid uid (started s))
  ∧ (∀ i j t t', running (pool s) !! i = Some (Some t) → running (pool s) !! j = Some (Some t') →
       owner t = owner t' → i = j)
  ∧ (∀ uid t, Submit uid t (pool s) ≠ Panics).
Proof.
  intros (Hm & Hlq & Hlr & Hown & Hcap & Hsub & Hsta)%pool_inv_reachable. split; [|split].
  - intros uid. split; [rewrite Hsub|rewrite Hsta]; by eexists.
  - intros i j t t' Hi Hj Ho.
    rewrite <-(Hown i t), <-(Hown j t'), Ho; [done|..]; unfold busy; rewrite ?Hi, ?Hj; by left.
  - intros uid [t|]; [|done]. cbn.
    destruct (lookup_lt_is_Some_2 _ _ (worker_of_lt (pool s) uid Hm Hlq)) as [q ->]. by case_decide.
Qed.

(** ** Draining *)

Definition is_busy (r : option task) : nat := match r with Some _ => 1%nat | None => 0%nat end.
Definition load (s : system) : nat :=
  (2 * sum_list_with length (taskQueue (pool s)) + sum_list_with is_busy (running (pool s)))%nat.

Lemma sum_list_with_update {A} (f : A → nat) l i x y :
  l !! i = Some x → (sum_list_with f (<[i := y]> l) + f x = sum_list_with f l + f y)%nat.
Proof.
  revert i. induction l as [|z l IH]; intros [|i] Hi; cbn in *; try done.
  - injection Hi as ->. lia.
  - rewrite <-!Nat.add_assoc. f_equal. exact (IH i Hi).
Qed.

Lemma worker_step_load s s' : worker_step s s' → (load s' < load s)%nat.
Proof.
  destruct 1 as [i p p' t sub sta fin Ht|i p p' t sub sta fin Ht].
  - unfold take_task in Ht. destruct (running p !! i) as [[]|] eqn:Hr; try done.
    destruct (taskQueue p !! i) as [[|t' q]|] eqn:Hq; try done. injection Ht as <- <-. unfold load. cbn [pool taskQueue running].
    pose proof (sum_list_with_update length _ i _ q Hq) as H1.
    pose proof (sum_list_with_update is_busy _ i _ (Some t') Hr) as H2.
    cbn [is_busy length] in *. lia.
  - unfold finish_task in Ht. destruct (running p !! i) as [[t'|]|] eqn:Hr; try done. injection Ht as <- <-.
    unfold load. cbn [pool taskQueue running].
    pose proof (sum_list_with_update is_busy _ i _ None Hr) as H2.
    cbn [is_busy length] in *. lia.
Qed.

(** While something is queued or running, some worker can move. *)
Lemma worker_progress s i t :
  pool_inv s → t ∈ busy (pool s) i ++ queued (pool s) i → ∃ s', worker_step s s'.
Proof.
  destruct s as [p sub sta fin]. intros (_ & Hlq & Hlr & _) Ht. cbn in *.
  unfold busy, queued in Ht. destruct (running p !! i) as [[r|]|] eqn:Hr.
  - eexists. eapply (step_finish i). unfold finish_task. by rewrite Hr.
  - destruct (taskQueue p !! i) as [[|t' q]|] eqn:Hq; [set_solver| |set_solver].
    eexists. eapply (step_take i). unfold take_task. by rewrite Hr, Hq.
  - apply lookup_ge_None_1 in Hr. rewrite (lookup_ge_None_2 (taskQueue p) i) in Ht by lia. set_solver.
Qed.

Lemma worker_step_inv s s' : pool_inv s → worker_step s s' → pool_inv s' ∧ submitted s' = submitted s.
Proof.
  intros Hinv Hstep. split; [|by destruct Hstep].
  destruct Hstep; [by eapply pool_inv_take|by eapply pool_inv_finish].
Qed.

Lemma idle_or_not s :
  pool_inv s → (∀ i, busy (pool s) i ++ queued (pool s) i = []) ∨ ∃ i t, t ∈ busy (pool s) i ++ queued (pool s) i.
Proof.
  intros (_ & Hlq & Hlr & _).
  assert (Hn : ∀ n, (∀ i, (i < n)%nat → busy (pool s) i ++ queued (pool s) i = [])
    ∨ ∃ i t, t ∈ busy (pool s) i ++ queued (pool s) i).
  { induction n as [|n [IH|IH]]; [left; lia| |by right].
    destruct (busy (pool s) n ++ queued (pool s) n) as [|t l] eqn:Hl.
    - left. intros i Hi. destruct (decide (i = n)) as [->|]; [done|]. apply IH. lia.
    - right. exists n, t. rewrite Hl. by left. }
  destruct (Hn (length (taskQueue (pool s)))) as [H|H]; [left|by right].
  intros i. destruct (decide (i < length (taskQueue (pool s)))%nat); [by apply H|].
  unfold busy, queued. by rewrite !lookup_ge_None_2 by lia.
Qed.

Lemma idle_done s :
  pool_inv s → (∀ i, busy (pool s) i ++ queued (pool s) i = []) →
  ∀ uid, of_uid uid (finished s) = of_uid uid (submitted s).
Proof.
  intros (_ & _ & _ & _ & _ & Hsub & Hsta) Hi uid. rewrite Hsub, Hsta.
  destruct (app_eq_nil _ _ (Hi (worker_of (pool s) uid))) as [-> ->]. by rewrite !app_nil_r.
Qed.

(** C36: Every submitted task finishes.  From every reachable state the workers alone
    can finish everything that was submitted, in the order of submission for each
    client; and whatever they do brings them closer to it: each step of a worker
    lowers the load, so no scheduling of the workers goes on for ever. *)
Theorem pool_drains n s :
  pool_reachable n s →
  (∃ s', rtc worker_step s s' ∧ submitted s' = submitted s
     ∧ ∀ uid, of_uid uid (finished s') = of_uid uid (submitted s))
  ∧ (∀ s1 s2, worker_step s1 s2 → (load s2 < load s1)%nat).
Proof.
  intros Hinv%pool_inv_reachable. split; [|apply worker_step_load].
  revert s Hinv. induction s as [s IH] using (induction_ltof1 _ load). intros Hinv.
  destruct (idle_or_not s Hinv) as [Hidle|(i & t & Ht)].
  - exists s. split; [done|]. split; [done|]. by apply idle_done.
  - destruct (worker_progress s i t Hinv Ht) as [s1 Hstep].
    destruct (worker_step_inv s s1 Hinv Hstep) as [Hinv1 Hs1].
    destruct (IH s1) as (s' & Hr & Hs' & Hf); [by apply worker_step_load|done|].
    exists s'. rewrite Hs', <-Hs1. split; [by eapply rtc_l|done].
Qed.
End Pool.

(** ** Witnesses *)

(** Two workers; the tasks of "a" go to the second one. *)
Definition sample_hash (uid : string) : Z := Z.of_nat (String.length uid).

Definition sample_task : Type := string * Z.

Definition sample_system : system (task := sample_task) :=
  mkSystem (mkPool 2 [[]; [("a"%string, 2)]] [None; Some ("a"%string, 1)])
    [("a"%string, 1); ("a"%string, 2)] [("a"%string, 1)] [].

Lemma sample_pool_reachable : pool_reachable sample_hash fst 2 sample_system.
Proof.
  eapply pool_more; [eapply pool_more; [eapply pool_more; [apply pool_init|]|]|].
  - apply (step_submit sample_hash fst ("a"%string, 1)). by vm_compute.
  - apply (step_submit sample_hash fst ("a"%string, 2)). by vm_compute.
  - apply step_worker. by apply (step_take 1 _ _ ("a"%string, 1) _ [] []).
Defined.

Lemma pool_order_witness :
  of_uid fst "a" (submitted sample_system) = [("a"%string, 1); ("a"%string, 2)] ∧
  ∀ i j t t', running (pool sample_system) !! i = Some (Some t) →
    running (pool sample_system) !! j = Some (Some t') → t.1 = t'.1 → i = j.
Proof.
  split; [reflexivity|].
  destruct (pool_order sample_hash fst 2 sample_system sample_pool_reachable) as (_ & H & _). exact H.
Defined.

Lemma pool_drains_witness :
  ∃ s', rtc worker_step sample_system s'
    ∧ of_uid fst "a" (finished s') = [("a"%string, 1); ("a"%string, 2)].
Proof.
  destruct (pool_drains sample_hash fst 2 sample_system sample_pool_reachable) as [(s' & Hr & _ & Hf) _].
  exists s'. split; [exact Hr|]. rewrite Hf. reflexivity.
Defined.
