(* ===== verification/Notify.v ===== *)
(** * Notify: telling others what happens

    Models [src/notify/notify.go], [http.go] and [grcp.go]: the interface through which the
    broker reports what its clients do, and its two implementations.  JSON, the HTTP client and
    the generated gRPC client are parameters; what is sent is recorded.  The theorem is
    the contract of the interface, for both implementations; the difference between them
    is what they do with data that has no JSON. *)
From S2P Require Import Prelude.
Local Open Scope Z_scope.

(** The six methods of the interface. *)
Inductive method := OnClientConnect | OnClientDisconnected | OnSubscribe | OnUnSubscribe | OnAgentConnect | OnAgentDisconnected.

Definition method_name (m : method) : string :=
  match m with
  | OnClientConnect => "OnClientConnect" | OnClientDisconnected => "OnClientDisconnected"
  | OnSubscribe => "OnSubscribe" | OnUnSubscribe => "OnUnSubscribe"
  | OnAgentConnect => "OnAgentConnect" | OnAgentDisconnected => "OnAgentDisconnected"
  end.

#[global] Instance method_eq_dec : EqDecision method.
Proof. solve_decision. Defined.

Section Notify.
Context {data : Type} (Marshal : data → option (list byte)).

(** What leaves the process: a POST, or a call of the gRPC service. *)
Inductive sent := Post (url content_type : string) (body : list byte) | Call (m : method) (type_url : string) (value : list byte).

(** The interface: a method sends something and says whether it was taken. *)
Record Notification := mkNotification { notify : method → data → list sent * bool }.

(** *** HTTP *)

(** The answer to a request: the status code, or an error. *)
Context (http_Post : string → list byte → option Z).
Definition StatusOK : Z := 200.
Record notificationHTTP := mkNotificationHTTP { server : string }.

(** The six methods are one, up to the name in the URL. *)
Definition notificationHTTP_on (h : notificationHTTP) (name : string) (d : data) : list sent * bool :=
  let url := String.append (server h) (String.append "/" name) in
  match Marshal d with
  | None => ([], false)
  | Some obj =>
      ([Post url "application/json" obj],
       match http_Post url obj with
       | None => false
       | Some StatusCode => bool_decide (StatusCode = StatusOK)
       end)
  end.

Definition notificationHTTP_OnClientConnect h := notificationHTTP_on h "OnClientConnect".
Definition notificationHTTP_OnClientDisconnected h := notificationHTTP_on h "OnClientDisconnected".
Definition notificationHTTP_OnSubscribe h := notificationHTTP_on h "OnSubscribe".
Definition notificationHTTP_OnUnSubscribe h := notificationHTTP_on h "OnUnSubscribe".
Definition notificationHTTP_OnAgentConnect h := notificationHTTP_on h "OnAgentConnect".
Definition notificationHTTP_OnAgentDisconnected h := notificationHTTP_on h "OnAgentDisconnected".

Definition http_notification (h : notificationHTTP) : Notification := mkNotification (λ m,
  match m with
  | OnClientConnect => notificationHTTP_OnClientConnect h | OnClientDisconnected => notificationHTTP_OnClientDisconnected h
  | OnSubscribe => notificationHTTP_OnSubscribe h | OnUnSubscribe => notificationHTTP_OnUnSubscribe h
  | OnAgentConnect => notificationHTTP_OnAgentConnect h | OnAgentDisconnected => notificationHTTP_OnAgentDisconnected h
  end).

(** *** gRPC *)

(** The status in the answer of the service, or an error. *)
Context (grpc_call : method → list byte → option bool).

(** The failure of [Marshal] is only logged: the value is then nil. *)
Definition notificationGrpc_on (m : method) (d : data) : list sent * bool :=
  let byteData := default [] (Marshal d) in
  ([Call m "anything" byteData], match grpc_call m byteData with None => false | Some Status => Status end).

Definition notificationGrpc_OnClientConnect := notificationGrpc_on OnClientConnect.
Definition notificationGrpc_OnClientDisconnected := notificationGrpc_on OnClientDisconnected.
Definition notificationGrpc_OnSubscribe := notificationGrpc_on OnSubscribe.
Definition notificationGrpc_OnUnSubscribe := notificationGrpc_on OnUnSubscribe.
Definition notificationGrpc_OnAgentConnect := notificationGrpc_on OnAgentConnect.
Definition notificationGrpc_OnAgentDisconnected := notificationGrpc_on OnAgentDisconnected.

Definition grpc_notification : Notification := mkNotification (λ m,
  match m with
  | OnClientConnect => notificationGrpc_OnClientConnect | OnClientDisconnected => notificationGrpc_OnClientDisconnected
  | OnSubscribe => notificationGrpc_OnSubscribe | OnUnSubscribe => notificationGrpc_OnUnSubscribe
  | OnAgentConnect => notificationGrpc_OnAgentConnect | OnAgentDisconnected => notificationGrpc_OnAgentDisconnected
  end).

(** [NewNotify]: HTTP unless the configuration says gRPC. *)
Definition NewNotify (name srv : string) : Notification :=
  if decide (name = "http"%string) then http_notification (mkNotificationHTTP srv)
  else if decide (name = "grpc"%string) then grpc_notification
  else http_notification (mkNotificationHTTP srv).

(** What a message tells: which method it is for, and the data. *)
Definition tells (srv : string) (s : sent) : option (method * list byte) :=
  match s with
  | Post url _ body =>
      (λ m, (m, body)) <$> head (filter (λ m, url = String.append srv (String.append "/" (method_name m)))
        [OnClientConnect; OnClientDisconnected; OnSubscribe; OnUnSubscribe; OnAgentConnect; OnAgentDisconnected])
  | Call m _ value => Some (m, value)
  end.

Lemma append_inj_l s t u : String.append s t = String.append s u → t = u.
Proof. induction s as [|a s IH]; cbn; [done|]. intros [= ?]. by apply IH. Qed.

Lemma url_inj srv m m' :
  String.append srv (String.append "/" (method_name m)) = String.append srv (String.append "/" (method_name m')) → m = m'.
Proof. intros H%append_inj_l. by destruct m, m'. Qed.

Lemma tells_post srv m body : tells srv (Post (String.append srv (String.append "/" (method_name m))) "application/json" body) = Some (m, body).
Proof.
  unfold tells. assert (Hn : ∀ l : list method, m ∉ l →
    filter (λ m', String.append srv (String.append "/" (method_name m)) = String.append srv (String.append "/" (method_name m'))) l = []).
  { induction l as [|x l IH]; [done|]. intros [Hx Hl]%not_elem_of_cons. rewrite filter_cons, decide_False; [by apply IH|].
    intros Heq%url_inj. done. }
  assert (Hf : ∀ l : list method, m ∈ l → NoDup l →
    filter (λ m', String.append srv (String.append "/" (method_name m)) = String.append srv (String.append "/" (method_name m'))) l = [m]).
  { induction l as [|x l IH]; [by intros ?%not_elem_of_nil|]. intros Hm [Hx Hnd]%NoDup_cons. rewrite filter_cons.
    apply elem_of_cons in Hm as [<-|Hm].
    - rewrite decide_True by done. f_equal. by apply Hn.
    - rewrite decide_False; [by apply IH|]. intros <-%url_inj. done. }
  rewrite Hf; [done|destruct m; set_solver|repeat (constructor; [set_solver|]); constructor].
Qed.

(** The contract.  Whichever implementation the configuration chooses, a method sends at most
    one message; it is for that method and no other and carries the JSON of the
    data; and the answer is true only if a message was sent and the receiver took it. *)
Theorem NewNotify_contract name srv m d obj :
  Marshal d = Some obj →
  ∃ s, (notify (NewNotify name srv) m d).1 = [s] ∧ tells srv s = Some (m, obj)
    ∧ ((notify (NewNotify name srv) m d).2 = true →
       match s with Post url _ body => http_Post url body = Some StatusOK | Call m _ value => grpc_call m value = Some true end).
Proof.
  intros Hd.
  assert (Hh : ∃ s, (notify (http_notification (mkNotificationHTTP srv)) m d).1 = [s] ∧ tells srv s = Some (m, obj)
    ∧ ((notify (http_notification (mkNotificationHTTP srv)) m d).2 = true →
       match s with Post url _ body => http_Post url body = Some StatusOK | Call m _ value => grpc_call m value = Some true end)).
  { exists (Post (String.append srv (String.append "/" (method_name m))) "application/json" obj).
    assert (E : notify (http_notification (mkNotificationHTTP srv)) m d = notificationHTTP_on (mkNotificationHTTP srv) (method_name m) d)
      by (by destruct m).
    rewrite E. unfold notificationHTTP_on. rewrite Hd. split; [done|]. split; [apply tells_post|]. cbn [snd server].
    destruct (http_Post _ obj) as [st|]; [|done]. intros ->%bool_decide_eq_true. done. }
  unfold NewNotify. case_decide; [exact Hh|]. case_decide; [|exact Hh].
  exists (Call m "anything" obj). assert (E : notify grpc_notification m d = notificationGrpc_on m d) by (by destruct m).
  rewrite E. unfold notificationGrpc_on. rewrite Hd. split; [done|]. split; [done|]. cbn. by destruct (grpc_call m obj) as [[]|].
Qed.

(** Data without JSON: nothing is posted over HTTP, but the gRPC service is called with no
    data and may answer that all is well. *)
Theorem unmarshalled_call m d :
  Marshal d = None →
  (∀ srv, notify (NewNotify "http" srv) m d = ([], false))
  ∧ ∀ srv, (notify (NewNotify "grpc" srv) m d).1 = [Call m "anything" []].
Proof.
  intros Hd. split; intros srv.
  - unfold NewNotify. rewrite decide_True by done.
    destruct m; cbn; unfold notificationHTTP_OnClientConnect, notificationHTTP_OnClientDisconnected, notificationHTTP_OnSubscribe,
      notificationHTTP_OnUnSubscribe, notificationHTTP_OnAgentConnect, notificationHTTP_OnAgentDisconnected, notificationHTTP_on; by rewrite Hd.
  - unfold NewNotify. rewrite decide_False, decide_True by done. assert (E : notify grpc_notification m d = notificationGrpc_on m d) by (by destruct m).
    rewrite E. unfold notificationGrpc_on. by rewrite Hd.
Qed.
End Notify.

Lemma NewNotify_contract_witness :
  ∃ s, (notify (NewNotify (λ b : list byte, Some b) (λ _ _, Some 200) (λ _ _, None) "http" "http://n") OnSubscribe [z2b 1]).1 = [s]
    ∧ tells "http://n" s = Some (OnSubscribe, [z2b 1]).
Proof.
  destruct (NewNotify_contract (λ b : list byte, Some b) (λ _ _, Some 200) (λ _ _, None) "http" "http://n" OnSubscribe [z2b 1] [z2b 1] eq_refl)
    as (s & Hs & Ht & _).
  exists s. split; [exact Hs|exact Ht].
Defined.
