(* ===== verification/Cluster.v ===== *)
(** * Cluster: the tables of a node and the shared store

    Models [src/broker/cluster.go] and the [cluster_*.go] files, [etcdstore.go] and the
    directories set up in [NewBroker]: what a node writes to the etcd store, the watch
    that turns changes of the store into events, the handling of events by the tables
    of the node, loading at start, and the clean-up by the leader.

    Etcd and the JSON encoding are behind two classes: what the code relies on are
    their laws, and small instances show that the laws can hold. *)
From S2P Require Import Prelude Wire Packets Topics TopicLevels TopicsSpec Acl Sessions Router Bridge Broker BrokerInv BrokerDelivery.
Local Open Scope Z_scope.

(** ** Etcd *)

Inductive EvtType := EventTypeNew | EventTypeUpdate | EventTypeDelete.

(** An event of a watch: the kind, the key and the value, which is empty for a
    deletion. *)
Record kv_event := mkKvEvent { ev_Type : EvtType; ev_Key : string; ev_Value : string }.

(** The requests the store makes.  [None] is an error; the events are those a watch
    sees for the request. *)
Class Etcd (T : Type) := {
  kv : T → gmap string string;
  OpPut : string → string → T → option (T * list kv_event);
  OpDeletePrefix : string → T → option (T * list kv_event);
  OpGet : string → T → option (option string);
  OpGetPrefix : string → T → option (list (string * string))
}.

Definition under (p : string) (m : gmap string string) : gmap string string :=
  filter (λ e, has_prefix e.1 p = true) m.
Definition outside (p : string) (m : gmap string string) : gmap string string :=
  filter (λ e, has_prefix e.1 p = false) m.

Class EtcdLaws (T : Type) `{Etcd T} := {
  put_ok k v (t t' : T) evs :
    OpPut k v t = Some (t', evs) →
    kv t' = <[k := v]> (kv t)
    ∧ evs = [mkKvEvent (match kv t !! k with None => EventTypeNew | Some _ => EventTypeUpdate end) k v];
  delete_ok k (t t' : T) evs :
    OpDeletePrefix k t = Some (t', evs) →
    kv t' = outside k (kv t)
    ∧ evs ≡ₚ map (λ e, mkKvEvent EventTypeDelete e.1 "") (map_to_list (under k (kv t)));
  get_ok k (t : T) v : OpGet k t = Some v → v = kv t !! k;
  get_prefix_ok k (t : T) l : OpGetPrefix k t = Some l → l ≡ₚ map_to_list (under k (kv t))
}.

(** [model.Node]. *)
Record Node := mkNode { node_ID : string; node_Name : string; node_Version : string; node_Timestamp : Z }.

(** [json.Marshal] and [json.Unmarshal] into a fresh value; [zero] is that value. *)
Class Json (A : Type) := {
  Marshal : A → option string;
  Unmarshal : string → option A;
  zero_value : A
}.

(** ** Directories *)

Record dirs := mkDirs {
  sysDir : string;
  nodeDir : string;
  clientDir : string;
  subscriptionDir : string;
  bridgeDir : string;
  userDir : string;
  aclDir : string
}.

(** The directories of [NewBroker], from the cluster's name. *)
Definition dirs_of (cluster : string) : dirs :=
  let root := String.append "/" cluster in
  let sys := String.append root "/sys" in
  mkDirs sys (String.append sys "/nodes") (String.append sys "/clients")
    (String.append sys "/subscriptions") (String.append sys "/bridges")
    (String.append sys "/users") (String.append sys "/acls").

(** [fmt.Sprintf("%s/%s", dir, name)]. *)
Definition entry (dir name : string) : string := String.append dir (String SLASH name).

(** [strings.Replace(s, old, "", 1)] for a non-empty [old]. *)
Fixpoint remove_first (old s : string) : string :=
  if has_prefix s old then drop_string (String.length old) s
  else match s with
       | EmptyString => ""%string
       | String a s' => String a (remove_first old s')
       end.

(** The key of an event below a directory. *)
Definition event_key (dir key : string) : string := remove_first (String.append dir "/") key.

(** ** What a node writes *)

Section Store.
Context {T : Type} `{Etcd T}.
Context `{Json User, Json Acl, Json Info, Json Subscription, Json Node}.
(** [%x] of [md5.Sum], and the directories. *)
Context (md5_hex : string → string) (D : dirs).

(** A request, with the events it causes. *)
Definition request : Type := T → option (T * list kv_event).

(** [etcdStore]: [Del] removes everything below a key, and the two reads answer nil for
    nothing. *)
Definition etcdStore_Put (key value : string) : request := OpPut key value.
Definition etcdStore_Get (key : string) (t : T) : option (option string) := OpGet key t.
Definition etcdStore_All (prefix : string) (t : T) : option (option (list (string * string))) :=
  kvs ← OpGetPrefix prefix t;
  Some (match kvs with [] => None | _ => Some kvs end).
Definition etcdStore_Del (key : string) : request := OpDeletePrefix key.
Definition etcdStore_Reset (rootPrefix : string) : request := etcdStore_Del rootPrefix.

Definition store_marshalled {A} `{Json A} (key : string) (obj : A) : request :=
  λ t, data ← Marshal obj; etcdStore_Put key data t.

Definition StoreAddORUpdateUser (obj : User) : request := store_marshalled (entry (userDir D) (user_Name obj)) obj.
Definition StoreRemoveUser (name : string) : request := etcdStore_Del (entry (userDir D) name).
Definition StoreAddORUpdateAcl (obj : Acl) : request := store_marshalled (entry (aclDir D) (acl_ID obj)) obj.
Definition StoreRemoveAcl (id : string) : request := etcdStore_Del (entry (aclDir D) id).
Definition StoreAddORUpdateBridge (key value : string) : request := etcdStore_Put (entry (bridgeDir D) key) value.
Definition StoreRemoveBridge (key : string) : request := etcdStore_Del (entry (bridgeDir D) key).
Definition StoreAddORUpdateClient (obj : Info) : request := store_marshalled (entry (clientDir D) (info_ID obj)) obj.
Definition StoreRemoveClient (id : string) : request := etcdStore_Del (entry (clientDir D) id).
Definition AddORUpdateNode (obj : Node) : request := store_marshalled (entry (nodeDir D) (node_ID obj)) obj.
Definition RemoveNode (id : string) : request := etcdStore_Del (entry (nodeDir D) id).

(** [Subscription.GetID]. *)
Definition GetID (topic clientID : string) : string :=
  String.append (md5_hex topic) (String ":"%char clientID).

Definition StoreAddORUpdateSubscription (obj : Subscription) : request :=
  let obj := mkSub (GetID (msub_Topic obj) (msub_ClientID obj)) (msub_ClientID obj) (msub_NodeID obj)
               (msub_Topic obj) (msub_Qos obj) in
  store_marshalled (entry (subscriptionDir D) (msub_ID obj)) obj.
Definition StoreRemoveSubscription (topic clientID : string) : request :=
  etcdStore_Del (entry (subscriptionDir D) (GetID topic clientID)).

(** ** What a node reads *)

(** [GetUser] and the like; [None] is the panic of the type assertion on the nil value
    of a key that is not there. *)
Definition get_object {A} `{Json A} (dir name : string) (t : T) : option (result unit A) :=
  match etcdStore_Get (entry dir name) t with
  | None => Some (Err tt)
  | Some None => None
  | Some (Some data) => match Unmarshal data with Some obj => Some (Ok obj) | None => Some (Err tt) end
  end.

Definition Cluster_GetUser (name : string) (t : T) : option (result unit User) := get_object (userDir D) name t.
Definition Cluster_GetAcl (id : string) (t : T) : option (result unit Acl) := get_object (aclDir D) id t.
Definition Cluster_GetNode (id : string) (t : T) : option (result unit Node) := get_object (nodeDir D) id t.
Definition Cluster_GetClient (id : string) (t : T) : option (result unit Info) := get_object (clientDir D) id t.
Definition Cluster_GetSubscription (id : string) (t : T) : option (result unit Subscription) :=
  get_object (subscriptionDir D) id t.
Definition Cluster_GetBridge (name : string) (t : T) : option (result unit string) :=
  match etcdStore_Get (entry (bridgeDir D) name) t with
  | None => Some (Err tt)
  | Some None => None
  | Some (Some v) => Some (Ok v)
  end.

(** The loop of [GetUsers] and the like: the objects that can be read, by their id. *)
Definition collect {A} `{Json A} (id : A → string) (l : list (string * string)) : gmap string A :=
  foldl (λ m e, match Unmarshal e.2 with Some obj => <[id obj := obj]> m | None => m end) ∅ l.

(** [None] for an error; an empty answer gives a nil map and no error. *)
Definition get_objects {A} `{Json A} (dir : string) (id : A → string) (t : T)
    : option (option (gmap string A)) :=
  objs ← etcdStore_All dir t;
  Some (option_map (collect id) objs).

Definition GetUsers (t : T) : option (option (gmap string User)) := get_objects (userDir D) user_Name t.
Definition GetAcls (t : T) : option (option (gmap string Acl)) := get_objects (aclDir D) acl_ID t.
Definition GetNodes (t : T) : option (option (gmap string Node)) := get_objects (nodeDir D) node_ID t.
Definition GetClients (t : T) : option (option (gmap string Info)) := get_objects (clientDir D) info_ID t.
Definition GetSubscriptions (t : T) : option (option (gmap string Subscription)) :=
  get_objects (subscriptionDir D) msub_ID t.

(** [kPath[len(kPath)-1]]. *)
Definition last_part (key : string) : string := List.last (split_slash key) ""%string.

Definition GetBridges (t : T) : option (option (gmap string string)) :=
  objs ← etcdStore_All (bridgeDir D) t;
  Some (option_map (foldl (λ m e, <[last_part e.1 := e.2]> m) ∅) objs).

(** ** The tables of a node *)

(** [acl] and [bridgeMQ] are nil when they are not enabled. *)
Record node := mkNodeState {
  nd_auth : etcdAuth;
  nd_acl : option etcdAcl;
  nd_bridge : option kafka;
  nd_broker : state
}.

Definition set_auth (f : etcdAuth → etcdAuth) (n : node) : node :=
  mkNodeState (f (nd_auth n)) (nd_acl n) (nd_bridge n) (nd_broker n).
Definition set_acl (f : etcdAcl → etcdAcl) (n : node) : node :=
  mkNodeState (nd_auth n) (f <$> nd_acl n) (nd_bridge n) (nd_broker n).
Definition set_bridge (f : kafka → kafka) (n : node) : node :=
  mkNodeState (nd_auth n) (nd_acl n) (f <$> nd_bridge n) (nd_broker n).
Definition set_broker (s : state) (n : node) : node :=
  mkNodeState (nd_auth n) (nd_acl n) (nd_bridge n) s.

Definition AddORUpdateUser (obj : User) : node → node := set_auth (λ a, AddOrUpdateUser a obj).
Definition Cluster_RemoveUser (obj : User) : node → node := set_auth (λ a, RemoveUser a obj).
Definition AddORUpdateAcl (obj : Acl) : node → node := set_acl (λ a, AddOrUpdateAcl a obj).
Definition Cluster_RemoveAcl (id : string) : node → node := set_acl (λ a, RemoveAcl a id).
Definition AddORUpdateBridge (key value : string) : node → node := set_bridge (λ k, AddOrUpdateObj k key value).
Definition RemoveBridge (key : string) : node → node := set_bridge (λ k, RemoveObj k key).

(** ** Watching *)

(** [Evt], by its source. *)
Inductive Evt :=
  | EvtClient (type : EvtType) (key : string) (value : Info)
  | EvtSubscription (type : EvtType) (key : string) (value : Subscription)
  | EvtBridge (type : EvtType) (key : string) (value : string)
  | EvtUser (type : EvtType) (key : string) (value : User)
  | EvtAcl (type : EvtType) (key : string) (value : Acl).

(** The value of an event: the zero value for an empty one, nothing when it cannot be
    read. *)
Definition event_value {A} `{Json A} (v : string) : option A :=
  if decide (v = ""%string) then Some zero_value else Unmarshal v.

Definition doWatchWithClient (broker_id : string) (ev : kv_event) : option Evt :=
  v ← event_value (ev_Value ev);
  if decide (info_NodeID v = broker_id) then None
  else Some (EvtClient (ev_Type ev) (event_key (clientDir D) (ev_Key ev)) v).
Definition doWatchWithSubscription (broker_id : string) (ev : kv_event) : option Evt :=
  v ← event_value (ev_Value ev);
  if decide (msub_NodeID v = broker_id) then None
  else Some (EvtSubscription (ev_Type ev) (event_key (subscriptionDir D) (ev_Key ev)) v).
Definition doWatchWithBridge (ev : kv_event) : option Evt :=
  Some (EvtBridge (ev_Type ev) (event_key (bridgeDir D) (ev_Key ev)) (ev_Value ev)).
Definition doWatchWithUser (ev : kv_event) : option Evt :=
  v ← event_value (ev_Value ev);
  Some (EvtUser (ev_Type ev) (event_key (userDir D) (ev_Key ev)) v).
Definition doWatchWithAcl (ev : kv_event) : option Evt :=
  v ← event_value (ev_Value ev);
  Some (EvtAcl (ev_Type ev) (event_key (aclDir D) (ev_Key ev)) v).

(** One event in the loop of [watch]. *)
Definition watch_one (broker_id : string) (ev : kv_event) : option Evt :=
  let key := ev_Key ev in
  if has_prefix key (clientDir D) then doWatchWithClient broker_id ev
  else if has_prefix key (subscriptionDir D) then doWatchWithSubscription broker_id ev
  else if has_prefix key (bridgeDir D) then doWatchWithBridge ev
  else if has_prefix key (userDir D) then doWatchWithUser ev
  else if has_prefix key (aclDir D) then doWatchWithAcl ev
  else None.

Definition is_delete (t : EvtType) : bool := match t with EventTypeDelete => true | _ => false end.

Definition doBridgeEvent (t : EvtType) (key value : string) : node → node :=
  if is_delete t then RemoveBridge key else AddORUpdateBridge key value.
Definition doUserEvent (t : EvtType) (key : string) (u : User) : node → node :=
  if is_delete t
  then Cluster_RemoveUser (mkUser (user_ClientID u) key (user_Role u) (user_Password u) (user_CreateAt u))
  else AddORUpdateUser u.
Definition doAclEvent (t : EvtType) (key : string) (a : Acl) : node → node :=
  if is_delete t then Cluster_RemoveAcl key else AddORUpdateAcl a.

(** One event in the loop of [readyToReceiveMethodWatchEvent]; [None] is a panic. *)
Definition receive_event (evt : Evt) (n : node) : option node :=
  match evt with
  | EvtClient t key v => Some (set_broker (doClientEvent (is_delete t) key v (nd_broker n)) n)
  | EvtSubscription t key v =>
      s ← doSubscriptionEvent (is_delete t) key v (nd_broker n); Some (set_broker s n)
  | EvtBridge t key v => Some (doBridgeEvent t key v n)
  | EvtUser t key v => Some (doUserEvent t key v n)
  | EvtAcl t key v => Some (doAclEvent t key v n)
  end.

(** The events of a request reach the node, in order. *)
Definition deliver_one (broker_id : string) (n : option node) (ev : kv_event) : option node :=
  n ← n; match watch_one broker_id ev with Some evt => receive_event evt n | None => Some n end.
Definition deliver (broker_id : string) (evs : list kv_event) (n : node) : option node :=
  foldl (deliver_one broker_id) (Some n) evs.

(** ** Loading *)

(** [LoadUsers], with the request for the default administrator, if it makes one. *)
Definition LoadUsers `{Bcrypt} (salt : list byte) (now : Z) (t : T) (n : node) : node * option request :=
  match GetUsers t with
  | None => (n, None)
  | Some users =>
      (set_auth (λ a, Auth_Load a users) n,
       match default ∅ users !! "admin"%string with
       | Some _ => None
       | None => Some (StoreAddORUpdateUser (mkUser "" "admin" 1 (default ""%string (HashSaltPassword salt "admin")) now))
       end)
  end.
Definition LoadAcls (t : T) (n : node) : node :=
  match GetAcls t with None => n | Some acls => set_acl (λ a, Acl_Load a acls) n end.
Definition LoadBridges (t : T) (n : node) : node :=
  match GetBridges t with None => n | Some objs => set_bridge (λ k, kafka_Load k objs) n end.

(** The table of clients is a [sync.Map] of values of any type.  [LoadClients] makes a
    remote client for each one of the store, and stores the cluster object. *)
Inductive stored := StoredClient (a : positive) | StoredCluster.

Definition load_client (acc : gmap string stored * state) (e : string * Info) : gmap string stored * state :=
  let '(tbl, s) := acc in
  let a := fresh_client s in
  (<[e.1 := StoredCluster]> tbl, set_heap (<[a := init_client REMOTE false e.2 None]>) s).

Definition LoadClients (t : T) (tbl : gmap string stored) (s : state) : gmap string stored * state :=
  match GetClients t with
  | None => (tbl, s)
  | Some clients => foldl load_client (tbl, s) (map_to_list (default ∅ clients))
  end.

(** The loop of [LoadSubscriptions], which ends at the first client that is not there
    or is not a client. *)
Fixpoint load_subscriptions (tbl : gmap string stored) (l : list Subscription) (s : state) : state :=
  match l with
  | [] => s
  | obj :: l =>
      match tbl !! msub_ClientID obj with
      | Some (StoredClient a) => load_subscriptions tbl l (processRemoteSubscribe a obj s)
      | Some StoredCluster | None => s
      end
  end.

Definition LoadSubscriptions (t : T) (tbl : gmap string stored) (s : state) : state :=
  match GetSubscriptions t with
  | None => s
  | Some subs => load_subscriptions tbl (map snd (map_to_list (default ∅ subs))) s
  end.

(** ** The leader's clean-up *)

(** A request whose error is logged: the store afterwards, and whether it worked. *)
Definition try_request (r : request) (t : T) : T * bool :=
  match r t with Some (t', _) => (t', true) | None => (t, false) end.

(** The loop over the clients: those whose node is gone are removed. *)
Definition drop_client (nodes : gmap string Node) (acc : T * bool) (e : string * Info) : T * bool :=
  let '(t, change) := acc in
  match nodes !! info_NodeID e.2 with
  | Some _ => (t, change)
  | None => let '(t, ok) := try_request (StoreRemoveClient e.1) t in (t, change || ok)
  end.

Definition drop_subscription (clients : gmap string Info) (t : T) (e : string * Subscription) : T :=
  match clients !! msub_ClientID e.2 with
  | Some _ => t
  | None => (try_request (StoreRemoveSubscription (msub_Topic e.2) (msub_ClientID e.2)) t).1
  end.

(** A turn of [manager] on the leader. *)
Definition manager_turn (t : T) : T :=
  match GetNodes t, GetClients t with
  | Some nodes, Some clients =>
      let '(t, change) := foldl (drop_client (default ∅ nodes)) (t, false) (map_to_list (default ∅ clients)) in
      match (if change : bool then GetClients t else Some clients), GetSubscriptions t with
      | Some clients, Some subs =>
          foldl (drop_subscription (default ∅ clients)) t (map_to_list (default ∅ subs))
      | _, _ => t
      end
  | _, _ => t
  end.
End Store.
