(* ===== verification/ClusterSpec.v ===== *)
(** * ClusterSpec: the tables of a node follow the store

    What the cluster promises: whatever users, rules and bridges any node writes or
    removes, every node that handles the events of the watch in order has exactly
    the tables that the store holds; loading gives the same tables; the leader's
    clean-up leaves no client without a node and no subscription without a client.
    The last part records what the removals and the events do besides. *)
From S2P Require Import Prelude Wire Packets Topics TopicLevels TopicsSpec Acl Sessions Router Bridge Broker BrokerInv BrokerDelivery Cluster.
Local Open Scope Z_scope.

(** ** Keys *)

(** Removals are deletions whether or not the key is there. *)
Lemma RemoveObj_delete k key : deliverMap (RemoveObj k key) = delete key (deliverMap k).
Proof. unfold RemoveObj. destruct (_ !! key) eqn:He; [done|]. symmetry. by apply delete_id. Qed.
Lemma RemoveUser_delete a u : RemoveUser a u = delete (user_Name u) a.
Proof. unfold RemoveUser. destruct (_ !! _) eqn:He; [done|]. symmetry. by apply delete_id. Qed.
Lemma RemoveAcl_delete a id : RemoveAcl a id = delete id a.
Proof. unfold RemoveAcl. destruct (_ !! _) eqn:He; [done|]. symmetry. by apply delete_id. Qed.

Lemma entry_app dir name x : entry dir (String.append name x) = String.append (entry dir name) x.
Proof.
  unfold entry. change (String SLASH (String.append name x)) with (String.append (String SLASH name) x).
  symmetry. apply append_assoc.
Qed.

Lemma entry_inj dir x y : entry dir x = entry dir y → x = y.
Proof.
  unfold entry. intros H. apply (f_equal (drop_string (String.length dir))) in H.
  rewrite !drop_string_app in H. by injection H.
Qed.

Lemma has_prefix_entry dir name : has_prefix (entry dir name) dir = true.
Proof. apply has_prefix_app. Qed.

Lemma remove_first_prefix old s :
  has_prefix s old = true → remove_first old s = drop_string (String.length old) s.
Proof. intros H. destruct s; cbn [remove_first]; by rewrite H. Qed.

Lemma event_key_entry dir name : event_key dir (entry dir name) = name.
Proof.
  unfold event_key, entry.
  assert (String.append dir (String SLASH name) = String.append (String.append dir "/") name) as ->
    by (by rewrite append_assoc).
  rewrite remove_first_prefix by apply has_prefix_app. apply drop_string_app.
Qed.

(** The keys a removal takes. *)
Lemma under_entry dir name k :
  has_prefix k (entry dir name) = true ↔ ∃ x, k = entry dir (String.append name x).
Proof.
  split.
  - intros H. apply has_prefix_true in H. eexists. rewrite entry_app. exact H.
  - intros [x ->]. rewrite entry_app. apply has_prefix_app.
Qed.

Lemma bind_Some_id {A} (o : option A) : (x ← o; Some x) = o.
Proof. by destruct o. Qed.

(** The directories a watch sees and the nodes'. *)
Inductive kind := KNode | KClient | KSubscription | KBridge | KUser | KAcl.
#[global] Instance kind_eq_dec : EqDecision kind.
Proof. solve_decision. Defined.

Definition dir_of (D : dirs) (k : kind) : string :=
  match k with
  | KNode => nodeDir D | KClient => clientDir D | KSubscription => subscriptionDir D
  | KBridge => bridgeDir D | KUser => userDir D | KAcl => aclDir D
  end.

(** No key of one directory looks like one of another. *)
Lemma dirs_apart cluster k1 k2 name :
  k1 ≠ k2 → has_prefix (entry (dir_of (dirs_of cluster) k1) name) (dir_of (dirs_of cluster) k2) = false.
Proof.
  intros Hne. unfold entry. destruct k1, k2; try done; cbn [dir_of dirs_of nodeDir clientDir subscriptionDir
    bridgeDir userDir aclDir]; rewrite append_assoc, has_prefix_common; reflexivity.
Qed.

Lemma entries_apart cluster k1 k2 x y :
  k1 ≠ k2 → entry (dir_of (dirs_of cluster) k1) x ≠ entry (dir_of (dirs_of cluster) k2) y.
Proof.
  intros Hne H. pose proof (dirs_apart cluster k1 k2 x Hne) as Hp.
  by rewrite H, has_prefix_entry in Hp.
Qed.

(** The watch sends an event to the handler of its directory. *)
Section Watch.
Context `{Json User, Json Acl, Json Info, Json Subscription}.
Context (cluster : string).
Local Notation D := (dirs_of cluster).

Lemma watch_one_kind bid ty k name v :
  watch_one D bid (mkKvEvent ty (entry (dir_of D k) name) v) =
    match k with
    | KNode => None
    | KClient => doWatchWithClient D bid (mkKvEvent ty (entry (dir_of D k) name) v)
    | KSubscription => doWatchWithSubscription D bid (mkKvEvent ty (entry (dir_of D k) name) v)
    | KBridge => doWatchWithBridge D (mkKvEvent ty (entry (dir_of D k) name) v)
    | KUser => doWatchWithUser D (mkKvEvent ty (entry (dir_of D k) name) v)
    | KAcl => doWatchWithAcl D (mkKvEvent ty (entry (dir_of D k) name) v)
    end.
Proof.
  unfold watch_one. cbn [ev_Key].
  assert (Hp : ∀ k', has_prefix (entry (dir_of D k) name) (dir_of D k') = bool_decide (k = k')).
  { intros k'. case_bool_decide as Hk; [subst; apply has_prefix_entry|by apply dirs_apart]. }
  change (clientDir D) with (dir_of D KClient). change (subscriptionDir D) with (dir_of D KSubscription).
  change (bridgeDir D) with (dir_of D KBridge). change (userDir D) with (dir_of D KUser).
  change (aclDir D) with (dir_of D KAcl). rewrite !Hp. by destruct k.
Qed.
End Watch.

(** ** Replication *)

(** What a node can ask of the store. *)
Inductive cluster_op :=
  | OpUser (u : User) | OpRemoveUser (name : string)
  | OpAcl (a : Acl) | OpRemoveAcl (id : string)
  | OpBridge (key value : string) | OpRemoveBridge (key : string)
  | OpClient (i : Info) | OpRemoveClient (id : string)
  | OpSub (s : Subscription) | OpRemoveSub (topic clientID : string)
  | OpNode (nd : Node) | OpRemoveNode (id : string).

Section Replication.
Context {T : Type} `{EtcdLaws T}.
Context `{Json User, Json Acl, Json Info, Json Subscription, Json Node}.
Context (md5_hex : string → string) (cluster : string).
Local Notation D := (dirs_of cluster).

Definition run_op (op : cluster_op) : request :=
  match op with
  | OpUser u => StoreAddORUpdateUser D u
  | OpRemoveUser name => StoreRemoveUser D name
  | OpAcl a => StoreAddORUpdateAcl D a
  | OpRemoveAcl id => StoreRemoveAcl D id
  | OpBridge key value => StoreAddORUpdateBridge D key value
  | OpRemoveBridge key => StoreRemoveBridge D key
  | OpClient i => StoreAddORUpdateClient D i
  | OpRemoveClient id => StoreRemoveClient D id
  | OpSub s => StoreAddORUpdateSubscription md5_hex D s
  | OpRemoveSub topic clientID => StoreRemoveSubscription md5_hex D topic clientID
  | OpNode nd => AddORUpdateNode D nd
  | OpRemoveNode id => RemoveNode D id
  end.

(** An object survives encoding and decoding; its encoding is not empty. *)
Definition json_ok {A} `{Json A} (obj : A) : Prop :=
  ∀ data, Marshal obj = Some data → Unmarshal data = Some obj ∧ data ≠ ""%string.

Definition op_ok (op : cluster_op) : Prop :=
  match op with OpUser u => json_ok u | OpAcl a => json_ok a | _ => True end.

(** The tables hold what the store holds. *)
Definition synced (n : node) (m : gmap string string) : Prop :=
  (∀ name, nd_auth n !! name = (v ← m !! entry (dir_of D KUser) name; Unmarshal v))
  ∧ (∀ tbl, nd_acl n = Some tbl → ∀ id, tbl !! id = (v ← m !! entry (dir_of D KAcl) id; Unmarshal v))
  ∧ (∀ k, nd_bridge n = Some k → ∀ key, deliverMap k !! key = m !! entry (dir_of D KBridge) key).

(** What the value of a put must be for the tables. *)
Definition put_fits (k : kind) (name data : string) : Prop :=
  match k with
  | KUser => ∃ u : User, Unmarshal data = Some u ∧ user_Name u = name ∧ data ≠ ""%string
  | KAcl => ∃ a : Acl, Unmarshal data = Some a ∧ acl_ID a = name ∧ data ≠ ""%string
  | _ => True
  end.

(** Every request puts one key of a directory or removes keys below one. *)
Lemma marshalled_put {A} `{Json A} k name (obj : A) t t' evs :
  store_marshalled (entry (dir_of D k) name) obj t = Some (t', evs) →
  (∀ data, Marshal obj = Some data → put_fits k name data) →
  ∃ data ty, put_fits k name data ∧ ty ≠ EventTypeDelete
    ∧ kv t' = <[entry (dir_of D k) name := data]> (kv t)
    ∧ evs = [mkKvEvent ty (entry (dir_of D k) name) data].
Proof.
  intros Hs Hfit. unfold store_marshalled in Hs. destruct (Marshal obj) as [data|] eqn:Hd; [|done].
  cbn in Hs. apply put_ok in Hs as [Hkv ->]. exists data, (match kv t !! entry (dir_of D k) name with
    None => EventTypeNew | Some _ => EventTypeUpdate end).
  split; [by apply Hfit|]. split; [by case_match|]. done.
Qed.

Definition removes_subscription (op : cluster_op) : bool :=
  match op with OpRemoveSub _ _ => true | _ => false end.

Lemma run_op_cases op t t' evs :
  op_ok op → run_op op t = Some (t', evs) →
  (∃ k name data ty, put_fits k name data ∧ ty ≠ EventTypeDelete
     ∧ kv t' = <[entry (dir_of D k) name := data]> (kv t)
     ∧ evs = [mkKvEvent ty (entry (dir_of D k) name) data])
  ∨ (∃ k name, (k = KSubscription → removes_subscription op = true)
     ∧ kv t' = outside (entry (dir_of D k) name) (kv t)
     ∧ evs ≡ₚ map (λ e, mkKvEvent EventTypeDelete e.1 "")
         (map_to_list (under (entry (dir_of D k) name) (kv t)))).
Proof.
  intros Hok. destruct op; cbn [run_op]; intros Hr.
  - left. exists KUser, (user_Name u). apply (marshalled_put KUser _ u); [exact Hr|].
    intros data Hd. destruct (Hok data Hd). by exists u.
  - right. exists KUser, name. split; [done|]. by apply delete_ok.
  - left. exists KAcl, (acl_ID a). apply (marshalled_put KAcl _ a); [exact Hr|].
    intros data Hd. destruct (Hok data Hd). by exists a.
  - right. exists KAcl, id. split; [done|]. by apply delete_ok.
  - left. apply put_ok in Hr as [Hkv ->]. exists KBridge, key, value. eexists. split; [done|].
    split; [|split; [exact Hkv|reflexivity]]. by case_match.
  - right. exists KBridge, key. split; [done|]. by apply delete_ok.
  - left. exists KClient, (info_ID i). by apply (marshalled_put KClient _ i).
  - right. exists KClient, id. split; [done|]. by apply delete_ok.
  - left. exists KSubscription, (GetID md5_hex (msub_Topic s) (msub_ClientID s)).
    by apply (marshalled_put KSubscription _ (mkSub (GetID md5_hex (msub_Topic s) (msub_ClientID s))
      (msub_ClientID s) (msub_NodeID s) (msub_Topic s) (msub_Qos s))).
  - right. exists KSubscription, (GetID md5_hex topic clientID). split; [done|]. by apply delete_ok.
  - left. exists KNode, (node_ID nd). by apply (marshalled_put KNode _ nd).
  - right. exists KNode, id. split; [done|]. by apply delete_ok.
Qed.

(** Client and subscription events leave the tables of the cluster alone. *)
Definition same_tables (n n' : node) : Prop :=
  nd_auth n' = nd_auth n ∧ nd_acl n' = nd_acl n ∧ nd_bridge n' = nd_bridge n.

Lemma broker_event_tables bid k ty name v n n' :
  k = KNode ∨ k = KClient ∨ k = KSubscription →
  deliver_one D bid (Some n) (mkKvEvent ty (entry (dir_of D k) name) v) = Some n' → same_tables n n'.
Proof.
  unfold deliver_one. cbn [mbind option_bind]. rewrite watch_one_kind.
  intros [-> | [-> | ->]].
  - injection 1 as <-. done.
  - unfold doWatchWithClient. destruct (event_value _) as [i|]; cbn; [|by injection 1 as <-].
    case_decide; [by injection 1 as <-|]. cbn. by intros [= <-].
  - unfold doWatchWithSubscription. destruct (event_value _) as [sb|]; cbn; [|by injection 1 as <-].
    case_decide; [by injection 1 as <-|]. cbn. destruct (doSubscriptionEvent _ _ _ _); cbn; [|done].
    by injection 1 as <-.
Qed.

(** A change of a key of another kind does not matter to the tables. *)
Lemma synced_frame n n' m m' k :
  same_tables n n' → k ≠ KUser → k ≠ KAcl → k ≠ KBridge →
  (∀ k' name, k' ≠ k → m' !! entry (dir_of D k') name = m !! entry (dir_of D k') name) →
  synced n m → synced n' m'.
Proof.
  intros (Ha & Hc & Hb) Hu Hl Hbr Hm (Hs1 & Hs2 & Hs3). split_and!.
  - intros name. rewrite Ha, Hm by done. apply Hs1.
  - intros tbl Ht id. rewrite Hc in Ht. rewrite Hm by done. by apply Hs2.
  - intros kk Hk key. rewrite Hb in Hk. rewrite Hm by done. by apply Hs3.
Qed.

Lemma put_elsewhere (m : gmap string string) k name v k' name' :
  k' ≠ k → <[entry (dir_of D k) name := v]> m !! entry (dir_of D k') name' = m !! entry (dir_of D k') name'.
Proof. intros Hk. apply lookup_insert_ne. intros He. apply Hk. symmetry. destruct (decide (k = k')); [done|].
  by apply entries_apart in He. Qed.

Lemma delete_elsewhere (m : gmap string string) k name k' name' :
  k' ≠ k → delete (entry (dir_of D k) name) m !! entry (dir_of D k') name' = m !! entry (dir_of D k') name'.
Proof. intros Hk. apply lookup_delete_ne. intros He. apply Hk. symmetry. destruct (decide (k = k')); [done|].
  by apply entries_apart in He. Qed.

Lemma lookup_put_same {A} (f : string → option A) (m : gmap string string) k name v (tbl : gmap string A) x :
  f v = Some x → (∀ j, tbl !! j = (w ← m !! entry (dir_of D k) j; f w)) →
  ∀ j, <[name := x]> tbl !! j = (w ← <[entry (dir_of D k) name := v]> m !! entry (dir_of D k) j; f w).
Proof.
  intros Hf Ht j. destruct (decide (j = name)) as [->|Hj].
  - rewrite !lookup_insert_eq. symmetry. exact Hf.
  - rewrite !lookup_insert_ne; [apply Ht| |done]. intros He. by apply entry_inj in He.
Qed.

Lemma lookup_del_same {A} (f : string → option A) (m : gmap string string) k name (tbl : gmap string A) :
  (∀ j, tbl !! j = (w ← m !! entry (dir_of D k) j; f w)) →
  ∀ j, delete name tbl !! j = (w ← delete (entry (dir_of D k) name) m !! entry (dir_of D k) j; f w).
Proof.
  intros Ht j. destruct (decide (j = name)) as [->|Hj].
  - by rewrite !lookup_delete_eq.
  - rewrite !lookup_delete_ne; [apply Ht| |done]. intros He. by apply entry_inj in He.
Qed.

(** One put and one deletion. *)
Lemma put_event_synced bid k name data ty n n' m :
  put_fits k name data → ty ≠ EventTypeDelete → synced n m →
  deliver_one D bid (Some n) (mkKvEvent ty (entry (dir_of D k) name) data) = Some n' →
  synced n' (<[entry (dir_of D k) name := data]> m).
Proof.
  intros Hfit Hty Hs Hd. assert (Hdel : is_delete ty = false) by (by destruct ty).
  destruct (decide (k = KNode ∨ k = KClient ∨ k = KSubscription)) as [Hk|Hk].
  { apply (synced_frame n n' m _ k); [eapply broker_event_tables; [exact Hk|exact Hd]| | | | |exact Hs].
    1-3: destruct Hk as [-> | [-> | ->]]; discriminate. intros. by apply put_elsewhere. }
  unfold deliver_one in Hd. cbn [mbind option_bind] in Hd. rewrite watch_one_kind in Hd.
  destruct Hs as (Hs1 & Hs2 & Hs3). destruct k; try (exfalso; apply Hk; auto; fail).
  - unfold doWatchWithBridge in Hd. cbn [dir_of ev_Key ev_Type ev_Value receive_event] in Hd.
    rewrite event_key_entry in Hd. injection Hd as <-.
    unfold doBridgeEvent. rewrite Hdel. split_and!; cbn [AddORUpdateBridge AddORUpdateUser AddORUpdateAcl
      set_bridge set_auth set_acl nd_auth nd_acl nd_bridge].
    + intros j. rewrite put_elsewhere by done. apply Hs1.
    + intros tbl Ht j. rewrite put_elsewhere by done. by apply Hs2.
    + intros kk Hkk key. destruct (nd_bridge n) as [k0|] eqn:Hb; [|done]. injection Hkk as <-. cbn.
      rewrite <- (bind_Some_id (_ !! entry _ key)). apply (lookup_put_same Some m KBridge); [done|].
      intros j. rewrite bind_Some_id. by apply Hs3.
  - destruct Hfit as (u & Hu & Hn & Hne). unfold doWatchWithUser, event_value in Hd. cbn [ev_Value ev_Type ev_Key] in Hd.
    rewrite decide_False in Hd by done. rewrite Hu in Hd. cbn in Hd. injection Hd as <-.
    unfold doUserEvent. rewrite Hdel. split_and!; cbn [AddORUpdateBridge AddORUpdateUser AddORUpdateAcl
      set_bridge set_auth set_acl nd_auth nd_acl nd_bridge].
    + subst name. unfold AddOrUpdateUser. by apply (lookup_put_same Unmarshal m KUser).
    + intros tbl Ht j. rewrite put_elsewhere by done. by apply Hs2.
    + intros kk Ht j. rewrite put_elsewhere by done. by apply Hs3.
  - destruct Hfit as (a & Hu & Hn & Hne). unfold doWatchWithAcl, event_value in Hd. cbn [ev_Value ev_Type ev_Key] in Hd.
    rewrite decide_False in Hd by done. rewrite Hu in Hd. cbn in Hd. injection Hd as <-.
    unfold doAclEvent. rewrite Hdel. split_and!; cbn [AddORUpdateBridge AddORUpdateUser AddORUpdateAcl
      set_bridge set_auth set_acl nd_auth nd_acl nd_bridge].
    + intros j. rewrite put_elsewhere by done. apply Hs1.
    + intros tbl Ht. destruct (nd_acl n) as [t0|] eqn:Hb; [|done]. injection Ht as <-. subst name.
      unfold AddOrUpdateAcl. apply (lookup_put_same Unmarshal m KAcl); [done|by apply Hs2].
    + intros kk Ht j. rewrite put_elsewhere by done. by apply Hs3.
Qed.

Lemma delete_event_synced bid k name n n' m :
  synced n m →
  deliver_one D bid (Some n) (mkKvEvent EventTypeDelete (entry (dir_of D k) name) "") = Some n' →
  synced n' (delete (entry (dir_of D k) name) m).
Proof.
  intros Hs Hd. destruct (decide (k = KNode ∨ k = KClient ∨ k = KSubscription)) as [Hk|Hk].
  { apply (synced_frame n n' m _ k); [eapply broker_event_tables; [exact Hk|exact Hd]| | | | |exact Hs].
    1-3: destruct Hk as [-> | [-> | ->]]; discriminate. intros. by apply delete_elsewhere. }
  unfold deliver_one in Hd. cbn [mbind option_bind] in Hd. rewrite watch_one_kind in Hd.
  destruct Hs as (Hs1 & Hs2 & Hs3). destruct k; try (exfalso; apply Hk; auto; fail);
    unfold doWatchWithBridge, doWatchWithUser, doWatchWithAcl, event_value in Hd;
    cbn [dir_of ev_Key ev_Type ev_Value] in Hd; try rewrite decide_True in Hd by done;
    cbn [mbind option_bind receive_event] in Hd; rewrite event_key_entry in Hd; injection Hd as <-;
    cbn [doBridgeEvent doUserEvent doAclEvent is_delete RemoveBridge Cluster_RemoveUser Cluster_RemoveAcl
      set_bridge set_auth set_acl nd_auth nd_acl nd_bridge user_Name]; split_and!;
    try (intros; rewrite delete_elsewhere by done; eauto; fail).
  - intros kk Hkk key. cbn in Hkk. destruct (nd_bridge n) as [k0|] eqn:Hb; [|done]. injection Hkk as <-.
    rewrite <- (bind_Some_id (_ !! entry _ key)), RemoveObj_delete. apply (lookup_del_same Some m KBridge).
    intros j. rewrite bind_Some_id. by apply Hs3.
  - intros j. cbn. rewrite RemoveUser_delete. by apply (lookup_del_same Unmarshal m KUser).
  - intros tbl Ht. cbn in Ht. destruct (nd_acl n) as [t0|] eqn:Hb; [|done]. injection Ht as <-.
    rewrite RemoveAcl_delete. apply (lookup_del_same Unmarshal m KAcl). by apply Hs2.
Qed.

(** Only a subscription's event can fail, and only one that removes. *)
Lemma deliver_total bid k ty name v n :
  k ≠ KSubscription ∨ ty ≠ EventTypeDelete → is_Some (deliver_one D bid (Some n) (mkKvEvent ty (entry (dir_of D k) name) v)).
Proof.
  intros Hk. unfold deliver_one. cbn [mbind option_bind]. rewrite watch_one_kind.
  destruct k; unfold doWatchWithClient, doWatchWithSubscription, doWatchWithUser, doWatchWithAcl;
    try (destruct (event_value _); cbn [mbind option_bind]; [|by eexists]); try case_decide; try by eexists.
  destruct Hk as [Hk|Hk]; [done|]. cbn. unfold doSubscriptionEvent.
  destruct ty; [by eexists|by eexists|done].
Qed.

Definition deleted (k : kind) (names : list string) : list kv_event :=
  map (λ name, mkKvEvent EventTypeDelete (entry (dir_of D k) name) "") names.

Lemma deliver_None bid evs : foldl (deliver_one D bid) None evs = None.
Proof. by induction evs. Qed.

Lemma deletes_synced bid k names : ∀ n n' m,
  synced n m → deliver D bid (deleted k names) n = Some n' →
  synced n' (foldl (λ m name, delete (entry (dir_of D k) name) m) m names).
Proof.
  induction names as [|name names IH]; intros n n' m Hs Hd; cbn.
  - unfold deliver in Hd. cbn in Hd. by injection Hd as <-.
  - unfold deliver in Hd. cbn [deleted map foldl] in Hd.
    destruct (deliver_one D bid (Some n) _) as [n1|] eqn:Hn1; [|by rewrite deliver_None in Hd].
    eapply IH; [|exact Hd]. by eapply delete_event_synced.
Qed.

Lemma deletes_total bid k names : ∀ n, k ≠ KSubscription → is_Some (deliver D bid (deleted k names) n).
Proof.
  induction names as [|name names IH]; intros n Hk; [by eexists|]. unfold deliver. cbn [deleted map foldl].
  destruct (deliver_total bid k EventTypeDelete name "" n (or_introl Hk)) as [n1 ->]. by apply IH.
Qed.

Lemma foldl_delete_lookup k (m : gmap string string) names j :
  foldl (λ m name, delete (entry (dir_of D k) name) m) m names !! j =
    if decide (j ∈ map (entry (dir_of D k)) names) then None else m !! j.
Proof.
  revert m. induction names as [|nm names IH]; intros m; cbn [foldl map].
  - rewrite decide_False; [done|]. by intros ?%elem_of_nil.
  - rewrite IH. case_decide as Ha; case_decide as Hb; try done; rewrite elem_of_cons in Hb.
    + tauto.
    + destruct Hb as [->|]; [by rewrite lookup_delete_eq|done].
    + apply lookup_delete_ne. intros <-. tauto.
Qed.

(** A removal deletes exactly the keys it reports. *)
Lemma removal_names (m : gmap string string) k name evs :
  evs ≡ₚ map (λ e, mkKvEvent EventTypeDelete e.1 "") (map_to_list (under (entry (dir_of D k) name) m)) →
  ∃ names, evs = deleted k names
    ∧ outside (entry (dir_of D k) name) m = foldl (λ m name, delete (entry (dir_of D k) name) m) m names.
Proof.
  intros Hp.
  assert (Hall : Forall (λ ev, ∃ nm, ev = mkKvEvent EventTypeDelete (entry (dir_of D k) nm) "") evs).
  { rewrite Hp. apply Forall_map, Forall_forall. intros [k0 v] Hin.
    apply elem_of_map_to_list, map_lookup_filter_Some in Hin as [_ Hpre].
    apply under_entry in Hpre as [x Hx]. cbn. rewrite <- Hx || (cbn in Hx; subst k0). by eexists. }
  assert (∃ names, evs = deleted k names) as [names ->].
  { clear Hp. induction Hall as [|ev evs (nm & ->) _ (names & ->)]; [by exists []|]. by exists (nm :: names). }
  exists names. split; [done|]. apply map_eq. intros j.
  assert (Hin : ∀ nm, nm ∈ names ↔ is_Some (under (entry (dir_of D k) name) m !! entry (dir_of D k) nm)).
  { intros nm. transitivity (mkKvEvent EventTypeDelete (entry (dir_of D k) nm) "" ∈ deleted k names).
    - unfold deleted. rewrite list_elem_of_fmap. split; [by eexists|]. intros (y & Hy & ?).
      injection Hy as Hy. by apply entry_inj in Hy as ->.
    - rewrite Hp, list_elem_of_fmap. split.
      + intros ([k1 v1] & He & Hm). injection He as He. cbn in He. subst k1.
        apply elem_of_map_to_list in Hm. by eexists.
      + intros [v Hv]. exists (entry (dir_of D k) nm, v). split; [done|]. by apply elem_of_map_to_list. }
  rewrite foldl_delete_lookup. unfold outside, under in *. case_decide as Hj.
  - apply map_lookup_filter_None. right. intros v Hv. apply list_elem_of_fmap in Hj as (nm & -> & Hnm).
    apply Hin in Hnm as [v' Hv']. apply map_lookup_filter_Some in Hv' as [_ Hpre]. cbn in *. congruence.
  - destruct (m !! j) as [v|] eqn:Hv; [|by apply map_lookup_filter_None; left].
    apply map_lookup_filter_Some. split; [done|]. cbn. apply not_true_is_false. intros Hpre. apply Hj.
    pose proof Hpre as Hpre'. apply under_entry in Hpre' as [x ->].
    apply list_elem_of_fmap. exists (String.append name x). split; [done|]. apply Hin. exists v. by apply map_lookup_filter_Some.
Qed.

(** The requests of any nodes, in the order in which the store takes them, and the
    events the watches see; a request that fails is one that changes nothing. *)
Fixpoint run_ops (ops : list cluster_op) (t : T) : T * list kv_event :=
  match ops with
  | [] => (t, [])
  | op :: ops =>
      match run_op op t with
      | None => run_ops ops t
      | Some (t, evs) => let '(t', evs') := run_ops ops t in (t', evs ++ evs')
      end
  end.

Lemma run_op_synced bid op t t' evs n n' :
  op_ok op → run_op op t = Some (t', evs) → synced n (kv t) → deliver D bid evs n = Some n' → synced n' (kv t').
Proof.
  intros Hok Hr Hs Hd. apply run_op_cases in Hr as [(k & name & data & ty & Hfit & Hty & Hkv & ->)|(k & name & _ & Hkv & Hp)];
    [| |done]; rewrite Hkv.
  - by eapply put_event_synced.
  - apply removal_names in Hp as (names & -> & ->). by eapply deletes_synced.
Qed.

Lemma run_op_total bid op t t' evs n :
  op_ok op → removes_subscription op = false → run_op op t = Some (t', evs) → is_Some (deliver D bid evs n).
Proof.
  intros Hok Hrm Hr. apply run_op_cases in Hr as [(k & name & data & ty & _ & Hty & _ & ->)|(k & name & Hk & _ & Hp)]; [| |done].
  - apply deliver_total. by right.
  - apply removal_names in Hp as (names & -> & _). apply deletes_total. intros Hks. apply Hk in Hks. congruence.
Qed.

(** Whatever the nodes ask of the store, and however late a node's watch is, the node
    that has handled the events has the tables of the store. *)
Theorem tables_replicated bid ops t t' evs n :
  Forall op_ok ops → run_ops ops t = (t', evs) → synced n (kv t) →
  (∀ n', deliver D bid evs n = Some n' → synced n' (kv t'))
  ∧ (forallb (λ op, negb (removes_subscription op)) ops = true → is_Some (deliver D bid evs n)).
Proof.
  intros Hok. revert t evs n. induction Hok as [|op ops Hop Hok IH]; intros t evs n Hr Hs; cbn [run_ops] in Hr.
  { injection Hr as <- <-. split; [intros n' Hd; by injection Hd as <-|by eexists]. }
  destruct (run_op op t) as [[t1 evs1]|] eqn:Hop1; cycle 1.
  { destruct (IH t evs n Hr Hs) as [IH1 IH2]. split; [done|]. intros [_ Hall]%andb_true_iff. auto. }
  destruct (run_ops ops t1) as [t2 evs2] eqn:Hops. injection Hr as <- <-. unfold deliver. rewrite foldl_app.
  change (foldl (deliver_one D bid) (Some n) evs1) with (deliver D bid evs1 n).
  destruct (deliver D bid evs1 n) as [n1|] eqn:Hd1.
  - destruct (IH t1 evs2 n1 Hops) as [IH1 IH2]; [by eapply run_op_synced|].
    split; [exact IH1|]. intros [_ Hall]%andb_true_iff. auto.
  - rewrite deliver_None. split; [done|]. intros [Hrm%negb_true_iff _]%andb_true_iff. exfalso.
    destruct (run_op_total bid op t t1 evs1 n) as [x Hx]; [done..|]. congruence.
Qed.

(** *** Loading *)

(** What the requests leave in the store: below a directory there are only entries,
    whose values fit their names. *)
Definition wf_store (m : gmap string string) : Prop :=
  ∀ k key v, m !! key = Some v → has_prefix key (dir_of D k) = true →
  ∃ name, key = entry (dir_of D k) name ∧ put_fits k name v.

Lemma run_op_wf op t t' evs :
  op_ok op → run_op op t = Some (t', evs) → wf_store (kv t) → wf_store (kv t').
Proof.
  intros Hok Hr Hwf. apply run_op_cases in Hr as [(k & name & data & ty & Hfit & _ & Hkv & _)|(k & name & _ & Hkv & _)];
    [| |done]; rewrite Hkv; intros k' key v Hl Hpre.
  - apply lookup_insert_Some in Hl as [[<- <-]|[_ Hl]]; [|by apply Hwf].
    destruct (decide (k' = k)) as [->|Hne]; [by exists name|].
    rewrite dirs_apart in Hpre by congruence. done.
  - apply map_lookup_filter_Some in Hl as [Hl _]. by apply Hwf.
Qed.

Lemma run_ops_wf ops : ∀ t t' evs,
  Forall op_ok ops → run_ops ops t = (t', evs) → wf_store (kv t) → wf_store (kv t').
Proof.
  induction ops as [|op ops IH]; intros t t' evs Hok Hr Hwf; cbn [run_ops] in Hr; [by injection Hr as <- _|].
  inversion_clear Hok as [|? ? Hop Hops]. destruct (run_op op t) as [[t1 evs1]|] eqn:Hop1; [|by eapply IH].
  destruct (run_ops ops t1) as [t2 evs2] eqn:Hops2. injection Hr as <- _.
  eapply IH; [done|exact Hops2|]. by eapply run_op_wf.
Qed.

(** The loop that fills a table from the entries of a directory. *)
Lemma fold_entries {A} (dir : string) (f : gmap string A → string * string → gmap string A)
    (g : string → option A) l name : ∀ acc,
  NoDup l.*1 →
  (∀ key v, (key, v) ∈ l → ∃ nm, key = entry dir nm
     ∧ ∀ m, f m (key, v) = match g v with Some o => <[nm := o]> m | None => m end) →
  foldl f acc l !! name =
    match (list_to_map l : gmap string string) !! entry dir name ≫= g with Some o => Some o | None => acc !! name end.
Proof.
  induction l as [|[key v] l IH]; intros acc Hnd Hf; [done|]. cbn [fmap list_fmap fst] in Hnd.
  apply NoDup_cons in Hnd as [Hnin Hnd]. cbn [foldl list_to_map foldr]. rewrite IH; [|done|].
  2: { intros. apply Hf. by right. }
  destruct (Hf key v) as (nm & -> & Hm); [by left|]. rewrite Hm. cbn.
  destruct (decide (nm = name)) as [->|Hne].
  - rewrite lookup_insert_eq, not_elem_of_list_to_map_1 by done. cbn. destruct (g v); [by rewrite lookup_insert_eq|done].
  - rewrite lookup_insert_ne by (intros He; by apply entry_inj in He).
    destruct (_ ≫= g); [done|]. destruct (g v); [by rewrite lookup_insert_ne|done].
Qed.

Lemma fold_dir {A} k (f : gmap string A → string * string → gmap string A) (g : string → option A)
    (t : T) l name :
  OpGetPrefix (dir_of D k) t = Some l →
  (∀ key v, kv t !! key = Some v → has_prefix key (dir_of D k) = true → ∃ nm, key = entry (dir_of D k) nm
     ∧ ∀ m, f m (key, v) = match g v with Some o => <[nm := o]> m | None => m end) →
  foldl f ∅ l !! name = (v ← kv t !! entry (dir_of D k) name; g v).
Proof.
  intros Hl Hf. apply get_prefix_ok in Hl.
  assert (Hnd : NoDup l.*1) by (rewrite Hl; apply NoDup_fst_map_to_list).
  rewrite (fold_entries (dir_of D k) f g); [|done|].
  - rewrite lookup_empty.
    assert ((list_to_map l : gmap string string) = under (dir_of D k) (kv t)) as ->.
    { rewrite (list_to_map_proper l (map_to_list (under (dir_of D k) (kv t)))) by done. apply list_to_map_to_list. }
    assert (under (dir_of D k) (kv t) !! entry (dir_of D k) name = kv t !! entry (dir_of D k) name) as ->.
    { unfold under. rewrite map_lookup_filter. destruct (kv t !! _); [|done]. cbn.
      by rewrite option_guard_True by apply has_prefix_entry. }
    by destruct (_ ≫= g).
  - intros key v Hin. rewrite Hl in Hin. apply elem_of_map_to_list, map_lookup_filter_Some in Hin as [Hk Hpre].
    by apply Hf.
Qed.

Lemma collect_dir {A} `{Json A} k (id : A → string) t l name :
  OpGetPrefix (dir_of D k) t = Some l →
  (∀ nm v, kv t !! entry (dir_of D k) nm = Some v → ∀ o, Unmarshal v = Some o → id o = nm) →
  wf_store (kv t) →
  collect id l !! name = (v ← kv t !! entry (dir_of D k) name; Unmarshal v).
Proof.
  intros Hl Hid Hwf. apply (fold_dir k); [done|]. intros key v Hk Hpre.
  destruct (Hwf k key v Hk Hpre) as (nm & -> & _). exists nm. split; [done|]. intros m. cbn.
  destruct (Unmarshal v) as [o|] eqn:Ho; [|done]. by rewrite (Hid nm v).
Qed.

Lemma split_on_app sep a b :
  split_on sep (String.append a (String sep b)) = split_on sep a ++ split_on sep b.
Proof.
  induction a as [|c a IH].
  - change (String.append "" (String sep b)) with (String sep b). cbn [split_on]. by rewrite decide_True.
  - change (String.append (String c a) (String sep b)) with (String c (String.append a (String sep b))).
    cbn [split_on]. rewrite IH. pose proof (split_on_nonempty sep a).
    case_decide; [done|]. by destruct (split_on sep a).
Qed.

Lemma last_part_entry dir key : contains_byte SLASH key = false → last_part (entry dir key) = key.
Proof.
  intros Hk. unfold last_part, entry, split_slash. rewrite split_on_app, (split_on_plain _ key) by done.
  apply last_last.
Qed.

(** No bridge's filter has a second level. *)
Definition flat_bridges (m : gmap string string) : Prop :=
  ∀ key v, m !! entry (dir_of D KBridge) key = Some v → contains_byte SLASH key = false.

Lemma collect_users t l name :
  wf_store (kv t) → OpGetPrefix (userDir D) t = Some l →
  collect user_Name l !! name = (v ← kv t !! entry (dir_of D KUser) name; Unmarshal v).
Proof.
  intros Hwf Hl. apply (collect_dir KUser); [done| |done]. intros nm v Hv o Ho.
  destruct (Hwf KUser _ v Hv (has_prefix_entry _ _)) as (nm' & He & u & Hu & <- & _).
  apply entry_inj in He. congruence.
Qed.

Lemma collect_acls t l name :
  wf_store (kv t) → OpGetPrefix (aclDir D) t = Some l →
  collect acl_ID l !! name = (v ← kv t !! entry (dir_of D KAcl) name; Unmarshal v).
Proof.
  intros Hwf Hl. apply (collect_dir KAcl); [done| |done]. intros nm v Hv o Ho.
  destruct (Hwf KAcl _ v Hv (has_prefix_entry _ _)) as (nm' & He & a & Ha & <- & _).
  apply entry_inj in He. congruence.
Qed.

Lemma collect_bridges t l key :
  wf_store (kv t) → flat_bridges (kv t) → OpGetPrefix (bridgeDir D) t = Some l →
  foldl (λ (m : gmap string string) e, <[last_part e.1 := e.2]> m) ∅ l !! key
    = kv t !! entry (dir_of D KBridge) key.
Proof.
  intros Hwf Hflat Hl. rewrite <- (bind_Some_id (kv t !! _)).
  apply (fold_dir KBridge _ Some); [done|]. intros key' v Hv Hpre.
  destruct (Hwf KBridge _ v Hv Hpre) as (nm & -> & _). exists nm. split; [done|].
  intros m. cbn [fst snd]. rewrite last_part_entry; [done|]. by eapply Hflat.
Qed.

(** A node as it starts. *)
Definition fresh_tables (n : node) : Prop :=
  nd_auth n = ∅ ∧ (∀ tbl, nd_acl n = Some tbl → tbl = ∅) ∧ (∀ k, nd_bridge n = Some k → deliverMap k = ∅).

(** The three loads of [Start]. *)
Definition load_tables `{Bcrypt} (salt : list byte) (now : Z) (t : T) (n : node) : node :=
  LoadAcls D t (LoadUsers D salt now t (LoadBridges D t n)).1.

(** A node that starts when the cluster has already worked for a while loads the
    tables of the store, as far as the bridges have single-level filters. *)
Theorem load_synced `{Bcrypt} salt now ops t0 t evs n :
  kv t0 = ∅ → Forall op_ok ops → run_ops ops t0 = (t, evs) → flat_bridges (kv t) → fresh_tables n →
  is_Some (OpGetPrefix (bridgeDir D) t) → is_Some (OpGetPrefix (userDir D) t) → is_Some (OpGetPrefix (aclDir D) t) →
  synced (load_tables salt now t n) (kv t).
Proof.
  intros H0' Hok Hr Hflat (Hfu & Hfa & Hfb) [lb Hlb] [lu Hlu] [la Hla].
  assert (Hwf : wf_store (kv t)).
  { eapply run_ops_wf; [done|exact Hr|]. rewrite H0'. intros k key v Hl. by rewrite lookup_empty in Hl. }
  unfold load_tables, LoadAcls, LoadUsers, LoadBridges, GetAcls, GetUsers, GetBridges, get_objects, etcdStore_All.
  rewrite Hlb, Hlu, Hla. cbn [mbind option_bind fst set_acl set_auth set_bridge nd_acl nd_auth nd_bridge].
  split_and!; cbn [set_acl set_auth set_bridge nd_acl nd_auth nd_bridge].
  - intros name. rewrite <- (collect_users t lu), Hfu by done. by destruct lu.
  - intros tbl Ht id. rewrite <- (collect_acls t la) by done.
    destruct (nd_acl n) as [t1|] eqn:He; [|done]. injection Ht as <-.
    rewrite (Hfa t1) by done. by destruct la.
  - intros k Hk key. rewrite <- (collect_bridges t lb) by done.
    destruct (nd_bridge n) as [k1|] eqn:He; [|done]. injection Hk as <-.
    pose proof (Hfb k1 eq_refl) as Hb. destruct lb; cbn; [by rewrite Hb|done].
Qed.

(** *** The leader's clean-up *)

(** The keys that stay when all keys below some are removed. *)
Definition gone (ks : list string) (m : gmap string string) : gmap string string :=
  foldl (λ m p, outside p m) m ks.

Lemma gone_Some ks : ∀ m key v,
  gone ks m !! key = Some v ↔ m !! key = Some v ∧ ∀ p, p ∈ ks → has_prefix key p = false.
Proof.
  induction ks as [|p ks IH]; intros m key v; cbn [gone foldl].
  - split; [|by intros [? _]]. intros Hm. split; [done|]. by intros p ?%elem_of_nil.
  - change (foldl _ _ ks) with (gone ks (outside p m)). rewrite IH. unfold outside.
    rewrite map_lookup_filter_Some. cbn. split.
    + intros [[Hm Hp] Hks]. split; [done|]. by intros q [->|Hq]%elem_of_cons; [|apply Hks].
    + intros [Hm Hks]. split; [split; [done|]|]; intros; apply Hks; by constructor.
Qed.

(** The store answers. *)
Definition answers : Prop :=
  (∀ key (t : T), is_Some (OpDeletePrefix key t)) ∧ (∀ dir (t : T), is_Some (OpGetPrefix dir t)).

Lemma try_delete key t : answers →
  (try_request (etcdStore_Del key) t).2 = true ∧ kv (try_request (etcdStore_Del key) t).1 = outside key (kv t).
Proof.
  intros [Hdel _]. destruct (Hdel key t) as [[t' evs] He]. unfold try_request, etcdStore_Del. rewrite He.
  split; [done|]. by apply delete_ok in He as [? _].
Qed.

(** The keys the two loops remove. *)
Definition dead_clients (nodes : gmap string Node) (l : list (string * Info)) : list string :=
  map (λ e, entry (dir_of D KClient) e.1) (filter (λ e, nodes !! info_NodeID e.2 = None) l).
Definition orphans (clients : gmap string Info) (l : list (string * Subscription)) : list string :=
  map (λ e, entry (dir_of D KSubscription) (GetID md5_hex (msub_Topic e.2) (msub_ClientID e.2)))
    (filter (λ e, clients !! msub_ClientID e.2 = None) l).

Lemma drop_clients_gone nodes l : ∀ t ch, answers →
  kv (foldl (drop_client D nodes) (t, ch) l).1 = gone (dead_clients nodes l) (kv t)
  ∧ ((foldl (drop_client D nodes) (t, ch) l).2 = false → dead_clients nodes l = []).
Proof.
  induction l as [|e l IH]; intros t ch Hans; [done|]. cbn [foldl drop_client]. unfold dead_clients.
  rewrite filter_cons. destruct (nodes !! info_NodeID e.2) as [nd|] eqn:Hn.
  - rewrite decide_False by done. by apply IH.
  - rewrite decide_True by done. unfold StoreRemoveClient.
    pose proof (try_delete (entry (dir_of D KClient) e.1) t Hans) as [Ht Hk].
    cbn [dir_of] in *. destruct (try_request _ t) as [t1 ok] eqn:He. cbn [fst snd] in Ht, Hk. subst ok.
    rewrite orb_true_r. destruct (IH t1 true Hans) as [IH1 IH2]. cbn [map gone foldl]. split.
    + rewrite IH1, Hk. done.
    + intros Hf. exfalso. clear -Hf. enough (∀ t, (foldl (drop_client D nodes) (t, true) l).2 = true) by congruence.
      clear. induction l as [|e l IH]; intros t; [done|]. cbn [foldl drop_client].
      destruct (_ !! _); [apply IH|]. destruct (try_request _ _). apply IH.
Qed.

Lemma drop_subs_gone cl l : ∀ t, answers →
  kv (foldl (drop_subscription md5_hex D cl) t l) = gone (orphans cl l) (kv t).
Proof.
  induction l as [|e l IH]; intros t Hans; [done|]. cbn [foldl]. unfold orphans.
  rewrite filter_cons, IH by done. unfold drop_subscription. destruct (cl !! msub_ClientID e.2) as [i|] eqn:Hn.
  - by rewrite decide_False by done.
  - rewrite decide_True by done. unfold StoreRemoveSubscription.
    destruct (try_delete (entry (subscriptionDir D) (GetID md5_hex (msub_Topic e.2) (msub_ClientID e.2))) t Hans) as [_ Hk].
    rewrite Hk. done.
Qed.

(** What the nodes keep in the store can be read. *)
Definition registry_ok (m : gmap string string) : Prop :=
  wf_store m
  ∧ (∀ name v, m !! entry (dir_of D KNode) name = Some v → ∃ nd : Node, Unmarshal v = Some nd ∧ node_ID nd = name)
  ∧ (∀ name v, m !! entry (dir_of D KClient) name = Some v → ∃ i : Info, Unmarshal v = Some i ∧ info_ID i = name)
  ∧ (∀ name v, m !! entry (dir_of D KSubscription) name = Some v → ∃ sb : Subscription,
       Unmarshal v = Some sb ∧ msub_ID sb = name ∧ GetID md5_hex (msub_Topic sb) (msub_ClientID sb) = name).

Lemma registry_sub m m' : registry_ok m → m' ⊆ m → registry_ok m'.
Proof.
  intros (Hw & Hn & Hc & Hs) Hsub. split_and!.
  - intros k key v Hk. apply Hw. by eapply lookup_weaken.
  - intros name v Hk. apply Hn. by eapply lookup_weaken.
  - intros name v Hk. apply Hc. by eapply lookup_weaken.
  - intros name v Hk. apply Hs. by eapply lookup_weaken.
Qed.

Lemma gone_sub ks m : gone ks m ⊆ m.
Proof. apply map_subseteq_spec. intros key v Hk. by apply gone_Some in Hk as [? _]. Qed.

Lemma get_dir {A} `{Json A} k (id : A → string) t :
  answers → wf_store (kv t) →
  (∀ nm v, kv t !! entry (dir_of D k) nm = Some v → ∃ o, Unmarshal v = Some o ∧ id o = nm) →
  ∃ o, get_objects (dir_of D k) id t = Some o
    ∧ ∀ name, default ∅ o !! name = (v ← kv t !! entry (dir_of D k) name; Unmarshal v).
Proof.
  intros [_ Hans] Hwf Hid. destruct (Hans (dir_of D k) t) as [l Hl]. unfold get_objects, etcdStore_All. rewrite Hl. cbn.
  eexists. split; [done|]. intros name. rewrite <- (collect_dir k id t l name Hl); [by destruct l| |done].
  intros nm v Hv o Ho. destruct (Hid nm v Hv) as (o' & Ho' & ?). congruence.
Qed.

Lemma has_prefix_dir key k name : has_prefix key (entry (dir_of D k) name) = true → has_prefix key (dir_of D k) = true.
Proof. intros [x ->]%under_entry. apply has_prefix_entry. Qed.

(** The table [tbl] is the directory of the kind [k] in the store [m]. *)
Definition reads {A} `{Json A} (k : kind) (m : gmap string string) (tbl : gmap string A) : Prop :=
  ∀ name, tbl !! name = (v ← m !! entry (dir_of D k) name; Unmarshal v).

Lemma manager_turn_gone t :
  answers → registry_ok (kv t) →
  ∃ (nodes : gmap string Node) (cls cls' : gmap string Info) (subs : gmap string Subscription),
    let m1 := gone (dead_clients nodes (map_to_list cls)) (kv t) in
    reads KNode (kv t) nodes ∧ reads KClient (kv t) cls ∧ reads KClient m1 cls' ∧ reads KSubscription m1 subs
    ∧ kv (manager_turn md5_hex D t) = gone (orphans cls' (map_to_list subs)) m1.
Proof.
  intros Hans Hreg. pose proof Hreg as (Hwf & Hn & Hc & _).
  unfold manager_turn, GetNodes, GetClients, GetSubscriptions.
  change (nodeDir D) with (dir_of D KNode). change (clientDir D) with (dir_of D KClient).
  change (subscriptionDir D) with (dir_of D KSubscription).
  destruct (get_dir KNode node_ID t Hans Hwf Hn) as (nodes & -> & Hnodes).
  destruct (get_dir KClient info_ID t Hans Hwf Hc) as (cls & -> & Hcls).
  pose proof (drop_clients_gone (default ∅ nodes) (map_to_list (default ∅ cls)) t false Hans) as [Hk1 Hch].
  destruct (foldl _ _ _) as [t1 ch]. cbn [fst snd] in Hk1, Hch.
  assert (Hreg1 : registry_ok (kv t1)) by (rewrite Hk1; eapply registry_sub; [exact Hreg|apply gone_sub]).
  destruct Hreg1 as (Hwf1 & _ & Hc1 & Hs1).
  assert (∃ cls', (if ch then get_objects (dir_of D KClient) info_ID t1 else Some cls) = Some cls'
    ∧ reads KClient (kv t1) (default ∅ cls')) as (cls' & -> & Hcls').
  { destruct ch; [by apply get_dir|]. exists cls. split; [done|]. intros name. rewrite Hk1, Hch by done. apply Hcls. }
  destruct (get_dir KSubscription msub_ID t1 Hans Hwf1) as (subs & -> & Hsubs).
  { intros nm v Hv. destruct (Hs1 nm v Hv) as (sb & ? & ? & _). by exists sb. }
  exists (default ∅ nodes), (default ∅ cls), (default ∅ cls'), (default ∅ subs). cbn zeta. rewrite <- Hk1.
  split_and!; [done..|]. by apply drop_subs_gone.
Qed.

Lemma gone_None ks m key v :
  m !! key = Some v → gone ks m !! key = None → ∃ p, p ∈ ks ∧ has_prefix key p = true.
Proof.
  intros Hm Hg. destruct (decide (Exists (λ p, has_prefix key p = true) ks)) as [He|He].
  { apply Exists_exists in He as (p & ? & ?). by exists p. }
  exfalso. enough (gone ks m !! key = Some v) by congruence. apply gone_Some. split; [done|].
  intros p Hp. apply not_true_is_false. intros Ht. apply He, Exists_exists. by exists p.
Qed.

Lemma gone_other ks m k name :
  (∀ p, p ∈ ks → ∃ k' nm, k' ≠ k ∧ p = entry (dir_of D k') nm) →
  gone ks m !! entry (dir_of D k) name = m !! entry (dir_of D k) name.
Proof.
  intros Hks. destruct (m !! entry (dir_of D k) name) as [v|] eqn:Hm.
  - apply gone_Some. split; [done|]. intros p Hp. destruct (Hks p Hp) as (k' & nm & Hne & ->).
    apply not_true_is_false. intros Ht%has_prefix_dir. rewrite dirs_apart in Ht by congruence. done.
  - destruct (gone ks m !! _) eqn:Hg; [|done]. apply gone_Some in Hg as [? _]. congruence.
Qed.

Lemma elem_of_dead nodes (cls : gmap string Info) p :
  p ∈ dead_clients nodes (map_to_list cls) ↔
  ∃ name i, p = entry (dir_of D KClient) name ∧ cls !! name = Some i ∧ nodes !! info_NodeID i = None.
Proof.
  unfold dead_clients. rewrite list_elem_of_fmap. split.
  - intros ([name i] & -> & [Hd Hin]%list_elem_of_filter). apply elem_of_map_to_list in Hin. by exists name, i.
  - intros (name & i & -> & Hc & Hd). exists (name, i). split; [done|].
    apply list_elem_of_filter. split; [done|]. by apply elem_of_map_to_list.
Qed.

Lemma elem_of_orphans cls (subs : gmap string Subscription) p :
  p ∈ orphans cls (map_to_list subs) ↔
  ∃ name sb, p = entry (dir_of D KSubscription) (GetID md5_hex (msub_Topic sb) (msub_ClientID sb))
    ∧ subs !! name = Some sb ∧ cls !! msub_ClientID sb = None.
Proof.
  unfold orphans. rewrite list_elem_of_fmap. split.
  - intros ([name sb] & -> & [Hd Hin]%list_elem_of_filter). apply elem_of_map_to_list in Hin. by exists name, sb.
  - intros (name & sb & -> & Hc & Hd). exists (name, sb). split; [done|].
    apply list_elem_of_filter. split; [done|]. by apply elem_of_map_to_list.
Qed.

Lemma has_prefix_self k name : has_prefix (entry (dir_of D k) name) (entry (dir_of D k) name) = true.
Proof. apply under_entry. exists ""%string. by rewrite append_empty_r. Qed.

Lemma reads_Some {A} `{Json A} k m (tbl : gmap string A) name o :
  reads k m tbl → tbl !! name = Some o → ∃ v, m !! entry (dir_of D k) name = Some v ∧ Unmarshal v = Some o.
Proof. intros Hr. rewrite Hr. apply bind_Some. Qed.

Lemma reads_None {A} `{Json A} k m (tbl : gmap string A) name :
  reads k m tbl → (∀ v, m !! entry (dir_of D k) name = Some v → ∃ o : A, Unmarshal v = Some o) →
  tbl !! name = None → m !! entry (dir_of D k) name = None.
Proof.
  intros Hr Hok. rewrite Hr. destruct (m !! _) as [v|]; [|done]. destruct (Hok v eq_refl) as [o Ho]. cbn. rewrite Ho. done.
Qed.

Section Turn.
Context (m : gmap string string) (Hreg : registry_ok m).
Context (nodes : gmap string Node) (cls cls' : gmap string Info) (subs : gmap string Subscription).
Let m1 := gone (dead_clients nodes (map_to_list cls)) m.
Let m2 := gone (orphans cls' (map_to_list subs)) m1.
Context (Hnodes : reads KNode m nodes) (Hcls : reads KClient m cls).
Context (Hcls' : reads KClient m1 cls') (Hsubs : reads KSubscription m1 subs).

Lemma m1_registry : registry_ok m1.
Proof. eapply registry_sub; [exact Hreg|apply gone_sub]. Qed.

Lemma m1_other k name : k ≠ KClient → m1 !! entry (dir_of D k) name = m !! entry (dir_of D k) name.
Proof.
  intros Hk. apply gone_other. intros p (nm & i & -> & _)%elem_of_dead. exists KClient, nm. split; congruence.
Qed.

Lemma m2_other k name : k ≠ KSubscription → m2 !! entry (dir_of D k) name = m1 !! entry (dir_of D k) name.
Proof.
  intros Hk. apply gone_other. intros p (nm & sb & -> & _)%elem_of_orphans. eexists KSubscription, _.
  split; [congruence|reflexivity].
Qed.

Lemma clients_cleaned name v i :
  m2 !! entry (dir_of D KClient) name = Some v → Unmarshal v = Some i →
  is_Some (m2 !! entry (dir_of D KNode) (info_NodeID i)).
Proof.
  intros Hv Hi. rewrite m2_other in Hv |- * by done. rewrite m1_other by done.
  apply gone_Some in Hv as [Hv Hdead]. destruct (nodes !! info_NodeID i) as [nd|] eqn:Hnd.
  { apply (reads_Some KNode m) in Hnd as (w & Hw & _); [|done]. by rewrite Hw. }
  exfalso. enough (has_prefix (entry (dir_of D KClient) name) (entry (dir_of D KClient) name) = false)
    by (rewrite has_prefix_self in *; done).
  apply Hdead, elem_of_dead. exists name, i. split_and!; [done| |done]. by rewrite Hcls, Hv.
Qed.

Lemma sub_key name sb :
  subs !! name = Some sb → GetID md5_hex (msub_Topic sb) (msub_ClientID sb) = name
  ∧ ∃ v, m1 !! entry (dir_of D KSubscription) name = Some v ∧ Unmarshal v = Some sb.
Proof.
  intros Hsb. apply (reads_Some KSubscription m1) in Hsb as (v & Hv & Hsb); [|done].
  destruct m1_registry as (_ & _ & _ & Hs1). destruct (Hs1 name v Hv) as (sb' & Hsb' & _ & Hid).
  rewrite Hsb in Hsb'. injection Hsb' as <-. eauto.
Qed.

Lemma subs_cleaned name v sb :
  m2 !! entry (dir_of D KSubscription) name = Some v → Unmarshal v = Some sb →
  is_Some (m2 !! entry (dir_of D KClient) (msub_ClientID sb)).
Proof.
  intros Hv Hsb. rewrite m2_other by done. apply gone_Some in Hv as [Hv Hor].
  assert (Hin : subs !! name = Some sb) by (by rewrite Hsubs, Hv).
  destruct (cls' !! msub_ClientID sb) as [i|] eqn:Hi.
  { apply (reads_Some KClient m1) in Hi as (w & Hw & _); [|done]. by rewrite Hw. }
  exfalso. enough (has_prefix (entry (dir_of D KSubscription) name) (entry (dir_of D KSubscription) name) = false)
    by (rewrite has_prefix_self in *; done).
  apply Hor, elem_of_orphans. exists name, sb. by rewrite (proj1 (sub_key name sb Hin)).
Qed.

Lemma removed_reason key v :
  m !! key = Some v → m2 !! key = None →
  ∃ k name w, m !! entry (dir_of D k) name = Some w ∧ has_prefix key (entry (dir_of D k) name) = true
    ∧ ((k = KClient ∧ ∀ i, Unmarshal w = Some i → m !! entry (dir_of D KNode) (info_NodeID i) = None)
       ∨ (k = KSubscription ∧ ∀ sb, Unmarshal w = Some sb → m2 !! entry (dir_of D KClient) (msub_ClientID sb) = None)).
Proof.
  intros Hv Hv2. destruct (m1 !! key) as [w|] eqn:Hw.
  - destruct (gone_None _ _ _ _ Hw Hv2) as (p & (name & sb & -> & Hsb & Hor)%elem_of_orphans & Hpre).
    destruct (sub_key name sb Hsb) as (Hid & ws & Hws & Hu). rewrite Hid in Hpre.
    exists KSubscription, name, ws. rewrite <- m1_other by done. split_and!; [done|done|]. right. split; [done|].
    intros sb' Hsb'. assert (sb' = sb) as -> by congruence. rewrite m2_other by done.
    apply (reads_None KClient m1 cls'); [done| |done]. intros vc Hvc.
    destruct m1_registry as (_ & _ & Hc1 & _). destruct (Hc1 _ _ Hvc) as (i & Hi & _). by exists i.
  - destruct (gone_None _ _ _ _ Hv Hw) as (p & (name & i & -> & Hi & Hd)%elem_of_dead & Hpre).
    apply (reads_Some KClient m) in Hi as (wi & Hwi & Hi); [|done].
    exists KClient, name, wi. split_and!; [done|done|]. left. split; [done|]. intros i' Hi'.
    assert (i' = i) as -> by congruence. apply (reads_None KNode m nodes); [done| |done]. intros vn Hvn.
    destruct Hreg as (_ & Hn & _). destruct (Hn _ _ Hvn) as (nd & Hnd & _). by exists nd.
Qed.
End Turn.

(** C32: A turn of the leader whose requests work: every client that is left is a client of
    a registered node, every subscription that is left is a subscription of a client
    that is left, and what is removed lies below the key of a client without a node or
    of a subscription without a client. *)
Theorem manager_cleans t :
  answers → registry_ok (kv t) →
  let m' := kv (manager_turn md5_hex D t) in
  (∀ name v i, m' !! entry (dir_of D KClient) name = Some v → Unmarshal v = Some i →
     is_Some (m' !! entry (dir_of D KNode) (info_NodeID i)))
  ∧ (∀ name v sb, m' !! entry (dir_of D KSubscription) name = Some v → Unmarshal v = Some sb →
       is_Some (m' !! entry (dir_of D KClient) (msub_ClientID sb)))
  ∧ (∀ key v, kv t !! key = Some v → m' !! key = None →
       ∃ k name w, kv t !! entry (dir_of D k) name = Some w ∧ has_prefix key (entry (dir_of D k) name) = true
         ∧ ((k = KClient ∧ ∀ i, Unmarshal w = Some i → kv t !! entry (dir_of D KNode) (info_NodeID i) = None)
            ∨ (k = KSubscription ∧ ∀ sb, Unmarshal w = Some sb → m' !! entry (dir_of D KClient) (msub_ClientID sb) = None))).
Proof.
  intros Hans Hreg. destruct (manager_turn_gone t Hans Hreg) as (nodes & cls & cls' & subs & Hnodes & Hcls & Hcls' & Hsubs & ->).
  cbn zeta. split_and!.
  - intros name v i. by apply clients_cleaned.
  - intros name v sb. by apply subs_cleaned.
  - intros key v. by apply removed_reason.
Qed.

(** ** What the code does besides *)

(** A removal takes everything whose name begins with the one given. *)
Theorem removal_takes_longer_names name x t t' evs :
  StoreRemoveUser D name t = Some (t', evs) → kv t' !! entry (userDir D) (String.append name x) = None.
Proof.
  intros Hr. apply delete_ok in Hr as [-> _]. apply map_lookup_filter_None. right. intros v _ Hf.
  change (has_prefix (entry (userDir D) (String.append name x)) (entry (userDir D) name) = false) in Hf.
  by rewrite entry_app, has_prefix_app in Hf.
Qed.

(** Loaded bridges have the last level of their filter only. *)
Lemma last_part_flat key : contains_byte SLASH (last_part key) = false.
Proof.
  unfold last_part. pose proof (split_on_nonempty SLASH key) as Hne. pose proof (split_on_no_sep SLASH key) as Hall.
  unfold split_slash. destruct (exists_last Hne) as (l & x & Hl). rewrite Hl in Hall |- *. rewrite last_last.
  apply Forall_app in Hall as [_ Hx]. inversion Hx as [|? ? Hc]. exact Hc.
Qed.

Theorem loaded_bridges_cut t m key v :
  GetBridges D t = Some (Some m) → m !! key = Some v → contains_byte SLASH key = false.
Proof.
  unfold GetBridges, etcdStore_All. destruct (OpGetPrefix _ t) as [l|]; [|done]. cbn. destruct l as [|e l]; [done|].
  intros [= Hm]. assert (Hf : foldl (λ (m : gmap string string) e, <[last_part e.1 := e.2]> m) ∅ (e :: l) = m) by exact Hm.
  clear Hm. revert Hf. generalize (e :: l). clear e l.
  assert (Hg : ∀ l (acc : gmap string string), (∀ key v, acc !! key = Some v → contains_byte SLASH key = false) →
    ∀ key v, foldl (λ (m : gmap string string) e, <[last_part e.1 := e.2]> m) acc l !! key = Some v →
    contains_byte SLASH key = false).
  { induction l as [|e l IH]; intros acc Hacc; [exact Hacc|]. cbn [foldl]. apply IH. intros k w Hk.
    apply lookup_insert_Some in Hk as [[<- _]|[_ Hk]]; [apply last_part_flat|by eapply Hacc]. }
  intros l <- Hk. eapply Hg; [|exact Hk]. intros k w Hkw. by rewrite lookup_empty in Hkw.
Qed.

(** The events of a node's own writes are dropped, those of its own removals are not:
    the client that has this name by then is taken out of the table. *)
Theorem own_removal_received bid name n :
  info_NodeID zero_value ≠ bid →
  ∃ n', deliver D bid [mkKvEvent EventTypeDelete (entry (clientDir D) name) ""] n = Some n'
    ∧ clients (nd_broker n') !! name = None.
Proof.
  intros Hz. unfold deliver. cbn [foldl]. unfold deliver_one. cbn [mbind option_bind].
  rewrite (watch_one_kind cluster bid EventTypeDelete KClient name ""). unfold doWatchWithClient, event_value.
  cbn [ev_Value ev_Key ev_Type dir_of]. rewrite decide_True by done. cbn [mbind option_bind].
  rewrite decide_False by done. rewrite event_key_entry. cbn. eexists. split; [done|]. cbn.
  unfold RemoveClient. destruct (clients (nd_broker n) !! name) eqn:Hc; [|exact Hc]. cbn. apply lookup_delete_eq.
Qed.

(** A node that starts gets no subscription of the other nodes' clients: the table has
    cluster objects where the clients should be. *)
Lemma load_clients_stored l : ∀ tbl s id x,
  (∀ id x, tbl !! id = Some x → x = StoredCluster) →
  (foldl load_client (tbl, s) l).1 !! id = Some x → x = StoredCluster.
Proof.
  induction l as [|e l IH]; intros tbl s id x Htbl; [apply Htbl|]. cbn [foldl load_client]. apply IH.
  intros id' x' Hx. apply lookup_insert_Some in Hx as [[_ <-]|[_ Hx]]; [done|by eapply Htbl].
Qed.

Theorem load_subscribes_nothing t s tbl s' :
  LoadClients D t ∅ s = (tbl, s') → LoadSubscriptions D t tbl s' = s' ∧ topicsMgr s' = topicsMgr s.
Proof.
  intros Hl.
  assert (Htbl : ∀ id x, tbl !! id = Some x → x = StoredCluster).
  { intros id x Hx. unfold LoadClients in Hl. destruct (GetClients D t) as [cl|]; cycle 1.
    { injection Hl as <- _. by rewrite lookup_empty in Hx. }
    eapply (load_clients_stored _ ∅ s id); [|rewrite Hl; exact Hx]. intros ? ? He. by rewrite lookup_empty in He. }
  split.
  - unfold LoadSubscriptions. destruct (GetSubscriptions D t) as [subs|]; [|done].
    destruct (map snd _) as [|obj l]; [done|]. cbn [load_subscriptions].
    destruct (tbl !! msub_ClientID obj) as [x|] eqn:Hx; [|done]. by rewrite (Htbl _ _ Hx).
  - unfold LoadClients in Hl. destruct (GetClients D t) as [cl|]; [|by injection Hl as _ <-].
    enough (∀ l tbl s, topicsMgr (foldl load_client (tbl, s) l).2 = topicsMgr s) as Hf by (by rewrite <- (Hf (map_to_list (default ∅ cl)) ∅ s), Hl).
    induction l as [|e l IH]; intros tb s0; [done|]. cbn [foldl load_client]. by rewrite IH.
Qed.

End Replication.


(** ** A store in memory *)

(** The laws of the store hold of a map, and those of the encoding of the objects that
    consist of their name. *)
#[export] Instance map_etcd : Etcd (gmap string string) := {
  kv := id;
  OpPut k v m := Some (<[k := v]> m,
    [mkKvEvent (match m !! k with None => EventTypeNew | Some _ => EventTypeUpdate end) k v]);
  OpDeletePrefix p m := Some (outside p m,
    map (λ e, mkKvEvent EventTypeDelete e.1 "") (map_to_list (under p m)));
  OpGet k m := Some (m !! k);
  OpGetPrefix p m := Some (map_to_list (under p m))
}.

#[export] Instance map_etcd_laws : EtcdLaws (gmap string string).
Proof.
  split.
  - intros k v t t' evs Hp. by injection Hp as <- <-.
  - intros k t t' evs Hd. by injection Hd as <- <-.
  - intros k t v Hg. by injection Hg as <-.
  - intros k t l Hg. by injection Hg as <-.
Qed.

Definition sample_user (name : string) : User := mkUser "" name 0 "" 0.
Definition sample_node (name : string) : Node := mkNode name "" "" 0.
Definition sample_info (name : string) : Info := mkInfo name "n1" "" "" 0 0.
Definition sample_sub (name : string) : Subscription := mkSub name (drop_string 1 name) "n1" "" 0.

#[local] Instance user_json : Json User :=
  {| Marshal u := Some (user_Name u); Unmarshal s := Some (sample_user s); zero_value := sample_user "" |}.
#[local] Instance acl_json : Json Acl :=
  {| Marshal a := None; Unmarshal s := None; zero_value := mkAcl "" 0 "" "" "" "" "" 0 |}.
#[local] Instance node_json : Json Node :=
  {| Marshal u := Some (node_ID u); Unmarshal s := Some (sample_node s); zero_value := sample_node "" |}.
#[local] Instance info_json : Json Info :=
  {| Marshal u := Some (info_ID u); Unmarshal s := Some (sample_info s); zero_value := sample_info "" |}.
#[local] Instance sub_json : Json Subscription :=
  {| Marshal u := Some (msub_ID u); Unmarshal s := Some (sample_sub s); zero_value := sample_sub "" |}.

Definition sample_tables : node := mkNodeState ∅ (Some ∅) (Some (mkKafka ∅)) sample_state.
Definition sample_ops : list cluster_op :=
  [OpUser (sample_user "bob"); OpUser (sample_user "bobby"); OpBridge "a" "k"; OpRemoveUser "bob"].
Definition no_digest (s : string) : string := ""%string.
Definition after_ops : gmap string string * list kv_event := run_ops no_digest "c" sample_ops ∅.

Lemma sample_ops_ok : Forall op_ok sample_ops.
Proof.
  unfold sample_ops. repeat (apply Forall_cons; split); try exact I; try apply Forall_nil; try done;
    intros data Hd; injection Hd as <-; split; done.
Qed.

Lemma sample_tables_synced : synced "c" sample_tables ∅.
Proof.
  split_and!.
  - intros name. by rewrite !lookup_empty.
  - intros tbl Ht id. injection Ht as <-. by rewrite !lookup_empty.
  - intros k Hk key. injection Hk as <-. by rewrite !lookup_empty.
Qed.

Lemma tables_replicated_witness :
  (∀ n', deliver (dirs_of "c") "n1" after_ops.2 sample_tables = Some n' → synced "c" n' after_ops.1)
  ∧ is_Some (deliver (dirs_of "c") "n1" after_ops.2 sample_tables).
Proof.
  destruct (tables_replicated no_digest "c" "n1" sample_ops ∅ after_ops.1 after_ops.2 sample_tables) as [H1 H2].
  - exact sample_ops_ok.
  - exact (surjective_pairing _).
  - exact sample_tables_synced.
  - split; [exact H1|exact (H2 eq_refl)].
Defined.

Definition load_ops : list cluster_op := [OpUser (sample_user "bob"); OpBridge "a" "k"].
Definition load_store : gmap string string :=
  <[entry (dir_of (dirs_of "c") KBridge) "a" := "k"%string]>
    (<[entry (dir_of (dirs_of "c") KUser) "bob" := "bob"%string]> ∅).

Lemma load_store_flat : flat_bridges "c" load_store.
Proof.
  intros key v Hv. unfold load_store in Hv. apply lookup_insert_Some in Hv as [[He _]|[_ Hv]].
  - apply entry_inj in He as <-. reflexivity.
  - apply lookup_insert_Some in Hv as [[He _]|[_ Hv]]; [by apply entries_apart in He|].
    by rewrite lookup_empty in Hv.
Qed.

#[local] Existing Instance no_bcrypt.

Lemma load_synced_witness : synced "c" (load_tables "c" [] 0 load_store sample_tables) (kv load_store).
Proof.
  apply (load_synced no_digest "c" [] 0 load_ops ∅ load_store
    (run_ops no_digest "c" load_ops (∅ : gmap string string)).2 sample_tables).
  - reflexivity.
  - apply Forall_cons. split; [|apply Forall_cons; split; [exact I|apply Forall_nil]; done].
    intros data Hd. injection Hd as <-. split; done.
  - reflexivity.
  - exact load_store_flat.
  - split_and!; [reflexivity| |]; intros ? Hx; by injection Hx as <-.
  - by eexists.
  - by eexists.
  - by eexists.
Defined.

(** A node, its client and the client's subscription, and a subscription without a client. *)
Definition registry : gmap string string :=
  <[entry (dir_of (dirs_of "c") KNode) "n1" := "n1"%string]>
    (<[entry (dir_of (dirs_of "c") KClient) "x" := "x"%string]>
      (<[entry (dir_of (dirs_of "c") KSubscription) ":x" := ":x"%string]>
        (<[entry (dir_of (dirs_of "c") KSubscription) ":y" := ":y"%string]> ∅))).

Lemma registry_cases k name v :
  registry !! entry (dir_of (dirs_of "c") k) name = Some v →
  (k = KNode ∧ name = "n1" ∧ v = "n1") ∨ (k = KClient ∧ name = "x" ∧ v = "x")
  ∨ (k = KSubscription ∧ name = ":x" ∧ v = ":x") ∨ (k = KSubscription ∧ name = ":y" ∧ v = ":y").
Proof.
  assert (Hk : ∀ k' nm, entry (dir_of (dirs_of "c") k') nm = entry (dir_of (dirs_of "c") k) name → k' = k ∧ nm = name).
  { intros k' nm He. destruct (decide (k' = k)) as [->|Hne]; [|by apply entries_apart in He].
    by apply entry_inj in He. }
  unfold registry. intros Hv. apply lookup_insert_Some in Hv as [[He <-]|[_ Hv]]; [apply Hk in He as [<- <-]; auto 10|].
  apply lookup_insert_Some in Hv as [[He <-]|[_ Hv]]; [apply Hk in He as [<- <-]; auto 10|].
  apply lookup_insert_Some in Hv as [[He <-]|[_ Hv]]; [apply Hk in He as [<- <-]; auto 10|].
  apply lookup_insert_Some in Hv as [[He <-]|[_ Hv]]; [apply Hk in He as [<- <-]; auto 10|].
  by rewrite lookup_empty in Hv.
Qed.

Lemma registry_wf : wf_store "c" registry.
Proof.
  assert (Hp : ∀ k' nm k, k' = KNode ∨ k' = KClient ∨ k' = KSubscription →
    has_prefix (entry (dir_of (dirs_of "c") k') nm) (dir_of (dirs_of "c") k) = true →
    ∃ name, entry (dir_of (dirs_of "c") k') nm = entry (dir_of (dirs_of "c") k) name ∧ put_fits k name nm).
  { intros k' nm k Hk Hp. destruct (decide (k' = k)) as [<-|Hne]; [|by rewrite dirs_apart in Hp].
    exists nm. by destruct Hk as [-> | [-> | ->]]. }
  intros k key v Hv. unfold registry in Hv. apply lookup_insert_Some in Hv as [[<- <-]|[_ Hv]]; [apply Hp; auto 10|].
  apply lookup_insert_Some in Hv as [[<- <-]|[_ Hv]]; [apply Hp; auto 10|].
  apply lookup_insert_Some in Hv as [[<- <-]|[_ Hv]]; [apply Hp; auto|].
  apply lookup_insert_Some in Hv as [[<- <-]|[_ Hv]]; [apply Hp; auto|]. by rewrite lookup_empty in Hv.
Qed.

Lemma manager_cleans_witness :
  is_Some (registry !! entry (dir_of (dirs_of "c") KSubscription) ":y") ∧
  kv (manager_turn no_digest (dirs_of "c") registry) !! entry (dir_of (dirs_of "c") KClient) "y" = None ∧
  ∀ name v sb, kv (manager_turn no_digest (dirs_of "c") registry) !! entry (dir_of (dirs_of "c") KSubscription) name = Some v →
  Unmarshal v = Some sb →
  is_Some (kv (manager_turn no_digest (dirs_of "c") registry) !! entry (dir_of (dirs_of "c") KClient) (msub_ClientID sb)).
Proof.
  split; [by eexists|]. split; [by vm_compute|]. apply (manager_cleans no_digest "c" registry).
  - split; intros; by eexists.
  - split; [exact registry_wf|].
    split_and!; intros name v Hv;
      apply registry_cases in Hv as [(Hk & -> & ->)|[(Hk & -> & ->)|[(Hk & -> & ->)|(Hk & -> & ->)]]]; try discriminate Hk.
    + by exists (sample_node "n1").
    + by exists (sample_info "x").
    + by exists (sample_sub ":x").
    + by exists (sample_sub ":y").
Defined.

Lemma load_subscribes_nothing_witness :
  let r := LoadClients (dirs_of "c") registry ∅ sample_state in
  LoadSubscriptions (dirs_of "c") registry r.1 r.2 = r.2 ∧ topicsMgr r.2 = topicsMgr sample_state.
Proof.
  intros r. exact (load_subscribes_nothing "c" registry sample_state r.1 r.2 (surjective_pairing r)).
Defined.

Lemma removal_takes_longer_names_witness :
  outside (entry (userDir (dirs_of "c")) "bob") load_store !! entry (userDir (dirs_of "c")) "bobby" = None.
Proof.
  exact (removal_takes_longer_names "c" "bob" "by" load_store _ _ eq_refl).
Defined.

Lemma own_removal_received_witness :
  ∃ n', deliver (dirs_of "c") "n2" [mkKvEvent EventTypeDelete (entry (clientDir (dirs_of "c")) "x") ""] sample_tables
      = Some n' ∧ clients (nd_broker n') !! "x"%string = None.
Proof. apply (own_removal_received "c" "n2" "x" sample_tables). discriminate. Defined.

(** The bridge of a filter with two levels, before and after loading. *)
Definition deep_store : gmap string string :=
  <[entry (bridgeDir (dirs_of "c")) "a/b" := "k"%string]> ∅.
Lemma loaded_bridges_cut_witness :
  GetBridges (dirs_of "c") deep_store = Some (Some {["b"%string := "k"%string]})
  ∧ contains_byte SLASH "b" = false.
Proof.
  assert (Hb : GetBridges (dirs_of "c") deep_store = Some (Some {["b"%string := "k"%string]})) by reflexivity.
  split; [exact Hb|]. refine (loaded_bridges_cut "c" deep_store _ "b" "k" Hb _). reflexivity.
Defined.
