(* ===== verification/Http.v ===== *)
(** * Http: the management interface

    Models [src/broker/http.go] (the routes) and [http_user.go], [http_acl.go],
    [http_bridge.go], [http_client.go], [http_node.go], [http_subscription.go] (the
    handlers), [src/middleware/jwt.go] and [src/utils/jwt] (the tokens that protect
    them) and [src/model/login.go].  A handler reads and writes the cluster's store
    through the requests of [Cluster] and answers early on every error, so handlers are
    written in a small monad: the store, the events of the requests made so far, and
    either a value or the answer that ends the request.

    gin chooses the route and binds the body to a struct ([Bind]); the calls of package
    [restful] are the answers; a panic is caught by gin's recovery and answered too.
    The token library is a class with the laws the code relies on; the clock, new
    identifiers and salts come with a request. *)
From S2P Require Import Prelude Topics Acl Sessions Broker Cluster.
Local Open Scope Z_scope.

(** ** Tokens *)

Record JWTConfig := mkJWTConfig {
  SigningKey : string;
  ExpiresTime : Z;
  cfg_BufferTime : Z;
  cfg_Issuer : string
}.

(** [JWTCustomClaims], with the fields of the structs it embeds. *)
Record JWTCustomClaims := mkClaims {
  claims_Username : string;
  claims_Role : Z;
  claims_BufferTime : Z;
  NotBefore : Z;
  ExpiresAt : Z;
  claims_Issuer : string
}.

(** [jwt.ValidationError] with its bits, or any other error. *)
Inductive jwt_error := ValidationError (Errors : Z) | OtherError.
Definition ValidationErrorMalformed : Z := 1.
Definition ValidationErrorExpired : Z := 16.
Definition ValidationErrorNotValidYet : Z := 128.

Record jwt_token := mkJwt { jwt_Claims : JWTCustomClaims; jwt_Valid : bool }.

(** The token library. *)
Class Jwt := {
  SignedString : JWTCustomClaims → string → option string;
  ParseWithClaims : string → Z → string → option jwt_token * option jwt_error
}.

(** A signed token is valid between its times, and expired after them. *)
Class JwtLaws `{Jwt} := {
  signed_nonempty c key tok : SignedString c key = Some tok → tok ≠ ""%string;
  signed_valid c key tok now :
    SignedString c key = Some tok → NotBefore c ≤ now ≤ ExpiresAt c →
    ParseWithClaims key now tok = (Some (mkJwt c true), None);
  signed_expired c key tok now :
    SignedString c key = Some tok → ExpiresAt c ≠ 0 → ExpiresAt c < now →
    ∃ t e, ParseWithClaims key now tok = (t, Some (ValidationError e))
      ∧ Z.land e ValidationErrorMalformed = 0 ∧ Z.land e ValidationErrorExpired ≠ 0
}.

Inductive token_error := TokenExpired | TokenNotValidYet | TokenMalformed | TokenInvalid.

Section Tokens.
Context `{Jwt}.

Definition CreateClaims (j : JWTConfig) (now : Z) (username : string) (role : Z) : JWTCustomClaims :=
  mkClaims username role (cfg_BufferTime j) (now - 1000) (now + ExpiresTime j) (cfg_Issuer j).
Definition CreateToken (j : JWTConfig) (claims : JWTCustomClaims) : option string :=
  SignedString claims (SigningKey j).

Definition ParseToken (j : JWTConfig) (now : Z) (tokenString : string) : result token_error JWTCustomClaims :=
  let '(token, err) := ParseWithClaims (SigningKey j) now tokenString in
  match err with
  | Some (ValidationError e) =>
      if decide (Z.land e ValidationErrorMalformed ≠ 0) then Err TokenMalformed
      else if decide (Z.land e ValidationErrorExpired ≠ 0) then Err TokenExpired
      else if decide (Z.land e ValidationErrorNotValidYet ≠ 0) then Err TokenNotValidYet
      else Err TokenInvalid
  | _ =>
      match token with
      | Some t => if jwt_Valid t then Ok (jwt_Claims t) else Err TokenInvalid
      | None => Err TokenInvalid
      end
  end.

(** [GetClaims], and the two readers: of the claims the middleware has set, or else of
    the token itself. *)
Definition GetClaims (j : JWTConfig) (now : Z) (x_token : string) : result token_error JWTCustomClaims :=
  ParseToken j now x_token.
Definition GetUserRole (j : JWTConfig) (now : Z) (x_token : string) (set_claims : option JWTCustomClaims) : Z :=
  match set_claims with
  | None => match GetClaims j now x_token with Err _ => 0 | Ok cl => claims_Role cl end
  | Some cl => claims_Role cl
  end.
Definition GetUserName (j : JWTConfig) (now : Z) (x_token : string) (set_claims : option JWTCustomClaims) : string :=
  match set_claims with
  | None => match GetClaims j now x_token with Err _ => ""%string | Ok cl => claims_Username cl end
  | Some cl => claims_Username cl
  end.
End Tokens.

(** ** Answers *)

(** What is shown of a user. *)
Record user_view := mkUserView {
  view_client_id : string;
  view_name : string;
  view_role : Z;
  view_create_at : Z
}.
Definition view_of (u : User) : user_view :=
  mkUserView (user_ClientID u) (user_Name u) (user_Role u) (user_CreateAt u).

Inductive data :=
  | UserData (u : user_view) | UserList (l : list user_view)
  | AclData (a : Acl) | AclList (l : list Acl)
  | BridgeData (topic queue : string) | BridgeList (l : list (string * string))
  | ClientData (i : Info) | ClientList (l : list Info)
  | NodeData (n : Node) | NodeList (l : list Node)
  | SubscriptionData (s : Subscription) | SubscriptionList (l : list Subscription)
  | TokenData (token : string).

Inductive http_error := ErrBind | ErrStore | ErrHash | ErrSign | ErrMessage (s : string).

(** The calls of [restful], a page of the documentation, and the recovery from a panic. *)
Inductive answer :=
  | Success | SuccessData (d : data)
  | Error | ErrorData (e : http_error)
  | NotFound | Unauthorized | NotForbidden
  | DocumentationPage (page : string)
  | Recovered.

(** [model.LoginForm]. *)
Record LoginForm := mkLoginForm { login_Username : string; login_Password : string }.

(** [c.ShouldBind]: the body of a request written over a value. *)
Class Bind (B A : Type) := ShouldBind : A → B → option A.

(** What a handler has of a request. *)
Record http_request (B : Type) := mkHttpRequest {
  x_token : string;
  req_body : B;
  req_now : Z;
  req_uuid : string;
  req_salt : list byte
}.
Arguments mkHttpRequest {B} _ _ _ _ _.
Arguments x_token {B} _.
Arguments req_body {B} _.
Arguments req_now {B} _.
Arguments req_uuid {B} _.
Arguments req_salt {B} _.

(** ** Handlers *)

Section Handlers.
Context {T B : Type} `{Etcd T}.
Context `{Json User, Json Acl, Json Info, Json Subscription, Json Node}.
Context `{Bind B User, Bind B Acl, Bind B LoginForm, Bind B (gmap string string)}.
Context `{Jwt, Bcrypt}.
Context (D : dirs) (j : JWTConfig).

Definition handler (A : Type) : Type := T → T * list kv_event * result answer A.

Definition hret {A} (x : A) : handler A := λ t, (t, [], Ok x).
Definition finish {A} (a : answer) : handler A := λ t, (t, [], Err a).
Definition hbind {A C} (m : handler A) (k : A → handler C) : handler C := λ t,
  let '(t, evs, r) := m t in
  match r with
  | Err a => (t, evs, Err a)
  | Ok x => let '(t', evs', r') := k x t in (t', evs ++ evs', r')
  end.
Local Notation "'let!' x := c 'in' k" := (hbind c (λ x, k)) (at level 10, x name, c at level 100, k at level 200).

(** An early return unless the condition holds. *)
Definition unless (ok : bool) (a : answer) : handler unit := if ok then hret tt else finish a.
Definition value_or {A} (o : option A) (a : answer) : handler A :=
  match o with Some x => hret x | None => finish a end.
(** Reading one object: a panic when it is not there. *)
Definition fetch {A} (get : T → option (result unit A)) (on_error : answer) : handler A := λ t,
  match get t with
  | None => (t, [], Err Recovered)
  | Some (Err _) => (t, [], Err on_error)
  | Some (Ok x) => (t, [], Ok x)
  end.
(** Reading all objects of a kind, in the order of the table. *)
Definition fetch_all {A} (get : T → option (option (gmap string A))) : handler (list (string * A)) := λ t,
  match get t with
  | None => (t, [], Err (ErrorData ErrStore))
  | Some m => (t, [], Ok (map_to_list (default ∅ m)))
  end.
Definition ask (r : request) (on_error : answer) : handler unit := λ t,
  match r t with
  | Some (t', evs) => (t', evs, Ok tt)
  | None => (t, [], Err on_error)
  end.

(** *** Users *)

Definition zero_user : User := mkUser "" "" 0 "" 0.
Definition zero_acl : Acl := mkAcl "" 0 "" "" "" "" "" 0.

Definition userView_List : handler answer :=
  let! users := fetch_all (GetUsers D) in
  hret (SuccessData (UserList (map (λ e, view_of e.2) users))).

Definition userView_Retrieve (name : string) : handler answer :=
  let! user := fetch (Cluster_GetUser D name) NotFound in
  hret (SuccessData (UserData (view_of user))).

Definition userView_Create (req : http_request B) : handler answer :=
  let! user := value_or (ShouldBind zero_user (req_body req)) (ErrorData ErrBind) in
  let! _ := unless (bool_decide (user_Name user ≠ "" ∧ user_Password user ≠ "")) Error in
  let create_at := if decide (user_CreateAt user = 0) then req_now req else user_CreateAt user in
  let! pwd := value_or (HashSaltPassword (req_salt req) (user_Password user)) (ErrorData ErrHash) in
  let user := mkUser (user_ClientID user) (user_Name user) (user_Role user) pwd create_at in
  let! _ := ask (StoreAddORUpdateUser D user) (ErrorData ErrStore) in
  hret Success.

Definition userView_Update (name : string) (req : http_request B) : handler answer :=
  let! newUser := value_or (ShouldBind zero_user (req_body req)) (ErrorData ErrBind) in
  let! oldUser := fetch (Cluster_GetUser D name) (ErrorData ErrStore) in
  let user := mkUser (user_ClientID newUser) (user_Name newUser) (user_Role newUser)
                (user_Password oldUser) (user_CreateAt newUser) in
  let! _ := ask (StoreAddORUpdateUser D user) (ErrorData ErrStore) in
  hret Success.

Definition userView_Delete (name : string) : handler answer :=
  let! _ := fetch (Cluster_GetUser D name) NotFound in
  let! _ := ask (StoreRemoveUser D name) NotFound in
  hret Success.

Definition userView_Login (req : http_request B) : handler answer :=
  let! params := value_or (ShouldBind (mkLoginForm "" "") (req_body req)) (ErrorData ErrBind) in
  let! _ := unless (bool_decide (login_Username params ≠ "" ∧ login_Password params ≠ ""))
              (ErrorData (ErrMessage "username and password cannot be empty")) in
  let! user := fetch (Cluster_GetUser D (login_Username params)) (ErrorData ErrStore) in
  let! _ := unless (ComparePassword (user_Password user) (login_Password params))
              (ErrorData (ErrMessage "wrong user name or password")) in
  let! _ := unless (bool_decide (user_Role user = 1))
              (ErrorData (ErrMessage "insufficient permissions, please contact the administrator")) in
  let! token := value_or (CreateToken j (CreateClaims j (req_now req) (user_Name user) (user_Role user)))
                  (ErrorData ErrSign) in
  hret (SuccessData (TokenData token)).

Definition userView_ChangePassword (req : http_request B) : handler answer :=
  let! params := value_or (ShouldBind (mkLoginForm "" "") (req_body req)) (ErrorData ErrBind) in
  let! _ := unless (bool_decide (login_Username params ≠ "" ∧ login_Password params ≠ ""))
              (ErrorData (ErrMessage "username and password cannot be empty")) in
  let! user := fetch (Cluster_GetUser D (login_Username params)) (ErrorData ErrStore) in
  let! pwd := value_or (HashSaltPassword (req_salt req) (login_Password params)) (ErrorData ErrHash) in
  let user := mkUser (user_ClientID user) (user_Name user) (user_Role user) pwd (user_CreateAt user) in
  let! _ := ask (StoreAddORUpdateUser D user) (ErrorData ErrStore) in
  hret Success.

(** *** Rules *)

(** What [Create] and [Update] of a rule check, and what they fill in. *)
Definition acl_checked (a : Acl) : bool :=
  bool_decide (acl_Classify a = "pub" ∨ acl_Classify a = "sub")
  && bool_decide (acl_Type a = "ip" ∨ acl_Type a = "clientid" ∨ acl_Type a = "username")
  && bool_decide (acl_Action a = "allow" ∨ acl_Action a = "deny").
Definition or_else (s d : string) : string := if decide (s = ""%string) then d else s.
Definition acl_completed (uuid : string) (create_at : Z) (a : Acl) : Acl :=
  mkAcl (or_else (acl_ID a) uuid) (acl_Priority a) (or_else (acl_Topic a) "#") (acl_Classify a) (acl_Type a)
    (or_else (acl_Value a) "*") (acl_Action a) create_at.

Definition aclView_List : handler answer :=
  let! acls := fetch_all (GetAcls D) in hret (SuccessData (AclList (map snd acls))).

Definition aclView_Retrieve (id : string) : handler answer :=
  let! acl := fetch (Cluster_GetAcl D id) NotFound in hret (SuccessData (AclData acl)).

Definition aclView_Create (req : http_request B) : handler answer :=
  let! acl := value_or (ShouldBind zero_acl (req_body req)) (ErrorData ErrBind) in
  let! _ := unless (acl_checked acl) Error in
  let create_at := if decide (acl_CreateAt acl = 0) then req_now req else acl_CreateAt acl in
  let! _ := ask (StoreAddORUpdateAcl D (acl_completed (req_uuid req) create_at acl)) (ErrorData ErrStore) in
  hret Success.

Definition aclView_Update (id : string) (req : http_request B) : handler answer :=
  let! old := fetch (Cluster_GetAcl D id) NotFound in
  let! acl := value_or (ShouldBind old (req_body req)) (ErrorData ErrBind) in
  let! _ := unless (acl_checked acl) Error in
  let! _ := ask (StoreAddORUpdateAcl D (acl_completed (req_uuid req) (acl_CreateAt acl) acl)) (ErrorData ErrStore) in
  hret Success.

Definition aclView_Delete (id : string) : handler answer :=
  let! _ := fetch (Cluster_GetAcl D id) NotFound in
  let! _ := ask (StoreRemoveAcl D id) (ErrorData ErrStore) in
  hret Success.

(** *** Bridges *)

Definition parse_failed : answer := ErrorData (ErrMessage "failed to parse data").

Definition bridgeView_List : handler answer :=
  let! bridges := fetch_all (GetBridges D) in hret (SuccessData (BridgeList bridges)).

Definition bridgeView_Retrieve (topic : string) : handler answer :=
  let! queue := fetch (Cluster_GetBridge D topic) NotFound in hret (SuccessData (BridgeData topic queue)).

Definition bridgeView_Create (req : http_request B) : handler answer :=
  let! bridge := value_or (ShouldBind (∅ : gmap string string) (req_body req)) (ErrorData ErrBind) in
  let! topic := value_or (bridge !! "topic"%string) parse_failed in
  let! queue := value_or (bridge !! "queue"%string) parse_failed in
  let! _ := unless (bool_decide (topic ≠ "" ∧ queue ≠ "")) parse_failed in
  let! _ := ask (StoreAddORUpdateBridge D topic queue) (ErrorData ErrStore) in
  hret Success.

Definition bridgeView_Update (topic : string) (req : http_request B) : handler answer :=
  let! _ := fetch (Cluster_GetBridge D topic) NotFound in
  let! bridge := value_or (ShouldBind (∅ : gmap string string) (req_body req)) (ErrorData ErrBind) in
  let! queue := value_or (bridge !! "queue"%string) parse_failed in
  let! _ := unless (bool_decide (queue ≠ ""%string)) parse_failed in
  let! _ := ask (StoreAddORUpdateBridge D topic queue) (ErrorData ErrStore) in
  hret Success.

Definition bridgeView_Delete (topic : string) : handler answer :=
  let! _ := fetch (Cluster_GetBridge D topic) NotFound in
  let! _ := ask (StoreRemoveBridge D topic) (ErrorData ErrStore) in
  hret Success.

(** *** Clients, nodes and subscriptions *)

Definition clientView_List : handler answer :=
  let! clients := fetch_all (GetClients D) in hret (SuccessData (ClientList (map snd clients))).
Definition clientView_Retrieve (id : string) : handler answer :=
  let! client := fetch (Cluster_GetClient D id) NotFound in hret (SuccessData (ClientData client)).
Definition nodeView_List : handler answer :=
  let! nodes := fetch_all (GetNodes D) in hret (SuccessData (NodeList (map snd nodes))).
Definition nodeView_Retrieve (id : string) : handler answer :=
  let! node := fetch (Cluster_GetNode D id) NotFound in hret (SuccessData (NodeData node)).
Definition subscriptionView_List : handler answer :=
  let! subs := fetch_all (GetSubscriptions D) in hret (SuccessData (SubscriptionList (map snd subs))).
Definition subscriptionView_Retrieve (id : string) : handler answer :=
  let! sub := fetch (Cluster_GetSubscription D id) NotFound in hret (SuccessData (SubscriptionData sub)).

(** ** Routes *)

(** [JWTAuth]: the claims of the token, which are set in the context. *)
Definition JWTAuth (req : http_request B) : handler JWTCustomClaims :=
  let! _ := unless (bool_decide (x_token req ≠ ""%string)) Unauthorized in
  match ParseToken j (req_now req) (x_token req) with
  | Err TokenExpired => finish NotForbidden
  | Err _ => finish NotForbidden
  | Ok claims => hret claims
  end.

(** The routes of [InitHTTPMoniter] with their parameter. *)
Inductive endpoint :=
  | Swagger (page : string)
  | Login | ChangePassword
  | ListUsers | RetrieveUser (name : string) | CreateUser | UpdateUser (name : string) | DeleteUser (name : string)
  | ListNodes | RetrieveNode (id : string)
  | ListClients | RetrieveClient (id : string)
  | ListSubscriptions | RetrieveSubscription (id : string)
  | ListBridges | RetrieveBridge (topic : string) | CreateBridge | UpdateBridge (topic : string) | DeleteBridge (topic : string)
  | ListAcls | RetrieveAcl (id : string) | CreateAcl | UpdateAcl (id : string) | DeleteAcl (id : string).

Inductive http_method := GET | POST | PUT | DELETE.

(** The method and the pattern of a route. *)
Definition route_pattern (e : endpoint) : http_method * string :=
  match e with
  | Swagger _ => (GET, "/api/v1/swagger/*any")
  | Login => (POST, "/api/v1/login/") | ChangePassword => (POST, "/api/v1/change_password/")
  | ListUsers => (GET, "/api/v1/user/") | RetrieveUser _ => (GET, "/api/v1/user/:name/")
  | CreateUser => (POST, "/api/v1/user/") | UpdateUser _ => (PUT, "/api/v1/user/:name/")
  | DeleteUser _ => (DELETE, "/api/v1/user/:name/")
  | ListNodes => (GET, "/api/v1/node/") | RetrieveNode _ => (GET, "/api/v1/node/:id/")
  | ListClients => (GET, "/api/v1/client/") | RetrieveClient _ => (GET, "/api/v1/client/:id/")
  | ListSubscriptions => (GET, "/api/v1/subscription/")
  | RetrieveSubscription _ => (GET, "/api/v1/subscription/:id/")
  | ListBridges => (GET, "/api/v1/bridge/") | RetrieveBridge _ => (GET, "/api/v1/bridge/:topic/")
  | CreateBridge => (POST, "/api/v1/bridge/") | UpdateBridge _ => (PUT, "/api/v1/bridge/:topic/")
  | DeleteBridge _ => (DELETE, "/api/v1/bridge/:topic/")
  | ListAcls => (GET, "/api/v1/acl/") | RetrieveAcl _ => (GET, "/api/v1/acl/:id/")
  | CreateAcl => (POST, "/api/v1/acl/") | UpdateAcl _ => (PUT, "/api/v1/acl/:id/")
  | DeleteAcl _ => (DELETE, "/api/v1/acl/:id/")
  end%string.

(** Whether the group of a route uses [JWTAuth]. *)
Definition protected (e : endpoint) : bool := match e with Swagger _ | Login => false | _ => true end.

(** The pages of the documentation are those of [gin-swagger]. *)
Definition view (e : endpoint) (req : http_request B) : handler answer :=
  match e with
  | Swagger page => hret (DocumentationPage page)
  | Login => userView_Login req
  | ChangePassword => userView_ChangePassword req
  | ListUsers => userView_List
  | RetrieveUser name => userView_Retrieve name
  | CreateUser => userView_Create req
  | UpdateUser name => userView_Update name req
  | DeleteUser name => userView_Delete name
  | ListNodes => nodeView_List
  | RetrieveNode id => nodeView_Retrieve id
  | ListClients => clientView_List
  | RetrieveClient id => clientView_Retrieve id
  | ListSubscriptions => subscriptionView_List
  | RetrieveSubscription id => subscriptionView_Retrieve id
  | ListBridges => bridgeView_List
  | RetrieveBridge topic => bridgeView_Retrieve topic
  | CreateBridge => bridgeView_Create req
  | UpdateBridge topic => bridgeView_Update topic req
  | DeleteBridge topic => bridgeView_Delete topic
  | ListAcls => aclView_List
  | RetrieveAcl id => aclView_Retrieve id
  | CreateAcl => aclView_Create req
  | UpdateAcl id => aclView_Update id req
  | DeleteAcl id => aclView_Delete id
  end.

(** A request: the store afterwards, the events, and the answer. *)
Definition answered (h : handler answer) (t : T) : T * list kv_event * answer :=
  let '(t, evs, r) := h t in (t, evs, match r with Ok a | Err a => a end).

Definition serve (e : endpoint) (req : http_request B) : T → T * list kv_event * answer :=
  answered (if protected e then let! _ := JWTAuth req in view e req else view e req).
End Handlers.
