(* ===== verification/HttpSpec.v ===== *)
(** * HttpSpec: what the management interface promises

    Without a valid token a request has no effect; a token is given exactly to an
    administrator with the right password, and works until it expires.  Every request
    that works makes at most one request of the cluster's store, so that all nodes
    follow; together with the tables of a node this gives the composed statements: a
    user created over HTTP can connect at every node, a deleted one cannot.  The last
    part has what the handlers do besides. *)
From S2P Require Import Prelude Topics Acl Sessions Broker Bridge BrokerInv Cluster ClusterSpec Http.
Local Open Scope Z_scope.

Section Spec.
Context {T B : Type} `{EtcdLaws T}.
Context `{Json User, Json Acl, Json Info, Json Subscription, Json Node}.
Context `{Bind B User, Bind B Acl, Bind B LoginForm, Bind B (gmap string string)}.
Context {jwt : Jwt}.
Context (md5_hex : string → string) (cluster : string) (j : JWTConfig).
Context `{Bcrypt}.
Local Notation D := (dirs_of cluster).
Local Abbreviation handler := (handler (T := T)).
Local Abbreviation serve := (serve (T := T) (B := B) D j).
Local Abbreviation view := (view (T := T) (B := B) D j).

(** ** Handlers *)

(** A handler that only reads. *)
Definition quiet {A} (m : handler A) : Prop := ∀ t : T, ∃ r, m t = (t, [], r).

(** A handler that makes at most one request, one that satisfies [P]. *)
Definition makes (P : cluster_op → Prop) {A} (m : handler A) : Prop :=
  ∀ t t' evs r, m t = (t', evs, r) →
  (t' = t ∧ evs = []) ∨ ∃ op, P op ∧ run_op md5_hex cluster op t = Some (t', evs).

Lemma quiet_makes P {A} (m : handler A) : quiet m → makes P m.
Proof. intros Hq t t' evs r Hm. destruct (Hq t) as [r' Hr]. left. split; congruence. Qed.

Lemma hbind_quiet {A C} (m : handler A) (k : A → handler C) t r t' evs r' :
  m t = (t, [], r) → hbind m k t = (t', evs, r') →
  match r with Err a => t' = t ∧ evs = [] ∧ r' = Err a | Ok x => k x t = (t', evs, r') end.
Proof.
  intros Hm Hb. unfold hbind in Hb. rewrite Hm in Hb. destruct r as [x|a]; [|by injection Hb as <- <- <-].
  by destruct (k x t) as [[t1 e1] r1].
Qed.

Lemma makes_hbind P {A C} (m : handler A) (k : A → handler C) :
  (∀ t, ∃ r, m t = (t, [], r) ∧ ∀ x, r = Ok x → makes P (k x)) → makes P (hbind m k).
Proof.
  intros Hm t t' evs r Hb. destruct (Hm t) as (r0 & Hr & Hk). eapply hbind_quiet in Hb; [|exact Hr].
  destruct r0 as [x|a]; [by apply (Hk x eq_refl) in Hb|]. left. naive_solver.
Qed.

Lemma makes_fetch P {A C} get a (k : A → handler C) :
  (∀ x, (∃ t, get t = Some (Ok x)) → makes P (k x)) → makes P (hbind (fetch get a) k).
Proof.
  intros Hk. apply makes_hbind. intros t. unfold fetch. destruct (get t) as [[x|e]|] eqn:Hg; eexists; (split; [done|]); try done.
  intros y [= <-]. apply Hk. by exists t.
Qed.

Lemma makes_fetch_all P {A C} get (k : list (string * A) → handler C) :
  (∀ x, makes P (k x)) → makes P (hbind (fetch_all get) k).
Proof. intros Hk. apply makes_hbind. intros t. unfold fetch_all. destruct (get t); eexists; split; try done. Qed.

Lemma makes_value_or P {A C} o a (k : A → handler C) :
  (∀ x, o = Some x → makes P (k x)) → makes P (hbind (value_or o a) k).
Proof.
  intros Hk. apply makes_hbind. intros t. destruct o as [x|]; eexists; (split; [done|]); [|done].
  intros y Hy. injection Hy as <-. by apply Hk.
Qed.

Lemma makes_unless P {C} b a (k : unit → handler C) : (b = true → makes P (k tt)) → makes P (hbind (unless b a) k).
Proof.
  intros Hk. apply makes_hbind. intros t. destruct b; eexists; (split; [done|]); [|done].
  intros [] _. by apply Hk.
Qed.

Lemma makes_hret P {A} (x : A) : makes P (hret x).
Proof. apply quiet_makes. intros t. by eexists. Qed.

Lemma makes_finish P {A} a : makes P (finish (A := A) a).
Proof. apply quiet_makes. intros t. by eexists. Qed.

Lemma makes_ask (P : cluster_op → Prop) {C} op a (x : C) :
  P op → makes P (hbind (ask (run_op md5_hex cluster op) a) (λ _, hret x)).
Proof.
  intros Hop t t' evs r Hm. unfold hbind, ask in Hm.
  destruct (run_op md5_hex cluster op t) as [[t1 e1]|] eqn:Hr; [|left; naive_solver].
  cbn in Hm. injection Hm as <- <- _. right. exists op. by rewrite app_nil_r.
Qed.

(** ** What a request asks of the store *)

(** A rule as [Create] and [Update] leave it. *)
Definition acl_wf (a : Acl) : Prop :=
  (acl_Classify a = "pub" ∨ acl_Classify a = "sub")%string
  ∧ (acl_Type a = "ip" ∨ acl_Type a = "clientid" ∨ acl_Type a = "username")%string
  ∧ (acl_Action a = "allow" ∨ acl_Action a = "deny")%string
  ∧ acl_ID a ≠ ""%string ∧ acl_Value a ≠ ""%string ∧ acl_Topic a ≠ ""%string.

(** The strings of a user, and of a rule, are UTF-8. *)
Definition utf8_user (u : User) : Prop :=
  ValidString (user_ClientID u) = true ∧ ValidString (user_Name u) = true ∧ ValidString (user_Password u) = true.
Definition utf8_acl (a : Acl) : Prop :=
  ValidString (acl_ID a) = true ∧ ValidString (acl_Topic a) = true ∧ ValidString (acl_Classify a) = true
  ∧ ValidString (acl_Type a) = true ∧ ValidString (acl_Value a) = true ∧ ValidString (acl_Action a) = true.

(** Package [encoding/json]: what is encoded from UTF-8 strings comes back, and what is decoded
    has UTF-8 strings, since anything else is replaced. *)
Class JsonText := {
  json_user u : utf8_user u → json_ok u;
  json_acl a : utf8_acl a → json_ok a;
  read_user d (u : User) : Unmarshal d = Some u → utf8_user u;
  read_acl d (a : Acl) : Unmarshal d = Some a → utf8_acl a
}.
(** Package [bcrypt]: a hash is text. *)
Class BcryptText :=
  hash_text salt pwd cost hash : GenerateFromPassword salt pwd cost = Some hash → ValidString (string_of hash) = true.
Context `{!JsonText, !BcryptText}.

(** A request of text: the names and rules that its body asks for, and the identifier drawn
    for it, which is not empty.  (A password is hashed and may be anything.) *)
Definition text_request (req : http_request B) : Prop :=
  (∀ u : User, ShouldBind zero_user (req_body req) = Some u →
     ValidString (user_ClientID u) = true ∧ ValidString (user_Name u) = true)
  ∧ (∀ old a : Acl, utf8_acl old → ShouldBind old (req_body req) = Some a → utf8_acl a)
  ∧ ValidString (req_uuid req) = true ∧ req_uuid req ≠ ""%string.

(** Users and rules of text, rules that are well formed, bridges with a name and a queue, and
    removals of these. *)
Definition http_op (op : cluster_op) : Prop :=
  match op with
  | OpUser u => utf8_user u
  | OpAcl a => acl_wf a ∧ utf8_acl a
  | OpBridge _ queue => queue ≠ ""%string
  | OpRemoveUser _ | OpRemoveAcl _ | OpRemoveBridge _ => True
  | _ => False
  end.

Lemma or_else_nonempty s d : d ≠ ""%string → or_else s d ≠ ""%string.
Proof. unfold or_else. by case_decide. Qed.

Lemma acl_completed_wf uuid now a : uuid ≠ ""%string → acl_checked a = true → acl_wf (acl_completed uuid now a).
Proof.
  intros Hu [[Hc Ht]%andb_true_iff Ha]%andb_true_iff.
  apply bool_decide_eq_true in Hc, Ht, Ha. split_and!; try done; cbn; by apply or_else_nonempty.
Qed.

Lemma or_else_text s d : ValidString s = true → ValidString d = true → ValidString (or_else s d) = true.
Proof. unfold or_else. by case_decide. Qed.

Lemma acl_completed_text uuid now a : ValidString uuid = true → utf8_acl a → utf8_acl (acl_completed uuid now a).
Proof. intros Hu (Hi & Ht & Hc & Hy & Hv & Ha). split_and!; cbn; try done; by apply or_else_text. Qed.

Lemma zero_acl_text : utf8_acl zero_acl.
Proof. split_and!; reflexivity. Qed.

Lemma hashed_text salt pwd hash : HashSaltPassword salt pwd = Some hash → ValidString hash = true.
Proof.
  unfold HashSaltPassword. destruct (GenerateFromPassword _ _ _) as [h|] eqn:Hg; [|done]. cbn. intros [= <-].
  by eapply hash_text.
Qed.

Lemma fetched_user name u t : Cluster_GetUser D name t = Some (Ok u) → utf8_user u.
Proof.
  unfold Cluster_GetUser, get_object. destruct (etcdStore_Get _ t) as [[d|]|]; try done.
  destruct (Unmarshal d) as [u'|] eqn:Hu; [|done]. intros [= <-]. by eapply read_user.
Qed.

Lemma fetched_acl id a t : Cluster_GetAcl D id t = Some (Ok a) → utf8_acl a.
Proof.
  unfold Cluster_GetAcl, get_object. destruct (etcdStore_Get _ t) as [[d|]|]; try done.
  destruct (Unmarshal d) as [a'|] eqn:Ha; [|done]. intros [= <-]. by eapply read_acl.
Qed.

Lemma makes_user P u a (x : answer) : P (OpUser u) → makes P (hbind (ask (StoreAddORUpdateUser D u) a) (λ _, hret x)).
Proof. apply (makes_ask P (OpUser u)). Qed.
Lemma makes_acl P r a (x : answer) : P (OpAcl r) → makes P (hbind (ask (StoreAddORUpdateAcl D r) a) (λ _, hret x)).
Proof. apply (makes_ask P (OpAcl r)). Qed.
Lemma makes_bridge P k v a (x : answer) :
  P (OpBridge k v) → makes P (hbind (ask (StoreAddORUpdateBridge D k v) a) (λ _, hret x)).
Proof. apply (makes_ask P (OpBridge k v)). Qed.
Lemma makes_removal (P : cluster_op → Prop) name a (x : answer) :
  (P (OpRemoveUser name) → makes P (hbind (ask (StoreRemoveUser D name) a) (λ _, hret x)))
  ∧ (P (OpRemoveAcl name) → makes P (hbind (ask (StoreRemoveAcl D name) a) (λ _, hret x)))
  ∧ (P (OpRemoveBridge name) → makes P (hbind (ask (StoreRemoveBridge D name) a) (λ _, hret x))).
Proof.
  split_and!; [apply (makes_ask P (OpRemoveUser name))|apply (makes_ask P (OpRemoveAcl name))|apply (makes_ask P (OpRemoveBridge name))].
Qed.

(** Takes a handler apart down to the request it makes. *)
Ltac handler_steps :=
  cbv zeta;
  repeat lazymatch goal with
  | |- makes _ (hbind (fetch _ _) _) => apply makes_fetch; intros ??
  | |- makes _ (hbind (fetch_all _) _) => apply makes_fetch_all; intros ?
  | |- makes _ (hbind (value_or _ _) _) => apply makes_value_or; intros ??
  | |- makes _ (hbind (unless _ _) _) => apply makes_unless; intros ?
  | |- makes _ (hret _) => apply makes_hret
  | |- makes _ (hbind (ask (StoreAddORUpdateUser _ _) _) _) => apply makes_user
  | |- makes _ (hbind (ask (StoreAddORUpdateAcl _ _) _) _) => apply makes_acl
  | |- makes _ (hbind (ask (StoreAddORUpdateBridge _ _ _) _) _) => apply makes_bridge
  | |- makes _ (hbind (ask _ _) _) => eapply makes_removal
  end.

Lemma view_makes e req : text_request req → makes http_op (view e req).
Proof.
  intros (Hub & Hab & Hut & Hu). destruct e; cbn [Http.view];
    unfold userView_Login, userView_ChangePassword, userView_List, userView_Retrieve, userView_Create, userView_Update,
      userView_Delete, aclView_List, aclView_Retrieve, aclView_Create, aclView_Update, aclView_Delete, bridgeView_List,
      bridgeView_Retrieve, bridgeView_Create, bridgeView_Update, bridgeView_Delete, clientView_List, clientView_Retrieve,
      nodeView_List, nodeView_Retrieve, subscriptionView_List, subscriptionView_Retrieve; handler_steps; try exact I;
    cbn [http_op].
  all: repeat match goal with
    | Hg : ∃ t, Cluster_GetUser _ _ t = Some (Ok ?u) |- _ => destruct Hg as [? (? & ? & ?)%fetched_user]
    | Hg : ∃ t, Cluster_GetAcl _ _ t = Some (Ok ?a) |- _ => destruct Hg as [? Hg]; apply fetched_acl in Hg
    | Hb : ShouldBind zero_user _ = Some ?u |- _ => destruct (Hub _ Hb); clear Hb
    | Hb : bool_decide _ = true |- _ => apply bool_decide_eq_true in Hb
    | Hh : HashSaltPassword _ _ = Some _ |- _ => apply hashed_text in Hh
    end.
  - by split_and!.
  - by split_and!.
  - by split_and!.
  - naive_solver.
  - done.
  - split; [by apply acl_completed_wf|]. apply acl_completed_text; [done|]. eapply Hab; [apply zero_acl_text|done].
  - split; [by apply acl_completed_wf|]. apply acl_completed_text; [done|]. by eapply Hab.
Qed.

Lemma JWTAuth_quiet req : quiet (JWTAuth (B := B) j req).
Proof.
  intros t. unfold JWTAuth, hbind, unless. case_bool_decide; [|by eexists]. cbn.
  destruct (ParseToken j (req_now req) (x_token req)) as [cl|[]]; by eexists.
Qed.

Lemma answered_makes P (h : handler answer) t t' evs a :
  makes P h → answered h t = (t', evs, a) →
  (t' = t ∧ evs = []) ∨ ∃ op, P op ∧ run_op md5_hex cluster op t = Some (t', evs).
Proof.
  intros Hm Ha. unfold answered in Ha. destruct (h t) as [[t1 e1] r1] eqn:Hh. injection Ha as <- <- _. by eapply Hm.
Qed.

(** The effect of a request, through the token. *)
Lemma serve_makes e req t t' evs a :
  text_request req → serve e req t = (t', evs, a) →
  (t' = t ∧ evs = []) ∨ ∃ op, http_op op ∧ run_op md5_hex cluster op t = Some (t', evs).
Proof.
  intros Hu. apply answered_makes. destruct (protected e); [|by apply view_makes].
  apply makes_hbind. intros t0. destruct (JWTAuth_quiet req t0) as [r Hr].
  exists r. split; [done|]. intros _ _. by apply view_makes.
Qed.

(** ** Tokens *)

Lemma refused_cases e req t :
  protected e = true →
  (x_token req = ""%string → serve e req t = (t, [], Unauthorized))
  ∧ (x_token req ≠ ""%string → (∀ claims, ParseToken j (req_now req) (x_token req) ≠ Ok claims) →
     serve e req t = (t, [], NotForbidden)).
Proof.
  intros Hp.
  unfold Http.serve, answered. rewrite Hp. unfold hbind at 1, JWTAuth. split.
  - intros Hx. by rewrite bool_decide_false by (intros Hne; by apply Hne).
  - intros Hx Hno. rewrite bool_decide_true by done. cbn.
    destruct (ParseToken j (req_now req) (x_token req)) as [cl|[]] eqn:Hpt; try done. by destruct (Hno cl).
Qed.

Lemma quiet_hbind {A C} (m : handler A) (k : A → handler C) :
  quiet m → (∀ x, quiet (k x)) → quiet (hbind m k).
Proof.
  intros Hm Hk t. destruct (Hm t) as [[x|a] Hr]; unfold hbind; rewrite Hr; [|by eexists].
  destruct (Hk x t) as [r' ->]. by eexists.
Qed.

(** A login only reads the store. *)
Lemma Login_quiet req : quiet (userView_Login D j req).
Proof.
  assert (Hv : ∀ A (o : option A) a, quiet (value_or (T := T) o a)) by (intros A [x|] a t; by eexists).
  assert (Hu : ∀ b a, quiet (unless (T := T) b a)) by (intros [] a t; by eexists).
  assert (Hf : ∀ A (get : T → option (result unit A)) a, quiet (fetch get a)).
  { intros A get a t. unfold fetch. destruct (get t) as [[x|e]|]; by eexists. }
  unfold userView_Login. repeat (apply quiet_hbind; [auto|intros ?]). intros t. by eexists.
Qed.

(** C20: Without a token, or with one that cannot be read or is not valid now, a request to
    any route but the login and the pages of the documentation has no effect, and its answer
    says only that; and what those two do has no effect on the store either. *)
Theorem refused_without_token e req t :
  (e = Login ∨ (∃ page, e = Swagger page) → (serve e req t).1 = (t, []))
  ∧ (e ≠ Login → (∀ page, e ≠ Swagger page) →
  (x_token req = ""%string → serve e req t = (t, [], Unauthorized))
  ∧ (x_token req ≠ ""%string → (∀ claims, ParseToken j (req_now req) (x_token req) ≠ Ok claims) →
     serve e req t = (t, [], NotForbidden))).
Proof.
  split; [|intros Hl Hs; apply refused_cases; destruct e; try done; by destruct (Hs page)].
  intros [->|[page ->]]; [|done]. unfold Http.serve, answered. cbn [protected Http.view].
  destruct (Login_quiet req t) as [r Hr]. by rewrite Hr.
Qed.

(** With a valid token the route's handler runs. *)
Lemma serve_authorised e req claims t :
  x_token req ≠ ""%string → ParseToken j (req_now req) (x_token req) = Ok claims →
  serve e req t = answered (view e req) t.
Proof.
  intros Hx Hp. unfold Http.serve. destruct (protected e); [|done]. unfold answered, hbind, JWTAuth.
  cbn. rewrite bool_decide_true by done. cbn. rewrite Hp. cbn.
  by destruct (view e req t) as [[t1 e1] r1].
Qed.

(** The user an encoded entry holds. *)
Definition user_at (t : T) (name : string) (u : User) : Prop :=
  ∃ v, kv t !! entry (userDir D) name = Some v ∧ Unmarshal v = Some u.

Lemma fetch_user t name a :
  is_Some (OpGet (entry (userDir D) name) t) →
  fetch (Cluster_GetUser D name) a t =
    (t, [], match kv t !! entry (userDir D) name with
            | None => Err Recovered
            | Some v => match Unmarshal v with Some u => Ok u | None => Err a end
            end).
Proof.
  intros [o Ho]. unfold fetch, Cluster_GetUser, get_object, etcdStore_Get. rewrite Ho. apply get_ok in Ho as ->.
  destruct (kv t !! _) as [v|]; [|done]. by destruct (Unmarshal v).
Qed.

(** C33: A login is answered with a token exactly for a user of the store with this password
    who is an administrator, and the token is made of the user's name and role. *)
Theorem Login_token req t params tok :
  ShouldBind (mkLoginForm "" "") (req_body req) = Some params →
  is_Some (OpGet (entry (userDir D) (login_Username params)) t) →
  serve Login req t = (t, [], SuccessData (TokenData tok)) ↔
  ∃ u, user_at t (login_Username params) u
    ∧ login_Username params ≠ ""%string ∧ login_Password params ≠ ""%string
    ∧ ComparePassword (user_Password u) (login_Password params) = true ∧ user_Role u = 1
    ∧ CreateToken j (CreateClaims j (req_now req) (user_Name u) 1) = Some tok.
Proof.
  intros Hb Hget. unfold Http.serve, answered. cbn [protected Http.view]. unfold userView_Login.
  rewrite Hb. unfold hbind at 1. cbn [value_or hret]. unfold hbind at 1, unless at 1.
  case_bool_decide as Hne; cbn; [|split; [done|]; intros (u & _ & ? & ? & _); by destruct Hne].
  unfold hbind at 1. rewrite fetch_user by done.
  destruct (kv t !! entry (userDir D) (login_Username params)) as [v|] eqn:Hv; cbn;
    [|split; [done|]; intros (u & (v & Hv' & _) & _); congruence].
  destruct (Unmarshal v) as [u|] eqn:Hu; cbn;
    [|split; [done|]; intros (u & (v' & Hv' & Hu') & _); congruence].
  unfold hbind, unless, value_or. destruct (ComparePassword _ _) eqn:Hpw; cbn;
    [|split; [done|]; intros (u' & (v' & Hv' & Hu') & _ & _ & Hp & _); congruence].
  case_bool_decide as Hr; cbn;
    [|split; [done|]; intros (u' & (v' & Hv' & Hu') & _ & _ & _ & Hr' & _); congruence].
  rewrite Hr. destruct (CreateToken j _) as [tk|] eqn:Hc; cbn.
  - split; [|intros (u' & (v' & Hv' & Hu') & _ & _ & _ & _ & Hc'); congruence].
    intros [= <-]. exists u. destruct Hne. split_and!; try done. by exists v.
  - split; [done|]. intros (u' & (v' & Hv' & Hu') & _ & _ & _ & _ & Hc'). congruence.
Qed.

(** The token of a login opens every route for the configured time: until then the
    route's handler runs, and afterwards the request has no effect. *)
Theorem token_lifetime `{!JwtLaws} name now tok e req t :
  CreateToken j (CreateClaims j now name 1) = Some tok → x_token req = tok → 0 < now → 0 ≤ ExpiresTime j →
  (now ≤ req_now req ≤ now + ExpiresTime j → serve e req t = answered (view e req) t)
  ∧ (now + ExpiresTime j < req_now req → protected e = true → serve e req t = (t, [], NotForbidden)).
Proof.
  intros Hc Hx Hnow Hexp. pose proof (signed_nonempty _ _ _ Hc) as Hne. split.
  - intros Ht. eapply (serve_authorised _ _ (CreateClaims j now name 1)); [congruence|]. unfold ParseToken. rewrite Hx.
    by erewrite signed_valid; [|exact Hc|cbn; lia].
  - intros Ht Hp. apply refused_cases; [done|congruence|]. intros cl. unfold ParseToken. rewrite Hx.
    edestruct signed_expired as (tk & er & -> & Hm & He); [exact Hc|cbn; lia|cbn; lia|].
    rewrite decide_False by (intros Hn; by apply Hn). by rewrite decide_True.
Qed.

(** An answer that is not the middleware's is the handler's. *)
Lemma serve_passed e req t t' evs a :
  serve e req t = (t', evs, a) → a ≠ Unauthorized → a ≠ NotForbidden → answered (view e req) t = (t', evs, a).
Proof.
  unfold Http.serve, answered. destruct (protected e); [|done]. intros Hs Hu Hf. unfold hbind, JWTAuth, unless in Hs.
  cbn in Hs. case_bool_decide; cbn in Hs; [|naive_solver].
  destruct (ParseToken j (req_now req) (x_token req)) as [cl|[]]; cbn in Hs; try naive_solver.
  by destruct (view e req t) as [[t1 e1] r1].
Qed.

(** ** The nodes follow *)

(** The requests of a history, with the events they cause. *)
Fixpoint serve_all (reqs : list (endpoint * http_request B)) (t : T) : T * list kv_event :=
  match reqs with
  | [] => (t, [])
  | (e, req) :: reqs =>
      let '(t, evs, _) := serve e req t in
      let '(t', evs') := serve_all reqs t in (t', evs ++ evs')
  end.

Lemma deliver_app bid evs evs' n :
  deliver D bid (evs ++ evs') n = (n' ← deliver D bid evs n; deliver D bid evs' n').
Proof.
  unfold deliver. rewrite foldl_app. destruct (foldl _ (Some n) evs); [done|]. cbn. apply deliver_None.
Qed.

Lemma http_op_ok op : http_op op → op_ok op ∧ removes_subscription op = false.
Proof.
  destruct op; cbn [http_op op_ok removes_subscription]; intros Hop; try done; split; try done.
  - by apply json_user.
  - by apply json_acl, Hop.
Qed.

Lemma op_followed bid op t t' evs n :
  http_op op → run_op md5_hex cluster op t = Some (t', evs) → synced cluster n (kv t) →
  ∃ n', deliver D bid evs n = Some n' ∧ synced cluster n' (kv t').
Proof.
  intros [Hok Hrm]%http_op_ok Hr Hs. destruct (run_op_total md5_hex cluster bid op t t' evs n) as [n' Hn']; [done..|].
  exists n'. split; [done|]. by eapply run_op_synced.
Qed.

(** C19: Whatever is asked over HTTP, of whatever nodes, in requests whose names and rules are
    UTF-8 (see [byte_name_differs] for others): a node with the tables of the store handles
    the events without a panic, and has the tables of the store again. *)
Theorem http_tables_follow bid reqs t t' evs n :
  Forall (λ r, text_request r.2) reqs → synced cluster n (kv t) → serve_all reqs t = (t', evs) →
  ∃ n', deliver D bid evs n = Some n' ∧ synced cluster n' (kv t').
Proof.
  intros Hu. revert t evs n. induction Hu as [|[e req] reqs Hu _ IH]; intros t evs n Hs Hr; cbn [serve_all] in Hr.
  { injection Hr as <- <-. by exists n. }
  destruct (serve e req t) as [[t1 evs1] a] eqn:He. destruct (serve_all reqs t1) as [t2 evs2] eqn:Hall.
  injection Hr as <- <-. rewrite deliver_app.
  apply serve_makes in He as [[-> ->]|(op & Hop & Hrun)]; [..|done].
  - cbn. by apply (IH t).
  - destruct (op_followed bid op t t1 evs1 n Hop Hrun Hs) as (n1 & -> & Hs1). by apply (IH t1).
Qed.

(** ** Rules *)

(** Every rule of the store is well formed. *)
Definition rules_wf (m : gmap string string) : Prop :=
  ∀ id v a, m !! entry (dir_of D KAcl) id = Some v → Unmarshal v = Some a → acl_wf a.

Lemma rules_wf_put k name data m : k ≠ KAcl → rules_wf m → rules_wf (<[entry (dir_of D k) name := data]> m).
Proof.
  intros Hk Hwf id v a Hl. apply lookup_insert_Some in Hl as [[He _]|[_ Hl]]; [by apply entries_apart in He|by eapply Hwf].
Qed.

Lemma rules_wf_outside p m : rules_wf m → rules_wf (outside p m).
Proof. intros Hwf id v a Hl. apply map_lookup_filter_Some in Hl as [Hl _]. by eapply Hwf. Qed.

Lemma rules_wf_op op t t' evs :
  http_op op → run_op md5_hex cluster op t = Some (t', evs) → rules_wf (kv t) → rules_wf (kv t').
Proof.
  intros Hop Hr Hwf. destruct op; try done; cbn [run_op] in Hr.
  - unfold StoreAddORUpdateUser, store_marshalled in Hr. destruct (Marshal u) as [d|]; [|done].
    apply put_ok in Hr as [-> _]. by apply (rules_wf_put KUser).
  - apply delete_ok in Hr as [-> _]. by apply rules_wf_outside.
  - unfold StoreAddORUpdateAcl, store_marshalled in Hr. destruct (Marshal a) as [d|] eqn:Hd; [|done].
    apply put_ok in Hr as [-> _]. intros id v a' Hl Hv.
    apply lookup_insert_Some in Hl as [[_ <-]|[_ Hl]]; [|by eapply Hwf].
    destruct Hop as [Hop Htx]. destruct (json_acl a Htx d Hd). by simplify_eq.
  - apply delete_ok in Hr as [-> _]. by apply rules_wf_outside.
  - apply put_ok in Hr as [-> _]. by apply (rules_wf_put KBridge).
  - apply delete_ok in Hr as [-> _]. by apply rules_wf_outside.
Qed.

(** C22: The rules that get into the store over HTTP are well formed: whatever the requests
    were, as long as their text is UTF-8, and if the rules of the store were so before, every
    rule has a class, a type and an action that access control knows, an id, a value and a
    topic. *)
Theorem http_rules_typed reqs t t' evs :
  Forall (λ r, text_request r.2) reqs → rules_wf (kv t) → serve_all reqs t = (t', evs) → rules_wf (kv t').
Proof.
  intros Hu. revert t evs. induction Hu as [|[e req] reqs Hu _ IH]; intros t evs Hwf Hr; cbn [serve_all] in Hr.
  { by injection Hr as <- <-. }
  destruct (serve e req t) as [[t1 evs1] a] eqn:He. destruct (serve_all reqs t1) as [t2 evs2] eqn:Hall.
  injection Hr as <- <-. apply serve_makes in He as [[-> ->]|(op & Hop & Hrun)]; [by eapply IH|..|done].
  eapply IH; [|exact Hall]. by eapply rules_wf_op.
Qed.

(** ** Accounts *)

Lemma answered_step {A} (m : handler A) (k : A → handler answer) t r :
  m t = (t, [], r) → answered (hbind m k) t = match r with Ok x => answered (k x) t | Err a => (t, [], a) end.
Proof.
  intros Hm. unfold answered, hbind. rewrite Hm. destruct r as [x|a]; [|done]. by destruct (k x t) as [[t1 e1] r1].
Qed.

Lemma ask_success r a t t' evs :
  answered (hbind (ask (T := T) r a) (λ _, hret Success)) t = (t', evs, Success) → a ≠ Success → r t = Some (t', evs).
Proof.
  unfold answered, hbind, ask. destruct (r t) as [[t1 e1]|]; cbn; intros Hr Ha; [|naive_solver].
  rewrite app_nil_r in Hr. congruence.
Qed.

Lemma Create_success req t t' evs :
  answered (userView_Create D req) t = (t', evs, Success) →
  ∃ u pwd, ShouldBind zero_user (req_body req) = Some u ∧ HashSaltPassword (req_salt req) (user_Password u) = Some pwd
    ∧ ∃ at_, StoreAddORUpdateUser D (mkUser (user_ClientID u) (user_Name u) (user_Role u) pwd at_) t = Some (t', evs).
Proof.
  unfold userView_Create. destruct (ShouldBind zero_user (req_body req)) as [u|]; [|done].
  rewrite (answered_step _ _ _ (Ok u)) by done. case_bool_decide; [|done].
  rewrite (answered_step _ _ _ (Ok tt)) by done. destruct (HashSaltPassword (req_salt req) (user_Password u)) as [pwd|] eqn:Hh; [|done].
  rewrite (answered_step _ _ _ (Ok pwd)) by done. intros Hs. exists u, pwd. split_and!; [done..|].
  eexists. by eapply (ask_success _ (ErrorData ErrStore)).
Qed.

Lemma synced_user n t u t' evs n' :
  utf8_user u → StoreAddORUpdateUser D u t = Some (t', evs) → synced cluster n (kv t) → synced cluster n' (kv t') →
  nd_auth n' !! user_Name u = Some u ∧ ∀ name, name ≠ user_Name u → nd_auth n' !! name = nd_auth n !! name.
Proof.
  intros Htx Hs [Hn _] [Hn' _]. unfold StoreAddORUpdateUser, store_marshalled in Hs.
  destruct (Marshal u) as [d|] eqn:Hd; [|done]. apply put_ok in Hs as [Hkv _]. rewrite Hkv in Hn'. split.
  - rewrite Hn'. change (dir_of D KUser) with (userDir D). rewrite lookup_insert_eq. by apply json_user.
  - intros name Hne. rewrite Hn', Hn. change (dir_of D KUser) with (userDir D). rewrite lookup_insert_ne; [done|].
    intros He. by apply entry_inj in He.
Qed.

(** C21: Users created over HTTP can connect.  When a node answers that a user was created, whose
    name and client id are UTF-8, every node that had the tables of the store handles the events, and then accepts
    connections with the name and the password of the request, from the client the
    account names if it names one; the accounts of others are as they were. *)
Theorem created_user_connects bid req t t' evs n u :
  BcryptLaws → text_request req →
  serve CreateUser req t = (t', evs, Success) → ShouldBind zero_user (req_body req) = Some u →
  synced cluster n (kv t) →
  ∃ n', deliver D bid evs n = Some n'
    ∧ (∀ clientID, user_ClientID u = ""%string ∨ user_ClientID u = clientID →
         CheckConnect (nd_auth n') clientID (user_Name u) (user_Password u) = true)
    ∧ ∀ name, name ≠ user_Name u → nd_auth n' !! name = nd_auth n !! name.
Proof.
  intros Hbc (Htx & _) Hs Hu Hn. apply serve_passed in Hs; [|done..]. cbn [Http.view] in Hs.
  apply Create_success in Hs as (u' & pwd & Hu' & Hh & at_ & Hst). rewrite Hu in Hu'. injection Hu' as <-.
  assert (Htu : utf8_user (mkUser (user_ClientID u) (user_Name u) (user_Role u) pwd at_)).
  { destruct (Htx u Hu). split_and!; cbn; [done|done|]. by eapply hashed_text. }
  destruct (op_followed bid (OpUser (mkUser (user_ClientID u) (user_Name u) (user_Role u) pwd at_)) t t' evs n Htu Hst Hn) as (n' & Hd & Hn').
  exists n'. split; [done|]. destruct (synced_user n t _ t' evs n' Htu Hst Hn Hn') as [Hl Ho]. split; [|exact Ho].
  intros clientID Hc. unfold CheckConnect, GetUser. cbn in Hl. rewrite Hl. cbn.
  assert (Hno : negb (bool_decide (user_ClientID u = "")) && negb (bool_decide (user_ClientID u = clientID)) = false).
  { destruct Hc as [-> | ->]; [done|]. rewrite (bool_decide_true (clientID = clientID)) by done. apply andb_false_r. }
  rewrite Hno. by eapply hashed_compares.
Qed.

Lemma Delete_success name t t' evs :
  answered (userView_Delete D name) t = (t', evs, Success) → StoreRemoveUser D name t = Some (t', evs).
Proof.
  unfold userView_Delete. destruct (Cluster_GetUser D name t) as [[u|e]|] eqn:Hg.
  - rewrite (answered_step _ _ _ (Ok u)) by (unfold fetch; by rewrite Hg). intros Hs. by eapply (ask_success _ NotFound).
  - by rewrite (answered_step _ _ _ (Err NotFound)) by (unfold fetch; by rewrite Hg).
  - by rewrite (answered_step _ _ _ (Err Recovered)) by (unfold fetch; by rewrite Hg).
Qed.

(** Users deleted over HTTP cannot: once a node has handled the events of the removal it
    refuses the name, with any password. *)
Theorem deleted_user_refused bid name req t t' evs n :
  serve (DeleteUser name) req t = (t', evs, Success) → synced cluster n (kv t) →
  ∃ n', deliver D bid evs n = Some n'
    ∧ ∀ clientID password, CheckConnect (nd_auth n') clientID name password = false.
Proof.
  intros Hs Hn. apply serve_passed in Hs; [|done..]. apply Delete_success in Hs.
  destruct (op_followed bid (OpRemoveUser name) t t' evs n I Hs Hn) as (n' & Hd & [Hu _]).
  exists n'. split; [done|]. intros clientID password. unfold CheckConnect, GetUser. rewrite Hu.
  apply delete_ok in Hs as [-> _]. unfold outside.
  rewrite (proj2 (map_lookup_filter_None _ _ _)); [done|]. right. intros v _ Hp.
  pose proof (has_prefix_self cluster KUser name) as Hself. change (has_prefix (entry (dir_of D KUser) name) (entry (dir_of D KUser) name) = false) in Hp.
  congruence.
Qed.

(** ** What the handlers do besides *)

(** An object that is not there makes the handler panic: the answer is that of gin's
    recovery, not the one the handler has for a missing object. *)
Theorem missing_user_panics name req t :
  is_Some (OpGet (entry (userDir D) name) t) → kv t !! entry (userDir D) name = None →
  answered (view (RetrieveUser name) req) t = (t, [], Recovered)
  ∧ answered (view (DeleteUser name) req) t = (t, [], Recovered).
Proof.
  intros Hg Hno. cbn [Http.view]. unfold answered, userView_Retrieve, userView_Delete, hbind.
  rewrite !fetch_user, Hno by done. done.
Qed.

(** A name that the encoding changes, as it does when the name is not UTF-8, is stored under the
    name of the request and known to the nodes under the other: connections with the name of
    the request are refused. *)
Theorem byte_name_differs bid u u' d t t' evs n n' :
  Marshal u = Some d → Unmarshal d = Some u' → d ≠ ""%string → user_Name u' ≠ user_Name u →
  StoreAddORUpdateUser D u t = Some (t', evs) → nd_auth n !! user_Name u = None → deliver D bid evs n = Some n' →
  kv t' !! entry (userDir D) (user_Name u) = Some d
  ∧ ∀ clientID password, CheckConnect (nd_auth n') clientID (user_Name u) password = false.
Proof.
  intros Hm Hu Hd Hne Hs Hno Hdel. unfold StoreAddORUpdateUser, store_marshalled in Hs. rewrite Hm in Hs. cbn [mbind option_bind] in Hs.
  apply put_ok in Hs as [-> ->]. split; [apply lookup_insert_eq|]. intros clientID password.
  unfold deliver in Hdel. cbn [foldl] in Hdel. unfold deliver_one in Hdel. cbn [mbind option_bind] in Hdel.
  change (userDir D) with (dir_of D KUser) in Hdel. rewrite watch_one_kind in Hdel.
  unfold doWatchWithUser, event_value in Hdel. cbn [ev_Value ev_Type] in Hdel. rewrite decide_False in Hdel by done.
  rewrite Hu in Hdel. cbn in Hdel. injection Hdel as <-.
  assert (Hl : (<[user_Name u' := u']> (nd_auth n) : gmap string User) !! user_Name u = None)
    by (by apply lookup_insert_None).
  unfold CheckConnect, GetUser, doUserEvent. case_match eqn:Hc; [|done]. exfalso. revert Hc.
  destruct (kv t !! _); intros Hc; pose proof (eq_trans (eq_sym Hl) Hc) as Hx; discriminate Hx.
Qed.

(** Changing the name of a user adds an account under the new name; the old account stays,
    with its password. *)
Theorem renamed_user_stays name req t u old t' evs :
  ShouldBind zero_user (req_body req) = Some u → user_at t name old →
  user_Name u ≠ name →
  answered (view (UpdateUser name) req) t = (t', evs, Success) → user_at t' name old.
Proof.
  intros Hb (v & Hv & Hold) Hne Hs. cbn [Http.view] in Hs. unfold userView_Update in Hs.
  rewrite (answered_step _ _ _ (Ok u)) in Hs by (by rewrite Hb).
  destruct (Cluster_GetUser D name t) as [[o|e]|] eqn:Hg.
  2: by rewrite (answered_step _ _ _ (Err (ErrorData ErrStore))) in Hs by (unfold fetch; by rewrite Hg).
  2: by rewrite (answered_step _ _ _ (Err Recovered)) in Hs by (unfold fetch; by rewrite Hg).
  rewrite (answered_step _ _ _ (Ok o)) in Hs by (unfold fetch; by rewrite Hg).
  apply (ask_success _ (ErrorData ErrStore)) in Hs as Hst; [|done].
  unfold StoreAddORUpdateUser, store_marshalled in Hst. destruct (Marshal _) as [d|]; [|done].
  apply put_ok in Hst as [Hkv _]. exists v. rewrite Hkv. split; [|done]. cbn. rewrite lookup_insert_ne; [done|].
  intros He. by apply entry_inj in He.
Qed.
End Spec.

(** ** A small instance *)

(** One account and one rule, a body that asks for them, a password hash that can be
    undone, and one token. *)
#[local] Instance user_eq_dec : EqDecision User.
Proof. solve_decision. Defined.
#[local] Instance acl_eq_dec : EqDecision Acl.
Proof. solve_decision. Defined.
#[local] Instance claims_eq_dec : EqDecision JWTCustomClaims.
Proof. solve_decision. Defined.

Definition ann : User := mkUser "" "ann" 1 "hpw" 5.
Definition ann_rule : Acl := mkAcl "r" 1 "#" "pub" "ip" "*" "allow" 7.
#[local] Instance ann_json : Json User :=
  {| Marshal u := if decide (u = ann) then Some "a"%string else None;
     Unmarshal s := if decide (s = "a"%string) then Some ann else None; zero_value := zero_user |}.
#[local] Instance ann_rule_json : Json Acl :=
  {| Marshal a := if decide (a = ann_rule) then Some "r"%string else None;
     Unmarshal s := if decide (s = "r"%string) then Some ann_rule else None; zero_value := zero_acl |}.
#[local] Instance no_info_json : Json Info := {| Marshal _ := None; Unmarshal _ := None; zero_value := sample_info "" |}.
#[local] Instance no_sub_json : Json Subscription := {| Marshal _ := None; Unmarshal _ := None; zero_value := sample_sub "" |}.
#[local] Instance no_node_json : Json Node := {| Marshal _ := None; Unmarshal _ := None; zero_value := sample_node "" |}.
#[local] Instance ann_bind : Bind unit User := λ _ _, Some (mkUser "" "ann" 1 "pw" 5).
#[local] Instance ann_rule_bind : Bind unit Acl := λ _ _, Some (mkAcl "r" 1 "" "pub" "ip" "" "allow" 7).
#[local] Instance ann_login_bind : Bind unit LoginForm := λ _ _, Some (mkLoginForm "ann" "pw").
#[local] Instance ann_bridge_bind : Bind unit (gmap string string) := λ _ _, Some {["topic" := "a"; "queue" := "k"]}%string.

Definition sample_config : JWTConfig := mkJWTConfig "key" 3600 0 "smq".
Definition ann_claims : JWTCustomClaims := CreateClaims sample_config 100 "ann" 1.
#[local] Instance ann_jwt : Jwt :=
  {| SignedString c key := if decide (c = ann_claims ∧ key = "key"%string) then Some "tok"%string else None;
     ParseWithClaims key now tok :=
       if decide (tok = "tok"%string ∧ key = "key"%string) then
         if decide (now < NotBefore ann_claims) then (None, Some (ValidationError ValidationErrorNotValidYet))
         else if decide (ExpiresAt ann_claims < now) then (Some (mkJwt ann_claims false), Some (ValidationError ValidationErrorExpired))
         else (Some (mkJwt ann_claims true), None)
       else (None, Some (ValidationError ValidationErrorMalformed)) |}.
#[local] Instance ann_jwt_laws : JwtLaws.
Proof.
  split; cbn [SignedString ParseWithClaims ann_jwt]; intros c key tok; case_decide as Hc; try done; destruct Hc as [-> ->].
  - by intros [= <-].
  - intros now [= <-] Ht. rewrite decide_True by done. rewrite !decide_False by lia. done.
  - intros now [= <-] _ Ht. rewrite decide_True by done. rewrite decide_False by (cbn in *; lia). rewrite decide_True by done.
    do 2 eexists. split; [done|]. done.
Qed.

#[local] Instance sample_bcrypt : Bcrypt := {
  GenerateFromPassword _ p _ := if ValidString (string_of (z2b 104 :: p)) then Some (z2b 104 :: p) else None;
  CompareHashAndPassword h p := bool_decide (h = z2b 104 :: p)
}.
#[local] Instance sample_bcrypt_laws : BcryptLaws.
Proof. intros salt pwd cost hash. cbn -[ValidString string_of]. destruct (ValidString (string_of _)); [|done]. intros [= <-]. by apply bool_decide_true. Qed.
#[local] Instance sample_bcrypt_text : BcryptText.
Proof.
  intros salt pwd cost hash. cbn -[ValidString string_of]. destruct (ValidString (string_of (z2b 104 :: pwd))) eqn:Hv; [|done].
  by intros [= <-].
Qed.
Definition sample_request (token : string) (now : Z) : http_request unit := mkHttpRequest token tt now "uuid" [].
Definition ann_store : gmap string string := <[entry (userDir (dirs_of "c")) "ann" := "a"%string]> ∅.

#[local] Instance sample_json_text : JsonText.
Proof.
  split.
  - intros u _ d. cbn. case_decide; [|done]. subst. by intros [= <-].
  - intros a _ d. cbn. case_decide; [|done]. subst. by intros [= <-].
  - intros d u. cbn. case_decide; [|done]. intros [= <-]. by vm_compute.
  - intros d a. cbn. case_decide; [|done]. intros [= <-]. by vm_compute.
Qed.

Lemma sample_text token now : text_request (sample_request token now).
Proof.
  split_and!; [intros u [= <-]; by vm_compute|intros old a _ [= <-]; by vm_compute|by vm_compute|discriminate].
Qed.

Lemma empty_tables_synced : synced "c" sample_tables ∅.
Proof.
  split_and!.
  - intros name. by rewrite !lookup_empty.
  - intros tbl Ht id. injection Ht as <-. by rewrite !lookup_empty.
  - intros k Hk key. injection Hk as <-. by rewrite !lookup_empty.
Qed.

Local Abbreviation sample_serve := (serve (T := gmap string string) (dirs_of "c") sample_config).

Lemma refused_without_token_witness :
  sample_serve ListUsers (sample_request "" 200) ann_store = (ann_store, [], Unauthorized)
  ∧ sample_serve ListUsers (sample_request "tok" 9000) ann_store = (ann_store, [], NotForbidden).
Proof.
  split.
  - apply (refused_without_token "c" sample_config ListUsers); [discriminate|discriminate|reflexivity].
  - apply (refused_without_token "c" sample_config ListUsers); [discriminate|discriminate|discriminate|].
    intros claims Hp. vm_compute in Hp. discriminate.
Defined.

Lemma Login_token_witness :
  sample_serve Login (sample_request "" 100) ann_store = (ann_store, [], SuccessData (TokenData "tok")).
Proof.
  apply (Login_token "c" sample_config (sample_request "" 100) ann_store (mkLoginForm "ann" "pw") "tok").
  - reflexivity.
  - by eexists.
  - exists ann. split; [|done]. exists "a"%string. split; [apply lookup_insert_eq|done].
Defined.

Lemma token_lifetime_witness :
  sample_serve ListUsers (sample_request "tok" 200) ann_store
  = (ann_store, [], SuccessData (UserList [mkUserView "" "ann" 1 5])).
Proof.
  rewrite (proj1 (token_lifetime (jwt := ann_jwt) "c" sample_config "ann" 100 "tok" ListUsers
    (sample_request "tok" 200) ann_store ltac:(reflexivity) ltac:(reflexivity) ltac:(lia) ltac:(done)) ltac:(cbn; lia)).
  reflexivity.
Defined.

Definition sample_history : list (endpoint * http_request unit) :=
  [(CreateUser, sample_request "tok" 200); (CreateAcl, sample_request "tok" 201); (CreateBridge, sample_request "tok" 202);
   (DeleteUser "ann", sample_request "tok" 203)].

Definition sample_served : gmap string string * list kv_event :=
  serve_all "c" sample_config sample_history ∅.

Lemma sample_history_text : Forall (λ r, text_request r.2) sample_history.
Proof. repeat (apply Forall_cons; split; [apply sample_text|]). by apply Forall_nil. Qed.

Lemma http_tables_follow_witness :
  ∃ n', deliver (dirs_of "c") "n1" sample_served.2 sample_tables = Some n' ∧ synced "c" n' sample_served.1.
Proof.
  exact (http_tables_follow no_digest "c" sample_config "n1"
    sample_history ∅ sample_served.1 sample_served.2 sample_tables sample_history_text empty_tables_synced (surjective_pairing _)).
Defined.

Lemma no_rules_wf : rules_wf "c" ∅.
Proof. intros id v a Hl. by rewrite lookup_empty in Hl. Qed.

Lemma http_rules_typed_witness : rules_wf "c" sample_served.1.
Proof.
  exact (http_rules_typed no_digest "c" sample_config
    sample_history ∅ sample_served.1 sample_served.2 sample_history_text no_rules_wf (surjective_pairing _)).
Defined.

Lemma created_user_connects_witness :
  ∃ n', deliver (dirs_of "c") "n1" (sample_serve CreateUser (sample_request "tok" 200) ∅).1.2 sample_tables = Some n'
    ∧ CheckConnect (nd_auth n') "x" "ann" "pw" = true.
Proof.
  destruct (created_user_connects no_digest "c" sample_config "n1"
    (sample_request "tok" 200) ∅ (sample_serve CreateUser (sample_request "tok" 200) ∅).1.1
    (sample_serve CreateUser (sample_request "tok" 200) ∅).1.2 sample_tables (mkUser "" "ann" 1 "pw" 5)) as (n' & Hd & Hc & _).
  - exact sample_bcrypt_laws.
  - apply sample_text.
  - reflexivity.
  - reflexivity.
  - exact empty_tables_synced.
  - exists n'. split; [exact Hd|]. apply (Hc "x"%string). by left.
Defined.

(** A node that has loaded the account. *)
Definition ann_tables : node := mkNodeState {["ann"%string := ann]} (Some ∅) (Some (mkKafka ∅)) sample_state.

Lemma ann_tables_synced : synced "c" ann_tables ann_store.
Proof.
  split_and!.
  - intros name. unfold ann_store. destruct (decide (name = "ann"%string)) as [->|Hne].
    + change (dir_of (dirs_of "c") KUser) with (userDir (dirs_of "c")). by rewrite lookup_insert_eq.
    + transitivity (None : option User); [by apply (lookup_singleton_ne (M := gmap string))|]. change (dir_of (dirs_of "c") KUser) with (userDir (dirs_of "c")).
      rewrite lookup_insert_ne; [by rewrite lookup_empty|]. intros He. by apply entry_inj in He.
  - intros tbl Ht id. injection Ht as <-. unfold ann_store.
    rewrite lookup_insert_ne; [by rewrite lookup_empty|]. by apply (entries_apart "c" KUser KAcl).
  - intros k Hk key. injection Hk as <-. unfold ann_store.
    rewrite lookup_insert_ne; [by rewrite lookup_empty|]. by apply (entries_apart "c" KUser KBridge).
Qed.

Lemma deleted_user_refused_witness :
  CheckConnect (nd_auth ann_tables) "x" "ann" "pw" = true ∧
  ∃ n', deliver (dirs_of "c") "n1" (sample_serve (DeleteUser "ann") (sample_request "tok" 200) ann_store).1.2 ann_tables = Some n'
    ∧ CheckConnect (nd_auth n') "x" "ann" "pw" = false.
Proof.
  split; [reflexivity|].
  destruct (deleted_user_refused no_digest "c" sample_config "n1" "ann"
    (sample_request "tok" 200) ann_store (sample_serve (DeleteUser "ann") (sample_request "tok" 200) ann_store).1.1
    (sample_serve (DeleteUser "ann") (sample_request "tok" 200) ann_store).1.2 ann_tables) as (n' & Hd & Hc).
  - reflexivity.
  - exact ann_tables_synced.
  - exists n'. split; [exact Hd|apply Hc].
Defined.
