(* ===== verification/Transport.v ===== *)
(** * Transport: how the client library reaches a broker

    Models [src/mqtt/netconn.go] (the kind of connection a URL asks for) and the wrapper
    of [src/mqtt/websocket.go] that makes a stream of bytes of the messages of a
    websocket.  Dialling, TLS and the websocket library are parameters.  The theorems:
    which connection a scheme gives, and that no connection is left open on an error;
    and that reading from the wrapper is reading the messages one after the other, so
    that the packets above do not see where a message ends. *)
From S2P Require Import Prelude Wire.
Local Open Scope Z_scope.

(** ** Websockets *)

(** A [Read] of the reader of one message of which some bytes are left, into a buffer of a
    length: how many bytes it gives, and its error. *)
Inductive read_status := More | AtEOF | Broken.
Class MessageReader := read_some : list byte → nat → nat * read_status.

(** It gives no more than there is and than fits, and something if it can; EOF comes at
    the end of the message and only there. *)
Class MessageReaderLaws `{MessageReader} := {
  some_fits rest k : ((read_some rest k).1 ≤ k)%nat ∧ ((read_some rest k).1 ≤ length rest)%nat;
  some_eof rest k : (read_some rest k).2 = AtEOF → (read_some rest k).1 = length rest;
  some_end k : (read_some [] k).2 = AtEOF;
  some_progress rest k : rest ≠ [] → k ≠ O → (read_some rest k).1 ≠ O;
  some_intact rest k : (read_some rest k).2 ≠ Broken
}.

(** [ws_pending] are the messages [NextReader] will give before its error, [ws_r] is the
    reader that is in use. *)
Record websocketConnector := mkWs { ws_pending : list (list byte); ws_r : option (list byte) }.

Inductive ws_error := ErrNextReader | ErrReader | ErrWriteMessage.

Section Websocket.
Context `{MessageReader}.

(** The loop of [Read], from a reader on. *)
Fixpoint ws_read_from (k : nat) (m : list byte) (pending : list (list byte)) {struct pending}
    : list byte * option ws_error * websocketConnector :=
  let '(n, err) := read_some m k in
  match err with
  | AtEOF =>
      if decide (0 < n)%nat then (take n m, None, mkWs pending None)
      else match pending with
           | [] => ([], Some ErrNextReader, mkWs [] None)
           | m' :: pending' => ws_read_from k m' pending'
           end
  | More => (take n m, None, mkWs pending (Some (drop n m)))
  | Broken => (take n m, Some ErrReader, mkWs pending (Some (drop n m)))
  end.

Definition websocketConnector_Read (k : nat) (c : websocketConnector)
    : list byte * option ws_error * websocketConnector :=
  match ws_r c, ws_pending c with
  | Some m, pending => ws_read_from k m pending
  | None, m :: pending => ws_read_from k m pending
  | None, [] => ([], Some ErrNextReader, c)
  end.

(** Each [Write] is one message; [ok] is whether the library takes it. *)
Definition websocketConnector_Write (ok : bool) (p : list byte) (sent : list (list byte))
    : nat * option ws_error * list (list byte) :=
  if ok then (length p, None, sent ++ [p]) else (O, Some ErrWriteMessage, sent).

(** [io.ReadFull] on the wrapper; every turn reads a byte or ends, so [n] turns are enough. *)
Fixpoint ws_ReadFull (fuel n : nat) (c : websocketConnector) : list byte * option ws_error * websocketConnector :=
  match fuel, n with
  | S fuel, S _ =>
      let '(b, err, c) := websocketConnector_Read n c in
      match err with
      | Some e => (b, if decide (n ≤ length b)%nat then None else Some e, c)
      | None => let '(b', err, c) := ws_ReadFull fuel (n - length b) c in (b ++ b', err, c)
      end
  | _, _ => ([], None, c)
  end.

(** The bytes that are still to be read. *)
Definition contents (c : websocketConnector) : list byte := default [] (ws_r c) ++ concat (ws_pending c).

Context `{!MessageReaderLaws}.

Lemma ws_read_from_stream k m pending : k ≠ O →
  let '(b, err, c) := ws_read_from k m pending in
  m ++ concat pending = b ++ contents c ∧ (length b ≤ k)%nat
  ∧ if decide (m ++ concat pending = []) then b = [] ∧ err = Some ErrNextReader else b ≠ [] ∧ err = None.
Proof.
  intros Hk. revert m. induction pending as [|m' pending IH]; intros m; cbn [ws_read_from];
    pose proof (some_fits m k) as [Hf1 Hf2]; pose proof (some_eof m k) as He; pose proof (some_end k) as Hend;
    pose proof (some_progress m k) as Hp; pose proof (some_intact m k) as Hi;
    (destruct (read_some m k) as [n st] eqn:Hr); cbn [fst snd] in *.
  all: assert (Hst : st = More → m ≠ []) by (intros -> ->; rewrite Hr in Hend; done).
  all: destruct st; [|pose proof (He eq_refl) as ->|done].
  1, 3: specialize (Hst eq_refl); specialize (Hp Hst Hk); destruct m as [|x m]; [done|]; destruct n as [|n]; [done|].
  1, 2: rewrite decide_False by done; unfold contents; cbn [ws_r ws_pending from_option id];
    rewrite app_assoc, take_drop, length_take; split; [done|]; split; [lia|done].
  all: case_decide as Hn.
  1, 3: destruct m as [|x m]; [cbn in Hn; lia|]; rewrite decide_False by done;
    unfold contents; rewrite firstn_all; split; [done|]; split; [done|done].
  - destruct m; [|cbn in Hn; lia]. by rewrite decide_True.
  - destruct m; [|cbn in Hn; lia]. apply IH.
Qed.

(** One read.  Whatever the sizes of the messages, empty ones too, and however much the
    library gives at a time: a read with room for something gives the next bytes of the
    messages, at least one, and an error exactly when no byte is left. *)
Theorem websocket_Read_stream k c : k ≠ O →
  let '(b, err, c') := websocketConnector_Read k c in
  contents c = b ++ contents c' ∧ (length b ≤ k)%nat
  ∧ if decide (contents c = []) then b = [] ∧ err = Some ErrNextReader else b ≠ [] ∧ err = None.
Proof.
  intros Hk. destruct c as [pending [m|]]; cbn; [by apply ws_read_from_stream|].
  destruct pending as [|m pending]; [split; [done|]; split; [cbn; lia|done]|]. by apply (ws_read_from_stream k m pending).
Qed.

Lemma ws_ReadFull_stream fuel : ∀ n c, (n ≤ fuel)%nat →
  let '(b, err, c') := ws_ReadFull fuel n c in
  contents c = b ++ contents c' ∧ b = take n (contents c)
  ∧ err = if decide (n ≤ length (contents c))%nat then None else Some ErrNextReader.
Proof.
  induction fuel as [|fuel IH]; intros n c Hn; (destruct n as [|n]; [done|]); [lia|]. cbn [ws_ReadFull].
  pose proof (websocket_Read_stream (S n) c ltac:(done)) as Hr.
  destruct (websocketConnector_Read (S n) c) as [[b err] c'] eqn:Hc. destruct Hr as (Hcat & Hlen & Herr).
  case_decide as Hemp.
  - destruct Herr as [-> ->]. rewrite Hemp in *. cbn. split; [done|]. split; [done|]. done.
  - destruct Herr as [Hne ->]. assert (length b ≠ O) by (by destruct b).
    specialize (IH (S n - length b)%nat c' ltac:(lia)).
    destruct (ws_ReadFull fuel (S n - length b) c') as [[b' err'] c'']. destruct IH as (Hcat' & Hb' & ->).
    rewrite Hcat. split; [by rewrite <- app_assoc, <- Hcat'|]. split.
    + rewrite take_app, take_ge by lia. by rewrite <- Hb'.
    + rewrite length_app. by repeat case_decide; lia || done.
Qed.

(** C40: Reading whole.  [io.ReadFull] on the wrapper is [io.ReadFull] on the concatenation of
    the messages: the same bytes, the same rest, an error in the same cases; so packets
    may be cut into messages, or put together in one, in any way. *)
Theorem websocket_ReadFull_refines n c :
  let '(b, err, c') := ws_ReadFull n n c in
  match ReadFull n (contents c) with
  | (b0, None, rest) => b = b0 ∧ err = None ∧ contents c' = rest
  | (_, Some _, rest) => err = Some ErrNextReader ∧ contents c' = rest
  end.
Proof.
  pose proof (ws_ReadFull_stream n n c ltac:(done)) as Hr. destruct (ws_ReadFull n n c) as [[b err] c'].
  destruct Hr as (Hcat & Hb & ->). unfold ReadFull. case_decide.
  - split; [done|]. split; [done|]. rewrite Hcat. rewrite Hcat in Hb.
    assert (length b = n) as Hl by (rewrite Hb, length_take, <- Hcat; lia). by rewrite <- Hl, drop_app_length.
  - split; [done|]. rewrite take_ge in Hb by lia. rewrite <- Hb in Hcat.
    destruct (contents c'); [done|]. apply (f_equal length) in Hcat. rewrite length_app in Hcat. cbn in Hcat. lia.
Qed.

(** What one side writes, the other reads back to back. *)
Lemma websocket_Write_contents ps :
  contents (mkWs (foldl (λ sent p, (websocketConnector_Write true p sent).2) [] ps) None) = concat ps.
Proof.
  unfold contents. cbn. assert (H' : ∀ acc, foldl (λ sent p, (websocketConnector_Write true p sent).2) acc ps = acc ++ ps).
  { induction ps as [|p ps IH]; intros acc; [by rewrite app_nil_r|]. cbn. by rewrite IH, <- app_assoc. }
  by rewrite H'.
Qed.
End Websocket.

(** ** Opening a connection *)

Record uri := mkUri { Scheme : string; Host : string; Path : string; uri_String : string }.

Inductive open_error := ErrDial | ErrHandshake | ErrUnknownProtocol.

(** [WebsocketOptions], and what [NewWebsocket] gives to [websocket.Dialer]; a proxy is a
    function that only the library calls. *)
Record WebsocketOptions (ProxyFunction : Type) := mkWsOptions {
  ReadBufferSize : Z;
  WriteBufferSize : Z;
  Proxy : option ProxyFunction
}.
Arguments mkWsOptions {ProxyFunction} _ _ _.
Arguments ReadBufferSize {ProxyFunction} _.
Arguments WriteBufferSize {ProxyFunction} _.
Arguments Proxy {ProxyFunction} _.
Record ws_dialer (ProxyFunction : Type) := mkWsDialer {
  dialer_Proxy : ProxyFunction;
  HandshakeTimeout : Z;
  EnableCompression : bool;
  Subprotocols : list string;
  dialer_ReadBufferSize : Z;
  dialer_WriteBufferSize : Z
}.
Arguments mkWsDialer {ProxyFunction} _ _ _ _ _ _.

Definition Second : Z := 1000000000.

Section Open.
Context {ProxyFunction : Type} (ProxyFromEnvironment : ProxyFunction).

(** A connection as it is made: over which kind of link, to which address, and whether the
    TLS configuration of the options is used for it. *)
Inductive link := Websocket (d : ws_dialer ProxyFunction) | Direct (network : string) | Proxied.
Record opened := mkOpened { op_link : link; op_addr : string; op_tls : bool }.

(** Which dials succeed, and which handshakes; the environment's [all_proxy]. *)
Context (dials : opened → bool) (Handshake : opened → bool) (allProxy : string).
(** The timeout of the options, and their settings for websockets. *)
Context (timeout : Z) (websocketOptions : option (WebsocketOptions ProxyFunction)).

Definition dialled (o : opened) : result open_error opened := if dials o then Ok o else Err ErrDial.

Definition NewWebsocket (host : string) (tlsc : bool) : result open_error opened :=
  let timeout := if decide (timeout = 0) then 10 * Second else timeout in
  let options := default (mkWsOptions 0 0 None) websocketOptions in
  let dialer := mkWsDialer (default ProxyFromEnvironment (Proxy options)) timeout false ["mqtt"%string]
                  (ReadBufferSize options) (WriteBufferSize options) in
  dialled (mkOpened (Websocket dialer) host tlsc).

(** [openConnection]: the result and the connections it closes. *)
Definition openConnection (u : uri) : result open_error opened * list opened :=
  let scheme := Scheme u in
  if decide (scheme = "ws") then (NewWebsocket (uri_String u) false, [])
  else if decide (scheme = "wss") then (NewWebsocket (uri_String u) true, [])
  else if decide (scheme = "mqtt" ∨ scheme = "tcp") then
    if decide (String.length allProxy = O) then (dialled (mkOpened (Direct "tcp") (Host u) false), [])
    else (dialled (mkOpened Proxied (Host u) false), [])
  else if decide (scheme = "unix") then
    if decide (0 < String.length (Host u))%nat then (dialled (mkOpened (Direct "unix") (Host u) false), [])
    else (dialled (mkOpened (Direct "unix") (Path u) false), [])
  else if decide (scheme ∈ ["ssl"; "tls"; "mqtts"; "mqtt+ssl"; "tcps"]) then
    if decide (String.length allProxy = O) then (dialled (mkOpened (Direct "tcp") (Host u) true), [])
    else
      let conn := mkOpened Proxied (Host u) false in
      match dialled conn with
      | Err e => (Err e, [])
      | Ok _ =>
          let tlsConn := mkOpened Proxied (Host u) true in
          if Handshake tlsConn then (Ok tlsConn, []) else (Err ErrHandshake, [conn])
      end
  else (Err ErrUnknownProtocol, []).

Definition plain_schemes : list string := ["ws"; "mqtt"; "tcp"; "unix"].
Definition secure_schemes : list string := ["wss"; "ssl"; "tls"; "mqtts"; "mqtt+ssl"; "tcps"].

(** Opening.  A scheme is refused exactly if it is none of the known ones; a connection
    that is returned uses TLS exactly if the scheme is one of the secure ones, with a
    proxy or without; and a connection is closed again exactly if it was made and the
    handshake on it failed. *)
Theorem openConnection_secure u :
  let '(r, closed) := openConnection u in
  (r = Err ErrUnknownProtocol ↔ Scheme u ∉ plain_schemes ++ secure_schemes)
  ∧ (∀ o, r = Ok o → (op_tls o = true ↔ Scheme u ∈ secure_schemes) ∧ closed = [])
  ∧ (∀ o, o ∈ closed ↔ r = Err ErrHandshake ∧ o = mkOpened Proxied (Host u) false ∧ dials o = true).
Proof.
  unfold openConnection, NewWebsocket, dialled. destruct u as [sch host path str]. cbn [Scheme Host Path uri_String].
  repeat case_decide; repeat case_match; subst; cbn;
    (split; [|split]); try (intros ?; try intros [= <-]); try (split; [|done]);
    try (split; [try done|]); try set_solver.
Qed.
End Open.

(** ** Sample runs *)

(** A library that gives at most two bytes at a time, and the end of a message with its
    last byte. *)
#[local] Instance two_bytes : MessageReader := λ rest k,
  let n := (k `min` 2 `min` length rest)%nat in (n, if decide (n = length rest) then AtEOF else More).
#[local] Instance two_bytes_laws : MessageReaderLaws.
Proof.
  split; unfold read_some, two_bytes; cbn.
  - intros rest k. lia.
  - intros rest k. by case_decide.
  - intros k. by rewrite Nat.min_0_r.
  - intros [|x rest] k ? ?; [done|]. cbn. lia.
  - intros rest k. by case_decide.
Qed.

(** Five bytes out of three messages, one of which is empty. *)
Definition sample_messages : websocketConnector := mkWs [map z2b [1; 2; 3]; []; map z2b [4; 5; 6]] None.

Lemma websocket_ReadFull_refines_witness :
  (ws_ReadFull 5 5 sample_messages).1 = (map z2b [1; 2; 3; 4; 5], None)
  ∧ contents (ws_ReadFull 5 5 sample_messages).2 = [z2b 6].
Proof.
  pose proof (websocket_ReadFull_refines 5 sample_messages) as H. revert H.
  destruct (ws_ReadFull 5 5 sample_messages) as [[b err] c']. cbn. intros (-> & -> & ->). split; reflexivity.
Defined.
