(* ===== verification/Options.v ===== *)
(** * Options: the options of a client

    Models [src/mqtt/options.go]: the defaults, the setters with their conditions, and
    the brokers' addresses.  Durations are nanoseconds.  What only the transport looks
    at (TLS, HTTP headers, websockets, the dialer) is one field; a callback is a name
    of type [Handler], or only whether it is set. *)
From S2P Require Import Prelude Packets.
Local Open Scope Z_scope.

Definition Second : Z := 1000000000.
Definition Minute : Z := 60 * Second.

(** [url.URL]: the user information is what the library looks at. *)
Record URL := mkURL {
  url_String : string;
  url_User : option (string * option string)
}.

Section Options.
(** Message handlers, stores, and what the transport is configured with. *)
Context {Handler St Transport : Type}.

Record ClientOptions := mkOptions {
  Servers : list URL;
  ClientID : string;
  Username : string;
  Password : string;
  CredentialsProvider : option (string * string);
  CleanSession : bool;
  Order : bool;
  WillEnabled : bool;
  WillTopic : string;
  WillPayload : list byte;
  WillQos : Z;
  WillRetained : bool;
  ProtocolVersion : Z;
  protocolVersionExplicit : bool;
  KeepAlive : Z;
  PingTimeout : Z;
  ConnectTimeout : Z;
  MaxReconnectInterval : Z;
  AutoReconnect : bool;
  ConnectRetryInterval : Z;
  ConnectRetry : bool;
  opt_Store : option St;
  DefaultPublishHandler : option Handler;
  OnConnect : bool;
  OnConnectionLost : bool;
  OnReconnecting : bool;
  OnConnectAttempt : bool;
  WriteTimeout : Z;
  MessageChannelDepth : Z;
  ResumeSubs : bool;
  MaxResumePubInFlight : Z;
  CustomOpenConnectionFn : bool;
  ClientInfo : option (list byte);
  DialerTimeout : Z;
  transport : Transport
}.

Definition NewClientOptions (tr : Transport) : ClientOptions :=
  mkOptions [] "" "" "" None true true false "" [] 0 false 0 false 30 (10 * Second) (30 * Second)
    (10 * Minute) true (30 * Second) false None None false true false false 0 0 false 0 false None
    (30 * Second) tr.

(** [strings.Contains]. *)
Fixpoint contains (s sub : string) : bool :=
  has_prefix s sub || match s with EmptyString => false | String _ s' => contains s' sub end.

(** The address as [AddBroker] completes it. *)
Definition full_address (server : string) : string :=
  let server := match server with
                | String a _ => if decide (a = ":"%char) then String.append "127.0.0.1" server else server
                | EmptyString => server
                end in
  if contains server "://" then server else String.append "tcp://" server.

Section AddBroker.
(** [url.Parse]. *)
Context (Parse : string → option URL).

Definition AddBroker (server : string) (o : ClientOptions) : ClientOptions :=
  match Parse (full_address server) with
  | Some u => o {{ Servers := Servers o ++ [u] }}
  | None => o
  end.
End AddBroker.

Definition SetResumeSubs (resume : bool) (o : ClientOptions) : ClientOptions := o {{ ResumeSubs := resume }}.
Definition SetClientID (id : string) (o : ClientOptions) : ClientOptions := o {{ ClientID := id }}.
Definition SetUsername (u : string) (o : ClientOptions) : ClientOptions := o {{ Username := u }}.
Definition SetPassword (p : string) (o : ClientOptions) : ClientOptions := o {{ Password := p }}.
Definition SetCredentialsProvider (p : option (string * string)) (o : ClientOptions) : ClientOptions :=
  o {{ CredentialsProvider := p }}.
Definition SetCleanSession (clean : bool) (o : ClientOptions) : ClientOptions := o {{ CleanSession := clean }}.
Definition SetOrderMatters (order : bool) (o : ClientOptions) : ClientOptions := o {{ Order := order }}.
Definition SetStore (s : option St) (o : ClientOptions) : ClientOptions := o {{ opt_Store := s }}.

(** [int64(k / time.Second)]. *)
Definition SetKeepAlive (k : Z) (o : ClientOptions) : ClientOptions := o {{ KeepAlive := Z.quot k Second }}.
Definition SetPingTimeout (k : Z) (o : ClientOptions) : ClientOptions := o {{ PingTimeout := k }}.

Definition SetProtocolVersion (pv : Z) (o : ClientOptions) : ClientOptions :=
  if decide (3 ≤ pv ≤ 4 ∨ 128 < pv)
  then o {{ ProtocolVersion := pv; protocolVersionExplicit := true }} else o.

Definition UnsetWill (o : ClientOptions) : ClientOptions := o {{ WillEnabled := false }}.
Definition SetBinaryWill (topic : string) (payload : list byte) (qos : Z) (retained : bool)
    (o : ClientOptions) : ClientOptions :=
  o {{ WillEnabled := true; WillTopic := topic; WillPayload := payload; WillQos := qos;
       WillRetained := retained }}.
Definition SetWill (topic payload : string) (qos : Z) (retained : bool) (o : ClientOptions) : ClientOptions :=
  SetBinaryWill topic (bytes_of payload) qos retained o.

Definition SetDefaultPublishHandler (h : option Handler) (o : ClientOptions) : ClientOptions :=
  o {{ DefaultPublishHandler := h }}.
Definition SetOnConnectHandler (set : bool) (o : ClientOptions) : ClientOptions := o {{ OnConnect := set }}.
Definition SetConnectionLostHandler (set : bool) (o : ClientOptions) : ClientOptions :=
  o {{ OnConnectionLost := set }}.
Definition SetReconnectingHandler (set : bool) (o : ClientOptions) : ClientOptions := o {{ OnReconnecting := set }}.
Definition SetConnectionAttemptHandler (set : bool) (o : ClientOptions) : ClientOptions :=
  o {{ OnConnectAttempt := set }}.
Definition SetWriteTimeout (t : Z) (o : ClientOptions) : ClientOptions := o {{ WriteTimeout := t }}.
Definition SetConnectTimeout (t : Z) (o : ClientOptions) : ClientOptions :=
  o {{ ConnectTimeout := t; DialerTimeout := t }}.
Definition SetMaxReconnectInterval (t : Z) (o : ClientOptions) : ClientOptions := o {{ MaxReconnectInterval := t }}.
Definition SetAutoReconnect (a : bool) (o : ClientOptions) : ClientOptions := o {{ AutoReconnect := a }}.
Definition SetConnectRetryInterval (t : Z) (o : ClientOptions) : ClientOptions := o {{ ConnectRetryInterval := t }}.
Definition SetConnectRetry (a : bool) (o : ClientOptions) : ClientOptions := o {{ ConnectRetry := a }}.
Definition SetMessageChannelDepth (s : Z) (o : ClientOptions) : ClientOptions := o {{ MessageChannelDepth := s }}.
Definition SetMaxResumePubInFlight (n : Z) (o : ClientOptions) : ClientOptions := o {{ MaxResumePubInFlight := n }}.
(** A nil function is not set. *)
Definition SetCustomOpenConnectionFn (set : bool) (o : ClientOptions) : ClientOptions :=
  if set then o {{ CustomOpenConnectionFn := true }} else o.
Definition SetClientInfo (info : option (list byte)) (o : ClientOptions) : ClientOptions := o {{ ClientInfo := info }}.

(** [newConnectMsgFromOptions] of [message.go]. *)
Definition credentials (o : ClientOptions) (broker : URL) : string * string :=
  let '(username, password) :=
    match url_User broker with
    | Some (u, Some pwd) => (u, pwd)
    | Some (u, None) => (u, Password o)
    | None => (Username o, Password o)
    end in
  match CredentialsProvider o with Some up => up | None => (username, password) end.

Definition newConnectMsgFromOptions (o : ClientOptions) (broker : URL) : ConnectPacket :=
  let m := newConnect {{ con_CleanSession := CleanSession o; con_WillFlag := WillEnabled o;
                         con_WillRetain := WillRetained o; con_ClientIdentifier := ClientID o }} in
  let m := if WillEnabled o
           then m {{ con_WillQos := WillQos o; con_WillTopic := WillTopic o; con_WillMessage := WillPayload o }}
           else m in
  let '(username, password) := credentials o broker in
  let m := if decide (username = ""%string) then m
           else let m := m {{ con_UsernameFlag := true; con_Username := username }} in
                if decide (password = ""%string) then m
                else m {{ con_PasswordFlag := true; con_Password := bytes_of password }} in
  let m := match ClientInfo o with Some (b :: bs) => m {{ con_Other := Some (b :: bs) }} | _ => m end in
  m {{ con_Keepalive := KeepAlive o mod 65536 }}.
End Options.
Arguments ClientOptions : clear implicits.
