(* ===== verification/Client.v ===== *)
(** * Client: the client library

    Models [src/mqtt/client.go], [net.go], [ping.go], [message.go] and the dispatching
    of [router.go]: the state of a client, connecting and reconnecting, publishing and
    subscribing, the handling of every incoming packet, resending what is stored, and
    the keep-alive timer.

    The goroutines are modelled by what each does with one item: the packets handed to
    the outgoing goroutine are two lists, the publishes and the others; whether it takes
    a packet before the timeout is a parameter of the operation.  The network is the
    list of the connections that the next attempts open, [None] for an attempt that
    fails; the bytes that the other side sends on a connection belong to it.  [None] of
    an operation is a panic. *)
From S2P Require Import Prelude Wire Packets Topics TopicLevels Router MessageIds Store Options.
Local Open Scope Z_scope.

Definition disconnected : Z := 0.
Definition connecting : Z := 1.
Definition reconnecting : Z := 2.
Definition connected : Z := 3.

(** A connection: whether what is written gets through, and what will be read. *)
Record Conn := mkConn { conn_writes : bool; conn_stream : list byte }.
Definition network : Type := list (option Conn).

(** ** The handshake *)

Inductive net_error := ErrOpen | ErrWriteConnect | ErrReadConnack (e : perr) | ErrNilConnack | ErrNotConnack.

Definition verifyCONNACK (stream : list byte) : Z * bool * option net_error :=
  match ReadPacket stream with
  | (_, Some e, _) => (ErrNetworkError, false, Some (ErrReadConnack e))
  | (None, None, _) => (ErrNetworkError, false, Some ErrNilConnack)
  | (Some (PConnack msg), None, _) => (cak_ReturnCode msg, cak_SessionPresent msg, None)
  | (Some _, None, _) => (ErrNetworkError, false, Some ErrNotConnack)
  end.

Definition with_protocol (v : Z) (cm : ConnectPacket) : ConnectPacket :=
  if decide (v = 3) then cm {{ con_ProtocolName := "MQIsdp"; con_ProtocolVersion := 3 }}
  else if decide (v = 131) then cm {{ con_ProtocolName := "MQIsdp"; con_ProtocolVersion := 131 }}
  else if decide (v = 132) then cm {{ con_ProtocolName := "MQTT"; con_ProtocolVersion := 132 }}
  else cm {{ con_ProtocolName := "MQTT"; con_ProtocolVersion := 4 }}.

(** The bytes written, and the answer. *)
Definition connectMQTT (conn : Conn) (cm : ConnectPacket) (v : Z) : list byte * (Z * bool * option net_error) :=
  let out := (ConnectPacket_Write (with_protocol v cm)).1 in
  if conn_writes conn then (out, verifyCONNACK (conn_stream conn))
  else (out, (ErrNetworkError, false, Some ErrWriteConnect)).

Section Client.
Context {Handler T Transport : Type} `{Store T}.
Abbreviation options := (ClientOptions Handler T Transport).

(** ** The state *)

(** [oboundP] carries everything but publishes; the token is nil for some. *)
Record client := mkClient {
  cl_options : options;
  status : Z;
  mids : messageIds;
  msgRouter : @router Handler;
  persist : T;
  conn_up : bool;
  lastSent : Z;
  lastReceived : Z;
  pingOutstanding : Z;
  obound : list (PublishPacket * positive);
  oboundP : list (ControlPacket * option positive);
  calls : list (Handler * PublishPacket)
}.

(** [NewMemoryStore()] when there is no store. *)
Definition NewClient (default_store : T) (o : options) : client :=
  let o := match opt_Store o with None => o {{ opt_Store := Some default_store }} | Some _ => o end in
  let v := ProtocolVersion o in
  let o := if decide (v = 3 ∨ v = 4 ∨ v = 131 ∨ v = 132)
           then o {{ protocolVersionExplicit := true }}
           else o {{ ProtocolVersion := 4; protocolVersionExplicit := false }} in
  mkClient o disconnected (mkMids ∅ 0 ∅) (mkRouter [] (DefaultPublishHandler o))
    (default default_store (opt_Store o)) false 0 0 0 [] [] [].

Definition AddRoute (topic : string) (callback : option Handler) (c : client) : client :=
  match callback with Some h => c {{ msgRouter ::= λ r, addRoute r topic h }} | None => c end.

Definition IsConnected (c : client) : bool :=
  if decide (status c = connected) then true
  else if AutoReconnect (cl_options c) && bool_decide (status c > connecting) then true
  else if ConnectRetry (cl_options c) && bool_decide (status c = connecting) then true
  else false.
Definition IsConnectionOpen (c : client) : bool := bool_decide (status c = connected).
Definition setConnected (s : Z) (c : client) : client := c {{ status := s }}.

(** [newToken]: a token nobody has seen. *)
Definition alloc (t : token) (c : client) : positive * client :=
  let a := fresh (dom (tokens (mids c))) in
  (a, c {{ mids := (mids c) {{ tokens ::= insert a t }} }}).
Definition on_tok (f : token → token) (a : positive) (c : client) : client := c {{ mids ::= on_token f a }}.
Definition fail_token (e : flow_error) (a : positive) (c : client) : client := on_tok (setError e) a c.
Definition complete_token (a : positive) (c : client) : client := on_tok flowComplete a c.

(** ** Publishing and subscribing *)

Inductive payload_arg := PayloadString (s : string) | PayloadBytes (b : list byte)
  | PayloadBuffer (b : list byte) | PayloadOther.
Definition payload_bytes (p : payload_arg) : option (list byte) :=
  match p with
  | PayloadString s => Some (bytes_of s)
  | PayloadBytes b | PayloadBuffer b => Some b
  | PayloadOther => None
  end.

(** The id of a new packet, noted in the token; 0 when there is none. *)
Definition take_id (a : positive) (c : client) : option (Z * client) :=
  r ← getID a (mids c);
  let '(mID, m) := r in
  if decide (mID = 0) then Some (0, fail_token ErrNoMessageIDs a (c {{ mids := m }}))
  else Some (mID, on_tok (λ t, t {{ tok_messageID := mID }}) a (c {{ mids := m }})).

(** The last part of [Publish]: waiting for the outgoing goroutine unless the packet
    is only stored for now. *)
Definition hand_over (taken : bool) (a : positive) (send : client → client) (c : client) : client :=
  if decide (status c = connecting ∨ status c = reconnecting) then c
  else if taken then send c else fail_token ErrBrokenByTimeout a c.

Definition send_publish (taken : bool) (a : positive) (pub : PublishPacket) (c : client) : option client :=
  s ← persistOutbound (persist c) (PPublish pub);
  Some (hand_over taken a (λ c, c {{ obound ::= λ l, l ++ [(pub, a)] }}) (c {{ persist := s }})).

Definition Publish (topic : string) (qos : Z) (retained : bool) (payload : payload_arg) (taken : bool)
    (c : client) : option (positive * client) :=
  let '(a, c) := alloc (new_token PublishToken) c in
  if negb (IsConnected c) then Some (a, fail_token ErrNotConnected a c)
  else if decide (status c = reconnecting ∧ qos = 0) then Some (a, complete_token a c)
  else
    match payload_bytes payload with
    | None => Some (a, fail_token ErrUnknownPayload a c)
    | Some b =>
        let pub := mkPublish (mkFixedHeader Packets.Publish false qos retained 0) topic 0 b in
        if decide (qos = 0) then c ← send_publish taken a pub c; Some (a, c)
        else
          r ← take_id a c;
          let '(mID, c) := r in
          if decide (mID = 0) then Some (a, c)
          else c ← send_publish taken a (pub {{ pub_MessageID := mID }}) c; Some (a, c)
    end.

(** What [Subscribe], [SubscribeMultiple] and [Unsubscribe] check first. *)
Definition not_ready (c : client) : option flow_error :=
  if negb (IsConnected c) then Some ErrNotConnected
  else if IsConnectionOpen c then None
  else if negb (ResumeSubs (cl_options c)) then Some ErrResumeSubsNotSet
  else if CleanSession (cl_options c) && bool_decide (status c = reconnecting) then Some ErrReconnectingClean
  else None.

(** The id, the store and the channel for a packet of these three. *)
Definition send_control (taken : bool) (a : positive) (mk : Z → ControlPacket) (after : client → client)
    (c : client) : option client :=
  r ← take_id a c;
  let '(mID, c) := r in
  if decide (mID = 0) then Some c
  else
    s ← (if ResumeSubs (cl_options c) then persistOutbound (persist c) (mk mID) else Some (persist c));
    Some (hand_over taken a (λ c, after (c {{ oboundP ::= λ l, l ++ [(mk mID, Some a)] }}))
            (c {{ persist := s }})).

(** The topic of the route of a subscription. *)
Definition route_topic (topic : string) : string :=
  let topic := if has_prefix topic "$share/" then join_slash (drop 2 (split_slash topic)) else topic in
  if has_prefix topic "$queue/" then drop_string 7 topic else topic.

Definition Subscribe (topic : string) (qos : Z) (callback : option Handler) (taken : bool) (c : client)
    : option (positive * client) :=
  let '(a, c) := alloc (new_token SubscribeToken) c in
  match not_ready c with
  | Some e => Some (a, fail_token e a c)
  | None =>
      match validateTopicAndQos topic qos with
      | Some e => Some (a, fail_token (ErrTopic e) a c)
      | None =>
          let rt := route_topic topic in
          let c := AddRoute rt callback c in
          let c := on_tok (λ t, t {{ tok_subs ::= λ l, l ++ [rt] }}) a c in
          c ← send_control taken a
                (λ mID, PSubscribe (newSubscribe {{ sub_MessageID := mID; sub_Topics := [topic]; sub_Qoss := [z2b qos] }}))
                id c;
          Some (a, c)
      end
  end.

Definition SubscribeMultiple (filters : gmap string Z) (callback : option Handler) (taken : bool) (c : client)
    : option (positive * client) :=
  let '(a, c) := alloc (new_token SubscribeToken) c in
  match not_ready c with
  | Some e => Some (a, fail_token e a c)
  | None =>
      match validateSubscribeMap filters with
      | Err e => Some (a, fail_token (ErrTopic e) a c)
      | Ok (topics, qoss) =>
          let c := foldl (λ c t, AddRoute t callback c) c (map fst (map_to_list filters)) in
          let c := on_tok (λ t, t {{ tok_subs := topics }}) a c in
          c ← send_control taken a
                (λ mID, PSubscribe (newSubscribe {{ sub_MessageID := mID; sub_Topics := topics; sub_Qoss := map z2b qoss }}))
                id c;
          Some (a, c)
      end
  end.

Definition Unsubscribe (topics : list string) (taken : bool) (c : client) : option (positive * client) :=
  let '(a, c) := alloc (new_token UnsubscribeToken) c in
  match not_ready c with
  | Some e => Some (a, fail_token e a c)
  | None =>
      c ← send_control taken a
            (λ mID, PUnsubscribe (newUnsubscribe {{ uns_MessageID := mID; uns_Topics := topics }}))
            (λ c, foldl (λ c t, c {{ msgRouter ::= λ r, deleteRoute r t }}) c topics) c;
      Some (a, c)
  end.

(** ** What is stored *)

(** Gives the ids of the stored publishes to placeholders. *)
Definition reserve_one (c : client) (key : string) : option client :=
  packet ← Get (persist c) key;
  match packet with
  | Some (PPublish p) =>
      let '(a, c) := alloc ((new_token PlaceHolderToken) {{ tok_messageID := pub_MessageID p }}) c in
      Some (c {{ mids ::= claimID a (pub_MessageID p) }})
  | _ => Some c
  end.

Fixpoint reserve_keys (keys : list string) (c : client) : option client :=
  match keys with [] => Some c | key :: keys => c ← reserve_one c key; reserve_keys keys c end.

Definition reserveStoredPublishIDs (c : client) : option client :=
  if CleanSession (cl_options c) then Some c else reserve_keys (All (persist c)) c.

(** What [resume] does with one stored packet before it sends anything, and what it
    then sends: to the outgoing goroutine, or to the incoming one. *)
Inductive resume_action :=
  | Discard
  | SendPublish (p : PublishPacket) (a : positive)
  | SendControl (p : ControlPacket) (t : option positive)
  | Inbound (p : ControlPacket).

Definition claim (k : token_kind) (id : Z) (subs : list string) (c : client) : positive * client :=
  let '(a, c) := alloc ((new_token k) {{ tok_messageID := id; tok_subs := subs }}) c in
  (a, c {{ mids ::= claimID a id }}).

Definition resume_one (subscription : bool) (key : string) (packet : ControlPacket) (c : client)
    : resume_action * client :=
  if isKeyOutbound key then
    match packet with
    | PSubscribe p =>
        if subscription
        then let '(a, c) := claim SubscribeToken (sub_MessageID p) (sub_Topics p) c in (SendControl packet (Some a), c)
        else (Discard, c)
    | PUnsubscribe _ =>
        if subscription
        then let '(a, c) := alloc (new_token UnsubscribeToken) c in (SendControl packet (Some a), c)
        else (Discard, c)
    | PPubrel _ => (SendControl packet None, c)
    | PPublish p =>
        let p := if decide (Qos (pub_FixedHeader p) ≠ 0)
                 then p {{ pub_FixedHeader := (pub_FixedHeader p) {{ Dup := true }} }} else p in
        let '(a, c) := claim PublishToken (pub_MessageID p) [] c in (SendPublish p a, c)
    | _ => (Discard, c)
    end
  else
    match packet with
    | PPubrel _ => (Inbound packet, c)
    | _ => (Discard, c)
    end.

(** The loop over the stored keys.  [room] is the number of packets that are sent
    before the client is stopped; the packets for the incoming goroutine are the second
    result. *)
Fixpoint resume_loop (subscription : bool) (room : nat) (keys : list string) (c : client)
    (inbound : list ControlPacket) : option (client * list ControlPacket) :=
  match keys with
  | [] => Some (c, inbound)
  | key :: keys =>
      stored ← Get (persist c) key;
      match stored with
      | None => resume_loop subscription room keys c inbound
      | Some packet =>
          let '(act, c) := resume_one subscription key packet c in
          match act, room with
          | Discard, _ =>
              s ← Del (persist c) key; resume_loop subscription room keys (c {{ persist := s }}) inbound
          | _, O => Some (c, inbound)
          | SendPublish p a, S room =>
              resume_loop subscription room keys (c {{ obound ::= λ l, l ++ [(p, a)] }}) inbound
          | SendControl p t, S room =>
              resume_loop subscription room keys (c {{ oboundP ::= λ l, l ++ [(p, t)] }}) inbound
          | Inbound p, S room => resume_loop subscription room keys c (inbound ++ [p])
          end
      end
  end.

Definition resume (subscription : bool) (room : nat) (c : client) : option (client * list ControlPacket) :=
  resume_loop subscription room (All (persist c)) c [].

(** ** Connecting *)

(** The variables of [attemptConnection]. *)
Record attempt := mkAttempt {
  at_version : Z;
  at_conn : option Conn;
  at_rc : Z;
  at_sessionPresent : bool;
  at_err : option net_error;
  at_net : network
}.

(** From the label [CONN]: opening a connection and shaking hands. *)
Definition open_once (cm : ConnectPacket) (st : attempt) : attempt :=
  match at_net st with
  | Some conn :: net =>
      let '(rc, sp, e) := (connectMQTT conn cm (at_version st)).2 in
      mkAttempt (at_version st) (Some conn) rc sp e net
  | None :: net => mkAttempt (at_version st) None ErrNetworkError (at_sessionPresent st) (Some ErrOpen) net
  | [] => mkAttempt (at_version st) None ErrNetworkError (at_sessionPresent st) (Some ErrOpen) []
  end.

Definition accepted (st : attempt) : bool := bool_decide (at_rc st = Accepted).

(** One broker: once more with the older version when it was reached and refused. *)
Definition try_broker (o : options) (broker : URL) (st : attempt) : attempt :=
  let cm := newConnectMsgFromOptions o broker in
  let st' := open_once cm st in
  match at_conn st' with
  | None => st'
  | Some _ =>
      if accepted st' then st'
      else if negb (protocolVersionExplicit o) && bool_decide (at_version st' = 4)
      then open_once cm (st' {{ at_version := 3 }})
      else st'
  end.

(** The loop over the brokers ends with the first that accepts. *)
Fixpoint try_brokers (o : options) (brokers : list URL) (st : attempt) : attempt :=
  match brokers with
  | [] => st
  | b :: brokers =>
      let st := try_broker o b st in
      if accepted st then st else try_brokers o brokers st
  end.

(** The error: that of the return code, and none for a code that has none. *)
Definition connect_error (rc : Z) : option conn_error := ConnErrors rc.

(** [attemptConnection]: the connection, the return code, whether a session is present,
    the error, the client and what is left of the network. *)
Definition attemptConnection (net : network) (c : client)
    : option Conn * Z * bool * option conn_error * client * network :=
  let o := cl_options c in
  let st := try_brokers o (Servers o) (mkAttempt (ProtocolVersion o) None 0 false None net) in
  if accepted st
  then (at_conn st, at_rc st, at_sessionPresent st, None,
        c {{ cl_options := o {{ ProtocolVersion := at_version st; protocolVersionExplicit := true }} }}, at_net st)
  else (at_conn st, at_rc st, at_sessionPresent st, connect_error (at_rc st), c, at_net st).

(** [startCommsWorkers] at time [now]: false when they run already.  [None] is the panic
    of the keep-alive ticker, or of a connection that is nil. *)
Definition check_interval (keepAlive : Z) : Z := if decide (keepAlive > 10) then 5 else Z.quot keepAlive 2.
Definition startCommsWorkers (now : Z) (conn : option Conn) (c : client) : option (client * bool) :=
  conn ← conn;
  if conn_up c then Some (c, false)
  else
    c ← (if decide (KeepAlive (cl_options c) = 0) then Some (c {{ conn_up := true }})
         else if decide (check_interval (KeepAlive (cl_options c)) ≤ 0) then None
         else Some (c {{ conn_up := true; pingOutstanding := 0; lastReceived := now; lastSent := now }}));
    Some (c {{ status := connected }}, true).

(** [stopCommsWorkers]: whether they ran. *)
Definition stopCommsWorkers (c : client) : client * bool :=
  if conn_up c then (c {{ conn_up := false }}, true) else (c, false).

(** The part of [Connect] before its goroutine. *)
Definition Connect_start (c : client) : option (positive * client * bool) :=
  let '(a, c) := alloc (new_token ConnectToken) c in
  if ConnectRetry (cl_options c) && bool_decide (status c ≠ disconnected)
  then Some (a, complete_token a (on_tok (λ t, t {{ returnCode := Accepted }}) a c), false)
  else
    let c := c {{ persist ::= Store_Open }} in
    c ← (if ConnectRetry (cl_options c) then reserveStoredPublishIDs c else Some c);
    Some (a, setConnected connecting c, true).

(** The goroutine, from the label [RETRYCONN].  [sleeps] tells for each wait whether
    [Disconnect] sets the status during it; [None] in the result is the goroutine that
    still waits. *)
Definition connect_failed (rc : Z) (e : conn_error) (a : positive) (c : client) : client :=
  let c := setConnected disconnected c in
  let c := c {{ persist ::= Store_Close }} in
  fail_token (ErrConnect e) a (on_tok (λ t, t {{ returnCode := rc }}) a c).

Definition connect_up (now : Z) (room : nat) (conn : option Conn) (a : positive) (c : client)
    : option (client * list ControlPacket) :=
  r ← startCommsWorkers now conn c;
  let '(c, started) := r in
  r ← (if started : bool then
         if CleanSession (cl_options c) then Some (c {{ persist ::= Store_Reset }}, [])
         else resume (ResumeSubs (cl_options c)) room c
       else Some (c, []));
  let '(c, inbound) := r in
  Some (complete_token a c, inbound).

Fixpoint Connect_loop (now : Z) (room : nat) (sleeps : list bool) (a : positive) (net : network) (c : client)
    : option (option (client * network * list ControlPacket)) :=
  let '(conn, rc, sp, e, c, net) := attemptConnection net c in
  let c := on_tok (λ t, t {{ sessionPresent := sp }}) a c in
  match e with
  | None => r ← connect_up now room conn a c; Some (Some (r.1, net, r.2))
  | Some e =>
      if ConnectRetry (cl_options c) then
        match sleeps with
        | [] => Some None
        | stopped :: sleeps =>
            let c := if stopped : bool then setConnected disconnected c else c in
            if decide (status c = connecting) then Connect_loop now room sleeps a net c
            else Some (Some (connect_failed rc e a c, net, []))
        end
      else Some (Some (connect_failed rc e a c, net, []))
  end.

Definition Connect_run (now : Z) (room : nat) (sleeps : list bool) (a : positive) (net : network) (c : client)
    : option (option (client * network * list ControlPacket)) :=
  match Servers (cl_options c) with
  | [] => Some (Some (fail_token ErrNoServers a c, net, []))
  | _ => Connect_loop now room sleeps a net c
  end.

(** ** Losing and ending a connection *)

(** [disconnect]. *)
Definition disconnect (c : client) : client :=
  let '(c, ran) := stopCommsWorkers c in
  if ran : bool then c {{ mids ::= cleanUp; persist ::= Store_Close }} else c.

Definition Disconnect (taken : bool) (c : client) : client :=
  if decide (status c = connected) then
    let c := setConnected disconnected c in
    let '(a, c) := alloc (new_token DisconnectToken) c in
    let c := if taken
             then c {{ oboundP ::= λ l, l ++ [(PDisconnect (header_of_type Packets.Disconnect 0), Some a)] }} else c in
    disconnect c
  else disconnect (setConnected disconnected c).

Definition forceDisconnect (c : client) : client :=
  if negb (IsConnected c) then c else disconnect (setConnected disconnected c).

(** [internalConnLost]; the flag tells whether [reconnect] is started. *)
Definition internalConnLost (c : client) : client * bool :=
  let '(c, ran) := stopCommsWorkers c in
  if ran : bool then
    let again := AutoReconnect (cl_options c) && bool_decide (status c > connecting) in
    let c := if CleanSession (cl_options c) && negb again then c {{ mids ::= cleanUp }}
             else if negb (ResumeSubs (cl_options c)) then c {{ mids ::= cleanUpSubscribe }} else c in
    (setConnected (if again then reconnecting else disconnected) c, again)
  else (c, false).

(** The time to wait after the next failure. *)
Definition next_sleep (max sleep : Z) : Z :=
  let sleep := if decide (sleep < max) then sleep * 2 else sleep in
  if decide (sleep > max) then max else sleep.

Section Reconnect.
(** [OnReconnecting] may change the options. *)
Context (on_reconnecting : options → options).

(** [reconnect]; [sleeps] as for [Connect]; the times waited are the third result. *)
Fixpoint reconnect_loop (sleeps : list bool) (sleep : Z) (net : network) (c : client) (waited : list Z)
    : option (option Conn * client * network * list Z) :=
  let c := if OnReconnecting (cl_options c) then c {{ cl_options ::= on_reconnecting }} else c in
  let '(conn, _, _, e, c, net) := attemptConnection net c in
  match e with
  | None => Some (conn, c, net, waited)
  | Some _ =>
      match sleeps with
      | [] => None
      | stopped :: sleeps =>
          let waited := waited ++ [sleep] in
          let c := if stopped : bool then setConnected disconnected c else c in
          if decide (status c = disconnected) then Some (conn, c, net, waited)
          else reconnect_loop sleeps (next_sleep (MaxReconnectInterval (cl_options c)) sleep) net c waited
      end
  end.

Definition reconnect (now : Z) (room : nat) (sleeps : list bool) (net : network) (c : client)
    : option (option (client * network * list ControlPacket)) :=
  match reconnect_loop sleeps Second net c [] with
  | None => Some None
  | Some (conn, c, net, _) =>
      if decide (status c = disconnected) then Some (Some (c, net, []))
      else
        r ← startCommsWorkers now conn c;
        let '(c, started) := r in
        r ← (if started : bool then resume (ResumeSubs (cl_options c)) room c else Some (c, []));
        Some (Some (r.1, net, r.2))
  end.
End Reconnect.

(** ** Packets *)

Definition UpdateLastReceived (now : Z) (c : client) : client :=
  if decide (KeepAlive (cl_options c) ≠ 0) then c {{ lastReceived := now }} else c.
Definition UpdateLastSent (now : Z) (c : client) : client :=
  if decide (KeepAlive (cl_options c) ≠ 0) then c {{ lastSent := now }} else c.
Definition pingRespReceived (c : client) : client := c {{ pingOutstanding := 0 }}.

(** [for i, qos := range m.ReturnCodes { t.subResult[t.subs[i]] = qos }]. *)
Fixpoint granted (subs : list string) (codes : list byte) (res : gmap string byte) : option (gmap string byte) :=
  match codes with
  | [] => Some res
  | q :: codes => match subs with [] => None | s :: subs => granted subs codes (<[s := q]> res) end
  end.

(** [c.getToken(id).flowComplete(); c.freeID(id)]. *)
Definition acknowledged (id : Z) (c : client) : client :=
  let c := match getToken id (mids c) with Some a => complete_token a c | None => c end in
  c {{ mids ::= freeID id }}.

(** What a packet makes the incoming goroutine pass on. *)
Inductive incoming := Nothing | OutboundPacket (p : ControlPacket) | IncomingPub (p : PublishPacket).

(** The switch of [startIncomingComms]. *)
Definition handle_incoming (msg : ControlPacket) (c : client) : option (client * incoming) :=
  match msg with
  | PPingresp _ => Some (pingRespReceived c, Nothing)
  | PSuback m =>
      let id := sak_MessageID m in
      c ← match getToken id (mids c) with
          | Some a =>
              t ← tokens (mids c) !! a;
              if decide (tok_kind t = SubscribeToken)
              then res ← granted (tok_subs t) (sak_ReturnCodes m) (subResult t);
                   Some (on_tok (λ t, t {{ subResult := res }}) a c)
              else Some c
          | None => Some c
          end;
      Some (acknowledged id c, Nothing)
  | PUnsuback m | PPuback m | PPubcomp m => Some (acknowledged (ack_MessageID m) c, Nothing)
  | PPublish m => Some (c, IncomingPub m)
  | PPubrec m => Some (c, OutboundPacket (PPubrel (newPubrel (ack_MessageID m))))
  | PPubrel m =>
      let pc := PPubcomp (newAck Packets.Pubcomp (ack_MessageID m)) in
      s ← persistOutbound (persist c) pc; Some (c {{ persist := s }}, OutboundPacket pc)
  | _ => Some (c, Nothing)
  end.

(** A packet from the network. *)
Definition receive (now : Z) (msg : ControlPacket) (c : client) : option (client * incoming) :=
  s ← persistInbound (persist c) msg;
  handle_incoming msg (UpdateLastReceived now (c {{ persist := s }})).

(** [matchAndDispatch] for one message when the order matters: every handler is called
    and the message acknowledged once. *)
Definition ack_message (p : PublishPacket) (c : client) : option client :=
  if decide (Qos (pub_FixedHeader p) = 2)
  then Some (c {{ oboundP ::= λ l, l ++ [(PPubrec (newAck Packets.Pubrec (pub_MessageID p)), None)] }})
  else if decide (Qos (pub_FixedHeader p) = 1)
  then
    let pa := PPuback (newAck Packets.Puback (pub_MessageID p)) in
    s ← persistOutbound (persist c) pa;
    Some (c {{ persist := s; oboundP ::= λ l, l ++ [(pa, None)] }})
  else Some c.

Definition dispatch (p : PublishPacket) (c : client) : option client :=
  hs ← handlers_for (msgRouter c) (pub_TopicName p);
  let c := c {{ calls ::= λ l, l ++ map (λ h, (h, p)) hs }} in
  match hs with [] => Some c | _ => ack_message p c end.

(** How a write ends: an error is not reported by the publish channel when the connection
    was closed elsewhere. *)
Inductive written := WriteOk | WriteClosed | WriteFailed.

(** The outgoing goroutine writes one packet.  The flag is whether an error is reported,
    which ends the connection. *)
Definition write_publish (now : Z) (w : written) (p : PublishPacket) (a : positive) (c : client) : client * bool :=
  match w with
  | WriteOk =>
      (UpdateLastSent now (if decide (Qos (pub_FixedHeader p) = 0) then complete_token a c else c), false)
  | WriteClosed => (fail_token ErrWrite a c, false)
  | WriteFailed => (fail_token ErrWrite a c, true)
  end.

(** The other two channels report every error; a DISCONNECT completes its token, and the
    connection is closed then. *)
Definition write_control (now : Z) (w : written) (p : ControlPacket) (t : option positive) (c : client) : client * bool :=
  match w with
  | WriteOk =>
      (UpdateLastSent now
         match p, t with PDisconnect _, Some a => complete_token a c | _, _ => c end, false)
  | WriteClosed | WriteFailed => (match t with Some a => fail_token ErrWrite a c | None => c end, true)
  end.

(** ** Keep-alive *)

(** One tick at [now]; [pingSent] is the variable of the goroutine.  The flags: a ping is
    written, the connection is given up. *)
Definition keepalive_tick (now pingSent : Z) (c : client) : client * Z * bool * bool :=
  let o := cl_options c in
  let ping := bool_decide (KeepAlive o * Second ≤ now - lastSent c ∨ KeepAlive o * Second ≤ now - lastReceived c)
              && bool_decide (pingOutstanding c = 0) in
  let c := if ping then c {{ pingOutstanding := 1; lastSent := now }} else c in
  let pingSent := if ping then now else pingSent in
  if decide (pingOutstanding c > 0 ∧ PingTimeout o ≤ now - pingSent)
  then ((internalConnLost c).1, pingSent, ping, true)
  else (c, pingSent, ping, false).
End Client.
