(* ===== verification/OptionsSpec.v ===== *)
(** * OptionsSpec: the CONNECT message of a client at the broker

    The message built from the options of a client, sent with MQTT 3.1 or 3.1.1, is read
    by the broker with the fields the options have, and its checks pass but for an empty
    client id that asks for a persistent session. *)
From S2P Require Import Prelude Wire Packets PacketsRoundtrip Topics TopicLevels Router MessageIds Store Options Client.
Local Open Scope Z_scope.

Section Connect.
Context {Handler St Transport : Type}.
Implicit Types (o : ClientOptions Handler St Transport).

(** The fields fit their encodings. *)
Definition options_ok o (b : URL) : Prop :=
  str_ok (ClientID o) ∧ str_ok (WillTopic o) ∧ bytes_ok (WillPayload o) ∧ 0 ≤ WillQos o < 4
  ∧ str_ok (credentials o b).1 ∧ str_ok (credentials o b).2 ∧ bytes_ok (default [] (ClientInfo o)).

(** The message of CONNECT. *)
Definition connect_message o (b : URL) (v : Z) : ConnectPacket := with_protocol v (newConnectMsgFromOptions o b).

(** Every field of the message. *)
Lemma connect_message_fields o b v :
  let cm := connect_message o b v in
  let user := (credentials o b).1 in
  con_CleanSession cm = CleanSession o ∧ con_ClientIdentifier cm = ClientID o ∧ con_WillFlag cm = WillEnabled o
  ∧ con_WillRetain cm = WillRetained o ∧ con_Keepalive cm = KeepAlive o mod 65536 ∧ con_ReservedBit cm = 0
  ∧ con_FixedHeader cm = header_of_type Connect 0
  ∧ con_WillQos cm = (if WillEnabled o then WillQos o else 0)
  ∧ con_WillTopic cm = (if WillEnabled o then WillTopic o else ""%string)
  ∧ con_WillMessage cm = (if WillEnabled o then WillPayload o else [])
  ∧ con_UsernameFlag cm = bool_decide (user ≠ ""%string) ∧ con_Username cm = user
  ∧ con_PasswordFlag cm = bool_decide (user ≠ ""%string ∧ (credentials o b).2 ≠ ""%string)
  ∧ con_Password cm = (if decide (user = ""%string) then [] else bytes_of (credentials o b).2)
  ∧ default [] (con_Other cm) = default [] (ClientInfo o).
Proof.
  unfold connect_message, newConnectMsgFromOptions. destruct (credentials o b) as [user pwd].
  assert (Hw : ∀ cm, with_protocol v cm = cm {{ con_ProtocolName := con_ProtocolName (with_protocol v cm);
    con_ProtocolVersion := con_ProtocolVersion (with_protocol v cm) }}).
  { intros []. unfold with_protocol. by repeat case_decide. }
  cbn zeta. rewrite Hw. clear Hw. cbn [fst snd].
  destruct (decide (user = ""%string)) as [->|Hu]; [|destruct (decide (pwd = ""%string)) as [->|Hp]];
    destruct (WillEnabled o), (ClientInfo o) as [[|x xs]|]; split_and!; try reflexivity;
    rewrite ?bool_decide_eq_true_2, ?bool_decide_eq_false_2 by naive_solver; try reflexivity.
Qed.

Lemma with_protocol_version v cm :
  v = 3 ∨ v = 4 → con_ProtocolVersion (with_protocol v cm) = v
  ∧ con_ProtocolName (with_protocol v cm) = (if decide (v = 3) then "MQIsdp" else "MQTT")%string.
Proof. intros [-> | ->]; destruct cm; split; reflexivity. Qed.

Lemma connect_message_ok o b v : options_ok o b → v = 3 ∨ v = 4 → connect_ok (connect_message o b v).
Proof.
  intros (Hid & Hwt & Hwp & Hwq & Hu & Hp & Hci) Hv.
  destruct (connect_message_fields o b v) as (_ & Eid & Ewf & _ & Eka & Erb & Efh & Ewq & Ewt & Ewm & Euf & Eu & Epf & Epw & Eot).
  destruct (with_protocol_version v (newConnectMsgFromOptions o b) Hv) as [Epv Epn]. fold (connect_message o b v) in Epv, Epn.
  assert (Hpn : str_ok (con_ProtocolName (connect_message o b v))) by (rewrite Epn; unfold str_ok; destruct (decide (v = 3)); cbn; lia).
  assert (Hwt' : str_ok (con_WillTopic (connect_message o b v))) by (rewrite Ewt; by destruct (WillEnabled o)).
  assert (Hwm' : bytes_ok (con_WillMessage (connect_message o b v))) by (rewrite Ewm; by destruct (WillEnabled o)).
  assert (Hpw' : bytes_ok (con_Password (connect_message o b v))).
  { rewrite Epw. destruct (decide ((credentials o b).1 = ""%string)); [unfold bytes_ok; cbn; lia|]. unfold bytes_ok. rewrite length_bytes_of. exact Hp. }
  rewrite <- Eot in Hci. rewrite <- Eid in Hid. rewrite <- Eu in Hu.
  assert (Hty : type_ok (con_FixedHeader (connect_message o b v)) Connect) by (rewrite Efh; split; [done|cbn; lia]).
  assert (Hpv : is_u8 (con_ProtocolVersion (connect_message o b v))) by (rewrite Epv; unfold is_u8; lia).
  assert (Hwq' : 0 ≤ con_WillQos (connect_message o b v) < 4) by (rewrite Ewq; destruct (WillEnabled o); lia).
  assert (Hka : is_u16 (con_Keepalive (connect_message o b v))) by (rewrite Eka; apply Z.mod_pos_bound; lia).
  refine (conj Hty (conj Hpn (conj Hpv (conj Hwq' (conj Erb (conj Hka (conj Hid (conj Hwt' (conj Hwm' (conj Hu (conj Hpw'
    (conj Hci (conj _ (conj _ (conj _ _))))))))))))))).
  - intros E. by rewrite Ewt, Ewm, <- Ewf, E.
  - intros E. rewrite Euf in E. apply bool_decide_eq_false in E. rewrite Eu. by destruct (decide ((credentials o b).1 = ""%string)).
  - intros E. rewrite Epf in E. apply bool_decide_eq_false in E. rewrite Epw.
    destruct (decide ((credentials o b).1 = ""%string)); [done|].
    destruct (decide ((credentials o b).2 = ""%string)) as [-> |]; [done|]. naive_solver.
  - unfold fits, Connect_body. repeat rewrite length_app. unfold str_ok, bytes_ok in *.
    rewrite !length_encodeString, !length_encodeBytes, length_encodeUint16. cbn [length].
    destruct (con_WillFlag _), (con_UsernameFlag _), (con_PasswordFlag _);
      rewrite ?length_app, ?length_encodeString, ?length_encodeBytes; cbn [length]; lia.
Qed.

(** CONNECT with MQTT 3.1 or 3.1.1, read by the broker: the packet has the options'
    values, its keep-alive time modulo 65536, and the broker's checks pass unless the
    client id is empty and the session is not a clean one. *)
Theorem connect_message_read o b v rest :
  options_ok o b → v = 3 ∨ v = 4 →
  ∃ p, ReadPacket ((ConnectPacket_Write (connect_message o b v)).1 ++ rest) = (Some (PConnect p), None, rest)
    ∧ con_ClientIdentifier p = ClientID o ∧ con_CleanSession p = CleanSession o
    ∧ con_Keepalive p = KeepAlive o mod 65536 ∧ con_ProtocolVersion p = v
    ∧ con_WillFlag p = WillEnabled o ∧ (WillEnabled o = true → con_WillTopic p = WillTopic o ∧ con_WillMessage p = WillPayload o)
    ∧ con_Username p = (credentials o b).1
    ∧ ConnectPacket_Validate p
      = (if decide (ClientID o = ""%string ∧ CleanSession o = false) then ErrRefusedIDRejected else Accepted).
Proof.
  intros Hok Hv. pose proof (connect_message_ok o b v Hok Hv) as Hcm. rewrite (Connect_roundtrip _ rest Hcm).
  destruct (connect_message_fields o b v) as (Ecs & Eid & Ewf & _ & Eka & Erb & _ & _ & Ewt & Ewm & Euf & Eu & Epf & Epw & _).
  destruct (with_protocol_version v (newConnectMsgFromOptions o b) Hv) as [Epv Epn]. fold (connect_message o b v) in Epv, Epn.
  set (cm := connect_message o b v) in *. cbn [read_back]. eexists. split; [reflexivity|].
  destruct Hok as (Hid & _ & _ & _ & Hu & Hp & _).
  assert (Hval : ∀ p, con_PasswordFlag p = con_PasswordFlag cm → con_UsernameFlag p = con_UsernameFlag cm →
    con_ReservedBit p = 0 → con_ProtocolName p = con_ProtocolName cm → con_ProtocolVersion p = v →
    con_ClientIdentifier p = ClientID o → con_Username p = (credentials o b).1 → con_Password p = con_Password cm →
    con_CleanSession p = CleanSession o → ConnectPacket_Validate p
      = (if decide (ClientID o = ""%string ∧ CleanSession o = false) then ErrRefusedIDRejected else Accepted)).
  { intros p P1 P2 P3 P4 P5 P6 P7 P8 P9. unfold ConnectPacket_Validate. rewrite P1, P2, P3, P4, P5, P6, P7, P8, P9, Epf, Euf, Epn, Epw.
    assert (bool_decide ((credentials o b).1 ≠ ""%string ∧ (credentials o b).2 ≠ ""%string)
      && negb (bool_decide ((credentials o b).1 ≠ ""%string)) = false) as -> by (repeat case_bool_decide; naive_solver).
    rewrite decide_False by lia. rewrite decide_False by (destruct Hv as [-> | ->]; cbn; naive_solver).
    rewrite decide_False by (destruct Hv as [-> | ->]; cbn; naive_solver).
    rewrite decide_False. 2: { unfold str_ok in *. destruct (decide ((credentials o b).1 = ""%string)); rewrite ?length_bytes_of; cbn [length]; lia. }
    assert (Hlen : String.length (ClientID o) = O ↔ ClientID o = ""%string) by (by destruct (ClientID o)).
    repeat case_decide; naive_solver. }
  destruct cm as [fh pn pv cs wf wq wr uf pf rb ka ci wt wm un pw ot]. cbn in *.
  split_and!; try done.
  - intros E. rewrite E in *. by split.
  - by apply Hval.
Qed.
End Connect.

(** The versions of bridges, which the client library can send, are refused. *)
Theorem bridge_version_refused cm :
  con_PasswordFlag cm = false → con_ReservedBit cm = 0 →
  ConnectPacket_Validate (with_protocol 131 cm) = ErrRefusedBadProtocolVersion
  ∧ ConnectPacket_Validate (with_protocol 132 cm) = ErrRefusedBadProtocolVersion.
Proof. intros Hp Hr. destruct cm. cbn in *. subst. by split. Qed.

Definition named_options : ClientOptions nat unit unit := SetUsername "u" (SetClientID "c1" (NewClientOptions tt)).
Lemma connect_message_read_witness :
  ∃ p, ReadPacket ((ConnectPacket_Write (connect_message named_options (mkURL "b" None) 4)).1 ++ [])
      = (Some (PConnect p), None, []) ∧ con_ClientIdentifier p = "c1"%string ∧ ConnectPacket_Validate p = Accepted.
Proof.
  destruct (connect_message_read named_options (mkURL "b" None) 4 []) as (p & HP & Hid & _ & _ & _ & _ & _ & _ & Hv).
  - unfold options_ok, str_ok, bytes_ok. cbn. lia.
  - by right.
  - exists p. split; [exact HP|]. split; [exact Hid|]. rewrite Hv. reflexivity.
Defined.
