(* ===== verification/ClientSpec.v ===== *)
(** * ClientSpec: what the client library promises

    The invariant of a client: its ids are valid and known to their tokens, the store
    has packets under their own keys, it is open while the client is not disconnected,
    and every publish that waits for its acknowledgement is in the store.  Every
    operation keeps it, as long as the session is not a clean one.  From it follow the
    theorems about publishing, acknowledgements, resending and reconnecting; the last
    part has what the code does besides. *)
From S2P Require Import Prelude Wire Packets PacketsRoundtrip PacketsStream Topics TopicLevels Router MessageIds Store Options Client.
Local Open Scope Z_scope.

(** ** Ids and tokens *)

Definition mids_inv (m : messageIds) : Prop :=
  mids_ok m ∧ ∀ id a, index m !! id = Some a → ∃ t, tokens m !! a = Some t ∧ tok_messageID t = id.

(** Two ids never share a token. *)
Lemma mids_inv_inj m id1 id2 a :
  mids_inv m → index m !! id1 = Some a → index m !! id2 = Some a → id1 = id2.
Proof.
  intros [_ Ht] H1 H2. destruct (Ht _ _ H1) as (t1 & E1 & <-), (Ht _ _ H2) as (t2 & E2 & <-). congruence.
Qed.

Lemma mids_inv_alloc m a t :
  mids_inv m → tokens m !! a = None → mids_inv (m {{ tokens ::= insert a t }}).
Proof.
  intros [Hok Ht] Ha. split; [exact Hok|]. cbn. intros id b Hb. destruct (Ht id b Hb) as (t' & E & ?).
  exists t'. split; [|done]. rewrite lookup_insert_ne; [done|]. congruence.
Qed.

Lemma mids_inv_on_token f a m :
  (∀ t, tok_messageID (f t) = tok_messageID t) → mids_inv m → mids_inv (on_token f a m).
Proof.
  intros Hf [Hok Ht]. split; [exact Hok|]. intros id b Hb. destruct (Ht id b Hb) as (t' & E & <-).
  rewrite tokens_on_token. destruct (decide (a = b)) as [->|Hne].
  - rewrite lookup_alter_eq, E. cbn. eauto.
  - rewrite lookup_alter_ne by done. by exists t'.
Qed.

Lemma mids_inv_free id m : mids_inv m → mids_inv (freeID id m).
Proof.
  intros [[Hr Hl] Ht]. split; [split|]; cbn.
  - intros id' a [_ Hi]%lookup_delete_Some. by apply (Hr id' a).
  - exact Hl.
  - intros id' a [_ Hi]%lookup_delete_Some. by apply Ht.
Qed.

Lemma flowComplete_id t : tok_messageID (flowComplete t) = tok_messageID t ∧ tok_kind (flowComplete t) = tok_kind t.
Proof. unfold flowComplete. by destruct (tok_kind t) eqn:?. Qed.
Lemma setError_id e t : tok_messageID (setError e t) = tok_messageID t ∧ tok_kind (setError e t) = tok_kind t.
Proof. unfold setError, flowComplete. by destruct t as [[]]. Qed.

Lemma mids_inv_claim a id m t :
  mids_inv m → tokens m !! a = Some t → tok_messageID t = id → 1 ≤ id ≤ midMax → mids_inv (claimID a id m).
Proof.
  intros [[Hr Hl] Ht] Ha Hid Hrange. unfold claimID.
  set (m1 := match index m !! id with None => _ | Some old => _ end).
  assert (H1 : index m1 = <[id := a]> (index m) ∧ lastIssuedID m1 = lastIssuedID m
    ∧ ∀ b t, tokens m !! b = Some t → ∃ t', tokens m1 !! b = Some t' ∧ tok_messageID t' = tok_messageID t).
  { unfold m1. destruct (index m !! id) as [old|]; (split; [reflexivity|split; [reflexivity|]]); [|by eauto].
    intros b tb Hb. change (∃ t', alter flowComplete old (tokens m) !! b = Some t' ∧ tok_messageID t' = tok_messageID tb).
    destruct (decide (old = b)) as [->|].
    - rewrite lookup_alter_eq, Hb. eexists. split; [done|]. apply flowComplete_id.
    - rewrite lookup_alter_ne by done. eauto. }
  destruct H1 as (Hi & Hla & Htk). clearbody m1.
  assert (Hinv : ∀ l, 0 ≤ l ≤ midMax → mids_inv (m1 {{ lastIssuedID := l }})).
  { intros l Hlr. assert (index (m1 {{ lastIssuedID := l }}) = <[id := a]> (index m)) as Hi' by (rewrite <- Hi; reflexivity).
    split; [split; [|exact Hlr]|]; rewrite Hi'; intros id' b Hb; apply lookup_insert_Some in Hb as [[<- <-]|[_ Hb]].
    - done.
    - by apply (Hr id' b).
    - destruct (Htk a t Ha) as (t' & ? & ?). exists t'. split; [done|congruence].
    - destruct (Ht id' b Hb) as (t0 & E0 & <-). by apply Htk. }
  case_decide; [apply Hinv; unfold midMax in *; lia|].
  destruct (Hinv (lastIssuedID m1)) as [H1 H2]; [rewrite Hla; exact Hl|]. by split.
Qed.

Lemma mids_inv_cleanUp m : mids_inv m → mids_inv (cleanUp m).
Proof.
  intros [[Hr Hl] _]. assert (Hlast : ∀ (l : list (Z * positive)) m, lastIssuedID (foldr (λ '(_, a), on_token cleanUp_token a) m l) = lastIssuedID m).
  { induction l as [|[id a] l IH]; intros m0; [done|]. cbn. apply IH. }
  assert (He : index (cleanUp m) = ∅) by reflexivity. split; [split|].
  - intros id a Hi. by rewrite He, lookup_empty in Hi.
  - change (0 ≤ lastIssuedID (foldr (λ '(_, a), on_token cleanUp_token a) m (map_to_list (index m))) ≤ midMax).
    by rewrite Hlast.
  - intros id a Hi. by rewrite He, lookup_empty in Hi.
Qed.

(** What is left after [cleanUpSubscribe]. *)
Lemma cleanUpSubscribe_left m id a :
  index (cleanUpSubscribe m) !! id = Some a →
  index m !! id = Some a ∧ tokens (cleanUpSubscribe m) !! a = tokens m !! a.
Proof.
  intros Hi. assert (H0 : is_Some (index m !! id)).
  { unfold cleanUpSubscribe in Hi. destruct (drop_entries_spec m m (map_to_list (index m))) as [_ Hx].
    rewrite Hx in Hi. case_decide; [done|by eexists]. }
  destruct H0 as [b Hb]. pose proof (cleanUpSubscribe_cases m id b Hb) as Hc.
  destruct (is_subscription m b); destruct Hc as [Hc1 Hc2].
  - congruence.
  - assert (a = b) as -> by congruence. done.
Qed.

Lemma mids_inv_cleanUpSubscribe m : mids_inv m → mids_inv (cleanUpSubscribe m).
Proof.
  intros [[Hr Hl] Ht]. split; [split|].
  - intros id a [Hi _]%cleanUpSubscribe_left. by apply (Hr id a).
  - unfold cleanUpSubscribe. enough (∀ l m0, lastIssuedID (foldr (drop_entry m) m0 l) = lastIssuedID m0) as -> by done.
    induction l as [|e l IH]; intros m0; [done|]. cbn [foldr]. unfold drop_entry at 1. case_match; cbn; apply IH.
  - intros id a [Hi ->]%cleanUpSubscribe_left. by apply Ht.
Qed.

(** ** Attempts to connect *)

(** What an opened connection answers to CONNECT. *)
Definition answer (cn : Conn) : Z * bool * option net_error :=
  if conn_writes cn then verifyCONNACK (conn_stream cn) else (ErrNetworkError, false, Some ErrWriteConnect).
Definition refused (x : option Conn) : Prop :=
  match x with Some cn => (answer cn).1.1 ≠ Accepted | None => True end.

Lemma connectMQTT_answer cn cm v : (connectMQTT cn cm v).2 = answer cn.
Proof. unfold connectMQTT, answer. by destruct (conn_writes cn). Qed.

(** One opening: at most one connection is used, and the result tells what it said. *)
Lemma open_once_spec cm st :
  ∃ used, at_net st = used ++ at_net (open_once cm st) ∧ (length used ≤ 1)%nat ∧ at_version (open_once cm st) = at_version st
  ∧ ((accepted (open_once cm st) = false ∧ Forall refused used)
     ∨ accepted (open_once cm st) = true ∧ ∃ cn, used = [Some cn] ∧ at_conn (open_once cm st) = Some cn
         ∧ answer cn = (Accepted, at_sessionPresent (open_once cm st), at_err (open_once cm st))).
Proof.
  unfold open_once. destruct (at_net st) as [|[cn|] net] eqn:Hn.
  - exists []. split_and!; [done|cbn; lia|done|left; done].
  - exists [Some cn]. rewrite connectMQTT_answer. destruct (answer cn) as [[rc sp] e] eqn:Ha. cbn.
    split_and!; [done|lia|done|]. unfold accepted. cbn. case_bool_decide as Hr; [right|left].
    + split; [done|]. exists cn. subst rc. done.
    + split; [done|]. constructor; [|done]. cbn. by rewrite Ha.
  - exists [None]. split_and!; [done|cbn; lia|done|left]. split; [done|]. by repeat constructor.
Qed.

Section Attempt.
Context {Handler T Transport : Type}.
Implicit Types (o : ClientOptions Handler T Transport).

Definition may_fall_back o (v : Z) : nat := if negb (protocolVersionExplicit o) && bool_decide (v = 4) then 1 else 0.

(** What [k] openings can lead to. *)
Definition outcome o (k : nat) (st st' : attempt) : Prop :=
  ∃ used, at_net st = used ++ at_net st' ∧ (length used + may_fall_back o (at_version st') ≤ k + may_fall_back o (at_version st))%nat
  ∧ ((accepted st' = false ∧ Forall refused used)
     ∨ accepted st' = true ∧ ∃ pre cn, used = pre ++ [Some cn] ∧ Forall refused pre ∧ at_conn st' = Some cn
         ∧ answer cn = (Accepted, at_sessionPresent st', at_err st')).

Lemma try_broker_outcome o b st : outcome o 1 st (try_broker o b st).
Proof.
  unfold try_broker. set (cm := newConnectMsgFromOptions o b).
  destruct (open_once_spec cm st) as (used & Hn & Hl & Hv & Hor).
  assert (H1 : outcome o 1 st (open_once cm st)).
  { exists used. split_and!; [done|rewrite Hv; lia|]. destruct Hor as [?|(? & cn & -> & ? & ?)]; [by left|].
    right. split; [done|]. exists [], cn. done. }
  destruct (at_conn (open_once cm st)) as [cn0|] eqn:Hcn; [|done].
  destruct (accepted (open_once cm st)) eqn:Hacc; [done|].
  destruct (negb _ && _) eqn:Hfb; [|done]. destruct Hor as [[_ Href]|[? _]]; [|done].
  set (st1 := open_once cm st) in *. destruct (open_once_spec cm (st1 {{ at_version := 3 }})) as (used2 & Hn2 & Hl2 & Hv2 & Hor2).
  set (st2 := open_once cm (st1 {{ at_version := 3 }})) in *. exists (used ++ used2). split_and!.
  - rewrite Hn, <- app_assoc. f_equal. exact Hn2.
  - rewrite length_app, Hv2. unfold may_fall_back. rewrite <- Hv, Hfb. cbn. rewrite andb_false_r. lia.
  - destruct Hor2 as [[? ?]|(? & cn & -> & ? & ?)]; [left; split; [done|by apply Forall_app]|right].
    split; [done|]. by exists used, cn.
Qed.

Lemma try_brokers_outcome o brokers : ∀ st,
  accepted st = false ∨ brokers ≠ [] → outcome o (length brokers) st (try_brokers o brokers st).
Proof.
  induction brokers as [|b brokers IH]; intros st Hacc; cbn [try_brokers length].
  { exists []. destruct Hacc; [|done]. split_and!; [done|cbn; lia|left; done]. }
  destruct (try_broker_outcome o b st) as (used & Hn & Hl & Hor).
  destruct (accepted (try_broker o b st)) eqn:Hac.
  - exists used. split_and!; [done|lia|]. rewrite Hac. destruct Hor as [[? _]|?]; [done|by right].
  - destruct (IH _ (or_introl Hac)) as (used2 & Hn2 & Hl2 & Hor2). destruct Hor as [[_ Href]|[? _]]; [|done].
    exists (used ++ used2). split_and!; [by rewrite Hn, Hn2, <- app_assoc|rewrite length_app; lia|].
    destruct Hor2 as [[? ?]|(? & pre & cn & -> & ? & ? & ?)]; [left; split; [done|by apply Forall_app]|right].
    split; [done|]. exists (used ++ pre), cn. split_and!; [by rewrite <- app_assoc|by apply Forall_app|done|done].
Qed.

End Attempt.

(** ** Waiting publishes and the store *)

(** The publish with this id waits for its acknowledgement. *)
Definition pending (m : messageIds) (id : Z) (a : positive) : Prop :=
  index m !! id = Some a ∧ ∃ t, tokens m !! a = Some t ∧ tok_kind t = PublishToken.

Definition stored_publish (g : gmap string ControlPacket) (id : Z) : Prop :=
  ∃ p, g !! outboundKeyFromMID id = Some (PPublish p) ∧ pub_MessageID p = id
    ∧ (Qos (pub_FixedHeader p) = 1 ∨ Qos (pub_FixedHeader p) = 2).

Definition packet_id (m : ControlPacket) : Z := det_MessageID (ControlPacket_Details m).

(** Every packet is stored under its own id, and what goes out has a proper one. *)
Definition outbound_ok (p : ControlPacket) : Prop :=
  1 ≤ packet_id p ∧ match p with
                    | PPublish q => Qos (pub_FixedHeader q) = 1 ∨ Qos (pub_FixedHeader q) = 2
                    | _ => True
                    end.

Definition stored_ok (g : gmap string ControlPacket) : Prop :=
  ∀ key p, g !! key = Some p →
    is_u16 (packet_id p)
    ∧ (key = outboundKeyFromMID (packet_id p) ∧ outbound_ok p ∨ key = inboundKeyFromMID (packet_id p) ∧ 1 ≤ packet_id p).

Definition core (m : messageIds) (g : gmap string ControlPacket) : Prop :=
  mids_inv m ∧ stored_ok g ∧ ∀ id a, pending m id a → stored_publish g id.

Lemma pending_on_token f a m id b :
  (∀ t, tok_kind (f t) = tok_kind t) → pending (on_token f a m) id b ↔ pending m id b.
Proof.
  intros Hf. unfold pending. rewrite tokens_on_token. change (index (on_token f a m)) with (index m).
  destruct (decide (a = b)) as [->|Hne]; [|by rewrite lookup_alter_ne by done].
  rewrite lookup_alter_eq. destruct (tokens m !! b) as [t|]; cbn; [|naive_solver].
  split; intros [Hi (t' & He & Hk)]; (split; [done|]); injection He as <-; eexists; (split; [done|]); by rewrite ?Hf in *.
Qed.

Lemma core_alloc m g a t :
  core m g → tokens m !! a = None → core (m {{ tokens ::= insert a t }}) g.
Proof.
  intros (Hm & Hs & Hp) Ha. split_and!; [by apply mids_inv_alloc|done|]. intros id b [Hi (t' & Ht & Hk)].
  apply (Hp id b). split; [exact Hi|]. exists t'. split; [|done].
  change (<[a := t]> (tokens m) !! b = Some t') in Ht. rewrite lookup_insert_ne in Ht; [done|].
  destruct Hm as [_ Hm]. destruct (Hm id b Hi) as (? & ? & _). congruence.
Qed.

Lemma core_on_token m g f a :
  (∀ t, tok_messageID (f t) = tok_messageID t ∧ tok_kind (f t) = tok_kind t) → core m g → core (on_token f a m) g.
Proof.
  intros Hf (Hm & Hs & Hp). split_and!; [|done|].
  - apply mids_inv_on_token; [|done]. intros t. apply Hf.
  - intros id b Hb%pending_on_token; [by apply (Hp id b)|]. intros t. apply Hf.
Qed.

Lemma core_free m g id : core m g → core (freeID id m) g.
Proof.
  intros (Hm & Hs & Hp). split_and!; [by apply mids_inv_free|done|]. intros id' a [Hi Ht].
  change (delete id (index m) !! id' = Some a) in Hi. apply lookup_delete_Some in Hi as [_ Hi].
  by apply (Hp id' a).
Qed.

(** What waits after a removal of a key that is not an id's that waits. *)
Lemma core_store m g g' :
  core m g → stored_ok g' → (∀ id a, pending m id a → g' !! outboundKeyFromMID id = g !! outboundKeyFromMID id) →
  core m g'.
Proof.
  intros (Hm & _ & Hp) Hs Hg. split_and!; [done|done|]. intros id a Ha. destruct (Hp id a Ha) as (p & Hk & Hrest).
  exists p. split; [|done]. by rewrite (Hg id a Ha).
Qed.

Lemma pending_range m g id a : core m g → pending m id a → is_u16 id.
Proof. intros ([[Hr _] _] & _) [Hi _]. apply Hr in Hi. unfold is_u16, midMax in *. lia. Qed.

Lemma stored_ok_insert g key p :
  stored_ok g → is_u16 (packet_id p) →
  (key = outboundKeyFromMID (packet_id p) ∧ outbound_ok p ∨ key = inboundKeyFromMID (packet_id p) ∧ 1 ≤ packet_id p) →
  stored_ok (<[key := p]> g).
Proof. intros Hs Hid Hk k q Hq. apply lookup_insert_Some in Hq as [[<- <-]|[_ Hq]]; [done|by apply Hs]. Qed.

Lemma stored_ok_delete g key : stored_ok g → stored_ok (delete key g).
Proof. intros Hs k q [_ Hq]%lookup_delete_Some. by apply Hs. Qed.

Lemma outbound_ne id1 id2 : is_u16 id1 → is_u16 id2 → id1 ≠ id2 → outboundKeyFromMID id1 ≠ outboundKeyFromMID id2.
Proof.
  intros H1 H2 Hne He. apply key_roundtrip in H1 as (_ & H1 & _), H2 as (_ & H2 & _). congruence.
Qed.
Lemma inbound_outbound id1 id2 : is_u16 id1 → is_u16 id2 → inboundKeyFromMID id1 ≠ outboundKeyFromMID id2.
Proof.
  intros H1 H2 He. apply key_roundtrip in H1 as (_ & _ & Hb & _), H2 as (_ & _ & _ & _ & _ & Hb2). congruence.
Qed.

(** A new id for the token [a], and its packet in the store. *)
Lemma pending_insert m id a id' b :
  pending (m {{ index ::= insert id a }}) id' b → (id' = id ∧ b = a) ∨ pending m id' b.
Proof.
  intros [Hi Ht]. change (<[id := a]> (index m) !! id' = Some b) in Hi.
  apply lookup_insert_Some in Hi as [[<- <-]|[_ Hi]]; [by left|]. by right.
Qed.

(** ** The operations keep the invariant *)

Section Invariant.
Context {Handler T Transport : Type} `{StoreLaws T}.
Abbreviation client := (@client Handler T Transport).
Implicit Types (c : client).

Definition client_inv c : Prop :=
  core (mids c) (store_model (persist c)) ∧ (status c ≠ disconnected → store_opened (persist c) = true).

Lemma fresh_token_new c : tokens (mids c) !! fresh (dom (tokens (mids c))) = None.
Proof. apply not_elem_of_dom, is_fresh. Qed.

(** A new token is not in the index. *)
Definition unused (m : messageIds) (a : positive) (t : token) : Prop :=
  tokens m !! a = Some t ∧ ∀ id, index m !! id ≠ Some a.

Lemma alloc_inv t c a c' :
  client_inv c → alloc t c = (a, c') →
  client_inv c' ∧ unused (mids c') a t ∧ c' = c {{ mids := (mids c) {{ tokens ::= insert a t }} }}
  ∧ tokens (mids c) !! a = None.
Proof.
  intros [Hc Ho] Ha. unfold alloc in Ha. injection Ha as <- <-. pose proof (fresh_token_new c) as Hf.
  split_and!; [| |done|done].
  - split; [by apply core_alloc|exact Ho].
  - split; [apply lookup_insert_eq|]. intros id Hi. destruct Hc as ([_ Ht] & _).
    destruct (Ht id _ Hi) as (t' & He & _). congruence.
Qed.

Lemma inv_on_tok f a c :
  (∀ t, tok_messageID (f t) = tok_messageID t ∧ tok_kind (f t) = tok_kind t) → client_inv c → client_inv (on_tok f a c).
Proof. intros Hf [Hc Ho]. split; [by apply core_on_token|exact Ho]. Qed.

Lemma inv_fail e a c : client_inv c → client_inv (fail_token e a c).
Proof. apply inv_on_tok. intros t. apply setError_id. Qed.
Lemma inv_complete a c : client_inv c → client_inv (complete_token a c).
Proof. apply inv_on_tok. intros t. apply flowComplete_id. Qed.

(** [getID] and the note of the id in the token. *)
Definition with_id (id : Z) (a : positive) (t : token) (m : messageIds) : messageIds :=
  mkMids (<[id := a]> (index m)) id (<[a := t {{ tok_messageID := id }}]> (tokens m)).

Lemma take_id_spec a t c :
  mids_inv (mids c) → unused (mids c) a t →
  (∃ id, 1 ≤ id ≤ midMax ∧ index (mids c) !! id = None
     ∧ take_id a c = Some (id, c {{ mids := with_id id a t (mids c) }}))
  ∨ (take_id a c = Some (0, fail_token ErrNoMessageIDs a c)
     ∧ ∀ id, 1 ≤ id ≤ midMax → is_Some (index (mids c) !! id)).
Proof.
  intros [Hok _] [Ht _]. unfold take_id.
  destruct (getID_cases a (mids c) Hok) as (id & m' & -> & _ & Hc). cbn [mbind option_bind].
  destruct Hc as [(Hr & Hi & ->)|(-> & -> & Hall)]; [left|right].
  - exists id. rewrite decide_False by lia. split; [done|]. split; [done|]. do 2 f_equal.
    unfold on_tok, with_id, on_token. destruct c as [o st [ix la tk] r p u ls lr po ob obp cs]; cbn in *. do 2 f_equal.
    apply map_eq. intros b. destruct (decide (a = b)) as [->|].
    + by rewrite lookup_alter_eq, lookup_insert_eq, Ht.
    + by rewrite lookup_alter_ne, lookup_insert_ne.
  - split; [|done]. rewrite decide_True by done. by destruct c.
Qed.

Lemma with_id_core id a t m g g' :
  core m g → unused m a t → 1 ≤ id ≤ midMax → index m !! id = None → stored_ok g' →
  (∀ id', id' ≠ id → is_u16 id' → g' !! outboundKeyFromMID id' = g !! outboundKeyFromMID id') →
  (tok_kind t = PublishToken → stored_publish g' id) →
  core (with_id id a t m) g'.
Proof.
  intros (Hm & Hs & Hp) [Ht Hun] Hr Hi Hs' Hg Hpub. destruct Hm as [[Hrange Hl] Htok].
  assert (Hold : ∀ id' b, index m !! id' = Some b →
    ∃ t', <[a := t {{ tok_messageID := id }}]> (tokens m) !! b = Some t' ∧ tok_messageID t' = id'
      ∧ tokens m !! b = Some t').
  { intros id' b Hb. destruct (Htok id' b Hb) as (t' & Ht' & Hid). exists t'.
    rewrite lookup_insert_ne; [done|]. intros ->. by apply (Hun id'). }
  split_and!; [split; [split; [|cbn; lia]|]|done|].
  - intros id' b Hb. cbn in Hb. apply lookup_insert_Some in Hb as [[<- _]|[_ Hb]]; [done|by apply (Hrange id' b)].
  - intros id' b Hb. cbn [index with_id] in Hb. apply lookup_insert_Some in Hb as [[<- <-]|[_ Hb]].
    + cbn. rewrite lookup_insert_eq. by eexists.
    + destruct (Hold id' b Hb) as (t' & ? & ? & _). by exists t'.
  - intros id' b [Hb (t' & Ht' & Hk)]. cbn [index tokens with_id] in Hb, Ht'.
    apply lookup_insert_Some in Hb as [[<- <-]|[Hne Hb]].
    + rewrite lookup_insert_eq in Ht'. injection Ht' as <-. by apply Hpub.
    + destruct (Hold id' b Hb) as (t'' & ? & ? & ?). assert (Hpe : pending m id' b).
      { split; [done|]. exists t''. split; [done|]. congruence. }
      destruct (Hp id' b Hpe) as (p & Hk' & Hrest). exists p. split; [|done]. rewrite Hg; [done|done|].
      apply Hrange in Hb. unfold is_u16, midMax in *. lia.
Qed.

(** The store after the three kinds of packets a request stores. *)
Lemma persist_put c p id :
  client_inv c → status c ≠ disconnected → ControlPacket_Details p = mkDetails (det_Qos (ControlPacket_Details p)) id →
  1 ≤ id ≤ midMax → (det_Qos (ControlPacket_Details p) = 1 ∨ det_Qos (ControlPacket_Details p) = 2) →
  match p with PPublish _ | PSubscribe _ | PUnsubscribe _ => True | _ => False end →
  ∃ s, persistOutbound (persist c) p = Some s ∧ store_opened s = true
    ∧ store_model s = <[outboundKeyFromMID id := p]> (store_model (persist c))
    ∧ stored_ok (store_model s).
Proof.
  intros [(_ & Hs & _) Ho] Hst Hd Hid Hq Hp.
  destruct (persistOutbound_put (persist c) p) as (s & Hps & Hso & Hsm); [by apply Ho|by destruct p|].
  assert (Hmid : packet_id p = id) by (unfold packet_id; by rewrite Hd).
  fold (packet_id p) in Hsm. exists s. rewrite Hmid in Hsm. split_and!; [done|done|done|]. rewrite Hsm.
  apply stored_ok_insert; rewrite ?Hmid; [done|unfold is_u16, midMax in *; lia|].
  left. split; [done|]. split; [lia|]. by destruct p.
Qed.

Lemma hand_over_inv taken a send c :
  (∀ c, client_inv c → client_inv (send c)) → client_inv c → client_inv (hand_over taken a send c).
Proof.
  intros Hsend Hc. unfold hand_over. case_decide; [done|]. destruct taken; [by apply Hsend|by apply inv_fail].
Qed.

Lemma connected_open c : IsConnected c = true → status c ≠ disconnected.
Proof.
  unfold IsConnected. intros Hc Hd. rewrite Hd in Hc. rewrite decide_False in Hc by done.
  cbn in Hc. by rewrite !andb_false_r in Hc.
Qed.

(** A new id for a token, its packet stored, and the rest of the client as it was. *)
Lemma with_id_inv id a t p s c :
  client_inv c → unused (mids c) a t → 1 ≤ id ≤ midMax → index (mids c) !! id = None →
  store_model s = <[outboundKeyFromMID id := p]> (store_model (persist c)) → stored_ok (store_model s) →
  store_opened s = true →
  (tok_kind t = PublishToken → ∃ q, p = PPublish q ∧ pub_MessageID q = id ∧ (Qos (pub_FixedHeader q) = 1 ∨ Qos (pub_FixedHeader q) = 2)) →
  client_inv (c {{ mids := with_id id a t (mids c); persist := s }}).
Proof.
  intros [Hc Ho] Hun Hr Hi Hsm Hsok Hso Hk. split; [|by intros _]. cbn.
  eapply with_id_core; [exact Hc|done|done|done|done| |].
  - intros id' Hne Hid'. rewrite Hsm. apply lookup_insert_ne. apply not_eq_sym, outbound_ne; [done| |done].
    unfold is_u16, midMax in *. lia.
  - intros Hkind. destruct (Hk Hkind) as (q & -> & Hq). exists q. split; [|done]. rewrite Hsm. apply lookup_insert_eq.
Qed.

(** The packet [Publish] makes. *)
Definition publish_packet (topic : string) (qos : Z) (retained : bool) (b : list byte) (id : Z) : PublishPacket :=
  mkPublish (mkFixedHeader Packets.Publish false qos retained 0) topic id b.

Lemma Publish_inv topic qos retained payload taken c a c' :
  client_inv c → 0 ≤ qos ≤ 2 → Publish topic qos retained payload taken c = Some (a, c') → client_inv c'.
Proof.
  intros Hc Hq HP. unfold Publish in HP. destruct (alloc _ c) as [a0 c0] eqn:Ha.
  apply alloc_inv in Ha as (Hc0 & Hun & Hc0eq & Hnone); [|done].
  destruct (IsConnected c0) eqn:Hcon; cbn [negb] in HP; [|injection HP as <- <-; by apply inv_fail].
  case_decide; [injection HP as <- <-; by apply inv_complete|].
  destruct (payload_bytes payload) as [b|]; [|injection HP as <- <-; by apply inv_fail].
  assert (Hsend : ∀ (p : PublishPacket) c, client_inv c → client_inv (c {{ obound ::= λ l, l ++ [(p, a0)] }})) by done.
  pose proof (connected_open c0 Hcon) as Hst.
  destruct (decide (qos = 0)) as [->|Hq0].
  { cbn in HP. injection HP as <- <-. apply hand_over_inv; [apply Hsend|]. destruct Hc0. by split. }
  destruct (take_id_spec a0 _ c0 (proj1 (proj1 Hc0)) Hun) as [(id & Hr & Hi & Hid)|[Hid _]];
    rewrite Hid in HP; cbn [mbind option_bind] in HP.
  2: { injection HP as <- <-. by apply inv_fail. }
  rewrite decide_False in HP by lia. set (pub := publish_packet topic qos retained b id).
  match type of HP with context [send_publish _ _ ?x _] => change x with pub in HP end.
  destruct (persist_put c0 (PPublish pub) id) as (s & Hps & Hso & Hsm & Hsok); [done|done|done|done|cbn; lia|done|].
  unfold send_publish in HP. match type of HP with context [persistOutbound ?x _] => change x with (persist c0) in HP end.
  rewrite Hps in HP. cbn [mbind option_bind] in HP. injection HP as <- <-. apply hand_over_inv; [apply Hsend|].
  apply (with_id_inv id a0 _ (PPublish pub) s c0); try done. intros _. exists pub. split_and!; [done|done|cbn; lia].
Qed.

Lemma Publish_stored topic qos retained payload b c :
  client_inv c → IsConnected c = true → qos = 1 ∨ qos = 2 → payload_bytes payload = Some b →
  (∃ id, 1 ≤ id ≤ midMax ∧ index (mids c) !! id = None) →
  ∃ a id c', Publish topic qos retained payload true c = Some (a, c')
    ∧ 1 ≤ id ≤ midMax ∧ index (mids c) !! id = None
    ∧ index (mids c') = <[id := a]> (index (mids c))
    ∧ tokens (mids c') !! a = Some ((new_token PublishToken) {{ tok_messageID := id }})
    ∧ store_model (persist c')
      = <[outboundKeyFromMID id := PPublish (publish_packet topic qos retained b id)]> (store_model (persist c))
    ∧ obound c' = obound c ++
        (if decide (status c = connecting ∨ status c = reconnecting) then []
         else [(publish_packet topic qos retained b id, a)]).
Proof.
  intros Hc Hcon Hq Hpay (fid & Hfr & Hfree). unfold Publish. destruct (alloc _ c) as [a c0] eqn:Ha.
  apply alloc_inv in Ha as (Hc0 & Hun & -> & Hnone); [|done].
  change (IsConnected (c {{ mids := _ }})) with (IsConnected c). rewrite Hcon. cbn [negb].
  rewrite decide_False by lia. rewrite Hpay, decide_False by lia.
  destruct (take_id_spec a _ _ (proj1 (proj1 Hc0)) Hun) as [(id & Hr & Hi & Hid)|[_ Hall]].
  2: { destruct (Hall fid Hfr) as [x Hx]. exfalso. change (index (mids c) !! fid = Some x) in Hx. congruence. }
  rewrite Hid. cbn [mbind option_bind]. rewrite decide_False by lia.
  set (pub := publish_packet topic qos retained b id).
  destruct (persist_put c (PPublish pub) id) as (s & Hps & Hso & Hsm & Hsok);
    [done|by apply connected_open|done|done|cbn; lia|done|].
  unfold send_publish. match goal with |- context [persistOutbound ?x ?y] =>
    change x with (persist c); change y with (PPublish pub) end.
  rewrite Hps. cbn [mbind option_bind]. unfold hand_over. eexists a, id, _. split; [reflexivity|].
  split; [done|]. split; [exact Hi|].
  match goal with |- context [decide (status ?x = connecting ∨ _)] => change (status x) with (status c) end.
  case_decide; (split; [done|]); (split; [apply lookup_insert_eq|]); (split; [exact Hsm|]); cbn; by rewrite ?app_nil_r.
Qed.

(** A publish through a client that is connected, or will be: it gets an id that no
    other request has, it is in the store, its token waits, and it is handed to the
    outgoing goroutine when the connection is up. *)
Theorem Publish_stores topic qos retained payload b c :
  client_inv c → IsConnected c = true → qos = 1 ∨ qos = 2 → payload_bytes payload = Some b →
  (∃ id, 1 ≤ id ≤ midMax ∧ index (mids c) !! id = None) →
  ∃ a id c', Publish topic qos retained payload true c = Some (a, c')
    ∧ 1 ≤ id ≤ midMax ∧ index (mids c) !! id = None
    ∧ index (mids c') = <[id := a]> (index (mids c))
    ∧ tokens (mids c') !! a = Some ((new_token PublishToken) {{ tok_messageID := id }})
    ∧ store_model (persist c')
      = <[outboundKeyFromMID id := PPublish (publish_packet topic qos retained b id)]> (store_model (persist c))
    ∧ obound c' = obound c ++
        (if decide (status c = connecting ∨ status c = reconnecting) then []
         else [(publish_packet topic qos retained b id, a)]).
Proof. exact (Publish_stored topic qos retained payload b c). Qed.

(** *** Subscriptions *)

Lemma not_ready_open c : not_ready c = None → status c ≠ disconnected.
Proof. unfold not_ready. destruct (IsConnected c) eqn:Hc; [|done]. intros _. by apply connected_open. Qed.

Lemma send_control_inv taken a t mk after c c' :
  client_inv c → unused (mids c) a t → tok_kind t ≠ PublishToken → status c ≠ disconnected →
  (∀ id, match mk id with PSubscribe p => sub_MessageID p = id | PUnsubscribe p => uns_MessageID p = id | _ => False end) →
  (∀ c, client_inv c → client_inv (after c)) →
  send_control taken a mk after c = Some c' → client_inv c'.
Proof.
  intros Hc Hun Hk Hst Hmk Haft HP. unfold send_control in HP.
  destruct (take_id_spec a t c (proj1 (proj1 Hc)) Hun) as [(id & Hr & Hi & Hid)|[Hid _]];
    rewrite Hid in HP; cbn [mbind option_bind] in HP.
  2: { injection HP as <-. by apply inv_fail. }
  rewrite decide_False in HP by lia.
  assert (Hafter : ∀ c, client_inv c → client_inv (after (c {{ oboundP ::= λ l, l ++ [(mk id, Some a)] }}))).
  { intros c1 Hc1. apply Haft. exact Hc1. }
  match type of HP with context [ResumeSubs (cl_options ?x)] => change (cl_options x) with (cl_options c) in HP end.
  destruct (ResumeSubs (cl_options c)).
  - pose proof (Hmk id) as Hm. destruct (persist_put c (mk id) id) as (s & Hps & Hso & Hsm & Hsok); [done|done| |done| | |].
    { destruct (mk id); try done; cbn; by rewrite Hm. }
    { left. by destruct (mk id). }
    { by destruct (mk id). }
    match type of HP with context [persistOutbound ?x _] => change x with (persist c) in HP end.
    rewrite Hps in HP. cbn [mbind option_bind] in HP. injection HP as <-. apply hand_over_inv; [done|].
    by apply (with_id_inv id a t (mk id) s c).
  - cbn [mbind option_bind] in HP. injection HP as <-. apply hand_over_inv; [done|].
    split; [|by intros _; apply Hc]. cbn.
    eapply with_id_core; [apply Hc|done|done|done|apply Hc|done|done].
Qed.

Lemma unused_on_tok f a t c : unused (mids c) a t → unused (mids (on_tok f a c)) a (f t).
Proof.
  intros [Ht Hun]. split; [|exact Hun]. change (alter f a (tokens (mids c)) !! a = Some (f t)).
  by rewrite lookup_alter_eq, Ht.
Qed.

Lemma AddRoute_inv t cb c : client_inv c → client_inv (AddRoute t cb c).
Proof. by destruct cb. Qed.

Lemma Subscribe_inv topic qos cb taken c a c' :
  client_inv c → Subscribe topic qos cb taken c = Some (a, c') → client_inv c'.
Proof.
  intros Hc HP. unfold Subscribe in HP. destruct (alloc _ c) as [a0 c0] eqn:Ha.
  apply alloc_inv in Ha as (Hc0 & [Ht Hun] & Hceq & Hnone); [|done].
  destruct (not_ready c0) eqn:Hnr; [injection HP as <- <-; by apply inv_fail|]. apply not_ready_open in Hnr.
  destruct (validateTopicAndQos topic qos); [injection HP as <- <-; by apply inv_fail|].
  set (c1 := AddRoute (route_topic topic) cb c0) in HP.
  assert (Hm1 : mids c1 = mids c0 ∧ status c1 = status c0) by (by destruct cb).
  set (c2 := on_tok _ a0 c1) in HP.
  destruct (send_control _ _ _ _ c2) as [c3|] eqn:Hsc; [|done]. cbn in HP. injection HP as <- <-.
  assert (Hun2 : unused (mids c2) a0 ((new_token SubscribeToken) {{ tok_subs ::= λ l, l ++ [route_topic topic] }})).
  { unfold c2. apply unused_on_tok. by rewrite (proj1 Hm1). }
  eapply send_control_inv; [|exact Hun2|..|exact Hsc]; [|done| |done|done].
  - apply inv_on_tok; [done|by apply AddRoute_inv].
  - change (status c1 ≠ disconnected). by rewrite (proj2 Hm1).
Qed.

Lemma fold_routes_same (f : client → string → client) l :
  (∀ c t, mids (f c t) = mids c ∧ status (f c t) = status c ∧ persist (f c t) = persist c) →
  ∀ c, mids (foldl f c l) = mids c ∧ status (foldl f c l) = status c ∧ persist (foldl f c l) = persist c.
Proof.
  intros Hf. induction l as [|t l IH]; intros c; [done|]. cbn [foldl]. destruct (IH (f c t)) as (-> & -> & ->). apply Hf.
Qed.

Lemma inv_same c c' :
  mids c' = mids c → status c' = status c → persist c' = persist c → client_inv c → client_inv c'.
Proof. intros Hm Hs Hp. unfold client_inv. by rewrite Hm, Hs, Hp. Qed.

Lemma SubscribeMultiple_inv filters cb taken c a c' :
  client_inv c → SubscribeMultiple filters cb taken c = Some (a, c') → client_inv c'.
Proof.
  intros Hc HP. unfold SubscribeMultiple in HP. destruct (alloc _ c) as [a0 c0] eqn:Ha.
  apply alloc_inv in Ha as (Hc0 & Hun & Hceq & Hnone); [|done].
  destruct (not_ready c0) eqn:Hnr; [injection HP as <- <-; by apply inv_fail|]. apply not_ready_open in Hnr.
  destruct (validateSubscribeMap filters) as [[topics qoss]|]; [|injection HP as <- <-; by apply inv_fail].
  set (c1 := foldl _ c0 _) in HP.
  assert (Hm1 : mids c1 = mids c0 ∧ status c1 = status c0 ∧ persist c1 = persist c0).
  { unfold c1. apply fold_routes_same. intros c2 t. by destruct cb. }
  destruct Hm1 as (Hm1 & Hs1 & Hp1). clearbody c1. set (c2 := on_tok _ a0 c1) in HP.
  destruct (send_control _ _ _ _ c2) as [c3|] eqn:Hsc; [|done]. cbn in HP. injection HP as <- <-.
  assert (Hun2 : unused (mids c2) a0 ((new_token SubscribeToken) {{ tok_subs := topics }})).
  { unfold c2. apply (unused_on_tok _ _ (new_token SubscribeToken)). by rewrite Hm1. }
  eapply send_control_inv; [|exact Hun2|..|exact Hsc]; [|done| |done|done].
  - apply inv_on_tok; [done|]. by eapply inv_same.
  - change (status c1 ≠ disconnected). by rewrite Hs1.
Qed.

Lemma Unsubscribe_inv topics taken c a c' :
  client_inv c → Unsubscribe topics taken c = Some (a, c') → client_inv c'.
Proof.
  intros Hc HP. unfold Unsubscribe in HP. destruct (alloc _ c) as [a0 c0] eqn:Ha.
  apply alloc_inv in Ha as (Hc0 & Hun & Hceq & Hnone); [|done].
  destruct (not_ready c0) eqn:Hnr; [injection HP as <- <-; by apply inv_fail|]. apply not_ready_open in Hnr.
  destruct (send_control _ _ _ _ c0) as [c3|] eqn:Hsc; [|done]. cbn in HP. injection HP as <- <-.
  eapply send_control_inv; [exact Hc0|exact Hun|done|done| | |exact Hsc]; [done|].
  intros c1 Hc1. destruct (fold_routes_same (λ c t, c {{ msgRouter ::= λ r, deleteRoute r t }}) topics) with c1 as (? & ? & ?);
    [done|]. by eapply inv_same.
Qed.

(** *** Incoming packets *)

Lemma del_any s key id :
  mIDFromKey key = Some id →
  ∃ s', Del s key = Some s' ∧ store_opened s' = store_opened s
    ∧ (store_model s' = delete key (store_model s) ∨ s' = s ∧ store_opened s = false).
Proof.
  intros Hk. destruct (store_opened s) eqn:Ho.
  - destruct (del_law s key id Ho Hk) as (s' & ? & ? & ?). exists s'. by auto.
  - destruct (closed_law s key (PPingreq (header_of_type Pingreq 0)) Ho) as (_ & ? & _). exists s. by auto.
Qed.

Lemma put_any s key m :
  store_opened (Put s key m) = store_opened s
  ∧ (store_model (Put s key m) = <[key := m]> (store_model s) ∨ Put s key m = s).
Proof.
  destruct (store_opened s) eqn:Ho.
  - destruct (put_law s key m Ho). by auto.
  - destruct (closed_law s key m Ho) as (E & _). rewrite E. by auto.
Qed.

(** An acknowledgement: the id is freed, and its packet may leave the store. *)
Lemma core_ack m g g' id :
  core m g → is_u16 id → g' = delete (outboundKeyFromMID id) g ∨ g' = g → core (freeID id m) g'.
Proof.
  intros Hc Hid [-> | ->]; [|by apply core_free]. apply (core_store _ g); [by apply core_free|apply stored_ok_delete, Hc|].
  intros id' a Hp. apply lookup_delete_ne. apply outbound_ne; [done| |].
  - by eapply pending_range; [apply core_free|].
  - intros ->. destruct Hp as [Hi _]. change (delete id' (index m) !! id' = Some a) in Hi. by rewrite lookup_delete_eq in Hi.
Qed.

Lemma core_inbound m g id p : core m g → is_u16 id → core m (delete (inboundKeyFromMID id) g)
  ∧ (packet_id p = id → 1 ≤ id → core m (<[inboundKeyFromMID id := p]> g)).
Proof.
  intros Hc Hid. split; [|intros Hp H1].
  - apply (core_store _ g); [done|apply stored_ok_delete, Hc|]. intros id' a Ha. apply lookup_delete_ne.
    apply inbound_outbound; [done|by eapply pending_range].
  - apply (core_store _ g); [done|apply stored_ok_insert; [apply Hc|by rewrite Hp|right; by rewrite !Hp]|].
    intros id' a Ha. apply lookup_insert_ne. apply inbound_outbound; [done|by eapply pending_range].
Qed.

(** The packets that end a request. *)
Definition is_ack (m : ControlPacket) : bool :=
  match m with PPuback _ | PSuback _ | PUnsuback _ | PPubcomp _ => true | _ => false end.

(** A packet the library can get from a broker that numbers its messages. *)
Definition proper (msg : ControlPacket) : Prop :=
  is_u16 (packet_id msg) ∧ (det_Qos (ControlPacket_Details msg) ≠ 0 → 1 ≤ packet_id msg).

Lemma persistInbound_core s m msg s' :
  core m (store_model s) → proper msg → persistInbound s msg = Some s' →
  store_opened s' = store_opened s ∧
  (core m (store_model s') ∨
   is_ack msg = true ∧ (store_model s' = delete (outboundKeyFromMID (packet_id msg)) (store_model s))).
Proof.
  intros Hc [Hid Hpos]. unfold persistInbound. fold (packet_id msg). pose proof (key_roundtrip _ Hid) as (_ & Hk & _).
  destruct (core_inbound m (store_model s) (packet_id msg) msg Hc Hid) as [_ Hput].
  assert (Hin : det_Qos (ControlPacket_Details msg) ≠ 0 → store_opened (Put s (inboundKeyFromMID (packet_id msg)) msg) = store_opened s ∧
    core m (store_model (Put s (inboundKeyFromMID (packet_id msg)) msg))).
  { intros Hq. destruct (put_any s (inboundKeyFromMID (packet_id msg)) msg) as [Ho Hm]. split; [done|].
    destruct Hm as [-> | ->]; [by apply Hput; [|apply Hpos]|done]. }
  assert (Hdel : ∀ s', Del s (outboundKeyFromMID (packet_id msg)) = Some s' → store_opened s' = store_opened s ∧
    (core m (store_model s') ∨ store_model s' = delete (outboundKeyFromMID (packet_id msg)) (store_model s))).
  { intros s1 Hs1. destruct (del_any s _ _ Hk) as (s2 & Hs2 & Ho & Hor). assert (s1 = s2) as -> by congruence.
    split; [done|]. destruct Hor as [?|[-> _]]; auto. }
  repeat case_decide; destruct msg; try (intros Heq; injection Heq as <-; split; [done|by left]); intros Heq;
    try (injection Heq as <-; destruct Hin; [congruence|]; auto; fail);
    destruct (Hdel s' Heq) as [? [?|?]]; split; auto.
Qed.

(** Up to the id that is about to be freed. *)
Definition ack_ready (id : Z) c : Prop :=
  core (freeID id (mids c)) (store_model (persist c)) ∧ (status c ≠ disconnected → store_opened (persist c) = true).

Lemma ack_ready_on_tok f id a c :
  (∀ t, tok_messageID (f t) = tok_messageID t ∧ tok_kind (f t) = tok_kind t) →
  ack_ready id c → ack_ready id (on_tok f a c).
Proof.
  intros Hf [Hc Ho]. split; [|exact Ho].
  change (core (on_token f a (freeID id (mids c))) (store_model (persist c))). by apply core_on_token.
Qed.

Lemma inv_acknowledged id c : ack_ready id c → client_inv (acknowledged id c).
Proof.
  intros Hr. unfold acknowledged. destruct (getToken id (mids c)) as [a|]; [|exact Hr].
  apply (ack_ready_on_tok flowComplete id a c); [|done]. intros t. apply flowComplete_id.
Qed.

Lemma handle_incoming_inv msg c c' x :
  is_u16 (packet_id msg) →
  (if is_ack msg then ack_ready (packet_id msg) c else client_inv c) →
  handle_incoming msg c = Some (c', x) → client_inv c'.
Proof.
  intros Hid Hc HP. destruct msg; cbn [handle_incoming is_ack] in *; try (injection HP as <- _; exact Hc);
    try (injection HP as <- _; by apply inv_acknowledged).
  - destruct (persistOutbound _ _) as [s|] eqn:Hs; [|done]. injection HP as <- _.
    unfold persistOutbound in Hs. cbn in Hs. pose proof (key_roundtrip _ Hid) as (Hk & _).
    destruct (del_any (persist c) _ _ Hk) as (s' & Hd & Ho & Hor). cbn in Hd. rewrite Hd in Hs. injection Hs as <-.
    destruct Hc as [Hc Hop]. split; [|intros Hst; cbn; rewrite Ho; by apply Hop]. cbn.
    destruct Hor as [-> |[-> _]]; [|done]. apply (core_inbound _ _ _ (PPubrel p) Hc Hid).
  - destruct (getToken _ (mids c)) as [a|]; cbn [mbind option_bind] in HP; [|injection HP as <- _; by apply inv_acknowledged].
    destruct (tokens (mids c) !! a) as [t|]; [|done]. cbn [mbind option_bind] in HP. case_decide; [|injection HP as <- _; by apply inv_acknowledged].
    destruct (granted _ _ _) as [res|]; [|done]. cbn [mbind option_bind] in HP. injection HP as <- _.
    apply inv_acknowledged. by apply ack_ready_on_tok.
Qed.

Lemma receive_inv now msg c c' x :
  client_inv c → proper msg → receive now msg c = Some (c', x) → client_inv c'.
Proof.
  intros [Hc Ho] Hid HP. unfold receive in HP. destruct (persistInbound _ _) as [s|] eqn:Hs; [|done]. cbn [mbind option_bind] in HP.
  apply (persistInbound_core _ (mids c)) in Hs as [Hso Hs]; [|done|done].
  eapply handle_incoming_inv; [apply Hid| |exact HP].
  assert (Hu : ∀ c, mids (UpdateLastReceived now c) = mids c ∧ persist (UpdateLastReceived now c) = persist c
    ∧ status (UpdateLastReceived now c) = status c).
  { intros c0. unfold UpdateLastReceived. by case_decide. }
  destruct (Hu (c {{ persist := s }})) as (Hm & Hp & Hst). unfold client_inv, ack_ready. rewrite Hm, Hp, Hst. cbn.
  destruct Hs as [Hs|[-> Hs]].
  - destruct (is_ack msg); (split; [|by rewrite Hso]); [by apply core_free|done].
  - split; [|by rewrite Hso]. by eapply core_ack; [exact Hc|apply Hid|left].
Qed.


(** *** Storing, dispatching, writing *)

Lemma dispatch_inv p c c' :
  client_inv c → is_u16 (pub_MessageID p) → dispatch p c = Some c' → client_inv c'.
Proof.
  intros Hc Hid HP. unfold dispatch in HP. destruct (handlers_for _ _) as [hs|]; [|done]. cbn [mbind option_bind] in HP.
  destruct hs as [|h hs]; [by injection HP as <-|]. unfold ack_message in HP.
  repeat case_decide; try (injection HP as <-; exact Hc).
  destruct (persistOutbound _ _) as [s|] eqn:Hs; [|done]. cbn [mbind option_bind] in HP. injection HP as <-.
  change (Del (persist c) (inboundKeyFromMID (pub_MessageID p)) = Some s) in Hs.
  pose proof (key_roundtrip _ Hid) as (Hk & _). destruct (del_any (persist c) _ _ Hk) as (s' & Hd & Ho & Hor).
  rewrite Hd in Hs. injection Hs as <-. destruct Hc as [Hc Hop].
  split; [|intros Hst; change (store_opened s' = true); rewrite Ho; by apply Hop].
  change (core (mids c) (store_model s')). destruct Hor as [-> |[-> _]]; [|done].
  apply (core_inbound _ _ _ (PPublish p) Hc Hid).
Qed.

Lemma write_inv now w c :
  client_inv c →
  (∀ p a, client_inv (write_publish now w p a c).1) ∧ (∀ p t, client_inv (write_control now w p t c).1).
Proof.
  intros Hc. assert (Hu : ∀ c, client_inv c → client_inv (UpdateLastSent now c)).
  { intros c0 Hc0. unfold UpdateLastSent. by case_decide. }
  split; [intros p a|intros p t]; unfold write_publish, write_control; destruct w; cbn [fst].
  - apply Hu. case_decide; [by apply inv_complete|done].
  - by apply inv_fail.
  - by apply inv_fail.
  - apply Hu. destruct p; try done. destruct t; [by apply inv_complete|done].
  - destruct t; [by apply inv_fail|done].
  - destruct t; [by apply inv_fail|done].
Qed.

(** *** Losing and ending a connection *)

Lemma core_cleanUp m g : core m g → core (cleanUp m) g.
Proof.
  intros (Hm & Hs & _). split_and!; [by apply mids_inv_cleanUp|done|]. intros id a [Hi _].
  change ((∅ : gmap Z positive) !! id = Some a) in Hi. by rewrite lookup_empty in Hi.
Qed.

Lemma core_cleanUpSubscribe m g : core m g → core (cleanUpSubscribe m) g.
Proof.
  intros (Hm & Hs & Hp). split_and!; [by apply mids_inv_cleanUpSubscribe|done|]. intros id a [Hi Ht].
  apply cleanUpSubscribe_left in Hi as [Hi He]. rewrite He in Ht. by apply (Hp id a).
Qed.

Lemma disconnect_inv c : client_inv c → status c = disconnected → client_inv (disconnect c).
Proof.
  intros [Hc Ho] Hst. unfold disconnect, stopCommsWorkers. destruct (conn_up c); [|done].
  split; [|done]. change (core (cleanUp (mids c)) (store_model (Store_Close (persist c)))).
  destruct (close_law (persist c)) as [-> _]. by apply core_cleanUp.
Qed.

Lemma set_disconnected_inv c : client_inv c → client_inv (setConnected disconnected c).
Proof. intros [Hc _]. by split. Qed.

Lemma Disconnect_inv taken c : client_inv c → client_inv (Disconnect taken c).
Proof.
  intros Hc. unfold Disconnect. case_decide; [|apply disconnect_inv; [by apply set_disconnected_inv|done]].
  destruct (alloc _ _) as [a c0] eqn:Ha. apply alloc_inv in Ha as (Hc0 & _ & -> & _); [|by apply set_disconnected_inv].
  apply disconnect_inv; by destruct taken.
Qed.

Lemma forceDisconnect_inv c : client_inv c → client_inv (forceDisconnect c).
Proof.
  intros Hc. unfold forceDisconnect. destruct (IsConnected c); [|done].
  by apply disconnect_inv; [apply set_disconnected_inv|].
Qed.

Lemma internalConnLost_inv c : client_inv c → client_inv (internalConnLost c).1.
Proof.
  intros [Hc Ho]. unfold internalConnLost, stopCommsWorkers. destruct (conn_up c); [|done]. cbn [fst].
  set (again := _ && _).
  assert (H1 : ∀ m, core m (store_model (persist c)) → ∀ s,
    (s ≠ disconnected → status c ≠ disconnected) → client_inv (setConnected s (c {{ conn_up := false; mids := m }}))).
  { intros m Hm s Hs. split; [done|]. intros Hx. by apply Ho, Hs. }
  assert (Hs : (if again then reconnecting else disconnected) ≠ disconnected → status c ≠ disconnected).
  { destruct again eqn:Hag; [|done]. intros _ Hd. unfold again in Hag. apply andb_true_iff in Hag as [_ Hag].
    apply bool_decide_eq_true in Hag. change (status c > connecting) in Hag. rewrite Hd in Hag. unfold connecting, disconnected in Hag. lia. }
  clearbody again. destruct (CleanSession _ && _).
  - by apply (H1 (cleanUp (mids c))); [apply core_cleanUp|].
  - destruct (negb _); [by apply (H1 (cleanUpSubscribe (mids c))); [apply core_cleanUpSubscribe|]|].
    by apply (H1 (mids c)).
Qed.

Lemma keepalive_inv now pingSent c : client_inv c → client_inv (keepalive_tick now pingSent c).1.1.1.
Proof.
  intros Hc. unfold keepalive_tick. set (ping := _ && _).
  assert (H1 : client_inv (if ping then c {{ pingOutstanding := 1; lastSent := now }} else c)) by (by destruct ping).
  case_decide; cbn [fst]; [by apply internalConnLost_inv|done].
Qed.

(** *** Resending what is stored *)

Lemma pending_claim a id m t id' b :
  mids_inv m → tokens m !! a = Some t → (∀ id, index m !! id ≠ Some a) →
  pending (claimID a id m) id' b →
  (id' = id ∧ b = a ∧ tok_kind t = PublishToken) ∨ (id' ≠ id ∧ pending m id' b).
Proof.
  intros Hm Ha Hun [Hi (t' & Ht' & Hk)].
  assert (Hix : index (claimID a id m) = <[id := a]> (index m)).
  { unfold claimID. destruct (index m !! id); case_decide; reflexivity. }
  assert (Htk : tokens (claimID a id m) = match index m !! id with None => tokens m | Some old => alter flowComplete old (tokens m) end).
  { unfold claimID. destruct (index m !! id); case_decide; reflexivity. }
  assert (Hb : ∃ t0, tokens m !! b = Some t0 ∧ tok_kind t0 = PublishToken).
  { rewrite Htk in Ht'. destruct (index m !! id) as [old|]; [|by exists t'].
    destruct (decide (old = b)) as [->|]; [|rewrite lookup_alter_ne in Ht' by done; by exists t'].
    rewrite lookup_alter_eq in Ht'. destruct (tokens m !! b) as [t0|]; [|done]. injection Ht' as <-.
    exists t0. split; [done|]. by rewrite (proj2 (flowComplete_id t0)) in Hk. }
  rewrite Hix in Hi. apply lookup_insert_Some in Hi as [[<- <-]|[Hne Hi]]; [left|right; done].
  destruct Hb as (t0 & Ht0 & Hk0). rewrite Ha in Ht0. injection Ht0 as <-. done.
Qed.

Lemma claim_spec k id subs c a c' :
  client_inv c → 1 ≤ id ≤ midMax → (k = PublishToken → stored_publish (store_model (persist c)) id) →
  claim k id subs c = (a, c') →
  client_inv c' ∧ persist c' = persist c ∧ status c' = status c ∧ obound c' = obound c
  ∧ index (mids c') = <[id := a]> (index (mids c)).
Proof.
  intros Hc Hr Hpub Hcl. unfold claim in Hcl. destruct (alloc _ c) as [a0 c0] eqn:Ha.
  apply alloc_inv in Ha as (Hc0 & [Ht Hun] & Hceq & _); [|done]. injection Hcl as <- <-.
  destruct Hc0 as ((Hm & Hs & Hp) & Ho).
  split_and!; try (rewrite Hceq; reflexivity).
  - split; [|exact Ho]. split_and!; [by eapply mids_inv_claim|exact Hs|]. intros id' b Hpe.
    apply (pending_claim _ _ _ _ _ _ Hm Ht Hun) in Hpe as [(-> & -> & Hk)|[_ Hpe]]; [|by apply (Hp id' b)].
    change (stored_publish (store_model (persist c0)) id). subst c0. by apply Hpub.
  - change (index (claimID a0 id (mids c0)) = <[id := a0]> (index (mids c))). subst c0.
    unfold claimID. destruct (_ !! id); case_decide; reflexivity.
Qed.

Definition good_key (key : string) : Prop :=
  ∃ id, is_u16 id ∧ (key = outboundKeyFromMID id ∨ key = inboundKeyFromMID id).

Lemma good_key_mid key : good_key key → ∃ id, mIDFromKey key = Some id.
Proof. intros (id & (H1 & H2 & _)%key_roundtrip & [-> | ->]); eauto. Qed.

Lemma All_good c : client_inv c → Forall good_key (All (persist c)).
Proof.
  intros [(_ & Hs & _) _]. apply Forall_forall. intros key Hk. destruct (store_opened (persist c)) eqn:Ho.
  - rewrite (all_law _ Ho) in Hk. apply list_elem_of_fmap in Hk as ([k p] & -> & Hin%elem_of_map_to_list).
    destruct (Hs k p Hin) as [Hid Hkey]. exists (packet_id p). split; [done|]. cbn. tauto.
  - destruct (closed_law (persist c) key (PPingreq (header_of_type Pingreq 0)) Ho) as (_ & _ & _ & E).
    rewrite E in Hk. by apply elem_of_nil in Hk.
Qed.

Lemma Get_stored c key p :
  good_key key → Get (persist c) key = Some (Some p) → store_model (persist c) !! key = Some p ∧ store_opened (persist c) = true.
Proof.
  intros [id Hid]%good_key_mid Hg. destruct (store_opened (persist c)) eqn:Ho.
  - rewrite (get_law _ _ _ Ho Hid) in Hg. by injection Hg as ->.
  - destruct (closed_law (persist c) key (PPingreq (header_of_type Pingreq 0)) Ho) as (_ & _ & E & _). congruence.
Qed.

Lemma Get_total c key : good_key key → is_Some (Get (persist c) key).
Proof.
  intros [id Hid]%good_key_mid. destruct (store_opened (persist c)) eqn:Ho.
  - rewrite (get_law _ _ _ Ho Hid). by eexists.
  - destruct (closed_law (persist c) key (PPingreq (header_of_type Pingreq 0)) Ho) as (_ & _ & E & _). by eexists.
Qed.

(** What is stored under an outbound key. *)
Lemma stored_outbound c key p :
  client_inv c → store_model (persist c) !! key = Some p → isKeyOutbound key = true →
  key = outboundKeyFromMID (packet_id p) ∧ outbound_ok p ∧ 1 ≤ packet_id p ≤ midMax.
Proof.
  intros [(_ & Hs & _) _] Hk Hob. destruct (Hs key p Hk) as [Hid [[-> Hout]|[-> _]]].
  - split_and!; [done|done|apply Hout|]. unfold is_u16, midMax in *. lia.
  - apply key_roundtrip in Hid as (_ & _ & _ & Hx & _). congruence.
Qed.

(** What [resume_one] leaves, and that it discards no publish that waits. *)
Lemma resume_one_inv sub key p c act c' :
  client_inv c → store_model (persist c) !! key = Some p → resume_one sub key p c = (act, c') →
  client_inv c' ∧ persist c' = persist c ∧ status c' = status c ∧ obound c' = obound c
  ∧ (act = Discard → ∀ id a, pending (mids c') id a → key ≠ outboundKeyFromMID id).
Proof.
  intros Hc Hk HP.
  assert (Hdisc : (∀ q, p = PPublish q → isKeyOutbound key = false) → ∀ id a, pending (mids c) id a → key ≠ outboundKeyFromMID id).
  { intros Hnp id a Ha ->. destruct Hc as [Hc _]. pose proof (pending_range _ _ _ _ Hc Ha) as Hid.
    destruct Hc as (_ & _ & Hp). destruct (Hp id a Ha) as (q & Hq & _). rewrite Hk in Hq. injection Hq as ->.
    apply key_roundtrip in Hid as (_ & _ & _ & _ & Hx & _). specialize (Hnp q eq_refl). congruence. }
  unfold resume_one in HP. destruct (isKeyOutbound key) eqn:Hob; cycle 1.
  { destruct p; injection HP as <- <-; split_and!; try done; intros _; by apply Hdisc. }
  destruct (stored_outbound c key p Hc Hk Hob) as (Hkey & Hout & Hrange).
  destruct p; try (injection HP as <- <-; split_and!; try done; intros _; by apply Hdisc).
  - destruct (claim _ _ _ c) as [a c1] eqn:Hcl. injection HP as <- <-.
    apply claim_spec in Hcl as (Hc1 & Hp1 & Hs1 & Ho1 & _); [by split_and!|done| |].
    + by case_decide.
    + intros _. exists p. assert (pub_MessageID (if decide (Qos (pub_FixedHeader p) ≠ 0) then _ else p) = packet_id (PPublish p)) as ->
        by (by case_decide). rewrite <- Hkey. split_and!; [done|done|apply Hout].
  - destruct sub; [|injection HP as <- <-; split_and!; try done; intros _; by apply Hdisc].
    destruct (claim _ _ _ c) as [a c1] eqn:Hcl. injection HP as <- <-.
    by apply claim_spec in Hcl as (Hc1 & Hp1 & Hs1 & Ho1 & _).
  - destruct sub; [|injection HP as <- <-; split_and!; try done; intros _; by apply Hdisc].
    destruct (alloc _ c) as [a c1] eqn:Ha. injection HP as <- <-.
    by apply alloc_inv in Ha as (Hc1 & _ & -> & _).
Qed.

Lemma discard_inv key s c :
  client_inv c → good_key key → (∀ id a, pending (mids c) id a → key ≠ outboundKeyFromMID id) →
  Del (persist c) key = Some s →
  client_inv (c {{ persist := s }})
  ∧ (∀ k, k ≠ key → store_model s !! k = store_model (persist c) !! k) ∧ store_opened s = store_opened (persist c).
Proof.
  intros [Hc Ho] [id Hid]%good_key_mid Hnp Hd. destruct (del_any (persist c) key id Hid) as (s' & Hd' & Hop & Hor).
  rewrite Hd in Hd'. injection Hd' as <-.
  split_and!; [|destruct Hor as [-> |[-> _]]; [|done]; intros k Hk; by apply lookup_delete_ne|done].
  split; [|intros Hst; change (store_opened s = true); rewrite Hop; by apply Ho].
  change (core (mids c) (store_model s)). destruct Hor as [-> |[-> _]]; [|done].
  apply (core_store _ (store_model (persist c))); [done|apply stored_ok_delete, Hc|].
  intros id' a Ha. apply lookup_delete_ne. by eapply Hnp.
Qed.

Lemma resume_loop_inv sub keys : ∀ room c inb c' inb',
  client_inv c → Forall good_key keys → resume_loop sub room keys c inb = Some (c', inb') →
  client_inv c' ∧ status c' = status c.
Proof.
  induction keys as [|key keys IH]; intros room c inb c' inb' Hc Hg HP; cbn [resume_loop] in HP.
  { by injection HP as <- _. }
  inversion_clear Hg as [|? ? Hk Hks]. destruct (Get (persist c) key) as [[p|]|] eqn:Hget; cbn [mbind option_bind] in HP;
    [|by eapply IH|done].
  apply Get_stored in Hget as [Hst Hopen]; [|done].
  destruct (resume_one sub key p c) as [act c1] eqn:Hone.
  destruct (resume_one_inv _ _ _ _ _ _ Hc Hst Hone) as (Hc1 & Hp1 & Hs1 & _ & Hdisc).
  destruct act as [| | |].
  { destruct (Del (persist c1) key) as [s|] eqn:Hd; [|done]. cbn [mbind option_bind] in HP.
    destruct (discard_inv key s c1 Hc1 Hk (Hdisc eq_refl) Hd) as (Hc2 & _). apply IH in HP as [? Hs2]; [|done|done].
    split; [done|]. rewrite Hs2. exact Hs1. }
  all: destruct room as [|room]; [by injection HP as <- _|]; apply IH in HP as [? Hs2]; [|exact Hc1|done];
    split; [done|]; rewrite Hs2; exact Hs1.
Qed.

(** The stored publishes among the keys, as they are sent again. *)
Definition with_dup (p : PublishPacket) : PublishPacket :=
  p {{ pub_FixedHeader := (pub_FixedHeader p) {{ Dup := true }} }}.
Definition stored_publishes (g : gmap string ControlPacket) (keys : list string) : list PublishPacket :=
  omap (λ key, match g !! key with
               | Some (PPublish p) => if isKeyOutbound key then Some (with_dup p) else None
               | _ => None
               end) keys.

Lemma stored_publishes_same g g' keys :
  (∀ k, k ∈ keys → g' !! k = g !! k) → stored_publishes g' keys = stored_publishes g keys.
Proof.
  induction keys as [|k keys IH]; intros Hk; [done|]. unfold stored_publishes in *. cbn [omap list_omap].
  rewrite (Hk k) by (by left). rewrite IH; [done|]. intros k' Hk'. apply Hk. by right.
Qed.

(** What one key adds. *)
Lemma resume_one_sends sub key p c act c' :
  client_inv c → store_model (persist c) !! key = Some p → resume_one sub key p c = (act, c') →
  (∀ id, key ≠ outboundKeyFromMID id → is_u16 id → index (mids c') !! id = index (mids c) !! id)
  ∧ match act with
    | SendPublish q a => stored_publishes (store_model (persist c)) [key] = [q] ∧ index (mids c') !! pub_MessageID q = Some a
        ∧ key = outboundKeyFromMID (pub_MessageID q)
    | _ => stored_publishes (store_model (persist c)) [key] = []
    end.
Proof.
  intros Hc Hk HP. unfold stored_publishes. cbn [omap list_omap]. rewrite Hk. unfold resume_one in HP.
  destruct (isKeyOutbound key) eqn:Hob; [|destruct p; injection HP as <- <-; done].
  destruct (stored_outbound c key p Hc Hk Hob) as (Hkey & Hout & Hrange).
  assert (Hclaim : ∀ k id subs a c1, claim k id subs c = (a, c1) → index (mids c1) = <[id := a]> (index (mids c))).
  { intros k id subs a c1. unfold claim, alloc. injection 1 as <- <-. unfold claimID.
    change (mids (c {{ mids := _ }})) with ((mids c) {{ tokens ::= insert (fresh (dom (tokens (mids c)))) ((new_token k) {{ tok_messageID := id; tok_subs := subs }}) }}).
    destruct (_ !! id); case_decide; reflexivity. }
  destruct p; try (injection HP as <- <-; done).
  - destruct Hout as [_ Hq]. rewrite decide_True in HP by (cbn in Hq; lia).
    destruct (claim _ _ _ c) as [a c1] eqn:Hcl. injection HP as <- <-. apply Hclaim in Hcl.
    change (pub_MessageID _) with (pub_MessageID p) in Hcl. rewrite Hcl. split.
    + intros id Hne Hid. apply lookup_insert_ne. intros <-. by apply Hne.
    + split_and!; [done|apply lookup_insert_eq|exact Hkey].
  - destruct sub; [|by injection HP as <- <-]. destruct (claim _ _ _ c) as [a c1] eqn:Hcl. injection HP as <- <-.
    apply Hclaim in Hcl. rewrite Hcl. split; [|done]. intros id Hne Hid. apply lookup_insert_ne. intros <-. by apply Hne.
  - destruct sub; [|by injection HP as <- <-]. destruct (alloc _ c) as [a c1] eqn:Ha. injection HP as <- <-.
    by apply alloc_inv in Ha as (_ & _ & -> & _).
Qed.

(** From [c] to [c'] the publishes stored under the keys were handed over again, in the
    order of the keys; each has its id for itself. *)
Definition resent (c : client) (keys : list string) (c' : client) : Prop :=
  ∃ new, obound c' = obound c ++ new
    ∧ new.*1 = stored_publishes (store_model (persist c)) keys
    ∧ (∀ id, is_u16 id → outboundKeyFromMID id ∉ keys → index (mids c') !! id = index (mids c) !! id)
    ∧ (∀ p a, (p, a) ∈ new → index (mids c') !! pub_MessageID p = Some a).

Lemma resent_nil c : resent c [] c.
Proof. exists []. rewrite app_nil_r. split_and!; try done. by intros ? ? ?%elem_of_nil. Qed.

(** The first key, which hands over nothing or one publish, and the others. *)
Lemma resent_cons key keys c c2 c' (sent : list (PublishPacket * positive)) :
  client_inv c2 → key ∉ keys →
  obound c2 = obound c ++ sent → sent.*1 = stored_publishes (store_model (persist c)) [key] →
  (∀ k, k ∈ keys → store_model (persist c2) !! k = store_model (persist c) !! k) →
  (∀ id, key ≠ outboundKeyFromMID id → is_u16 id → index (mids c2) !! id = index (mids c) !! id) →
  (∀ q a, (q, a) ∈ sent → index (mids c2) !! pub_MessageID q = Some a ∧ key = outboundKeyFromMID (pub_MessageID q)) →
  resent c2 keys c' → resent c (key :: keys) c'.
Proof.
  intros Hc2 Hnin Hob2 Hsent Hstore Hix2 Hcl2 (new & Hob & Hnew & Hix & Hcl). exists (sent ++ new). split_and!.
  - by rewrite Hob, Hob2, <- app_assoc.
  - rewrite fmap_app, Hsent, Hnew, (stored_publishes_same _ _ _ Hstore). unfold stored_publishes. by rewrite <- omap_app.
  - intros id Hid Hni. rewrite Hix; [|done|]; [apply Hix2; [|done]|]; intros Hin; apply Hni; [rewrite Hin; by left|by right].
  - intros q a [Hin|Hin]%elem_of_app; [|by apply Hcl]. destruct (Hcl2 q a Hin) as (Hq & Hkq).
    rewrite Hix; [done| |by rewrite <- Hkq].
    destruct Hc2 as [(([Hr _] & _) & _) _]. apply Hr in Hq. unfold is_u16, midMax in *. lia.
Qed.

(** The loop with room for everything. *)
Lemma resume_loop_sends sub keys : ∀ room c inb,
  client_inv c → store_opened (persist c) = true → Forall good_key keys → NoDup keys → (length keys ≤ room)%nat →
  ∃ c' inb', resume_loop sub room keys c inb = Some (c', inb') ∧ resent c keys c'.
Proof.
  induction keys as [|key keys IH]; intros room c inb Hc Hopen Hg Hnd Hroom.
  { exists c, inb. split; [done|apply resent_nil]. }
  inversion_clear Hg as [|? ? Hk Hks]. apply NoDup_cons in Hnd as [Hnin Hnd]. cbn [length] in Hroom.
  cbn [resume_loop]. destruct (Get_total c key Hk) as [[p|] Hget]; rewrite Hget; cbn [mbind option_bind]; cycle 1.
  { destruct (IH room c inb) as (c' & inb' & HP & Hre); [done|done|done|done|lia|]. exists c', inb'. split; [done|].
    eapply (resent_cons key keys c c c' []); try done; [by rewrite app_nil_r| |by intros ? ? ?%elem_of_nil].
    destruct (good_key_mid key Hk) as [id Hid]. rewrite (get_law _ _ _ Hopen Hid) in Hget. injection Hget as Hn.
    unfold stored_publishes. cbn [omap list_omap]. by rewrite Hn. }
  apply Get_stored in Hget as [Hst _]; [|done]. destruct (resume_one sub key p c) as [act c1] eqn:Hone.
  destruct (resume_one_inv _ _ _ _ _ _ Hc Hst Hone) as (Hc1 & Hp1 & Hs1 & Ho1 & Hdisc).
  destruct (resume_one_sends _ _ _ _ _ _ Hc Hst Hone) as [Hix1 Hact].
  assert (Hgo : ∀ c2 inb2 room2 sent, client_inv c2 → (length keys ≤ room2)%nat → store_opened (persist c2) = true →
    mids c2 = mids c1 → obound c2 = obound c1 ++ sent → sent.*1 = stored_publishes (store_model (persist c)) [key] →
    (∀ k, k ∈ keys → store_model (persist c2) !! k = store_model (persist c) !! k) →
    (∀ q a, (q, a) ∈ sent → index (mids c1) !! pub_MessageID q = Some a ∧ key = outboundKeyFromMID (pub_MessageID q)) →
    ∃ c' inb', resume_loop sub room2 keys c2 inb2 = Some (c', inb') ∧ resent c (key :: keys) c').
  { intros c2 inb2 room2 sent Hc2 Hr2 Hop2 Hm2 Hob2 Hsent Hstore Hcl2.
    destruct (IH room2 c2 inb2 Hc2 Hop2 Hks Hnd Hr2) as (c' & inb' & HP & Hre). exists c', inb'. split; [done|].
    eapply (resent_cons key keys c c2 c' sent); rewrite ?Hm2; try done. by rewrite Hob2, Ho1. }
  destruct act as [|q a|q t|q].
  { destruct (good_key_mid key Hk) as [id Hid]. destruct (del_any (persist c1) key id Hid) as (s & Hd & Hop & _).
    destruct (discard_inv key s c1 Hc1 Hk (Hdisc eq_refl) Hd) as (Hc2 & Hsame & _). rewrite Hd. cbn [mbind option_bind].
    apply (Hgo (c1 {{ persist := s }}) inb room []); [done|lia| |done|symmetry; apply app_nil_r|done| |by intros ? ? ?%elem_of_nil].
    - change (store_opened s = true). by rewrite Hop, Hp1.
    - intros k Hkk. change (store_model s !! k = store_model (persist c) !! k). rewrite Hsame, Hp1; [done|]. by intros ->. }
  all: destruct room as [|room]; [lia|]; assert (Hsame : ∀ k, k ∈ keys → store_model (persist c1) !! k = store_model (persist c) !! k)
    by (intros k _; by rewrite Hp1); rewrite <- Hp1 in Hopen.
  - destruct Hact as (Hpub & Hclm & Hkq). apply (Hgo (c1 {{ obound ::= λ l, l ++ [(q, a)] }}) inb room [(q, a)]); try done; [lia|].
    intros q' a' Hin%list_elem_of_singleton. injection Hin as -> ->. done.
  - apply (Hgo (c1 {{ oboundP ::= λ l, l ++ [(q, t)] }}) inb room []); try done; [lia|symmetry; apply app_nil_r|by intros ? ? ?%elem_of_nil].
  - apply (Hgo c1 (inb ++ [q]) room []); try done; [lia|symmetry; apply app_nil_r|by intros ? ? ?%elem_of_nil].
Qed.

Lemma All_NoDup c : store_opened (persist c) = true → NoDup (All (persist c)).
Proof. intros Ho. rewrite (all_law _ Ho). apply NoDup_fst_map_to_list. Qed.

Lemma resume_sends sub room c :
  client_inv c → store_opened (persist c) = true → (length (All (persist c)) ≤ room)%nat →
  ∃ c' inb, resume sub room c = Some (c', inb) ∧ resent c (All (persist c)) c'.
Proof. intros Hc Ho Hr. apply resume_loop_sends; [done|done|by apply All_good|by apply All_NoDup|done]. Qed.

(** What waits is among what is sent again. *)
Lemma pending_resent c c' id a :
  client_inv c → store_opened (persist c) = true → resent c (All (persist c)) c' → pending (mids c) id a →
  ∃ p a', (p, a') ∈ obound c' ∧ pub_MessageID p = id ∧ Dup (pub_FixedHeader p) = true ∧ index (mids c') !! id = Some a'.
Proof.
  intros [Hc _] Ho (new & Hob & Hnew & _ & Hcl) Hp. pose proof (pending_range _ _ _ _ Hc Hp) as Hid.
  destruct Hc as (_ & _ & Hps). destruct (Hps id a Hp) as (p & Hk & Hpid & _).
  assert (Hin : with_dup p ∈ new.*1).
  { rewrite Hnew. apply list_elem_of_omap. exists (outboundKeyFromMID id). split.
    - rewrite (all_law _ Ho). apply list_elem_of_fmap. exists (outboundKeyFromMID id, PPublish p). split; [done|].
      by apply elem_of_map_to_list.
    - rewrite Hk. apply key_roundtrip in Hid as (_ & _ & _ & _ & Hx & _). by rewrite Hx. }
  apply list_elem_of_fmap in Hin as ([q a'] & Hq & Hin). cbn in Hq. exists q, a'. split_and!.
  - rewrite Hob. apply elem_of_app. by right.
  - by rewrite <- Hq.
  - by rewrite <- Hq.
  - apply Hcl in Hin. assert (pub_MessageID q = id) as <- by (rewrite <- Hq; exact Hpid). exact Hin.
Qed.

(** *** Connecting *)

Lemma reserve_keys_inv keys : ∀ c c',
  client_inv c → Forall good_key keys → reserve_keys keys c = Some c' →
  client_inv c' ∧ persist c' = persist c ∧ status c' = status c.
Proof.
  induction keys as [|key keys IH]; intros c c' Hc Hg HP; cbn [reserve_keys] in HP; [by injection HP as <-|].
  inversion_clear Hg as [|? ? Hk Hks]. destruct (reserve_one c key) as [c1|] eqn:Hone; [|done]. cbn [mbind option_bind] in HP.
  assert (H1 : client_inv c1 ∧ persist c1 = persist c ∧ status c1 = status c).
  { unfold reserve_one in Hone. destruct (Get (persist c) key) as [[p|]|] eqn:Hget; cbn [mbind option_bind] in Hone;
      [|by injection Hone as <-|done].
    destruct p; try (injection Hone as <-; done). apply Get_stored in Hget as [Hst _]; [|done].
    assert (Hr : 1 ≤ pub_MessageID p ≤ midMax).
    { destruct Hc as [(_ & Hs & _) _]. destruct (Hs _ _ Hst) as [Hu [[_ [Hr _]]|[_ Hr]]];
        cbn in Hr, Hu; unfold is_u16, midMax in *; lia. }
    change (match claim PlaceHolderToken (pub_MessageID p) [] c with (_, c) => Some c end = Some c1) in Hone.
    destruct (claim PlaceHolderToken (pub_MessageID p) [] c) as [a c2] eqn:Hcl. injection Hone as <-.
    by apply claim_spec in Hcl as (? & ? & ? & _). }
  destruct H1 as (Hc1 & Hp1 & Hs1). destruct (IH c1 c' Hc1 Hks HP) as (? & Hp2 & Hs2). rewrite Hp2, Hs2. done.
Qed.

Lemma attemptConnection_same net c conn rc sp e c' net' :
  attemptConnection net c = (conn, rc, sp, e, c', net') →
  mids c' = mids c ∧ persist c' = persist c ∧ status c' = status c ∧ obound c' = obound c
  ∧ CleanSession (cl_options c') = CleanSession (cl_options c) ∧ conn_up c' = conn_up c.
Proof.
  unfold attemptConnection. set (st := try_brokers _ _ _). destruct (accepted st); intros Heq; by injection Heq as _ _ _ _ <- _.
Qed.

Lemma startCommsWorkers_inv now conn c c' b :
  client_inv c → store_opened (persist c) = true → startCommsWorkers now conn c = Some (c', b) →
  client_inv c' ∧ persist c' = persist c ∧ mids c' = mids c ∧ obound c' = obound c
  ∧ CleanSession (cl_options c') = CleanSession (cl_options c).
Proof.
  intros [Hc Ho] Hop HP. unfold startCommsWorkers in HP. destruct conn as [conn|]; [|done]. cbn [mbind option_bind] in HP.
  destruct (conn_up c); [injection HP as <- _; by split_and!|].
  repeat case_decide; cbn [mbind option_bind] in HP; try done; injection HP as <- _; by split_and!.
Qed.

Lemma open_inv c : client_inv c → client_inv (c {{ persist ::= Store_Open }}) ∧ store_opened (Store_Open (persist c)) = true.
Proof.
  intros [Hc Ho]. destruct (open_law (persist c)) as [Hm Hop]. split; [|done].
  split; [|done]. change (core (mids c) (store_model (Store_Open (persist c)))). by rewrite Hm.
Qed.

Lemma Connect_start_inv c a c' go :
  client_inv c → Connect_start c = Some (a, c', go) → client_inv c' ∧ (go = true → status c' = connecting).
Proof.
  intros Hc HP. unfold Connect_start in HP. destruct (alloc _ c) as [a0 c0] eqn:Ha.
  apply alloc_inv in Ha as (Hc0 & _ & _); [|done].
  destruct (_ && _); [injection HP as <- <- <-; split; [by apply inv_complete, inv_on_tok|done]|].
  destruct (open_inv c0 Hc0) as [Hc1 Hop]. set (c1 := c0 {{ persist ::= Store_Open }}) in HP, Hc1.
  assert (Hres : ∀ c2, (if ConnectRetry (cl_options c1) then reserveStoredPublishIDs c1 else Some c1) = Some c2 →
    client_inv c2 ∧ persist c2 = persist c1).
  { intros c2 H2. destruct (ConnectRetry _); [|by injection H2 as <-]. unfold reserveStoredPublishIDs in H2.
    destruct (CleanSession _); [by injection H2 as <-|].
    apply reserve_keys_inv in H2 as (? & ? & _); [done|done|by apply All_good]. }
  destruct (if ConnectRetry (cl_options c1) then _ else _) as [c2|] eqn:H2; [|done].
  destruct (Hres c2 eq_refl) as [[Hc2 _] Hp2]. cbn [mbind option_bind] in HP. injection HP as <- <- <-.
  split; [|done]. split; [exact Hc2|]. intros _. change (store_opened (persist c2) = true). by rewrite Hp2.
Qed.

Lemma connect_failed_inv rc e a c : client_inv c → client_inv (connect_failed rc e a c).
Proof.
  intros [Hc _]. apply inv_fail, inv_on_tok; [done|]. split; [|done].
  change (core (mids c) (store_model (Store_Close (persist c)))). by destruct (close_law (persist c)) as [-> _].
Qed.

Lemma connect_up_inv now room conn a c c' inb :
  client_inv c → store_opened (persist c) = true → CleanSession (cl_options c) = false →
  connect_up now room conn a c = Some (c', inb) → client_inv c'.
Proof.
  intros Hc Hop Hcs HP. unfold connect_up in HP. destruct (startCommsWorkers now conn c) as [[c1 b]|] eqn:Hst; [|done].
  cbn [mbind option_bind] in HP. apply startCommsWorkers_inv in Hst as (Hc1 & Hp1 & _ & _ & Hcs1); [|done|done].
  destruct b; [|by injection HP as <- _; apply inv_complete]. rewrite Hcs1, Hcs in HP.
  destruct (resume _ _ c1) as [[c2 inb2]|] eqn:Hre; [|done]. cbn [mbind option_bind] in HP. injection HP as <- _.
  apply inv_complete. eapply resume_loop_inv; [exact Hc1| |exact Hre]. by apply All_good.
Qed.

Lemma Connect_loop_inv now room a sleeps : ∀ net c c' net' inb,
  client_inv c → status c = connecting → CleanSession (cl_options c) = false →
  Connect_loop now room sleeps a net c = Some (Some (c', net', inb)) → client_inv c'.
Proof.
  induction sleeps as [|stopped sleeps IH]; intros net c c' net' inb Hc Hst Hcs HP; cbn [Connect_loop] in HP;
    destruct (attemptConnection net c) as [[[[[conn rc] sp] e] c1] net1] eqn:Hat;
    apply attemptConnection_same in Hat as (Hm & Hp & Hs & _ & Hcs1 & _);
    assert (Hc1 : client_inv (on_tok (λ t, t {{ sessionPresent := sp }}) a c1))
      by (apply inv_on_tok; [done|]; by eapply inv_same);
    set (c2 := on_tok _ a c1) in HP, Hc1; assert (Hs2 : status c2 = connecting) by (change (status c1 = connecting); congruence);
    assert (Hcs2 : CleanSession (cl_options c2) = false) by (change (CleanSession (cl_options c1) = false); congruence);
    clearbody c2; (destruct e as [e|]; cycle 1;
      [destruct (connect_up now room conn a c2) as [[c3 inb3]|] eqn:Hup; [|done]; cbn [mbind option_bind] in HP;
       injection HP as <- _ _; eapply connect_up_inv; [exact Hc1| |exact Hcs2|exact Hup]; apply Hc1; rewrite Hs2; done|]).
  - destruct (ConnectRetry _); [done|]. injection HP as <- _ _. by apply connect_failed_inv.
  - destruct (ConnectRetry _); [|injection HP as <- _ _; by apply connect_failed_inv].
    destruct stopped; [injection HP as <- _ _; by apply connect_failed_inv, set_disconnected_inv|].
    rewrite decide_True in HP by done. by eapply IH.
Qed.

Lemma Connect_run_inv now room a sleeps net c c' net' inb :
  client_inv c → status c = connecting → CleanSession (cl_options c) = false →
  Connect_run now room sleeps a net c = Some (Some (c', net', inb)) → client_inv c'.
Proof.
  intros Hc Hst Hcs HP. unfold Connect_run in HP. destruct (Servers _); [|by eapply Connect_loop_inv].
  injection HP as <- _ _. by apply inv_fail.
Qed.

Lemma reconnect_loop_inv f sleeps : ∀ sleep net c waited conn c' net' waited',
  client_inv c → status c = reconnecting →
  reconnect_loop f sleeps sleep net c waited = Some (conn, c', net', waited') →
  client_inv c' ∧ mids c' = mids c ∧ persist c' = persist c ∧ obound c' = obound c
  ∧ (status c' = reconnecting ∨ status c' = disconnected).
Proof.
  induction sleeps as [|stopped sleeps IH]; intros sleep net c waited conn c' net' waited' Hc Hst HP;
    cbn [reconnect_loop] in HP; set (c0 := if OnReconnecting (cl_options c) then _ else c) in HP;
    assert (Hc0 : mids c0 = mids c ∧ persist c0 = persist c ∧ status c0 = status c ∧ obound c0 = obound c)
      by (unfold c0; by destruct (OnReconnecting _));
    destruct Hc0 as (Hm0 & Hp0 & Hs0 & Ho0); clearbody c0;
    destruct (attemptConnection net c0) as [[[[[conn1 rc] sp] e] c1] net1] eqn:Hat;
    apply attemptConnection_same in Hat as (Hm & Hp & Hs & Ho & _);
    assert (Hc1 : client_inv c1) by (eapply (inv_same c); congruence || done);
    (destruct e as [e|]; [|injection HP as _ <- _ _; split_and!; try congruence; left; congruence]).
  - done.
  - destruct stopped.
    + rewrite decide_True in HP by done. injection HP as _ <- _ _. split_and!; [by apply set_disconnected_inv|..|by right].
      * change (mids c1 = mids c). congruence.
      * change (persist c1 = persist c). congruence.
      * change (obound c1 = obound c). congruence.
    + rewrite decide_False in HP by (rewrite Hs, Hs0, Hst; done).
      destruct (IH _ _ _ _ _ _ _ _ Hc1 ltac:(congruence) HP) as (? & ? & ? & ? & ?). split_and!; congruence || done.
Qed.

Lemma reconnect_inv f now room sleeps net c c' net' inb :
  client_inv c → status c = reconnecting →
  reconnect f now room sleeps net c = Some (Some (c', net', inb)) → client_inv c'.
Proof.
  intros Hc Hst HP. unfold reconnect in HP.
  destruct (reconnect_loop f sleeps Second net c []) as [[[[conn c1] net1] w]|] eqn:Hl; [|done].
  apply reconnect_loop_inv in Hl as (Hc1 & _ & _ & _ & Hor); [|done|done].
  destruct (decide (status c1 = disconnected)) as [Hd|Hd]; [by injection HP as <- _ _|].
  destruct (startCommsWorkers now conn c1) as [[c2 b]|] eqn:Hs; [|done]. cbn [mbind option_bind] in HP.
  apply startCommsWorkers_inv in Hs as (Hc2 & _); [|done|by apply Hc1].
  destruct b; [|by injection HP as <- _ _]. destruct (resume _ _ c2) as [[c3 inb3]|] eqn:Hre; [|done].
  cbn [mbind option_bind] in HP. injection HP as <- _ _. eapply resume_loop_inv; [exact Hc2| |exact Hre]. by apply All_good.
Qed.

(** Everything the goroutines and the caller do to a client that does not ask for clean
    sessions. *)
Inductive client_step : client → client → Prop :=
  | step_Publish topic qos retained payload taken c a c' :
      0 ≤ qos ≤ 2 → Publish topic qos retained payload taken c = Some (a, c') → client_step c c'
  | step_Subscribe topic qos cb taken c a c' :
      Subscribe topic qos cb taken c = Some (a, c') → client_step c c'
  | step_SubscribeMultiple filters cb taken c a c' :
      SubscribeMultiple filters cb taken c = Some (a, c') → client_step c c'
  | step_Unsubscribe topics taken c a c' :
      Unsubscribe topics taken c = Some (a, c') → client_step c c'
  | step_AddRoute topic cb c : client_step c (AddRoute topic cb c)
  | step_receive now msg c c' x :
      proper msg → receive now msg c = Some (c', x) → client_step c c'
  | step_from_store p c c' x :
      is_u16 (ack_MessageID p) → handle_incoming (PPubrel p) c = Some (c', x) → client_step c c'
  | step_dispatch p c c' :
      is_u16 (pub_MessageID p) → dispatch p c = Some c' → client_step c c'
  | step_write_publish now w p a c : client_step c (write_publish now w p a c).1
  | step_write_control now w p t c : client_step c (write_control now w p t c).1
  | step_keepalive now pingSent c : client_step c (keepalive_tick now pingSent c).1.1.1
  | step_Connect c a c' go : Connect_start c = Some (a, c', go) → client_step c c'
  | step_Connect_run now room sleeps a net c c' net' inb :
      status c = connecting → CleanSession (cl_options c) = false →
      Connect_run now room sleeps a net c = Some (Some (c', net', inb)) → client_step c c'
  | step_lost c : client_step c (internalConnLost c).1
  | step_reconnect f now room sleeps net c c' net' inb :
      status c = reconnecting → reconnect f now room sleeps net c = Some (Some (c', net', inb)) → client_step c c'
  | step_Disconnect taken c : client_step c (Disconnect taken c)
  | step_forceDisconnect c : client_step c (forceDisconnect c).

Lemma client_step_inv c c' : client_step c c' → client_inv c → client_inv c'.
Proof.
  intros Hs Hc. destruct Hs.
  - by eapply Publish_inv.
  - by eapply Subscribe_inv.
  - by eapply SubscribeMultiple_inv.
  - by eapply Unsubscribe_inv.
  - by apply AddRoute_inv.
  - by eapply receive_inv.
  - by eapply handle_incoming_inv; [| |eassumption].
  - by eapply dispatch_inv.
  - by apply write_inv.
  - by apply write_inv.
  - by apply keepalive_inv.
  - by eapply Connect_start_inv.
  - by eapply Connect_run_inv.
  - by apply internalConnLost_inv.
  - by eapply reconnect_inv.
  - by apply Disconnect_inv.
  - by apply forceDisconnect_inv.
Qed.

Lemma NewClient_inv d o :
  stored_ok (store_model (default d (opt_Store o))) → client_inv (NewClient d o).
Proof.
  intros Hs. split; [|done]. split_and!.
  - split; [split|]; cbn; [intros id a Hi; by rewrite lookup_empty in Hi|unfold midMax; lia|].
    intros id a Hi. by rewrite lookup_empty in Hi.
  - assert (persist (NewClient d o) = default d (opt_Store o)) as ->; [|exact Hs].
    unfold NewClient. destruct (opt_Store o) eqn:Ho; case_decide; try reflexivity; cbn [persist];
      (change (default d (opt_Store o) = t) || idtac); by rewrite Ho.
  - intros id a [Hi _]. cbn in Hi. by rewrite lookup_empty in Hi.
Qed.

Lemma reachable_client_inv d o c :
  stored_ok (store_model (default d (opt_Store o))) → rtc client_step (NewClient d o) c → client_inv c.
Proof.
  intros Hs Hr. assert (Hc : client_inv (NewClient d o)) by (by apply NewClient_inv). clear Hs.
  induction Hr as [|c1 c2 c3 Hst _ IH]; [done|]. apply IH. by eapply client_step_inv.
Qed.

(** C5: Take a client whose options do not ask for clean sessions (with them see
    [clean_connect_drops]) and whose store holds at the start, if anything, packets under the
    keys of their ids ([stored_ok]).  Whatever its user, who publishes with QoS 0 to 2, the
    goroutines, and a broker whose packets carry 16-bit ids and an id other than 0 where the
    QoS is not 0, do in whatever order: an id in use is a valid one and belongs to one
    request, whose token knows it; and a publish that waits for its acknowledgement is in the
    store under its id, so that it can be sent again. *)
Theorem client_invariant d o c id a :
  stored_ok (store_model (default d (opt_Store o))) → rtc client_step (NewClient d o) c →
  index (mids c) !! id = Some a →
  1 ≤ id ≤ 65535
  ∧ (∀ id', index (mids c) !! id' = Some a → id' = id)
  ∧ ∃ t, tokens (mids c) !! a = Some t ∧ tok_messageID t = id
    ∧ (tok_kind t = PublishToken → stored_publish (store_model (persist c)) id).
Proof.
  intros Hs Hr Hi. destruct (reachable_client_inv d o c Hs Hr) as [(Hm & _ & Hp) _]. split_and!.
  - by apply (proj1 (proj1 Hm) id a).
  - by apply (proj1 (proj1 Hm) id a).
  - intros id' Hi'. by eapply mids_inv_inj.
  - destruct Hm as [_ Hm]. destruct (Hm id a Hi) as (t & Ht & Hid). exists t. split_and!; [done|done|].
    intros Hk. apply (Hp id a). split; [done|]. by exists t.
Qed.

(** *** Surviving a lost connection *)

Definition keepalive_ok c : Prop := KeepAlive (cl_options c) = 0 ∨ 0 < check_interval (KeepAlive (cl_options c)).

Lemma startCommsWorkers_up now conn c :
  keepalive_ok c → conn_up c = false → ∃ c', startCommsWorkers now (Some conn) c = Some (c', true)
    ∧ status c' = connected ∧ mids c' = mids c ∧ persist c' = persist c ∧ obound c' = obound c
    ∧ cl_options c' = cl_options c.
Proof.
  intros Hk Hup. unfold startCommsWorkers. cbn [mbind option_bind]. rewrite Hup.
  destruct (decide (KeepAlive (cl_options c) = 0)); [by eexists|].
  rewrite decide_False by (destruct Hk; lia). by eexists.
Qed.

Lemma lost_again c :
  conn_up c = true → status c = connected → AutoReconnect (cl_options c) = true →
  (internalConnLost c).2 = true ∧ status (internalConnLost c).1 = reconnecting
  ∧ conn_up (internalConnLost c).1 = false ∧ persist (internalConnLost c).1 = persist c
  ∧ cl_options (internalConnLost c).1 = cl_options c
  ∧ ∀ id a, pending (mids c) id a → pending (mids (internalConnLost c).1) id a.
Proof.
  intros Hup Hst Hauto. unfold internalConnLost, stopCommsWorkers. rewrite Hup.
  change (cl_options (c {{ conn_up := false }})) with (cl_options c).
  change (status (c {{ conn_up := false }})) with (status c). rewrite Hauto, Hst.
  assert (bool_decide (connected > connecting) = true) as -> by reflexivity. cbn [andb negb fst snd].
  rewrite andb_false_r. destruct (negb _); (split_and!; try reflexivity); [|done].
  intros id a [Hi (t & Ht & Hk)]. pose proof (cleanUpSubscribe_cases (mids c) id a Hi) as Hc.
  unfold is_subscription in Hc. rewrite Ht, Hk in Hc. destruct Hc as [Hi' Ht'].
  split; [exact Hi'|]. exists t. split; [|done]. change (tokens (cleanUpSubscribe (mids c)) !! a = Some t). by rewrite Ht'.
Qed.

(** C31: One round of attempts: at most one opening per broker, and one more when the version
    may fall back.  The return code tells exactly whether a broker accepted: then the
    connection is the one that did, all connections opened before it were refused, the
    flag of the session is what it said, and there is no error.  Otherwise everything
    that was opened was refused. *)
Theorem attemptConnection_spec net c conn rc sp e c' net' :
  Servers (cl_options c) ≠ [] → attemptConnection net c = (conn, rc, sp, e, c', net') →
  ∃ used, net = used ++ net' ∧ (length used ≤ length (Servers (cl_options c)) + 1)%nat
    ∧ (protocolVersionExplicit (cl_options c) = true → (length used ≤ length (Servers (cl_options c)))%nat)
    ∧ ((rc = Accepted ∧ e = None ∧ ∃ pre cn err, used = pre ++ [Some cn] ∧ Forall refused pre ∧ conn = Some cn
          ∧ answer cn = (Accepted, sp, err) ∧ protocolVersionExplicit (cl_options c') = true)
       ∨ (rc ≠ Accepted ∧ e = ConnErrors rc ∧ Forall refused used ∧ c' = c)).
Proof.
  intros Hne HP. unfold attemptConnection in HP.
  set (st0 := mkAttempt _ _ _ _ _ _) in HP. set (st := try_brokers _ _ st0) in HP.
  destruct (try_brokers_outcome (cl_options c) (Servers (cl_options c)) st0 (or_intror Hne)) as (used & Hn & Hl & Hor).
  fold st in Hn, Hl, Hor. change (at_net st0) with net in Hn.
  assert (Hnet : net' = at_net st) by (destruct (accepted st); by injection HP as _ _ _ _ _ <-). subst net'.
  exists used. split; [done|].
  assert (Hb : ∀ v, (may_fall_back (cl_options c) v ≤ 1)%nat).
  { intros v. unfold may_fall_back. destruct (negb _ && _); lia. }
  split; [specialize (Hb (at_version st0)); lia|]. split.
  { intros Hex. unfold may_fall_back in Hl. rewrite Hex in Hl. cbn in Hl. lia. }
  destruct Hor as [[Hacc Href]|(Hacc & pre & cn & -> & Href & Hcn & Ha)]; rewrite Hacc in HP; injection HP as <- <- <- <- <-.
  - right. split_and!; [by apply bool_decide_eq_false in Hacc|done|done|done].
  - left. split; [by apply bool_decide_eq_true in Hacc|]. split; [done|]. exists pre, cn, (at_err st).
    split_and!; [done|done|done|done|done].
Qed.

(** C7: A connection is lost while publishes wait for their acknowledgements, and the next
    attempt to connect works: the client is connected again, and every one of these
    publishes is sent again, marked as a duplicate, under the id it had. *)
Theorem lost_publish_resent f now room net c conn rc sp c2 net2 :
  client_inv c → conn_up c = true → status c = connected → AutoReconnect (cl_options c) = true →
  OnReconnecting (cl_options c) = false → keepalive_ok c → (length (All (persist c)) ≤ room)%nat →
  attemptConnection net (internalConnLost c).1 = (Some conn, rc, sp, None, c2, net2) →
  ∃ c' inb, reconnect f now room [] net (internalConnLost c).1 = Some (Some (c', net2, inb)) ∧ status c' = connected
    ∧ ∀ id a, pending (mids c) id a →
        ∃ p a', (p, a') ∈ obound c' ∧ pub_MessageID p = id ∧ Dup (pub_FixedHeader p) = true
          ∧ index (mids c') !! id = Some a'.
Proof.
  intros Hc Hup Hst Hauto Hnr Hka Hroom Hat.
  destruct (lost_again c Hup Hst Hauto) as (_ & Hst1 & Hup1 & Hp1 & Ho1 & Hpend).
  pose proof (internalConnLost_inv c Hc) as Hc1. set (c1 := (internalConnLost c).1) in *. clearbody c1.
  assert (Hop1 : store_opened (persist c1) = true) by (apply Hc1; rewrite Hst1; done).
  pose proof (attemptConnection_same _ _ _ _ _ _ _ _ Hat) as (Hm2 & Hp2 & Hs2 & Hob2 & _ & Hup2).
  assert (Hka2 : KeepAlive (cl_options c2) = KeepAlive (cl_options c1)).
  { unfold attemptConnection in Hat. destruct (accepted _); [injection Hat as _ _ _ <- _|injection Hat as _ _ _ _ <- _]; done. }
  assert (Hc2 : client_inv c2) by (by eapply inv_same).
  destruct (startCommsWorkers_up now conn c2) as (c3 & Hstart & Hst3 & Hm3 & Hp3 & Hob3 & Hopt3);
    [unfold keepalive_ok in *; rewrite Hka2, Ho1; exact Hka|congruence|].
  assert (Hc3 : client_inv c3).
  { apply startCommsWorkers_inv in Hstart as (? & _); [done|done|congruence]. }
  destruct (resume_sends (ResumeSubs (cl_options c3)) room c3) as (c4 & inb & Hre & Hres); [done|congruence|congruence|].
  exists c4, inb. split_and!.
  - unfold reconnect. cbn [reconnect_loop]. rewrite Ho1, Hnr, Hat. rewrite decide_False by (rewrite Hs2, Hst1; done).
    rewrite Hstart. cbn [mbind option_bind]. by rewrite Hre.
  - apply resume_loop_inv in Hre as [_ Hs4]; [congruence|done|by apply All_good].
  - intros id a Hpe. apply (pending_resent c3 c4 id a); [done|congruence|done|]. rewrite Hm3, Hm2. by apply Hpend.
Qed.
End Invariant.
