(* ===== verification/ClientFlow.v ===== *)
(** * ClientFlow: acknowledgements, dispatching and timers of a client

    What each acknowledgement does to a request, how a received message reaches the
    handlers, how the keep-alive timer notices a dead connection, how long [reconnect]
    waits; then what the code does besides, and sample runs. *)
From S2P Require Import Prelude Wire Packets PacketsRoundtrip PacketsStream Topics TopicLevels Router MessageIds Store Options Client ClientSpec.
Local Open Scope Z_scope.

Section Flow.
Context {Handler T Transport : Type} `{StoreLaws T}.
Abbreviation client := (@client Handler T Transport).
Implicit Types (c : client).

(** ** Acknowledgements *)

(** The packets that end a request that is not a subscription. *)
Definition final_ack (id : Z) (msg : ControlPacket) : Prop :=
  match msg with
  | PPuback m | PPubcomp m => ack_MessageID m = id ∧ Qos (ack_FixedHeader m) = 0
  | PUnsuback m => ack_MessageID m = id
  | _ => False
  end.

Lemma ack_processed now id msg a t c :
  client_inv c → store_opened (persist c) = true → final_ack id msg →
  index (mids c) !! id = Some a → tokens (mids c) !! a = Some t → tok_kind t ≠ PlaceHolderToken →
  ∃ c', receive now msg c = Some (c', Nothing)
    ∧ index (mids c') = delete id (index (mids c))
    ∧ tokens (mids c') = <[a := t {{ complete := true }}]> (tokens (mids c))
    ∧ store_model (persist c') = delete (outboundKeyFromMID id) (store_model (persist c))
    ∧ status c' = status c ∧ obound c' = obound c ∧ oboundP c' = oboundP c.
Proof.
  intros Hc Ho Hmsg Hi Ht Hk. assert (Hid : is_u16 id).
  { destruct Hc as [(([Hr _] & _) & _) _]. apply Hr in Hi. unfold is_u16, midMax in *. lia. }
  assert (Hd : ControlPacket_Details msg = mkDetails 0 id ∧ is_ack msg = true
    ∧ ∀ c, handle_incoming msg c = Some (acknowledged id c, Nothing)).
  { unfold final_ack in Hmsg. destruct msg; try done; (destruct Hmsg as [<- Hq] || subst id); cbn; by rewrite ?Hq. }
  destruct Hd as (Hdet & Hack & Hh).
  destruct (persistInbound_del (persist c) msg id Ho Hid Hdet) as (s & Hs & _ & Hsm); [by destruct msg|].
  unfold receive. rewrite Hs. cbn [mbind option_bind]. rewrite Hh. eexists. split; [reflexivity|].
  unfold acknowledged, UpdateLastReceived.
  assert (Hfc : flowComplete t = t {{ complete := true }}) by (unfold flowComplete; by destruct (tok_kind t)).
  assert (Htok : alter flowComplete a (tokens (mids c)) = <[a := t {{ complete := true }}]> (tokens (mids c))).
  { apply map_eq. intros b. destruct (decide (a = b)) as [->|].
    - by rewrite lookup_alter_eq, lookup_insert_eq, Ht, <- Hfc.
    - by rewrite lookup_alter_ne, lookup_insert_ne. }
  case_decide; match goal with |- context [getToken id (mids ?x)] => change (mids x) with (mids c) end;
    unfold getToken; rewrite Hi; split_and!; try reflexivity; [exact Htok|exact Hsm|exact Htok|exact Hsm].
Qed.

(** PUBACK, PUBCOMP or UNSUBACK of a request: its token completes, without a new error,
    its id is free again and its packet leaves the store; the other requests and
    packets stay. *)
Theorem ack_completes now id msg a t c :
  client_inv c → store_opened (persist c) = true → final_ack id msg →
  index (mids c) !! id = Some a → tokens (mids c) !! a = Some t → tok_kind t ≠ PlaceHolderToken →
  ∃ c', receive now msg c = Some (c', Nothing)
    ∧ index (mids c') = delete id (index (mids c))
    ∧ tokens (mids c') = <[a := t {{ complete := true }}]> (tokens (mids c))
    ∧ store_model (persist c') = delete (outboundKeyFromMID id) (store_model (persist c))
    ∧ status c' = status c ∧ obound c' = obound c ∧ oboundP c' = oboundP c.
Proof. exact (ack_processed now id msg a t c). Qed.

(** SUBACK: the codes are noted under the topics, in order. *)
Lemma granted_spec subs codes res :
  (length codes ≤ length subs)%nat → ∃ res', granted subs codes res = Some res'
    ∧ (NoDup subs → ∀ i s q, subs !! i = Some s → codes !! i = Some q → res' !! s = Some q)
    ∧ (∀ s, s ∉ subs → res' !! s = res !! s).
Proof.
  revert subs res. induction codes as [|q codes IH]; intros subs res Hl.
  { exists res. split; [by destruct subs|]. split; [|done]. intros _ i s q _ Hq. by rewrite lookup_nil in Hq. }
  destruct subs as [|s subs]; cbn in Hl; [lia|]. cbn [granted].
  destruct (IH subs (<[s := q]> res)) as (res' & -> & Hres & Hout); [lia|]. exists res'. split_and!; [done| |].
  - intros [Hnin Hnd]%NoDup_cons i s0 q0 Hs Hq. destruct i as [|i]; cbn in Hs, Hq; [|by eapply Hres].
    injection Hs as <-. injection Hq as <-. rewrite Hout by done. apply lookup_insert_eq.
  - intros s0 [Hne Hni]%not_elem_of_cons. rewrite Hout by done. by apply lookup_insert_ne.
Qed.

(** ** Received messages *)

Lemma dispatch_processed p c hs :
  handlers_for (msgRouter c) (pub_TopicName p) = Some hs → store_opened (persist c) = true → is_u16 (pub_MessageID p) →
  ∃ c', dispatch p c = Some c' ∧ calls c' = calls c ++ map (λ h, (h, p)) hs
    ∧ oboundP c' = oboundP c ++
        match hs with
        | [] => []
        | _ => if decide (Qos (pub_FixedHeader p) = 2) then [(PPubrec (newAck Packets.Pubrec (pub_MessageID p)), None)]
               else if decide (Qos (pub_FixedHeader p) = 1) then [(PPuback (newAck Packets.Puback (pub_MessageID p)), None)]
               else []
        end
    ∧ store_model (persist c') =
        (if decide (hs ≠ [] ∧ Qos (pub_FixedHeader p) = 1)
         then delete (inboundKeyFromMID (pub_MessageID p)) (store_model (persist c)) else store_model (persist c)).
Proof.
  intros Hhs Ho Hid. unfold dispatch. rewrite Hhs. cbn [mbind option_bind]. destruct hs as [|h hs].
  { eexists. split; [reflexivity|]. rewrite decide_False by naive_solver. split_and!; try reflexivity. by rewrite app_nil_r. }
  unfold ack_message. destruct (decide (Qos (pub_FixedHeader p) = 2)) as [H2|H2].
  { eexists. split; [reflexivity|]. rewrite decide_False by (rewrite H2; naive_solver). by split_and!. }
  destruct (decide (Qos (pub_FixedHeader p) = 1)) as [H1|H1].
  - pose proof (key_roundtrip _ Hid) as (Hk & _). destruct (del_law (persist c) _ _ Ho Hk) as (s & Hs & Hsm & _).
    change (persistOutbound _ _) with (Del (persist c) (inboundKeyFromMID (pub_MessageID p))). rewrite Hs.
    cbn [mbind option_bind]. eexists. split; [reflexivity|]. rewrite decide_True by done. split_and!; try reflexivity. exact Hsm.
  - eexists. split; [reflexivity|]. rewrite decide_False by naive_solver. split_and!; try reflexivity.
    symmetry. apply app_nil_r.
Qed.

(** A received message goes to every handler of a matching route, in the order of the
    routes, or to the default handler; if there is any, one acknowledgement of its
    quality of service is sent, and with QoS 1 it leaves the store. *)
Theorem dispatch_spec p c hs :
  handlers_for (msgRouter c) (pub_TopicName p) = Some hs → store_opened (persist c) = true → is_u16 (pub_MessageID p) →
  ∃ c', dispatch p c = Some c' ∧ calls c' = calls c ++ map (λ h, (h, p)) hs
    ∧ oboundP c' = oboundP c ++
        match hs with
        | [] => []
        | _ => if decide (Qos (pub_FixedHeader p) = 2) then [(PPubrec (newAck Packets.Pubrec (pub_MessageID p)), None)]
               else if decide (Qos (pub_FixedHeader p) = 1) then [(PPuback (newAck Packets.Puback (pub_MessageID p)), None)]
               else []
        end
    ∧ store_model (persist c') =
        (if decide (hs ≠ [] ∧ Qos (pub_FixedHeader p) = 1)
         then delete (inboundKeyFromMID (pub_MessageID p)) (store_model (persist c)) else store_model (persist c)).
Proof. exact (dispatch_processed p c hs). Qed.

(** ** Timers *)

(** [k] failures in a row. *)
Definition sleep_after (max sleep : Z) (k : nat) : Z := Nat.iter k (next_sleep max) sleep.

(** The time to wait doubles with every failure, up to the maximum. *)
Theorem backoff_doubles max sleep k :
  0 < sleep ≤ max → sleep_after max sleep k = Z.min (sleep * 2 ^ Z.of_nat k) max.
Proof.
  intros Hs. induction k as [|k IH]; [cbn; lia|]. unfold sleep_after in *. rewrite Nat.iter_succ, IH.
  rewrite Nat2Z.inj_succ, Z.pow_succ_r by lia. pose proof (Z.pow_pos_nonneg 2 (Z.of_nat k)).
  unfold next_sleep. destruct (Z.min_spec (sleep * 2 ^ Z.of_nat k) max) as [[? ->]|[? ->]]; repeat case_decide; lia || nia.
Qed.

(** Nothing has come in for the keep-alive time, and nothing comes: the next tick sends
    a ping, the ticks before the timeout do nothing, and the first one after it gives
    the connection up. *)
Theorem keepalive_gives_up c pingSent t1 t2 :
  conn_up c = true → pingOutstanding c = 0 → KeepAlive (cl_options c) * Second ≤ t1 - lastReceived c →
  0 < PingTimeout (cl_options c) → t1 ≤ t2 →
  ∃ c1, keepalive_tick t1 pingSent c = (c1, t1, true, false) ∧ pingOutstanding c1 = 1 ∧ conn_up c1 = true
    ∧ (t2 - t1 < PingTimeout (cl_options c) → keepalive_tick t2 t1 c1 = (c1, t1, false, false))
    ∧ (PingTimeout (cl_options c) ≤ t2 - t1 →
         keepalive_tick t2 t1 c1 = ((internalConnLost c1).1, t1, false, true) ∧ conn_up (internalConnLost c1).1 = false).
Proof.
  intros Hup Hp Hidle Hpt Ht. unfold keepalive_tick at 1. rewrite Hp.
  rewrite (bool_decide_eq_true_2 (_ ∨ _)) by (by right). rewrite (bool_decide_eq_true_2 (0 = 0)) by done. cbn [andb].
  set (c1 := c {{ pingOutstanding := 1; lastSent := t1 }}).
  rewrite decide_False by (intros [_ ?]; lia). exists c1. split_and!; [done|done|done| |].
  - intros Hlt. unfold keepalive_tick. change (pingOutstanding c1) with 1. change (bool_decide (1 = 0)) with false.
    rewrite andb_false_r. rewrite decide_False; [done|]. change (PingTimeout (cl_options c1)) with (PingTimeout (cl_options c)). lia.
  - intros Hge. unfold keepalive_tick. change (pingOutstanding c1) with 1. change (bool_decide (1 = 0)) with false.
    rewrite andb_false_r. rewrite decide_True.
    + split; [done|]. unfold internalConnLost, stopCommsWorkers. change (conn_up c1) with (conn_up c). rewrite Hup.
      cbn [fst]. destruct (CleanSession _ && _); [done|]. by destruct (negb _).
    + split; [change (1 > 0); lia|]. exact Hge.
Qed.

(** ** What the code does besides *)

(** One broker that is reached. *)
Lemma attempt_one broker cn net c rc sp e :
  Servers (cl_options c) = [broker] → protocolVersionExplicit (cl_options c) = true ∨ rc = Accepted →
  answer cn = (rc, sp, e) →
  attemptConnection (Some cn :: net) c =
    if decide (rc = Accepted)
    then (Some cn, rc, sp, None, c {{ cl_options := (cl_options c) {{ protocolVersionExplicit := true }} }}, net)
    else (Some cn, rc, sp, ConnErrors rc, c, net).
Proof.
  intros Hsv Hex Hans. unfold attemptConnection. rewrite Hsv. cbn [try_brokers].
  set (st0 := mkAttempt _ _ _ _ _ _).
  assert (try_broker (cl_options c) broker st0 = mkAttempt (ProtocolVersion (cl_options c)) (Some cn) rc sp e net) as ->.
  { unfold try_broker, open_once. cbn [at_net st0]. rewrite connectMQTT_answer, Hans. cbn [at_conn].
    unfold accepted. cbn [at_rc]. case_bool_decide; [done|]. destruct Hex as [-> | ?]; [|done]. done. }
  unfold accepted. cbn [at_rc]. destruct (decide (rc = Accepted)) as [Hr|Hr].
  - rewrite (bool_decide_eq_true_2 (rc = Accepted)) by done. cbn [at_rc]. rewrite (bool_decide_eq_true_2 (rc = Accepted)) by done.
    by destruct c as [[] ? ? ? ? ? ? ? ? ? ? ?].
  - rewrite (bool_decide_eq_false_2 (rc = Accepted)) by done. cbn [at_rc]. by rewrite (bool_decide_eq_false_2 (rc = Accepted)) by done.
Qed.

(** A broker answers with a return code that the table of errors does not have: the
    attempt gives no error, the token completes as if the connection was accepted, and
    the client calls itself connected. *)
Theorem unknown_code_connects now room a t broker cn rc net c :
  Servers (cl_options c) = [broker] → protocolVersionExplicit (cl_options c) = true →
  CleanSession (cl_options c) = true → keepalive_ok c → conn_up c = false →
  answer cn = (rc, false, None) → rc ≠ Accepted → ConnErrors rc = None →
  tokens (mids c) !! a = Some t → tok_kind t = ConnectToken → err t = None →
  ∃ c' t', Connect_run now room [] a (Some cn :: net) c = Some (Some (c', net, []))
    ∧ status c' = connected ∧ tokens (mids c') !! a = Some t' ∧ complete t' = true ∧ err t' = None.
Proof.
  intros Hsv Hex Hcs Hka Hup Hans Hrc Hce Ht Hk Herr. unfold Connect_run. rewrite Hsv. cbn [Connect_loop].
  assert (Hat : attemptConnection (Some cn :: net) c = (Some cn, rc, false, None, c, net)).
  { rewrite (attempt_one broker cn net c rc false None) by auto. by rewrite decide_False, Hce. }
  rewrite Hat. set (c1 := on_tok _ a c). unfold connect_up.
  destruct (startCommsWorkers_up now cn c1) as (c2 & -> & Hst & Hm & _ & _ & Hopt); [exact Hka|exact Hup|].
  cbn [mbind option_bind]. rewrite Hopt. change (cl_options c1) with (cl_options c). rewrite Hcs. cbn [fst snd].
  eexists (complete_token a (c2 {{ persist ::= Store_Reset }})), _. split; [reflexivity|]. split; [exact Hst|].
  match goal with |- ?x !! a = _ ∧ _ => change x with (alter flowComplete a (tokens (mids c2))) end.
  rewrite Hm. change (tokens (mids c1)) with (alter (λ t, t {{ sessionPresent := false }}) a (tokens (mids c))).
  rewrite !lookup_alter_eq, Ht. cbn [fmap option_fmap option_map]. split; [reflexivity|].
  unfold flowComplete. change (tok_kind (t {{ sessionPresent := false }})) with (tok_kind t). rewrite Hk. by split.
Qed.

(** A clean session with [ConnectRetry]: what was published before the connection came
    up is wiped from the store without being sent, and its token goes on waiting. *)
Theorem clean_connect_drops now room cn a b id c :
  CleanSession (cl_options c) = true → keepalive_ok c → conn_up c = false → store_opened (persist c) = true →
  pending (mids c) id b → b ≠ a →
  ∃ c', connect_up now room (Some cn) a c = Some (c', []) ∧ status c' = connected
    ∧ store_model (persist c') = ∅ ∧ obound c' = obound c ∧ pending (mids c') id b
    ∧ tokens (mids c') !! b = tokens (mids c) !! b.
Proof.
  intros Hcs Hka Hup Ho [Hi Ht] Hne. unfold connect_up.
  destruct (startCommsWorkers_up now cn c) as (c2 & -> & Hst & Hm & Hp & Hob & Hopt); [done|done|].
  cbn [mbind option_bind]. rewrite Hopt, Hcs. eexists. split; [reflexivity|]. split; [exact Hst|].
  split. { change (store_model (Store_Reset (persist c2)) = ∅). rewrite Hp. by apply reset_law. }
  split; [exact Hob|].
  assert (Htb : tokens (mids (complete_token a (c2 {{ persist ::= Store_Reset }}))) !! b = tokens (mids c) !! b).
  { change (alter flowComplete a (tokens (mids c2)) !! b = tokens (mids c) !! b). by rewrite lookup_alter_ne, Hm. }
  split; [|exact Htb]. split; [|by rewrite Htb]. change (index (mids c2) !! id = Some b). by rewrite Hm.
Qed.

(** A client that starts with a filled store and without [ConnectRetry] does not know the
    ids of the store until they are sent again: a publish in between takes the first id
    and the place of what is stored under it. *)
Theorem publish_replaces_stored topic retained s c :
  status c = connected → index (mids c) = ∅ → lastIssuedID (mids c) = 0 → store_opened (persist c) = true →
  ∃ a c', Publish topic 1 retained (PayloadString s) true c = Some (a, c')
    ∧ store_model (persist c') !! outboundKeyFromMID 1
      = Some (PPublish (publish_packet topic 1 retained (bytes_of s) 1)).
Proof.
  intros Hst Hix Hl Ho. unfold Publish. destruct (alloc _ c) as [a c0] eqn:Ha. unfold alloc in Ha. injection Ha as Ha <-.
  match goal with |- context [IsConnected ?x] => set (c1 := x) end. assert (Hcon : IsConnected c1 = true).
  { unfold IsConnected. by rewrite decide_True. }
  rewrite Hcon. cbn [negb]. rewrite decide_False by lia. cbn [payload_bytes]. rewrite decide_False by lia.
  assert (Hid : ∃ c2, take_id a c1 = Some (1, c2) ∧ persist c2 = persist c ∧ status c2 = connected).
  { unfold take_id, getID. assert (Z.to_nat 65535 = S (Z.to_nat 65534)) as -> by lia. cbn [getID_loop].
    change (lastIssuedID (mids c1)) with (lastIssuedID (mids c)). rewrite Hl. change (next_id 0 false) with (1, false).
    change (index (mids c1)) with (index (mids c)). rewrite Hix, lookup_empty. cbn [mbind option_bind].
    rewrite decide_False by lia. by eexists. }
  destruct Hid as (c2 & -> & Hp & Hs2). cbn [mbind option_bind]. rewrite decide_False by lia.
  set (pub := publish_packet topic 1 retained (bytes_of s) 1). unfold send_publish.
  change (persistOutbound (persist c2) _) with (Some (Put (persist c2) (outboundKeyFromMID 1) (PPublish pub))).
  cbn [mbind option_bind]. eexists a, _. split; [reflexivity|]. unfold hand_over.
  rewrite decide_False by (change (status (c2 {{ persist := _ }})) with (status c2); rewrite Hs2; unfold connected, connecting, reconnecting; lia).
  change (store_model (Put (persist c2) (outboundKeyFromMID 1) (PPublish pub)) !! outboundKeyFromMID 1 = Some (PPublish pub)).
  rewrite Hp. destruct (put_law (persist c) (outboundKeyFromMID 1) (PPublish pub) Ho) as [-> _]. apply lookup_insert_eq.
Qed.

(** With a keep-alive time of one second the ticker is made with an interval of zero. *)
Theorem one_second_panics now cn c :
  KeepAlive (cl_options c) = 1 → conn_up c = false → startCommsWorkers now (Some cn) c = None.
Proof. intros Hk Hup. unfold startCommsWorkers. cbn [mbind option_bind]. by rewrite Hup, Hk. Qed.

(** [Connect] of a client that is connected: the client keeps its connection and stays in
    the state of connecting. *)
Theorem second_connect_stuck now room a broker cn net c c1 :
  conn_up c = true → ConnectRetry (cl_options c) = false → Servers (cl_options c) = [broker] →
  answer cn = (Accepted, false, None) → Connect_start c = Some (a, c1, true) →
  ∃ c', Connect_run now room [] a (Some cn :: net) c1 = Some (Some (c', net, []))
    ∧ status c' = connecting ∧ conn_up c' = true ∧ IsConnected c' = false.
Proof.
  intros Hup Hcr Hsv Hans Hs.
  assert (H1 : cl_options c1 = cl_options c ∧ conn_up c1 = true ∧ status c1 = connecting).
  { unfold Connect_start in Hs. destruct (alloc _ c) as [a0 c0] eqn:Ha.
    assert (cl_options c0 = cl_options c ∧ conn_up c0 = true) as [Hc0 Hu0] by (unfold alloc in Ha; by injection Ha as _ <-).
    rewrite Hc0, Hcr in Hs. cbn [andb] in Hs. set (c2 := c0 {{ persist ::= Store_Open }}) in Hs.
    change (cl_options c2) with (cl_options c0) in Hs. rewrite Hc0, Hcr in Hs. cbn [mbind option_bind] in Hs.
    injection Hs as _ <-. done. }
  destruct H1 as (Ho1 & Hup1 & Hs1). unfold Connect_run. rewrite Ho1, Hsv. cbn [Connect_loop].
  rewrite (attempt_one broker cn net c1 Accepted false None) by (rewrite ?Ho1; auto). rewrite decide_True by done.
  set (c2 := on_tok _ a _). unfold connect_up, startCommsWorkers. cbn [mbind option_bind].
  assert (conn_up c2 = true) as -> by exact Hup1. eexists. split; [reflexivity|].
  split_and!; [exact Hs1|exact Hup1|]. cbn [fst]. unfold IsConnected.
  change (status (complete_token a c2)) with (status c1). rewrite Hs1.
  change (cl_options (complete_token a c2)) with ((cl_options c1) {{ protocolVersionExplicit := true }}).
  change (ConnectRetry (_ {{ protocolVersionExplicit := true }})) with (ConnectRetry (cl_options c1)). rewrite Ho1, Hcr.
  cbn. by rewrite andb_false_r.
Qed.

(** A SUBACK with more codes than the request had topics. *)
Theorem long_suback_panics now id a t codes c :
  store_opened (persist c) = true → is_u16 id → index (mids c) !! id = Some a → tokens (mids c) !! a = Some t →
  tok_kind t = SubscribeToken → (length (tok_subs t) < length codes)%nat →
  receive now (PSuback (mkSuback (header_of_type Packets.Suback 0) id codes)) c = None.
Proof.
  intros Ho Hid Hi Ht Hk Hl. unfold receive. destruct (persistInbound _ _) as [s|]; [|done]. cbn [mbind option_bind].
  assert (Hg : ∀ (codes : list byte) subs res, (length subs < length codes)%nat → granted subs codes res = None).
  { induction codes0 as [|q codes0 IH]; intros [|x subs] res Hlen; cbn in *; try lia; [done|]. apply IH. lia. }
  set (c1 := UpdateLastReceived now _). assert (Hm : mids c1 = mids c) by (unfold c1, UpdateLastReceived; by case_decide).
  cbn [handle_incoming sak_MessageID]. unfold getToken. rewrite Hm, Hi, Ht. cbn [mbind option_bind].
  rewrite decide_True by done. cbn [sak_ReturnCodes]. by rewrite Hg.
Qed.

Lemma pubrec_received now m c :
  Qos (ack_FixedHeader m) = 0 →
  ∃ c', receive now (PPubrec m) c = Some (c', OutboundPacket (PPubrel (newPubrel (ack_MessageID m))))
    ∧ persist c' = persist c ∧ mids c' = mids c ∧ status c' = status c ∧ conn_up c' = conn_up c.
Proof.
  intros Hq. unfold receive, UpdateLastReceived, persistInbound. cbn [ControlPacket_Details det_Qos].
  rewrite decide_True by done. cbn [mbind option_bind]. eexists. split; [reflexivity|]. by case_decide.
Qed.

(** PUBREC leaves the publish in the store: only its acknowledgement is sent. *)
Theorem pubrec_keeps_publish now id c :
  ∃ c', receive now (PPubrec (newAck Packets.Pubrec id)) c
      = Some (c', OutboundPacket (PPubrel (newPubrel id))) ∧ persist c' = persist c ∧ mids c' = mids c.
Proof.
  destruct (pubrec_received now (newAck Packets.Pubrec id) c) as (c' & Hr & Hp & Hm & _); [done|]. by exists c'.
Qed.
End Flow.

(** ** Sample runs *)

Definition sample_options : ClientOptions nat MemoryStore unit :=
  (NewClientOptions tt) {{ Servers := [mkURL "broker" None]; CleanSession := false }}.
Definition sample_new := NewClient NewMemoryStore sample_options.
(** A connection on which CONNACK with code 0 waits. *)
Definition accepting : Conn := mkConn true (map z2b [32; 2; 0; 0]).

Definition sample_started := match Connect_start sample_new with Some (_, c, _) => c | None => sample_new end.
Definition sample_up := match Connect_run 0 9 [] 1%positive [Some accepting] sample_started with
                        | Some (Some (c, _, _)) => c | _ => sample_started end.
Definition sample_sent := match Publish "a/b" 1 false (PayloadString "x") true sample_up with
                          | Some (_, c) => c | None => sample_up end.

Lemma sample_started_eq : Connect_start sample_new = Some (1%positive, sample_started, true).
Proof. reflexivity. Qed.
Lemma sample_up_eq :
  Connect_run 0 9 [] 1%positive [Some accepting] sample_started = Some (Some (sample_up, [], [])).
Proof. reflexivity. Qed.
Lemma sample_sent_eq : Publish "a/b" 1 false (PayloadString "x") true sample_up = Some (2%positive, sample_sent).
Proof. reflexivity. Qed.

Lemma sample_store_ok : stored_ok (store_model (default NewMemoryStore (opt_Store sample_options))).
Proof. intros key p Hk. change ((∅ : gmap string ControlPacket) !! key = Some p) in Hk. by rewrite lookup_empty in Hk. Qed.

Lemma sample_up_reachable : rtc client_step sample_new sample_up.
Proof.
  eapply rtc_l; [exact (step_Connect _ _ _ _ sample_started_eq)|].
  apply rtc_once. eapply (step_Connect_run _ _ _ _ _ _ _ _ _); [| |exact sample_up_eq]; reflexivity.
Qed.
Lemma sample_reachable_client : rtc client_step sample_new sample_sent.
Proof.
  eapply rtc_r; [exact sample_up_reachable|].
  eapply step_Publish; [|exact sample_sent_eq]. lia.
Qed.
Lemma sample_up_inv : client_inv sample_up.
Proof. eapply reachable_client_inv; [exact sample_store_ok|exact sample_up_reachable]. Qed.
Lemma sample_sent_inv : client_inv sample_sent.
Proof. eapply reachable_client_inv; [exact sample_store_ok|exact sample_reachable_client]. Qed.

Lemma sample_index : index (mids sample_sent) !! 1 = Some 2%positive.
Proof. reflexivity. Qed.
Definition sample_token : token := (new_token PublishToken) {{ tok_messageID := 1 }}.
Lemma sample_tokens : tokens (mids sample_sent) !! 2%positive = Some sample_token.
Proof. reflexivity. Qed.

Lemma client_invariant_witness :
  1 ≤ 1 ≤ 65535 ∧ stored_publish (store_model (persist sample_sent)) 1.
Proof.
  destruct (client_invariant NewMemoryStore sample_options sample_sent 1 2%positive) as (Hr & _ & t & Ht & _ & Hs).
  - exact sample_store_ok.
  - exact sample_reachable_client.
  - exact sample_index.
  - split; [exact Hr|]. apply Hs. rewrite sample_tokens in Ht. by injection Ht as <-.
Defined.

Lemma Publish_stores_witness :
  ∃ a id c', Publish "a/b" 1 false (PayloadString "x") true sample_up = Some (a, c')
    ∧ store_model (persist c') !! outboundKeyFromMID id
      = Some (PPublish (publish_packet "a/b" 1 false (bytes_of "x") id)).
Proof.
  destruct (Publish_stores "a/b" 1 false (PayloadString "x") (bytes_of "x") sample_up)
    as (a & id & c' & HP & _ & _ & _ & _ & Hs & _).
  - exact sample_up_inv.
  - reflexivity.
  - by left.
  - reflexivity.
  - exists 1. split; [unfold midMax; lia|reflexivity].
  - exists a, id, c'. split; [exact HP|]. rewrite Hs. apply lookup_insert_eq.
Defined.

Lemma ack_completes_witness :
  ∃ c', receive 5 (PPuback (newAck Packets.Puback 1)) sample_sent = Some (c', Nothing)
    ∧ tokens (mids c') !! 2%positive = Some (sample_token {{ complete := true }}).
Proof.
  destruct (ack_completes 5 1 (PPuback (newAck Packets.Puback 1)) 2%positive sample_token sample_sent)
    as (c' & HP & _ & Ht & _).
  - exact sample_sent_inv.
  - reflexivity.
  - done.
  - exact sample_index.
  - exact sample_tokens.
  - discriminate.
  - exists c'. split; [exact HP|]. rewrite Ht. apply lookup_insert_eq.
Defined.

Definition sample_message : PublishPacket :=
  mkPublish (mkFixedHeader Packets.Publish false 1 false 0) "a/b" 7 [].
Definition sample_routed := AddRoute "a/+" (Some 4%nat) sample_up.

Lemma dispatch_spec_witness :
  ∃ c', dispatch sample_message sample_routed = Some c' ∧ calls c' = [(4%nat, sample_message)].
Proof.
  destruct (dispatch_spec sample_message sample_routed [4%nat]) as (c' & HP & Hc & _).
  - reflexivity.
  - reflexivity.
  - cbn. unfold is_u16. lia.
  - exists c'. split; [exact HP|exact Hc].
Defined.

Lemma backoff_doubles_witness : sleep_after (10 * Minute) Second 3 = 8 * Second.
Proof. rewrite backoff_doubles; unfold Minute, Second; [reflexivity|lia]. Defined.

Lemma keepalive_gives_up_witness :
  ∃ c1, keepalive_tick (31 * Second) 0 sample_up = (c1, 31 * Second, true, false) ∧ conn_up c1 = true.
Proof.
  destruct (keepalive_gives_up sample_up 0 (31 * Second) (50 * Second)) as (c1 & H1 & _ & H2 & _).
  - reflexivity.
  - reflexivity.
  - change (30 * Second ≤ 31 * Second - 0). unfold Second. lia.
  - change (0 < 10 * Second). unfold Second. lia.
  - unfold Second. lia.
  - exists c1. split; [exact H1|exact H2].
Defined.

Lemma attemptConnection_spec_witness :
  ∃ used, [None; Some accepting] = used ++ [] ∧ (length used ≤ 2)%nat.
Proof.
  destruct (attemptConnection_spec [None; Some accepting]
    (sample_new {{ cl_options := sample_options {{ Servers := [mkURL "one" None; mkURL "two" None] }} }})
    (Some accepting) 0 false None
    (sample_new {{ cl_options := sample_options {{ Servers := [mkURL "one" None; mkURL "two" None];
       ProtocolVersion := 0; protocolVersionExplicit := true }} }}) []) as (used & Hu & _ & _).
  - discriminate.
  - reflexivity.
  - exists used. split; [exact Hu|]. rewrite app_nil_r in Hu. subst used. cbn. lia.
Defined.

Definition sample_lost := (internalConnLost sample_sent).1.
Definition sample_next := match attemptConnection [Some accepting] sample_lost with (_, _, _, _, c, _) => c end.
Lemma lost_publish_resent_witness :
  ∃ c' inb, reconnect id 9 9 [] [Some accepting] sample_lost = Some (Some (c', [], inb)) ∧ status c' = connected
    ∧ ∃ p a, (p, a) ∈ obound c' ∧ pub_MessageID p = 1 ∧ Dup (pub_FixedHeader p) = true.
Proof.
  destruct (lost_publish_resent id 9 9 [Some accepting] sample_sent accepting 0 false sample_next [])
    as (c' & inb & HP & Hst & Hall).
  - exact sample_sent_inv.
  - reflexivity.
  - reflexivity.
  - reflexivity.
  - reflexivity.
  - right. reflexivity.
  - change (1 ≤ 9)%nat. lia.
  - reflexivity.
  - exists c', inb. split; [exact HP|]. split; [exact Hst|].
    destruct (Hall 1 2%positive) as (p & a & Hin & Hid & Hd & _).
    + split; [exact sample_index|]. exists sample_token. split; [exact sample_tokens|reflexivity].
    + exists p, a. split; [exact Hin|]. split; [exact Hid|exact Hd].
Defined.

(** A connection on which CONNACK with the unknown code 6 waits. *)
Definition odd : Conn := mkConn true (map z2b [32; 2; 0; 6]).
Definition odd_options : ClientOptions nat MemoryStore unit :=
  (NewClientOptions tt) {{ Servers := [mkURL "broker" None]; ProtocolVersion := 4 }}.
Definition odd_new := NewClient NewMemoryStore odd_options.
Definition odd_started := match Connect_start odd_new with Some (_, c, _) => c | None => odd_new end.

Lemma unknown_code_connects_witness :
  ∃ c' t', Connect_run 0 9 [] 1%positive [Some odd] odd_started = Some (Some (c', [], []))
    ∧ status c' = connected ∧ tokens (mids c') !! 1%positive = Some t' ∧ complete t' = true ∧ err t' = None.
Proof.
  apply (unknown_code_connects 0 9 1%positive (new_token ConnectToken) (mkURL "broker" None) odd 6 [] odd_started).
  - reflexivity.
  - reflexivity.
  - reflexivity.
  - right. reflexivity.
  - reflexivity.
  - reflexivity.
  - discriminate.
  - reflexivity.
  - reflexivity.
  - reflexivity.
  - reflexivity.
Defined.

(** A client that may publish before it is connected. *)
Definition early : client := sample_sent {{ cl_options := sample_options {{ CleanSession := true; ConnectRetry := true }};
  status := connecting; conn_up := false; obound := [] }}.

Lemma clean_connect_drops_witness :
  ∃ c', connect_up 0 9 (Some accepting) 1%positive early = Some (c', []) ∧ status c' = connected
    ∧ store_model (persist c') = ∅ ∧ obound c' = [] ∧ pending (mids c') 1 2%positive.
Proof.
  destruct (clean_connect_drops 0 9 accepting 1%positive 2%positive 1 early) as (c' & H1 & H2 & H3 & H4 & H5 & _).
  - reflexivity.
  - right. reflexivity.
  - reflexivity.
  - reflexivity.
  - split; [exact sample_index|]. exists sample_token. split; [exact sample_tokens|reflexivity].
  - discriminate.
  - exists c'. split; [exact H1|]. split; [exact H2|]. split; [exact H3|]. split; [exact H4|exact H5].
Defined.

Definition filled : client := sample_sent {{ mids := mkMids ∅ 0 ∅ }}.
Lemma publish_replaces_stored_witness :
  ∃ a c', Publish "new" 1 false (PayloadString "y") true filled = Some (a, c')
    ∧ store_model (persist c') !! outboundKeyFromMID 1 = Some (PPublish (publish_packet "new" 1 false (bytes_of "y") 1)).
Proof.
  apply (publish_replaces_stored "new" false "y" filled).
  - reflexivity.
  - reflexivity.
  - reflexivity.
  - reflexivity.
Defined.
