(* ===== verification/Comms.v ===== *)
(** * Comms: the goroutines of a connection

    Models the rest of [src/mqtt/net.go]: [startIncoming], which reads packets off the
    wire, [startIncomingComms], which handles them together with the packets from the
    store, [startComms], which passes on what comes of them, and [startOutgoingComms],
    which writes.  The goroutines are step relations: which channel a [select] takes,
    and how far the forwarding goroutine is behind, is left open.  The theorems hold for
    every interleaving: what arrives is handled once, in the order of its source, and
    passed on in that order; nothing stays behind; and what is written arrives. *)
From S2P Require Import Prelude Wire Packets PacketsRoundtrip PacketsStream MessageIds Store Options Client ClientSpec ClientFlow.
Local Open Scope Z_scope.

(** ** Reading *)

Inductive inbound := IbErr (e : perr) | IbPacket (cp : ControlPacket).

(** [startIncoming] on what the connection delivers until it ends; [reported] is whether the
    error at the end is not that of a connection closed elsewhere.  A turn consumes a byte or
    ends, so [S (length r)] turns are enough. *)
Fixpoint startIncoming_loop (fuel : nat) (reported : bool) (r : list byte) : list inbound :=
  match fuel with
  | O => []
  | S fuel =>
      match ReadPacket r with
      | (_, Some e, _) => if reported then [IbErr e] else []
      | (Some cp, None, r) => IbPacket cp :: startIncoming_loop fuel reported r
      | (None, None, _) => []
      end
  end.
Definition startIncoming (reported : bool) (r : list byte) : list inbound :=
  startIncoming_loop (S (length r)) reported r.

(** What a peer writes is read, in order, and then the error if it is reported. *)
Lemma startIncoming_all reported cps cps' bytes tail :
  Forall packet_ok cps → write_all cps = Some (bytes, cps') → incomplete tail →
  ∃ e, startIncoming reported (bytes ++ tail)
    = map (λ p, IbPacket (read_back p)) cps' ++ (if reported then [IbErr e] else []).
Proof.
  intros Hok Hw [e Ht]. unfold startIncoming.
  assert (H : ∀ fuel, (length (bytes ++ tail) < fuel)%nat → ∃ e, startIncoming_loop fuel reported (bytes ++ tail)
    = map (λ p, IbPacket (read_back p)) cps' ++ (if reported then [IbErr e] else [])).
  2: { apply H. lia. }
  revert bytes cps' Hw. induction Hok as [|cp cps Hcp Hok IH]; intros bytes cps' Hw fuel Hf;
    (destruct fuel as [|fuel]; [lia|]); cbn -[ControlPacket_Write] in Hw |- *.
  - injection Hw as <- <-. cbn [app]. rewrite Ht. by eexists.
  - destruct (ControlPacket_Write cp) as [[w cp']|] eqn:Hwr; [|done]. cbn in Hw.
    destruct (write_all cps) as [[ws cps'']|]; [|done]. cbn in Hw. injection Hw as <- <-.
    rewrite <- app_assoc in *.
    destruct (ReadPacket_Write cp (ws ++ tail) Hcp) as (w' & c & Hw' & Hr).
    rewrite Hwr in Hw'. injection Hw' as <- <-. rewrite Hr.
    apply ReadPacket_consumes in Hr. destruct (IH ws cps'' eq_refl fuel) as [e' ->]; [lia|]. by exists e'.
Qed.

(** ** Incoming packets *)

(** [incomingComms]. *)
Inductive incomingComms := IcErr (e : perr) | IcOutbound (p : ControlPacket) | IcPub (p : PublishPacket).

Section Comms.
Context {Handler T Transport : Type} `{Store T}.
Abbreviation client := (@Client.client Handler T Transport).

(** The channels are what will still come over them before they are closed; [None] is a
    channel set to nil.  [sending] is what [startIncomingComms] waits to send on [output],
    and [in_flight] what the forwarding goroutine has taken from there and not passed on. *)
Record comms := mkComms {
  inboundFromStore : option (list ControlPacket);
  ibound : option (list inbound);
  sending : option incomingComms;
  in_flight : option incomingComms;
  cm_client : client;
  outPublish : list PublishPacket;
  outboundFromIncoming : list ControlPacket;
  outError : list perr
}.
Implicit Types (s : comms) (c : client).

(** What [startIncomingComms] takes from a channel. *)
Inductive taken := FromStore (p : ControlPacket) | FromNet (i : inbound).

(** One message: the client afterwards and what goes to [output]; [None] is a panic. *)
Definition process (now : Z) (t : taken) (c : client) : option (client * option incomingComms) :=
  let out (r : client * incoming) :=
    (r.1, match r.2 with Nothing => None | OutboundPacket p => Some (IcOutbound p) | IncomingPub p => Some (IcPub p) end) in
  match t with
  | FromStore p => out <$> handle_incoming p c
  | FromNet (IbErr e) => Some (c, Some (IcErr e))
  | FromNet (IbPacket p) => out <$> receive now p c
  end.

(** The [select]: the next message of a channel, and the channel after it. *)
Definition from_store s : option (taken * comms) :=
  match inboundFromStore s with
  | Some (p :: rest) => Some (FromStore p, s {{ inboundFromStore := Some rest }})
  | _ => None
  end.
Definition from_net s : option (taken * comms) :=
  match ibound s with
  | Some (i :: rest) => Some (FromNet i, s {{ ibound := Some rest }})
  | _ => None
  end.

(** The switch of the forwarding goroutine. *)
Definition forward (ic : incomingComms) s : comms :=
  match ic with
  | IcErr e => s {{ outError ::= λ l, l ++ [e] }}
  | IcOutbound p => s {{ outboundFromIncoming ::= λ l, l ++ [p] }}
  | IcPub p => s {{ outPublish ::= λ l, l ++ [p] }}
  end.

(** The channel [output] has no buffer: what goes there waits until the forwarding goroutine
    is free, and no other message is taken meanwhile. *)
Inductive comms_step (now : Z) : comms → comms → Prop :=
  | step_take t s s1 c out :
      from_store s = Some (t, s1) ∨ from_net s = Some (t, s1) →
      sending s = None → process now t (cm_client s) = Some (c, out) →
      comms_step now s (s1 {{ cm_client := c; sending := out }})
  | step_store_closed s :
      sending s = None → inboundFromStore s = Some [] → comms_step now s (s {{ inboundFromStore := None }})
  | step_ibound_closed s :
      sending s = None → ibound s = Some [] → comms_step now s (s {{ ibound := None }})
  | step_send s ic :
      sending s = Some ic → in_flight s = None → comms_step now s (s {{ sending := None; in_flight := Some ic }})
  | step_forward s ic :
      in_flight s = Some ic → comms_step now s (forward ic (s {{ in_flight := None }})).

(** [startComms] begins, and both goroutines have returned. *)
Definition startComms (store : list ControlPacket) (net : list inbound) (c : client) : comms :=
  mkComms (Some store) (Some net) None None c [] [] [].
Definition finished s : Prop := inboundFromStore s = None ∧ ibound s = None ∧ sending s = None ∧ in_flight s = None.

(** *** What has been passed on *)

Definition from_store_of (t : taken) : option ControlPacket := match t with FromStore p => Some p | _ => None end.
Definition from_net_of (t : taken) : option inbound := match t with FromNet i => Some i | _ => None end.
Definition packet_of (t : taken) : option ControlPacket :=
  match t with FromStore p | FromNet (IbPacket p) => Some p | FromNet (IbErr _) => None end.

(** What comes of a packet, by the type of the packet. *)
Definition answer_to (t : taken) : option incomingComms :=
  match t with
  | FromNet (IbErr e) => Some (IcErr e)
  | FromStore p | FromNet (IbPacket p) =>
      match p with
      | PPublish m => Some (IcPub m)
      | PPubrec m => Some (IcOutbound (PPubrel (newPubrel (ack_MessageID m))))
      | PPubrel m => Some (IcOutbound (PPubcomp (newAck Packets.Pubcomp (ack_MessageID m))))
      | _ => None
      end
  end.

Lemma handle_incoming_answer p c c' r :
  handle_incoming p c = Some (c', r) →
  match r with Nothing => None | OutboundPacket q => Some (IcOutbound q) | IncomingPub q => Some (IcPub q) end
    = answer_to (FromStore p).
Proof.
  destruct p; cbn; try (intros [= <- <-]; done).
  - destruct (persistOutbound _ _); [|done]. cbn. by intros [= <- <-].
  - destruct (getToken _ _) as [a|]; [|cbn; by intros [= <- <-]]. destruct (tokens _ !! a) as [t|]; [|done]. cbn.
    case_decide; [|cbn; by intros [= <- <-]]. destruct (granted _ _ _); [|done]. cbn. by intros [= <- <-].
Qed.

Lemma process_answer now t c c' out : process now t c = Some (c', out) → out = answer_to t.
Proof.
  destruct t as [p|[e|p]]; cbn -[handle_incoming answer_to].
  - destruct (handle_incoming p c) as [[c1 r]|] eqn:Hh; [|done]. cbn -[answer_to]. intros [= _ <-].
    by apply handle_incoming_answer in Hh.
  - by intros [= _ <-].
  - unfold receive. destruct (persistInbound _ p); [|done]. cbn -[handle_incoming answer_to].
    destruct (handle_incoming p _) as [[c1 r]|] eqn:Hh; [|done]. cbn -[answer_to]. intros [= _ <-].
    by apply handle_incoming_answer in Hh.
Qed.

(** The clients through which a sequence of messages goes. *)
Fixpoint process_all (now : Z) (ts : list taken) (c : client) : option client :=
  match ts with [] => Some c | t :: ts => r ← process now t c; process_all now ts r.1 end.

Lemma process_all_snoc now ts t c c1 c2 out :
  process_all now ts c = Some c1 → process now t c1 = Some (c2, out) → process_all now (ts ++ [t]) c = Some c2.
Proof.
  revert c. induction ts as [|t0 ts IH]; intros c; cbn [process_all app].
  - intros [= ->] ->. done.
  - destruct (process now t0 c) as [[c0 o]|]; [|done]. cbn. apply IH.
Qed.

(** Everything that has been passed on or is about to be. *)
Definition pub_of (ic : incomingComms) : option PublishPacket := match ic with IcPub p => Some p | _ => None end.
Definition outbound_of (ic : incomingComms) : option ControlPacket := match ic with IcOutbound p => Some p | _ => None end.
Definition err_of (ic : incomingComms) : option perr := match ic with IcErr e => Some e | _ => None end.
Definition flight s : list incomingComms := option_list (in_flight s) ++ option_list (sending s).

(** The messages [ts] have been taken so far. *)
Definition comms_inv (now : Z) (s0 s : comms) (ts : list taken) : Prop :=
  default [] (inboundFromStore s0) = omap from_store_of ts ++ default [] (inboundFromStore s)
  ∧ default [] (ibound s0) = omap from_net_of ts ++ default [] (ibound s)
  ∧ process_all now ts (cm_client s0) = Some (cm_client s)
  ∧ outPublish s ++ omap pub_of (flight s) = omap pub_of (omap answer_to ts)
  ∧ outboundFromIncoming s ++ omap outbound_of (flight s) = omap outbound_of (omap answer_to ts)
  ∧ outError s ++ omap err_of (flight s) = omap err_of (omap answer_to ts).

Lemma comms_inv_step now s0 s s' ts :
  comms_inv now s0 s ts → comms_step now s s' → ∃ ts', comms_inv now s0 s' ts'.
Proof.
  intros (Hst & Hnet & Hall & Hpub & Hout & Herr) Hstep.
  destruct Hstep as [t s s1 c out Ht Hsend Hp|s Hs Hc|s Hs Hc|s ic Hs Hf|s ic Hic].
  - exists (ts ++ [t]). pose proof (process_answer _ _ _ _ _ Hp) as ->.
    assert (Hfields : in_flight s1 = in_flight s ∧ outPublish s1 = outPublish s
      ∧ outboundFromIncoming s1 = outboundFromIncoming s ∧ outError s1 = outError s
      ∧ default [] (inboundFromStore s) = option_list (from_store_of t) ++ default [] (inboundFromStore s1)
      ∧ default [] (ibound s) = option_list (from_net_of t) ++ default [] (ibound s1)).
    { clear -Ht. unfold from_store, from_net in Ht. destruct s as [st net sd fl c0 o1 o2 o3]. cbn in Ht |- *.
      destruct Ht as [Ht|Ht]; [destruct st as [[|p rest]|]|destruct net as [[|i rest]|]]; try done; by injection Ht as <- <-. }
    destruct Hfields as (Hf & Ho1 & Ho2 & Ho3 & Hs & Hn).
    assert (Hflight : ∀ {A} (f : incomingComms → option A) (l : list A),
      l ++ omap f (flight s) = omap f (omap answer_to ts) →
      l ++ omap f (option_list (in_flight s) ++ option_list (answer_to t)) = omap f (omap answer_to (ts ++ [t]))).
    { intros A f l Hl. unfold flight in Hl. rewrite Hsend in Hl. change (option_list None) with (@nil incomingComms) in Hl.
      rewrite app_nil_r in Hl. rewrite (omap_app answer_to), !(omap_app f), <- Hl, app_assoc. cbn. by destruct (answer_to t). }
    destruct s1 as [st1 net1 sd1 fl1 c1 p1 q1 e1]. cbn in Hf, Ho1, Ho2, Ho3, Hs, Hn. subst p1 q1 e1 fl1.
    unfold comms_inv, flight. cbn [inboundFromStore ibound sending in_flight cm_client outPublish outboundFromIncoming outError].
    rewrite !(omap_app _ ts), <- !app_assoc. split_and!.
    + rewrite Hst, Hs. cbn. by destruct (from_store_of t).
    + rewrite Hnet, Hn. cbn. by destruct (from_net_of t).
    + by eapply process_all_snoc.
    + rewrite <- (omap_app answer_to). by apply Hflight.
    + rewrite <- (omap_app answer_to). by apply Hflight.
    + rewrite <- (omap_app answer_to). by apply Hflight.
  - exists ts. rewrite Hc in Hst. by split_and!.
  - exists ts. rewrite Hc in Hnet. by split_and!.
  - exists ts. unfold comms_inv, flight in *. rewrite Hs, Hf in *. by split_and!.
  - exists ts. unfold flight in *. rewrite Hic in *.
    destruct ic; split_and!; cbn in *; rewrite ?app_nil_r, <- ?app_assoc in *; done.
Qed.

Lemma comms_reachable now s0 s :
  sending s0 = None → in_flight s0 = None → outPublish s0 = [] → outboundFromIncoming s0 = [] → outError s0 = [] →
  rtc (comms_step now) s0 s → ∃ ts, comms_inv now s0 s ts.
Proof.
  intros Hs Hf H1 H2 H3. revert s. apply (rtc_ind_r (λ s, ∃ ts, comms_inv now s0 s ts) s0).
  - exists []. unfold comms_inv, flight. rewrite Hs, Hf, H1, H2, H3. by split_and!.
  - intros s s' _ Hst [ts Hi]. by eapply comms_inv_step.
Qed.

(** *** Order *)

(** Whatever the two goroutines and the select do, at every moment: the packets taken from the
    store and from the network are the first ones of each, in order and once; the client is
    what handling them one after the other makes of it; the publishes, the acknowledgements
    and the errors that come of them have been passed on in that order, but for at most two
    on their way. *)
Theorem comms_order now store net c s :
  rtc (comms_step now) (startComms store net c) s →
  ∃ ts, store = omap from_store_of ts ++ default [] (inboundFromStore s)
    ∧ net = omap from_net_of ts ++ default [] (ibound s)
    ∧ process_all now ts c = Some (cm_client s)
    ∧ outPublish s ++ omap pub_of (flight s) = omap pub_of (omap answer_to ts)
    ∧ outboundFromIncoming s ++ omap outbound_of (flight s) = omap outbound_of (omap answer_to ts)
    ∧ outError s ++ omap err_of (flight s) = omap err_of (omap answer_to ts).
Proof. intros Hr. destruct (comms_reachable now (startComms store net c) s) as [ts Hi]; [done..|]. by exists ts. Qed.

(** *** The end *)

Definition comms_measure s : nat :=
  3 * (length (default [] (inboundFromStore s)) + length (default [] (ibound s)))
  + length (option_list (inboundFromStore s)) + length (option_list (ibound s))
  + 2 * length (option_list (sending s)) + length (option_list (in_flight s)).

Lemma comms_step_decreases now s s' : comms_step now s s' → (comms_measure s' < comms_measure s)%nat.
Proof.
  unfold comms_measure. intros [t s0 s1 c out Ht Hs Hp|s0 Hs Hc|s0 Hs Hc|s0 ic Hs Hf|s0 ic Hic].
  - assert (length (option_list out) ≤ 1)%nat by (destruct out; cbn; lia).
    unfold from_store, from_net in Ht. destruct s0 as [st net sd fl c0 o1 o2 o3]. cbn in *. subst sd.
    destruct Ht as [Ht|Ht]; [destruct st as [[|p rest]|]|destruct net as [[|i rest]|]]; try done; injection Ht as <- <-; cbn in *; lia.
  - destruct s0. cbn in *. subst. cbn. lia.
  - destruct s0. cbn in *. subst. cbn. lia.
  - destruct s0. cbn in *. subst. cbn. lia.
  - destruct s0. cbn in *. subst. destruct ic; cbn; lia.
Qed.

(** The next message of a channel is a panic. *)
Definition panics (now : Z) s : Prop :=
  ∃ t s1, (from_store s = Some (t, s1) ∨ from_net s = Some (t, s1)) ∧ process now t (cm_client s) = None.

Lemma comms_progress now s : finished s ∨ panics now s ∨ ∃ s', comms_step now s s'.
Proof.
  destruct (in_flight s) as [ic|] eqn:Hfl; [right; right; eexists; by eapply step_forward|].
  destruct (sending s) as [ic|] eqn:Hsd; [right; right; eexists; by eapply step_send|].
  assert (Htake : ∀ t s1, from_store s = Some (t, s1) ∨ from_net s = Some (t, s1) → panics now s ∨ ∃ s', comms_step now s s').
  { intros t s1 Ht. destruct (process now t (cm_client s)) as [[c out]|] eqn:Hp; [right|left; by exists t, s1].
    eexists. eapply step_take; [exact Ht|done|exact Hp]. }
  destruct (inboundFromStore s) as [[|p rest]|] eqn:Hs.
  - right; right. eexists. by apply step_store_closed.
  - right. eapply Htake. left. unfold from_store. by rewrite Hs.
  - destruct (ibound s) as [[|i rest]|] eqn:Hn.
    + right; right. eexists. by apply step_ibound_closed.
    + right. eapply Htake. right. unfold from_net. by rewrite Hn.
    + by left.
Qed.

(** However they are scheduled, the goroutines come to an end, and only because both
    channels were closed and everything was passed on, or by a panic. *)
Theorem comms_ends now s :
  sn (comms_step now) s ∧ ∀ s', rtc (comms_step now) s s' → nf (comms_step now) s' → finished s' ∨ panics now s'.
Proof.
  split.
  - remember (comms_measure s) as n eqn:Hn. revert s Hn. induction (lt_wf n) as [n _ IH]. intros s ->.
    constructor. intros s' Hs. eapply IH; [by eapply comms_step_decreases|done].
  - intros s' _ Hnf. destruct (comms_progress now s') as [?|[?|Hst]]; auto. by destruct Hnf.
Qed.

Lemma finished_nf now s : finished s → nf (comms_step now) s.
Proof.
  intros (H1 & H2 & H3 & H4) [s' Hs]. destruct Hs as [t s s1 c out Ht|s ? Hc|s ? Hc|s ic Hic|s ic Hic]; try congruence.
  unfold from_store, from_net in Ht. rewrite H1, H2 in Ht. by destruct Ht.
Qed.

(** There is a run to the end. *)
Lemma comms_run_to_end now s : ∃ s', rtc (comms_step now) s s' ∧ (finished s' ∨ panics now s').
Proof.
  destruct (comms_ends now s) as [Hsn _]. induction Hsn as [s _ IH].
  destruct (comms_progress now s) as [Hf|[Hp|[s' Hs]]]; [exists s; split; [done|by left]|exists s; split; [done|by right]|].
  destruct (IH s' Hs) as (s2 & Hr & Hend). exists s2. split; [by eapply rtc_l|done].
Qed.

(** *** From the peer to the client *)

Lemma process_all_app now ts ts' c :
  process_all now (ts ++ ts') c = (c1 ← process_all now ts c; process_all now ts' c1).
Proof.
  revert c. induction ts as [|t ts IH]; intros c; [done|]. cbn [process_all app].
  destruct (process now t c) as [r|]; [|done]. cbn. apply IH.
Qed.

(** Without packets from the store everything comes from the network. *)
Lemma all_from_net ts : omap from_store_of ts = [] → ts = map FromNet (omap from_net_of ts).
Proof. induction ts as [|[p|i] ts IH]; cbn; [done|done|]. intros Hn. by rewrite <- IH. Qed.

Lemma comms_net_inv now net c s :
  rtc (comms_step now) (startComms [] net c) s →
  ∃ ts, comms_inv now (startComms [] net c) s ts ∧ ts = map FromNet (omap from_net_of ts) ∧ default [] (inboundFromStore s) = [].
Proof.
  intros Hr. destruct (comms_reachable now (startComms [] net c) s) as [ts Hi]; [done..|]. exists ts. split; [done|].
  destruct Hi as (Hst & _). cbn in Hst. symmetry in Hst. apply app_nil in Hst as [Hst Hst']. split; [by apply all_from_net|done].
Qed.

(** When the client can handle all packets there is no panic. *)
Lemma comms_net_safe now net c c' s :
  process_all now (map FromNet net) c = Some c' → rtc (comms_step now) (startComms [] net c) s → ¬ panics now s.
Proof.
  intros Hall Hr (t & s1 & Ht & Hpanic). destruct (comms_net_inv now net c s Hr) as (ts & (_ & Hnet & Hc & _) & Hts & Hst).
  cbn in Hnet, Hc. destruct Ht as [Ht|Ht].
  - unfold from_store in Ht. destruct (inboundFromStore s) as [[|x l]|]; done.
  - unfold from_net in Ht. destruct (ibound s) as [[|i rest]|] eqn:Hib; try done. injection Ht as <- _.
    rewrite Hnet, map_app, process_all_app, <- Hts, Hc in Hall.
    cbn [mbind option_bind map from_option id process_all] in Hall. by rewrite Hpanic in Hall.
Qed.

(** And at the end it has handled them. *)
Lemma comms_net_only now net c c' s :
  process_all now (map FromNet net) c = Some c' → rtc (comms_step now) (startComms [] net c) s → finished s →
  cm_client s = c' ∧ outPublish s = omap pub_of (omap answer_to (map FromNet net))
  ∧ outboundFromIncoming s = omap outbound_of (omap answer_to (map FromNet net))
  ∧ outError s = omap err_of (omap answer_to (map FromNet net)).
Proof.
  intros Hall Hr (Hf1 & Hf2 & Hf3 & Hf4). destruct (comms_net_inv now net c s Hr) as (ts & (_ & Hnet & Hc & Hp & Ho & He) & Hts & _).
  cbn in Hnet, Hc. unfold flight in *. rewrite Hf2, Hf3, Hf4 in *. cbn in Hnet, Hp, Ho, He. rewrite app_nil_r in *.
  rewrite Hnet, <- Hts in Hall |- *. split_and!; try done. rewrite Hc in Hall. by injection Hall as ->.
Qed.

Definition received (cps : list ControlPacket) : list taken := map (λ p, FromNet (IbPacket p)) cps.

(** C13: What a peer writes arrives.  The broker writes packets back to back and the connection
    ends somewhere after; the client has nothing in its store to handle.  However its
    goroutines are scheduled they come to an end, and then the client has handled exactly
    these packets one after the other, its user has been passed exactly the messages
    among them, in order, and the acknowledgements they ask for are on their way out. *)
Theorem incoming_delivered now reported cps cps' bytes tail c c' :
  Forall packet_ok cps → write_all cps = Some (bytes, cps') → incomplete tail →
  process_all now (received (map read_back cps')) c = Some c' →
  let s0 := startComms [] (startIncoming reported (bytes ++ tail)) c in
  sn (comms_step now) s0 ∧ (∃ s, rtc (comms_step now) s0 s ∧ nf (comms_step now) s)
  ∧ ∀ s, rtc (comms_step now) s0 s → nf (comms_step now) s →
    finished s ∧ cm_client s = c'
    ∧ outPublish s = omap (λ p, match p with PPublish m => Some m | _ => None end) (map read_back cps')
    ∧ outboundFromIncoming s = omap outbound_of (omap answer_to (received (map read_back cps')))
    ∧ length (outError s) = (if reported then 1 else 0)%nat.
Proof.
  intros Hok Hw Ht Hall s0. subst s0.
  destruct (startIncoming_all reported cps cps' bytes tail Hok Hw Ht) as [e ->].
  set (errs := if reported then [IbErr e] else []) in *. set (ts := received (map read_back cps')) in *.
  assert (Hts : map FromNet (map (λ p, IbPacket (read_back p)) cps' ++ errs) = ts ++ map FromNet errs).
  { unfold ts, received. by rewrite map_app, !map_map. }
  assert (Hc' : process_all now (map FromNet errs) c' = Some c') by (by destruct reported).
  set (net := map (λ p, IbPacket (read_back p)) cps' ++ errs) in *.
  assert (Hrun : process_all now (map FromNet net) c = Some c') by (by rewrite Hts, process_all_app, Hall).
  split; [apply comms_ends|]. split.
  { destruct (comms_run_to_end now (startComms [] net c)) as (s & Hr & [Hf|Hp]); [exists s; split; [done|by apply finished_nf]|].
    by destruct (comms_net_safe now net c c' s Hrun Hr). }
  intros s Hr Hnf. assert (Hf : finished s).
  { destruct (comms_progress now s) as [?|[Hp|Hs]]; [done| |by destruct Hnf]. by destruct (comms_net_safe now net c c' s Hrun Hr). }
  destruct (comms_net_only now net c c' s Hrun Hr Hf) as (Hc & Hp & Ho & He).
  rewrite Hts, (omap_app answer_to) in Hp, Ho, He.
  rewrite (omap_app pub_of) in Hp. rewrite (omap_app outbound_of) in Ho. rewrite (omap_app err_of) in He. split; [done|]. split; [done|].
  assert (Hpub : omap pub_of (omap answer_to ts) = omap (λ p, match p with PPublish m => Some m | _ => None end) (map read_back cps')
    ∧ omap err_of (omap answer_to ts) = []).
  { unfold ts, received. clear. induction (map read_back cps') as [|p l [IH1 IH2]]; [done|]. destruct p; cbn; rewrite ?IH1, ?IH2; done. }
  destruct Hpub as [Hpub Herr]. rewrite Hpub in Hp. rewrite Herr in He. rewrite Hp, Ho, He.
  destruct reported; cbn; by rewrite ?app_nil_r.
Qed.
End Comms.

(** ** Outgoing packets *)

Section Outgoing.
Context {Handler T Transport : Type} `{Store T}.
Abbreviation client := (@Client.client Handler T Transport).

(** The three channels as above, the client, whether the connection is open, the bytes on the
    wire, and how many errors were reported. *)
Record outgoing := mkOutgoing {
  og_oboundp : option (list (ControlPacket * option positive));
  og_obound : option (list (PublishPacket * positive));
  og_fromIncoming : option (list ControlPacket);
  og_client : client;
  og_open : bool;
  og_wire : list byte;
  og_errors : nat
}.
Implicit Types (s : outgoing) (c : client).

(** What the [select] of [startOutgoingComms] takes. *)
Inductive to_write := Priority (p : ControlPacket) (t : option positive) | Pub (p : PublishPacket) (a : positive)
  | FromIncoming (p : ControlPacket).
Definition packet_to (t : to_write) : ControlPacket :=
  match t with Priority p _ | FromIncoming p => p | Pub p _ => PPublish p end.

(** The next packet of each channel that has one. *)
Definition og_next s : list (to_write * outgoing) :=
  match og_oboundp s with Some ((p, t) :: l) => [(Priority p t, s {{ og_oboundp := Some l }})] | _ => [] end
  ++ match og_obound s with Some ((p, a) :: l) => [(Pub p a, s {{ og_obound := Some l }})] | _ => [] end
  ++ match og_fromIncoming s with Some (p :: l) => [(FromIncoming p, s {{ og_fromIncoming := Some l }})] | _ => [] end.

(** The packet is written with the outcome [w]: the client, and whether an error is reported. *)
Definition write_one (now : Z) (w : written) (t : to_write) (c : client) : client * bool :=
  match t with
  | Priority p tok => write_control now w p tok c
  | Pub p a => write_publish now w p a c
  | FromIncoming p => write_control now w p None c
  end.

(** A DISCONNECT of the first channel closes the connection once it is written. *)
Definition closes (t : to_write) : bool := match t with Priority (PDisconnect _) _ => true | _ => false end.

(** A turn of the loop, labelled with the packet it takes and the outcome of the write.  Of a
    packet that fails a part may be on the wire; nothing is written to a closed connection. *)
Inductive outgoing_step (now : Z) : option (to_write * written) → outgoing → outgoing → Prop :=
  | step_written t s s1 bytes p' :
      (t, s1) ∈ og_next s → ControlPacket_Write (packet_to t) = Some (bytes, p') → og_open s = true →
      outgoing_step now (Some (t, WriteOk)) s
        (s1 {{ og_client := (write_one now WriteOk t (og_client s)).1; og_wire := og_wire s ++ bytes;
               og_open := negb (closes t) }})
  | step_write_failed t w s s1 bytes p' part :
      (t, s1) ∈ og_next s → ControlPacket_Write (packet_to t) = Some (bytes, p') → w ≠ WriteOk →
      part `prefix_of` bytes → (og_open s = false → part = []) →
      outgoing_step now (Some (t, w)) s
        (s1 {{ og_client := (write_one now w t (og_client s)).1; og_wire := og_wire s ++ part;
               og_errors := (og_errors s + if (write_one now w t (og_client s)).2 then 1 else 0)%nat }})
  | step_oboundp_closed s : og_oboundp s = Some [] → outgoing_step now None s (s {{ og_oboundp := None }})
  | step_obound_closed s : og_obound s = Some [] → outgoing_step now None s (s {{ og_obound := None }})
  | step_fromIncoming_closed s : og_fromIncoming s = Some [] → outgoing_step now None s (s {{ og_fromIncoming := None }}).

(** A run, with the packets it takes. *)
Inductive outgoing_run (now : Z) s : list (to_write * written) → outgoing → Prop :=
  | run_start : outgoing_run now s [] s
  | run_turn ts l s1 s2 : outgoing_run now s ts s1 → outgoing_step now l s1 s2 → outgoing_run now s (ts ++ option_list l) s2.

Definition startOutgoingComms oboundp obound fromIncoming c : outgoing :=
  mkOutgoing (Some oboundp) (Some obound) (Some fromIncoming) c true [] 0.

(** The packets the channels still have. *)
Definition priority_of (t : to_write) : option (ControlPacket * option positive) := match t with Priority p tok => Some (p, tok) | _ => None end.
Definition pub_of_write (t : to_write) : option (PublishPacket * positive) := match t with Pub p a => Some (p, a) | _ => None end.
Definition incoming_of (t : to_write) : option ControlPacket := match t with FromIncoming p => Some p | _ => None end.

Lemma og_next_spec t s s1 : (t, s1) ∈ og_next s →
  default [] (og_oboundp s) = option_list (priority_of t) ++ default [] (og_oboundp s1)
  ∧ default [] (og_obound s) = option_list (pub_of_write t) ++ default [] (og_obound s1)
  ∧ default [] (og_fromIncoming s) = option_list (incoming_of t) ++ default [] (og_fromIncoming s1)
  ∧ length (option_list (og_oboundp s1)) = length (option_list (og_oboundp s))
  ∧ length (option_list (og_obound s1)) = length (option_list (og_obound s))
  ∧ length (option_list (og_fromIncoming s1)) = length (option_list (og_fromIncoming s))
  ∧ og_errors s1 = og_errors s ∧ og_open s1 = og_open s.
Proof.
  destruct s as [pr pu inc c o w e]. unfold og_next. cbn. rewrite !elem_of_app. intros [Ht|[Ht|Ht]].
  - destruct pr as [[|[p tok] l]|]; try by apply not_elem_of_nil in Ht. apply list_elem_of_singleton in Ht. by injection Ht as -> ->.
  - destruct pu as [[|[p a] l]|]; try by apply not_elem_of_nil in Ht. apply list_elem_of_singleton in Ht. by injection Ht as -> ->.
  - destruct inc as [[|p l]|]; try by apply not_elem_of_nil in Ht. apply list_elem_of_singleton in Ht. by injection Ht as -> ->.
Qed.

Lemma write_all_snoc cps cp bytes ps b p' :
  write_all cps = Some (bytes, ps) → ControlPacket_Write cp = Some (b, p') → write_all (cps ++ [cp]) = Some (bytes ++ b, ps ++ [p']).
Proof.
  revert bytes ps. induction cps as [|c cps IH]; intros bytes ps Hw Hp; cbn -[ControlPacket_Write] in Hw |- *.
  - injection Hw as <- <-. rewrite Hp. cbn. by rewrite app_nil_r.
  - destruct (ControlPacket_Write c) as [[b1 p1]|]; [|done]. cbn -[ControlPacket_Write] in Hw |- *.
    destruct (write_all cps) as [[b2 p2]|]; [|done]. cbn in Hw. injection Hw as <- <-.
    rewrite (IH b2 p2 eq_refl Hp). cbn. by rewrite <- app_assoc.
Qed.

(** The packets [ts] were taken; if none failed they are on the wire, and nothing else. *)
Definition outgoing_inv (s0 s : outgoing) (ts : list (to_write * written)) : Prop :=
  default [] (og_oboundp s0) = omap priority_of (map fst ts) ++ default [] (og_oboundp s)
  ∧ default [] (og_obound s0) = omap pub_of_write (map fst ts) ++ default [] (og_obound s)
  ∧ default [] (og_fromIncoming s0) = omap incoming_of (map fst ts) ++ default [] (og_fromIncoming s)
  ∧ (og_wire s0 = [] → Forall (λ t, t.2 = WriteOk) ts → ∃ ps, write_all (map packet_to (map fst ts)) = Some (og_wire s, ps)).

Lemma outgoing_run_inv now s0 ts s : outgoing_run now s0 ts s → outgoing_inv s0 s ts.
Proof.
  induction 1 as [|ts l s1 s2 _ (Hpr & Hpu & Hin & Hw) Hstep].
  { split_and!; [done..|]. intros -> _. by exists []. }
  assert (Htake : ∀ t w s', (t, s') ∈ og_next s1 →
    default [] (og_oboundp s0) = omap priority_of (map fst (ts ++ [(t, w)])) ++ default [] (og_oboundp s')
    ∧ default [] (og_obound s0) = omap pub_of_write (map fst (ts ++ [(t, w)])) ++ default [] (og_obound s')
    ∧ default [] (og_fromIncoming s0) = omap incoming_of (map fst (ts ++ [(t, w)])) ++ default [] (og_fromIncoming s')).
  { intros t w s' Ht. apply og_next_spec in Ht as (H1 & H2 & H3 & _). rewrite map_app, !omap_app, <- !app_assoc.
    rewrite Hpr, Hpu, Hin, H1, H2, H3. by destruct t. }
  destruct Hstep as [t s s' bytes p' Ht Hb Ho|t w s s' bytes p' part Ht Hb Hw' Hpart Hcl|s Hc|s Hc|s Hc]; cbn [option_list].
  - destruct (Htake t WriteOk s' Ht) as (H1 & H2 & H3). split_and!; [exact H1|exact H2|exact H3|].
    intros H0 [Hall _]%Forall_app. destruct (Hw H0 Hall) as [ps Hps]. exists (ps ++ [p']). rewrite !map_app. by apply write_all_snoc.
  - destruct (Htake t w s' Ht) as (H1 & H2 & H3). split_and!; [exact H1|exact H2|exact H3|].
    intros _ [_ [Hf _]%Forall_cons]%Forall_app. by destruct (Hw' Hf).
  - rewrite app_nil_r. rewrite Hc in Hpr. by split_and!.
  - rewrite app_nil_r. rewrite Hc in Hpu. by split_and!.
  - rewrite app_nil_r. rewrite Hc in Hin. by split_and!.
Qed.

Definition outgoing_measure s : nat :=
  2 * (length (default [] (og_oboundp s)) + length (default [] (og_obound s)) + length (default [] (og_fromIncoming s)))
  + length (option_list (og_oboundp s)) + length (option_list (og_obound s)) + length (option_list (og_fromIncoming s)).

Lemma outgoing_step_decreases now l s s' : outgoing_step now l s s' → (outgoing_measure s' < outgoing_measure s)%nat.
Proof.
  assert (Ht : ∀ t s s1, (t, s1) ∈ og_next s → (outgoing_measure s1 < outgoing_measure s)%nat).
  { intros t s0 s1 (H1 & H2 & H3 & H4 & H5 & H6 & _)%og_next_spec. unfold outgoing_measure.
    apply (f_equal length) in H1, H2, H3. rewrite length_app in H1, H2, H3. destruct t; cbn in H1, H2, H3; lia. }
  intros [t s0 s1 bytes p' Hn|t w s0 s1 bytes p' part Hn|s0 Hc|s0 Hc|s0 Hc]; [exact (Ht _ _ _ Hn)|exact (Ht _ _ _ Hn)|..];
    destruct s0; cbn in Hc; subst; unfold outgoing_measure; cbn; lia.
Qed.

(** The goroutine has returned. *)
Definition outgoing_done s : Prop := og_oboundp s = None ∧ og_obound s = None ∧ og_fromIncoming s = None.

Lemma outgoing_progress now s :
  outgoing_done s ∨ (∃ t s1, (t, s1) ∈ og_next s ∧ ControlPacket_Write (packet_to t) = None) ∨ ∃ l s', outgoing_step now l s s'.
Proof.
  destruct (og_next s) as [|[t s1] l] eqn:Hn.
  - unfold og_next in Hn. unfold outgoing_done.
    destruct (og_oboundp s) as [[|[p tok] l]|] eqn:H1; [right; right; do 2 eexists; by eapply step_oboundp_closed|done|].
    destruct (og_obound s) as [[|[p a] l]|] eqn:H2; [right; right; do 2 eexists; by eapply step_obound_closed|done|].
    destruct (og_fromIncoming s) as [[|p l]|] eqn:H3; [right; right; do 2 eexists; by eapply step_fromIncoming_closed|done|by left].
  - right. destruct (ControlPacket_Write (packet_to t)) as [[bytes p']|] eqn:Hw; [right|left; exists t, s1; split; [left|done]].
    do 2 eexists. eapply (step_write_failed now t WriteFailed s s1 bytes p' []); [rewrite Hn; left|done|done|apply prefix_nil|done].
Qed.

(** The outgoing goroutine: it always comes to its end, never before all three channels
    are closed and empty (unless a packet cannot be encoded); at every moment it has
    taken the first packets of each channel in order; and if no write failed, what
    is on the wire is these packets, in the order in which they were taken. *)
Theorem outgoing_order now oboundp obound fromIncoming c :
  sn (λ s s', ∃ l, outgoing_step now l s s') (startOutgoingComms oboundp obound fromIncoming c)
  ∧ ∀ ts s, outgoing_run now (startOutgoingComms oboundp obound fromIncoming c) ts s →
    oboundp = omap priority_of (map fst ts) ++ default [] (og_oboundp s)
    ∧ obound = omap pub_of_write (map fst ts) ++ default [] (og_obound s)
    ∧ fromIncoming = omap incoming_of (map fst ts) ++ default [] (og_fromIncoming s)
    ∧ (Forall (λ t, t.2 = WriteOk) ts → ∃ ps, write_all (map packet_to (map fst ts)) = Some (og_wire s, ps))
    ∧ (outgoing_done s ∨ (∃ t s1, (t, s1) ∈ og_next s ∧ ControlPacket_Write (packet_to t) = None) ∨ ∃ l s', outgoing_step now l s s').
Proof.
  split.
  - generalize (startOutgoingComms oboundp obound fromIncoming c). intros s.
    remember (outgoing_measure s) as n eqn:Hn. revert s Hn. induction (lt_wf n) as [n _ IH]. intros s ->.
    constructor. intros s' [l Hs]. eapply IH; [by eapply outgoing_step_decreases|done].
  - intros ts s (H1 & H2 & H3 & H4)%outgoing_run_inv. split_and!; [done..|by apply H4|apply outgoing_progress].
Qed.

(** C23: From the channels to the broker.  If no write failed, the read loop of the broker submits
    exactly the packets that were taken, in that order, when the connection ends. *)
Theorem outgoing_arrives now oboundp obound fromIncoming c ts s deadline keepAlive will :
  outgoing_run now (startOutgoingComms oboundp obound fromIncoming c) ts s → Forall (λ t, t.2 = WriteOk) ts →
  Forall packet_ok (map packet_to (map fst ts)) → Forall (λ p, is_disconnect p = false) (map packet_to (map fst ts)) →
  (∀ j, keepAlive > 0 → deadline j = true) →
  ∃ ps, Forall2 (λ p q, ∃ bytes, ControlPacket_Write p = Some (bytes, q)) (map packet_to (map fst ts)) ps
    ∧ readLoop deadline keepAlive (S (length (og_wire s))) 0 will (og_wire s) = (map read_back ps ++ [DisconnectedPacket], will).
Proof.
  intros (_ & _ & _ & Hw)%outgoing_run_inv Hok Hp Hd Hdl. destruct (Hw eq_refl Hok) as [ps Hps]. exists ps. split.
  - clear -Hps. revert Hps. generalize (og_wire s). generalize (map packet_to (map fst ts)). intros l. revert ps.
    induction l as [|p l IH]; intros ps bytes Hw; cbn -[ControlPacket_Write] in Hw; [by injection Hw as _ <-|].
    destruct (ControlPacket_Write p) as [[b q]|] eqn:Hq; [|done]. cbn in Hw. destruct (write_all l) as [[b2 qs]|] eqn:Hl; [|done].
    cbn in Hw. injection Hw as _ <-. constructor; [by exists b|]. by eapply IH.
  - pose proof (readLoop_all deadline keepAlive _ _ _ [] 0 will Hp Hd Hps) as Hr. rewrite app_nil_r in Hr. apply Hr; [|done].
    by exists EOF.
Qed.
End Outgoing.

(** ** Sample runs *)

Definition sample_peer : list ControlPacket := [PPublish sample_publish; PPubrec (newAck Packets.Pubrec 9)].

Lemma sample_peer_ok : Forall packet_ok sample_peer.
Proof. repeat (apply Forall_cons; split); [exact sample_publish_ok|split; [split; [done|cbn; lia]|cbn; unfold is_u16; lia]|by apply Forall_nil]. Qed.

Lemma incoming_delivered_witness :
  ∃ bytes (s : @comms nat MemoryStore unit),
    rtc (comms_step 5) (startComms [] (startIncoming true (bytes ++ [])) sample_up) s
    ∧ finished s ∧ length (outPublish s) = 1%nat ∧ outboundFromIncoming s = [PPubrel (newPubrel 9)].
Proof.
  destruct (write_all sample_peer) as [[bytes cps']|] eqn:Hw; [|vm_compute in Hw; discriminate].
  destruct (process_all 5 (received (map read_back cps')) sample_up) as [c'|] eqn:Hp;
    [|vm_compute in Hw; injection Hw as <- <-; vm_compute in Hp; discriminate].
  destruct (incoming_delivered 5 true sample_peer cps' bytes [] sample_up c' sample_peer_ok Hw) as (_ & (s & Hr & Hnf) & Hall);
    [by exists EOF|exact Hp|].
  destruct (Hall s Hr Hnf) as (Hf & _ & Hpub & Hout & _). exists bytes, s. split; [exact Hr|]. split; [exact Hf|].
  rewrite Hpub, Hout. vm_compute in Hw. injection Hw as <- <-. split; reflexivity.
Defined.

Lemma sample_outgoing :
  ∃ s, outgoing_run 5 (startOutgoingComms [] [(sample_publish, 1%positive)] [] sample_up) [(Pub sample_publish 1, WriteOk)] s.
Proof.
  eexists. eapply (run_turn _ _ [] (Some (Pub sample_publish 1, WriteOk))); [apply run_start|].
  eapply step_written; [left|reflexivity|reflexivity].
Defined.

Lemma outgoing_arrives_witness :
  ∃ wire q, (ControlPacket_Write (PPublish sample_publish) = Some (wire, q))
    ∧ readLoop (λ _, true) 60 (S (length wire)) 0 None wire = ([read_back q; DisconnectedPacket], None).
Proof.
  destruct sample_outgoing as [s Hs].
  destruct (outgoing_arrives 5 [] [(sample_publish, 1%positive)] [] sample_up [(Pub sample_publish 1, WriteOk)] s (λ _, true) 60 None Hs)
    as (ps & Hps & Hr).
  - by repeat constructor.
  - apply Forall_cons. split; [exact sample_publish_ok|by apply Forall_nil].
  - by repeat constructor.
  - done.
  - apply Forall2_cons_inv_l in Hps as (q & qs & (bytes & Hq) & Hqs & ->). apply Forall2_nil_inv_l in Hqs as ->.
    destruct (outgoing_run_inv _ _ _ _ Hs) as (_ & _ & _ & Hw). destruct Hw as [ps Hw]; [done|by repeat constructor|].
    cbn [map fst packet_to write_all] in Hw, Hq. rewrite Hq in Hw. cbn in Hw. rewrite app_nil_r in Hw. injection Hw as Hw _.
    exists bytes, q. split; [exact Hq|]. rewrite <- Hw in Hr. exact Hr.
Defined.
