(* ===== verification/Workers.v ===== *)
(** * Workers: stopping the goroutines of a connection

    Models the goroutines that [startCommsWorkers] of [src/mqtt/client.go] starts and the
    shutting down of them by [stopCommsWorkers], together with the ones of [startComms]
    ([src/mqtt/net.go]), [matchAndDispatch] ([src/mqtt/router.go]) and [keepalive]
    ([src/mqtt/ping.go]).  [Comms] says what becomes of the packets; here only matters who
    waits for whom.  A goroutine is a position in its code, a send on a channel without
    buffer is one step of both goroutines, and packets are reduced to what they make
    the goroutines do.  The comments of the code say that the order of stopping is chosen
    to avoid deadlocks; the theorem is that there is none. *)
From Stdlib Require Import Wf_nat.
From S2P Require Import Prelude.
Local Open Scope nat_scope.

(** A packet: nothing comes of it, an error, a packet to send out, or a message for [k]
    handlers that is acknowledged or not. *)
Inductive item := INothing | IErr | IOut | IPub (k : nat) (ack : bool).

(** The positions: waiting in the [select] or [range], sending, returned. *)
Inductive pos_in := InIdle | InSend (x : item) | InDone.                    (* startIncomingComms *)
Inductive pos_pass := PassIdle | PassSend (x : item) | PassDone.            (* startComms, passing on *)
Inductive pos_out := OutIdle | OutErr | OutDone.                            (* startOutgoingComms *)
Inductive pos_err := ErrIdle | ErrSend | ErrDone.                           (* startComms, errors *)
Inductive pos_main := MainIdle | MainPub (k : nat) (ack : bool) | MainDone. (* startCommsWorkers *)
Inductive pos_disp := DispIdle | DispRun (k : nat) (ack : bool) | DispAck (k : nat) | DispDone. (* matchAndDispatch *)
Inductive pos_redir := RedirIdle | RedirSendP | RedirSendO | RedirDrain | RedirDrainSend | RedirDone.
Inductive pos_wait := NotStopping | WaitWorkers | WaitComms | WaitDone.     (* stopCommsWorkers *)

(** [net] and [store] are what will still come over the channels from the network and from
    the store before they are closed; the flags tell whether a goroutine still listens to a
    channel; [userP] and [userO] count the requests of the user that will still be taken,
    and [ka] the ticks that [keepalive] will still see before it returns. *)
Record workers_state := mkWorkers {
  w_store : option (list item);
  w_net : option (list item);
  w_in : pos_in;
  w_pass : pos_pass;
  w_out : pos_out;
  out_p : bool;
  out_o : bool;
  out_i : bool;
  w_err : pos_err;
  w_main : pos_main;
  main_pub : bool;
  main_err : bool;
  w_disp : pos_disp;
  w_redir : pos_redir;
  redir_ack : bool;
  userP : nat;
  userO : nat;
  ka : option nat;
  c_stop : bool;
  c_workers : Z;
  w_wait : pos_wait
}.
Implicit Types s : workers_state.

(** [stopCommsWorkers], which does something when it is called for the first time only. *)
Definition stop_comms s : workers_state :=
  if c_stop s then s else s {{ c_stop := true; w_wait := WaitWorkers }}.

(** [n] times [c.workers.Done()], which panics when the counter falls below zero. *)
Definition wg_done (n : Z) s : workers_state := s {{ c_workers ::= λ k, (k - n)%Z }}.

(** The outgoing goroutine has taken a packet, and the write failed or not. *)
Definition written_out (failed : bool) s : workers_state := s {{ w_out := if failed then OutErr else OutIdle }}.

(** [startCommsWorkers]: [n] ticks will come if there is a keep-alive time. *)
Definition startWorkers (store net : list item) (p o : nat) (keepalive : option nat) : workers_state :=
  mkWorkers (Some store) (Some net) InIdle PassIdle OutIdle true true true ErrIdle MainIdle true true DispIdle RedirIdle true
    p o keepalive false (match keepalive with Some _ => 3 | None => 2 end)%Z NotStopping.

Definition in_after (x : item) : pos_in := match x with INothing => InIdle | _ => InSend x end.

(** Whether the main goroutine takes errors: in both of its selects. *)
Definition takes_errors (m : pos_main) : bool := match m with MainDone => false | _ => true end.

Inductive workers_step : workers_state → workers_state → Prop :=
  (* startIncomingComms *)
  | ws_net s x l : w_in s = InIdle → w_net s = Some (x :: l) → workers_step s (s {{ w_net := Some l; w_in := in_after x }})
  | ws_store s x l : w_in s = InIdle → w_store s = Some (x :: l) → workers_step s (s {{ w_store := Some l; w_in := in_after x }})
  | ws_net_closed s : w_in s = InIdle → w_net s = Some [] → workers_step s (s {{ w_net := None }})
  | ws_store_closed s : w_in s = InIdle → w_store s = Some [] → workers_step s (s {{ w_store := None }})
  | ws_in_done s : w_in s = InIdle → w_net s = None → w_store s = None → workers_step s (s {{ w_in := InDone }})
  | ws_in_send s x : w_in s = InSend x → w_pass s = PassIdle → workers_step s (s {{ w_in := InIdle; w_pass := PassSend x }})
  (* startComms *)
  | ws_pass_done s : w_pass s = PassIdle → w_in s = InDone → workers_step s (s {{ w_pass := PassDone }})
  | ws_pass_nothing s : w_pass s = PassSend INothing → workers_step s (s {{ w_pass := PassIdle }})
  | ws_pass_pub s k b : w_pass s = PassSend (IPub k b) → w_main s = MainIdle → main_pub s = true →
      workers_step s (s {{ w_pass := PassIdle; w_main := MainPub k b }})
  | ws_pass_out s f : w_pass s = PassSend IOut → w_out s = OutIdle → out_i s = true →
      workers_step s (written_out f (s {{ w_pass := PassIdle }}))
  | ws_pass_err s : w_pass s = PassSend IErr → takes_errors (w_main s) = true → main_err s = true →
      workers_step s (stop_comms (s {{ w_pass := PassIdle }}))
  | ws_err_done s : w_err s = ErrIdle → w_out s = OutDone → workers_step s (s {{ w_err := ErrDone }})
  | ws_err_send s : w_err s = ErrSend → takes_errors (w_main s) = true → main_err s = true →
      workers_step s (stop_comms (s {{ w_err := ErrIdle }}))
  (* startOutgoingComms *)
  | ws_out_p s f : w_out s = OutIdle → out_p s = true → w_redir s = RedirSendP → workers_step s (written_out f (s {{ w_redir := RedirIdle }}))
  | ws_out_drain s f : w_out s = OutIdle → out_p s = true → w_redir s = RedirDrainSend →
      workers_step s (written_out f (s {{ w_redir := RedirDrain }}))
  | ws_out_o s f : w_out s = OutIdle → out_o s = true → w_redir s = RedirSendO → workers_step s (written_out f (s {{ w_redir := RedirIdle }}))
  | ws_out_p_closed s : w_out s = OutIdle → out_p s = true → w_redir s = RedirDone → workers_step s (s {{ out_p := false }})
  | ws_out_o_closed s : w_out s = OutIdle → out_o s = true → w_redir s = RedirDone → workers_step s (s {{ out_o := false }})
  | ws_out_i_closed s : w_out s = OutIdle → out_i s = true → w_pass s = PassDone → workers_step s (s {{ out_i := false }})
  | ws_out_done s : w_out s = OutIdle → out_p s = false → out_o s = false → out_i s = false → workers_step s (s {{ w_out := OutDone }})
  | ws_out_err s : w_out s = OutErr → w_err s = ErrIdle → workers_step s (s {{ w_out := OutIdle; w_err := ErrSend }})
  (* startCommsWorkers, incoming *)
  | ws_main_pub_closed s : w_main s = MainIdle → main_pub s = true → w_pass s = PassDone → workers_step s (s {{ main_pub := false }})
  | ws_main_err_closed s : takes_errors (w_main s) = true → main_err s = true → w_pass s = PassDone → w_err s = ErrDone →
      workers_step s (s {{ main_err := false }})
  | ws_main_done s : w_main s = MainIdle → main_pub s = false → main_err s = false → workers_step s (s {{ w_main := MainDone }})
  (* matchAndDispatch *)
  | ws_disp_take s k b : w_main s = MainPub k b → w_disp s = DispIdle → workers_step s (s {{ w_main := MainIdle; w_disp := DispRun k b }})
  | ws_disp_handler s k b : w_disp s = DispRun (S k) b → workers_step s (s {{ w_disp := if b : bool then DispAck k else DispRun k false }})
  | ws_disp_next s b : w_disp s = DispRun 0 b → workers_step s (s {{ w_disp := DispIdle }})
  | ws_disp_done s : w_disp s = DispIdle → main_pub s = false → workers_step s (s {{ w_disp := DispDone }})
  (* startCommsWorkers, the redirector *)
  | ws_redir_ack s k : w_redir s = RedirIdle → redir_ack s = true → w_disp s = DispAck k →
      workers_step s (s {{ w_redir := RedirSendP; w_disp := DispRun k false }})
  | ws_redir_drain_ack s k : w_redir s = RedirDrain → w_disp s = DispAck k →
      workers_step s (s {{ w_redir := RedirDrainSend; w_disp := DispRun k false }})
  | ws_redir_userP s n : w_redir s = RedirIdle → userP s = S n → workers_step s (s {{ w_redir := RedirSendP; userP := n }})
  | ws_redir_userO s n : w_redir s = RedirIdle → userO s = S n → workers_step s (s {{ w_redir := RedirSendO; userO := n }})
  | ws_redir_ack_closed s : w_redir s = RedirIdle → redir_ack s = true → w_disp s = DispDone →
      workers_step s (wg_done 1 (s {{ redir_ack := false }}))
  | ws_redir_stop s : w_redir s = RedirIdle → c_stop s = true →
      workers_step s (if redir_ack s then s {{ w_redir := RedirDrain }} else wg_done 1 (s {{ w_redir := RedirDone }}))
  | ws_redir_drained s : w_redir s = RedirDrain → w_disp s = DispDone → workers_step s (wg_done 2 (s {{ w_redir := RedirDone }}))
  (* keepalive *)
  | ws_ka_tick s n : ka s = Some (S n) → workers_step s (s {{ ka := Some n }})
  | ws_ka_lost s n : ka s = Some n → workers_step s (wg_done 1 (stop_comms (s {{ ka := None }})))
  | ws_ka_stop s n : ka s = Some n → c_stop s = true → workers_step s (wg_done 1 (s {{ ka := None }}))
  (* Disconnect, and stopCommsWorkers *)
  | ws_disconnect s : c_stop s = false → workers_step s (stop_comms s)
  | ws_waited_workers s : w_wait s = WaitWorkers → c_workers s = 0%Z → workers_step s (s {{ w_wait := WaitComms }})
  | ws_waited_comms s : w_wait s = WaitComms → w_main s = MainDone → workers_step s (s {{ w_wait := WaitDone }}).

(** ** What holds all the time *)

Definition b2n (b : bool) : nat := if b then 1 else 0.
Definition is_done_redir (r : pos_redir) : bool := match r with RedirDone => true | _ => false end.

(** The number the wait group should have: [keepalive], the redirector, and the dispatcher
    until the redirector has seen that it is done. *)
Definition working s : nat :=
  length (option_list (ka s)) + b2n (negb (is_done_redir (w_redir s))) + b2n (redir_ack s && negb (is_done_redir (w_redir s))).

Record workers_inv s : Prop := {
  inv_in : w_in s = InDone → w_net s = None ∧ w_store s = None;
  inv_pass : w_pass s = PassDone → w_in s = InDone;
  inv_out_i : out_i s = false → w_pass s = PassDone;
  inv_out_p : out_p s = false → w_redir s = RedirDone;
  inv_out_o : out_o s = false → w_redir s = RedirDone;
  inv_out : w_out s = OutDone → out_p s = false ∧ out_o s = false ∧ out_i s = false;
  inv_err : w_err s = ErrDone → w_out s = OutDone;
  inv_main_pub : main_pub s = false → w_pass s = PassDone ∧ ∀ k b, w_main s ≠ MainPub k b;
  inv_main_err : main_err s = false → w_pass s = PassDone ∧ w_err s = ErrDone;
  inv_main : w_main s = MainDone → main_pub s = false ∧ main_err s = false;
  inv_disp : w_disp s = DispDone → main_pub s = false;
  inv_redir_ack : redir_ack s = false → w_disp s = DispDone;
  inv_redir : w_redir s = RedirDone → w_disp s = DispDone ∧ c_stop s = true;
  inv_workers : c_workers s = Z.of_nat (working s);
  inv_stop : c_stop s = false ↔ w_wait s = NotStopping;
  inv_wait : w_wait s = WaitDone → w_main s = MainDone ∧ c_workers s = 0%Z;
  inv_waited : w_wait s = WaitComms → c_workers s = 0%Z;
  inv_redir_run : w_redir s = RedirDrain ∨ w_redir s = RedirDrainSend → c_stop s = true ∧ redir_ack s = true
}.

Lemma start_inv store net p o k : workers_inv (startWorkers store net p o k).
Proof. by split; try done; [destruct k|intros [|]]. Qed.

(** The hypotheses of the invariant whose premise holds or cannot hold are used or dropped. *)
Ltac settle :=
  repeat match goal with
  | H : ?x = ?x → _ |- _ => specialize (H eq_refl)
  | H : ?a = ?b → _ |- _ => clear H; assert (a ≠ b) as _ by discriminate
  | H : _ = _ ∨ _ = _ → _ |- _ => first [specialize (H (or_introl eq_refl)) | specialize (H (or_intror eq_refl))]
  | H : _ ∧ _ |- _ => destruct H
  | H : ?a = ?b |- _ => first [discriminate H | subst a | subst b | injection H as ->]
  end.
Ltac crush_inv :=
  split; cbn; first [assumption | intros; settle; first [done | by eauto | by split; eauto | congruence | lia | intuition congruence | unfold working; cbn in *; settle; lia]].

Lemma workers_step_inv s s' : workers_inv s → workers_step s s' → workers_inv s'.
Proof.
  intros Hi Hs. destruct Hs; destruct s; destruct Hi; unfold written_out, wg_done, stop_comms, in_after, working in *; cbn in *; subst; settle.
  all: repeat case_match; crush_inv.
Qed.

(** ** Every run comes to an end *)

Definition base_weight (x : item) : nat :=
  match x with INothing | IErr => 1 | IOut => 3 | IPub k b => 3 + k + 4 * b2n b end.
Definition source_weight (l : option (list item)) : nat :=
  match l with Some l => S (sum_list_with (λ x, 2 + base_weight x) l) | None => 0 end.
Definition in_weight (p : pos_in) : nat := match p with InIdle => 1 | InSend x => 2 + base_weight x | InDone => 0 end.
Definition pass_weight (p : pos_pass) : nat := match p with PassIdle => 1 | PassSend x => 1 + base_weight x | PassDone => 0 end.
Definition out_weight (p : pos_out) : nat := match p with OutIdle => 1 | OutErr => 3 | OutDone => 0 end.
Definition err_weight (p : pos_err) : nat := match p with ErrIdle => 1 | ErrSend => 2 | ErrDone => 0 end.
Definition main_weight (p : pos_main) : nat := match p with MainIdle => 1 | MainPub k b => 3 + k + 4 * b2n b | MainDone => 0 end.
Definition disp_weight (p : pos_disp) : nat :=
  match p with DispIdle => 1 | DispRun k b => 2 + k + 4 * b2n b | DispAck k => 6 + k | DispDone => 0 end.
Definition redir_weight (p : pos_redir) : nat :=
  match p with RedirIdle => 2 | RedirSendP | RedirSendO => 5 | RedirDrain => 1 | RedirDrainSend => 4 | RedirDone => 0 end.
Definition wait_weight (stopped : bool) (p : pos_wait) : nat :=
  (if stopped then 0 else 3) + match p with WaitWorkers => 2 | WaitComms => 1 | _ => 0 end.

Definition weight s : nat :=
  source_weight (w_store s) + source_weight (w_net s) + in_weight (w_in s) + pass_weight (w_pass s) + out_weight (w_out s) +
  b2n (out_p s) + b2n (out_o s) + b2n (out_i s) + err_weight (w_err s) + main_weight (w_main s) + b2n (main_pub s) +
  b2n (main_err s) + disp_weight (w_disp s) + redir_weight (w_redir s) + b2n (redir_ack s) + 4 * (userP s + userO s) +
  match ka s with Some n => S n | None => 0 end + wait_weight (c_stop s) (w_wait s).

Lemma workers_step_weight s s' : workers_step s s' → weight s' < weight s.
Proof.
  intros Hs. destruct Hs; destruct (c_stop s) eqn:?; destruct s;
    unfold written_out, wg_done, stop_comms, in_after, weight in *; cbn in *; subst; repeat case_match; cbn in *; simplify_eq; lia.
Qed.

Lemma workers_sn s : sn workers_step s.
Proof. induction s as [s IH] using (induction_ltof1 _ weight). constructor. intros s' Hs. apply IH, workers_step_weight, Hs. Qed.

(** ** A stopped connection does not get stuck *)

(** All the goroutines have returned, and [stopCommsWorkers] has seen it. *)
Definition all_done s : Prop :=
  w_net s = None ∧ w_store s = None ∧ w_in s = InDone ∧ w_pass s = PassDone ∧ w_out s = OutDone ∧ w_err s = ErrDone ∧
  w_main s = MainDone ∧ w_disp s = DispDone ∧ w_redir s = RedirDone ∧ ka s = None ∧ w_wait s = WaitDone ∧ c_workers s = 0%Z.

(** The rule [C] applies. *)
Ltac moves C := match goal with Hn : nf _ _ |- _ => exfalso; apply Hn; eexists; eapply C; cbn; eauto; congruence end.

Section stuck.
Context s (Hi : workers_inv s) (Hn : nf workers_step s).

Lemma main_takes : w_err s ≠ ErrDone ∨ w_pass s ≠ PassDone → takes_errors (w_main s) = true ∧ main_err s = true.
Proof. destruct Hi. intros H. destruct (main_err s), (w_main s) eqn:?; naive_solver. Qed.

Lemma no_err : w_err s ≠ ErrSend.
Proof. intros H. destruct main_takes as [??]; [left; congruence|]. moves ws_err_send. Qed.

Lemma no_out_err : w_out s ≠ OutErr.
Proof.
  intros H. destruct (w_err s) eqn:He; [moves ws_out_err|by apply no_err|]. pose proof (inv_err _ Hi He). congruence.
Qed.

Lemma out_takes_redir : w_redir s ≠ RedirDone → w_out s = OutIdle ∧ out_p s = true ∧ out_o s = true.
Proof.
  intros Hr. pose proof no_out_err. pose proof (inv_out _ Hi). pose proof (inv_out_p _ Hi). pose proof (inv_out_o _ Hi).
  destruct (out_p s), (out_o s), (w_out s); naive_solver.
Qed.

Lemma no_redir_send : w_redir s = RedirIdle ∨ w_redir s = RedirDrain ∨ w_redir s = RedirDone.
Proof.
  destruct (w_redir s) eqn:Hr; auto; destruct out_takes_redir as (?&?&?); try congruence;
    [moves (ws_out_p s false)|moves (ws_out_o s false)|moves (ws_out_drain s false)].
Qed.

Lemma no_disp : w_disp s = DispIdle ∨ w_disp s = DispDone.
Proof.
  pose proof (inv_redir_ack _ Hi). pose proof (inv_redir _ Hi).
  destruct (w_disp s) as [|[|k] b|k|] eqn:Hd; auto; [moves ws_disp_next|moves ws_disp_handler|].
  destruct no_redir_send as [Hr|[Hr|Hr]]; [|moves ws_redir_drain_ack|naive_solver].
  destruct (redir_ack s) eqn:?; [moves ws_redir_ack|naive_solver].
Qed.

Lemma no_main : w_main s = MainIdle ∨ w_main s = MainDone.
Proof.
  destruct (w_main s) as [|k b|] eqn:Hm; auto. destruct no_disp as [Hd|Hd]; [moves ws_disp_take|].
  destruct (inv_main_pub _ Hi (inv_disp _ Hi Hd)) as [_ Hp]. by destruct (Hp k b).
Qed.

Lemma no_pass : w_pass s = PassIdle ∨ w_pass s = PassDone.
Proof.
  pose proof (inv_out_i _ Hi). pose proof (inv_out _ Hi). pose proof (inv_main_pub _ Hi). pose proof (inv_main _ Hi).
  pose proof no_out_err.
  destruct (w_pass s) as [|x|] eqn:Hp; auto. destruct x as [| | |k b].
  - moves ws_pass_nothing.
  - destruct main_takes as [??]; [right; congruence|]. moves ws_pass_err.
  - assert (w_out s = OutIdle ∧ out_i s = true) as [??] by (destruct (w_out s), (out_i s); intuition congruence).
    moves (ws_pass_out s false).
  - assert (w_main s = MainIdle ∧ main_pub s = true) as [??].
    { destruct no_main as [Hm|Hm]; rewrite Hm in *; destruct (main_pub s); intuition congruence. }
    moves ws_pass_pub.
Qed.

Lemma in_done : w_in s = InDone.
Proof.
  destruct (w_in s) as [|x|] eqn:Hin; auto.
  - destruct (w_net s) as [[|x l]|] eqn:?; [moves ws_net_closed|moves ws_net|].
    destruct (w_store s) as [[|x l]|] eqn:?; [moves ws_store_closed|moves ws_store|moves ws_in_done].
  - destruct no_pass as [Hp|Hp]; [moves ws_in_send|]. pose proof (inv_pass _ Hi Hp). congruence.
Qed.

Lemma pass_done : w_pass s = PassDone.
Proof. destruct no_pass as [Hp|Hp]; [|done]. pose proof in_done. moves ws_pass_done. Qed.

Lemma disp_done : w_disp s = DispDone.
Proof.
  pose proof pass_done. destruct no_disp as [Hd|]; [|done]. destruct (main_pub s) eqn:?; [|moves ws_disp_done].
  destruct no_main as [Hm|Hm]; [moves ws_main_pub_closed|]. destruct (inv_main _ Hi Hm). congruence.
Qed.

Context (Hstop : c_stop s = true).

Lemma redir_done : w_redir s = RedirDone.
Proof. pose proof disp_done. destruct no_redir_send as [Hr|[Hr|Hr]]; [moves ws_redir_stop|moves ws_redir_drained|done]. Qed.

Lemma out_done : w_out s = OutDone.
Proof.
  pose proof redir_done. pose proof pass_done. pose proof no_out_err. destruct (w_out s) eqn:?; [|done..].
  destruct (out_p s) eqn:?; [moves ws_out_p_closed|]. destruct (out_o s) eqn:?; [moves ws_out_o_closed|].
  destruct (out_i s) eqn:?; [moves ws_out_i_closed|moves ws_out_done].
Qed.

Lemma err_done : w_err s = ErrDone.
Proof. pose proof out_done. pose proof no_err. destruct (w_err s) eqn:?; [moves ws_err_done|done..]. Qed.

Lemma main_done : w_main s = MainDone.
Proof.
  pose proof err_done. pose proof pass_done. pose proof (inv_disp _ Hi disp_done). destruct no_main as [Hm|]; [|done].
  destruct (main_err s) eqn:?; [|moves ws_main_done]. exfalso. apply Hn. eexists. apply ws_main_err_closed; auto. by rewrite Hm.
Qed.

Lemma stuck_done : all_done s.
Proof.
  assert (ka s = None) as Hk. { destruct (ka s) as [n|] eqn:?; [moves ws_ka_stop|done]. }
  assert (c_workers s = 0%Z) as Hw. { rewrite (inv_workers _ Hi). unfold working. rewrite Hk, redir_done. by destruct (redir_ack s). }
  pose proof main_done. destruct (inv_in _ Hi in_done).
  repeat split; auto using in_done, pass_done, disp_done, redir_done, out_done, err_done.
  destruct (w_wait s) eqn:Hwait; [|moves ws_waited_workers|moves ws_waited_comms|done].
  apply (inv_stop _ Hi) in Hwait. congruence.
Qed.
End stuck.

Lemma workers_reach_inv store net p o k s : rtc workers_step (startWorkers store net p o k) s → workers_inv s.
Proof. revert s. apply rtc_ind_r; eauto using start_inv, workers_step_inv. Qed.

Lemma stopped_stays s s' : rtc workers_step s s' → c_stop s = true → c_stop s' = true.
Proof.
  intros Hr H. revert H. induction Hr as [|s s' s'' Hs _ IH]; [done|]. intros H. apply IH.
  destruct Hs; destruct s; cbn in *; subst; unfold wg_done, stop_comms; cbn; repeat case_match; cbn; congruence.
Qed.

(** C14: shutting a connection down does not deadlock and does not go on for ever.  From any
    state the goroutines of a connection can get into, whatever was still to come from the
    network, the store, the user and the handlers, the run is finite; the wait group is
    never negative (which would be a panic); and once [stopCommsWorkers] was called, the
    run can only end when every goroutine has returned and [stopCommsWorkers] has closed
    its channel. *)
Theorem workers_stop store net p o k s :
  rtc workers_step (startWorkers store net p o k) s →
  (0 ≤ c_workers s)%Z ∧ sn workers_step s ∧
  (c_stop s = true → ∀ s', rtc workers_step s s' → nf workers_step s' → all_done s').
Proof.
  intros Hr. pose proof (workers_reach_inv _ _ _ _ _ _ Hr) as Hi. split_and!.
  - rewrite (inv_workers _ Hi). lia.
  - apply workers_sn.
  - intros Hstop s' Hs' Hn. apply stuck_done; eauto using stopped_stays. eapply workers_reach_inv. by etrans.
Qed.

Definition running : workers_state := startWorkers [] [IPub 1 true] 0 0 None.
(* The message got to the handler, and the connection is closed before it is acknowledged. *)
Definition stopping : workers_state :=
  running {{ w_net := Some []; w_disp := DispAck 0; c_stop := true; w_wait := WaitWorkers; w_redir := RedirDrain }}.

Lemma running_stopping : rtc workers_step running stopping.
Proof.
  eapply rtc_l; [by eapply (ws_net _ (IPub 1 true) [])|]. eapply rtc_l; [by eapply ws_in_send|].
  eapply rtc_l; [by eapply ws_pass_pub|]. eapply rtc_l; [by eapply ws_disp_take|].
  eapply rtc_l; [by eapply ws_disp_handler|]. eapply rtc_l; [by eapply ws_disconnect|].
  eapply rtc_l; [by eapply ws_redir_stop|]. apply rtc_refl.
Qed.

Lemma workers_stop_witness :
  c_stop stopping = true ∧ ∀ s', rtc workers_step stopping s' → nf workers_step s' → all_done s'.
Proof.
  split; [done|]. destruct (workers_stop [] [IPub 1 true] 0 0 None stopping running_stopping) as (_&_&H). by apply H.
Defined.
