(* ===== verification/Dispatch.v ===== *)
(** * Dispatch: handlers that run at the same time

    Models [matchAndDispatch] of [src/mqtt/router.go] for a client that does not ask for order
    ([Order] is false): each handler of a message runs in a goroutine of its own and then
    acknowledges the message, another goroutine copies the acknowledgements to the channel that
    the caller reads, and the closing of the channels is spread over four goroutines.  [Client]
    and [Comms] have the ordered case.

    The system is a step relation; channels have no buffer, so that a send is one step of both
    sides.  A send on a closed channel is a panic, and closing before the last send is what the
    code has to avoid. *)
From Stdlib Require Import Wf_nat.
From S2P Require Import Prelude.
Local Open Scope nat_scope.

(** A message, by its number: for how many handlers it is, and whether [ackFunc] sends
    something for it (its QoS is not 0). *)
Record job := mkJob { j_id : nat; j_handlers : nat; j_acks : bool }.

(** The goroutine of a handler: before [m.Ack()], in the send of the acknowledgement. *)
Inductive hpos := HRun | HSend.
Record handler := mkHandler { h_job : job; h_pos : hpos }.

#[global] Instance job_eq_dec : EqDecision job.
Proof. solve_decision. Defined.
#[global] Instance hpos_eq_dec : EqDecision hpos.
Proof. solve_decision. Defined.
#[global] Instance handler_eq_dec : EqDecision handler.
Proof. solve_decision. Defined.

(** [sync.Once] of a message. *)
Inductive once_state := OnceNew | OnceRunning | OnceDone.

Inductive main_pos := MainLoop | MainStopping | MainReturned.        (* the goroutine that handles messages *)
Inductive copy_pos := CopyIdle | CopySend (n : nat) | CopyDrain | CopyReturned.  (* from ackInChan to ackOutChan *)
Inductive wait_pos := WaitNotStarted | WaitGroup | WaitReturned.     (* wg.Wait(), close(goRoutinesDone) *)

Record dispatcher := mkDispatcher {
  d_todo : list job;
  d_main : main_pos;
  d_copy : copy_pos;
  d_wait : wait_pos;
  d_handlers : list handler;
  d_wg : Z;
  d_once : nat → once_state;
  stopAckCopy : bool;
  ackCopyStopped : bool;
  goRoutinesDone : bool;
  ackOutClosed : bool;
  ackInClosed : bool;
  d_given : list job;
  d_out : list nat;
  d_dropped : list nat
}.
Implicit Types s : dispatcher.

Definition set_once (n : nat) (o : once_state) (f : nat → once_state) : nat → once_state :=
  λ k, if decide (k = n) then o else f k.

(** [matchAndDispatch] with the messages that will come. *)
Definition matchAndDispatch (l : list job) : dispatcher :=
  mkDispatcher l MainLoop CopyIdle WaitNotStarted [] 0 (λ _, OnceNew) false false false false false [] [] [].

(** [wg.Add(1)] and [go] for each handler of the message. *)
Definition spawn (j : job) s : dispatcher :=
  s {{ d_handlers ::= λ l, l ++ replicate (j_handlers j) (mkHandler j HRun); d_wg ::= λ n, (n + Z.of_nat (j_handlers j))%Z;
       d_given ::= cons j }}.
(** The end of a handler: [wg.Done()]. *)
Definition ended (l1 l2 : list handler) s : dispatcher := s {{ d_handlers := l1 ++ l2; d_wg ::= λ n, (n - 1)%Z }}.

Inductive dispatch_step : dispatcher → dispatcher → Prop :=
  (* the main goroutine *)
  | ds_message s j l : d_main s = MainLoop → d_todo s = j :: l → dispatch_step s (spawn j (s {{ d_todo := l }}))
  | ds_closed s : d_main s = MainLoop → d_todo s = [] → dispatch_step s (s {{ stopAckCopy := true; d_main := MainStopping }})
  | ds_returned s : d_main s = MainStopping → ackCopyStopped s = true →
      dispatch_step s (s {{ ackOutClosed := true; d_main := MainReturned; d_wait := WaitGroup }})
  | ds_waited s : d_wait s = WaitGroup → d_wg s = 0%Z → dispatch_step s (s {{ goRoutinesDone := true; d_wait := WaitReturned }})
  (* a handler *)
  | ds_no_ack s l1 j l2 : d_handlers s = l1 ++ mkHandler j HRun :: l2 → j_acks j = false → dispatch_step s (ended l1 l2 s)
  | ds_ack s l1 j l2 : d_handlers s = l1 ++ mkHandler j HRun :: l2 → j_acks j = true → d_once s (j_id j) = OnceNew →
      dispatch_step s (s {{ d_handlers := l1 ++ mkHandler j HSend :: l2; d_once ::= set_once (j_id j) OnceRunning }})
  | ds_acked s l1 j l2 : d_handlers s = l1 ++ mkHandler j HRun :: l2 → j_acks j = true → d_once s (j_id j) = OnceDone →
      dispatch_step s (ended l1 l2 s)
  | ds_send s l1 j l2 : d_handlers s = l1 ++ mkHandler j HSend :: l2 → d_copy s = CopyIdle →
      dispatch_step s (ended l1 l2 (s {{ d_copy := CopySend (j_id j); d_once ::= set_once (j_id j) OnceDone }}))
  | ds_drop s l1 j l2 : d_handlers s = l1 ++ mkHandler j HSend :: l2 → d_copy s = CopyDrain →
      dispatch_step s (ended l1 l2 (s {{ d_dropped ::= cons (j_id j); d_once ::= set_once (j_id j) OnceDone }}))
  (* the copying goroutine, and the reader of its channel *)
  | ds_out s n : d_copy s = CopySend n → dispatch_step s (s {{ d_copy := CopyIdle; d_out ::= cons n }})
  | ds_stop s : d_copy s = CopyIdle → stopAckCopy s = true → dispatch_step s (s {{ d_copy := CopyDrain; ackCopyStopped := true }})
  | ds_end s : d_copy s = CopyDrain → goRoutinesDone s = true → dispatch_step s (s {{ d_copy := CopyReturned; ackInClosed := true }}).

(** ** The invariant *)

(** The acknowledgements on their way or done with. *)
Definition sending (l : list handler) : list nat :=
  omap (λ h, match h_pos h with HSend => Some (j_id (h_job h)) | HRun => None end) l.
Definition copying (c : copy_pos) : list nat := match c with CopySend n => [n] | _ => [] end.
Definition taken s : list nat := copying (d_copy s) ++ d_out s ++ d_dropped s.

(** The acknowledgements: one for each message at most. *)
Record ack_inv s : Prop := {
  di_ids : NoDup (map j_id (d_todo s ++ d_given s));
  di_wg : d_wg s = Z.of_nat (length (d_handlers s));
  di_given h : h ∈ d_handlers s → h_job h ∈ d_given s ∧ (h_pos h = HSend → j_acks (h_job h) = true);
  di_once : NoDup (sending (d_handlers s) ++ taken s);
  di_running n : d_once s n = OnceRunning ↔ n ∈ sending (d_handlers s);
  di_done n : d_once s n = OnceDone ↔ n ∈ taken s;
  di_acked j : j ∈ d_given s → 0 < j_handlers j → j_acks j = true → d_once s (j_id j) = OnceNew → mkHandler j HRun ∈ d_handlers s;
  di_sent n : n ∈ taken s → ∃ j, j ∈ d_given s ∧ j_id j = n ∧ j_acks j = true
}.

(** The channels: who has closed what, and when. *)
Record chan_inv s : Prop := {
  di_main : d_main s ≠ MainLoop → d_todo s = [] ∧ stopAckCopy s = true;
  di_stop : stopAckCopy s = true → d_main s ≠ MainLoop;
  di_copy : ackCopyStopped s = true ↔ d_copy s = CopyDrain ∨ d_copy s = CopyReturned;
  di_copied : ackCopyStopped s = true → stopAckCopy s = true;
  di_out : ackOutClosed s = true ↔ d_main s = MainReturned;
  di_out_copy : d_main s = MainReturned → ackCopyStopped s = true;
  di_wait : d_main s = MainReturned ↔ d_wait s ≠ WaitNotStarted;
  di_waited : goRoutinesDone s = true ↔ d_wait s = WaitReturned;
  di_over : d_wait s = WaitReturned → d_handlers s = [];
  di_in : ackInClosed s = true ↔ d_copy s = CopyReturned;
  di_in_done : d_copy s = CopyReturned → d_wait s = WaitReturned
}.

Lemma sending_app l1 l2 : sending (l1 ++ l2) = sending l1 ++ sending l2.
Proof. apply omap_app. Qed.
Lemma sending_run l1 j l2 : sending (l1 ++ mkHandler j HRun :: l2) = sending (l1 ++ l2).
Proof. by rewrite !sending_app. Qed.
Lemma sending_send l1 j l2 : sending (l1 ++ mkHandler j HSend :: l2) ≡ₚ j_id j :: sending (l1 ++ l2).
Proof. rewrite !sending_app. cbn. by rewrite Permutation_middle. Qed.
Lemma sending_spawned j k : sending (replicate k (mkHandler j HRun)) = [].
Proof. by induction k. Qed.
Lemma handlers_shrink (l1 l2 : list handler) h x : x ∈ l1 ++ l2 → x ∈ l1 ++ h :: l2.
Proof. set_solver. Qed.
Lemma handlers_keep (l1 l2 : list handler) h x : x ∈ l1 ++ h :: l2 → x ≠ h → x ∈ l1 ++ l2.
Proof. set_solver. Qed.

Lemma start_ack l : NoDup (map j_id l) → ack_inv (matchAndDispatch l).
Proof. intros Hl. split; cbn; try (intros; set_solver). - by rewrite app_nil_r. - constructor. Qed.
Lemma start_chan l : chan_inv (matchAndDispatch l).
Proof. split; cbn; naive_solver. Qed.

(** A handler ends without an acknowledgement of its own. *)
Lemma ended_ack s l1 j l2 :
  ack_inv s → d_handlers s = l1 ++ mkHandler j HRun :: l2 → (j_acks j = true → d_once s (j_id j) ≠ OnceNew) → ack_inv (ended l1 l2 s).
Proof.
  intros [H1 H2 H3 H4 H5 H6 H7 H8] Hh Hj. rewrite Hh in *. rewrite sending_run in *. destruct s; cbn in *.
  split; cbn; rewrite ?sending_run; auto.
  - rewrite H2, !length_app. cbn. lia.
  - intros h Hin. apply H3. by apply handlers_shrink.
  - intros j' Hg Hk Ha Ho. eapply handlers_keep; [by apply H7|]. intros [= ->]. by apply Hj.
Qed.

(** An acknowledgement gets to the copying goroutine. *)
Lemma sent_ack s s' l1 j l2 :
  ack_inv s → d_handlers s = l1 ++ mkHandler j HSend :: l2 → taken s' ≡ₚ j_id j :: taken s →
  d_handlers s' = l1 ++ l2 → d_once s' = set_once (j_id j) OnceDone (d_once s) → d_wg s' = (d_wg s - 1)%Z →
  d_todo s' = d_todo s → d_given s' = d_given s → ack_inv s'.
Proof.
  intros [H1 H2 H3 H4 H5 H6 H7 H8] Hh Ht Hh' Ho Hw Htd Hg. rewrite Hh in *.
  rewrite sending_send in H4. cbn in H4. apply NoDup_cons in H4 as [Hn H4].
  split; rewrite ?Hh', ?Ho, ?Hw, ?Htd, ?Hg; auto.
  - rewrite H2, !length_app. cbn. lia.
  - intros h Hin. apply H3. by apply handlers_shrink.
  - rewrite Ht, <-Permutation_middle. by constructor.
  - intros n. unfold set_once. case_decide as Hd; [|rewrite H5, sending_send; set_solver]. subst. split; [done|]. set_solver.
  - intros n. unfold set_once. rewrite Ht. case_decide as Hd; [subst; set_solver|]. rewrite H6. set_solver.
  - intros j' Hj Hk Ha. unfold set_once. case_decide; [done|]. intros Hnew. eapply handlers_keep; [by apply H7|]. done.
  - intros n. rewrite Ht. intros [->|Hin]%elem_of_cons; [|by apply H8].
    exists j. destruct (H3 (mkHandler j HSend)) as [? Ha]; [set_solver|]. auto.
Qed.

Lemma ack_same s s' :
  ack_inv s → taken s' ≡ₚ taken s → d_handlers s' = d_handlers s → d_once s' = d_once s → d_wg s' = d_wg s →
  d_todo s' = d_todo s → d_given s' = d_given s → ack_inv s'.
Proof.
  intros [H1 H2 H3 H4 H5 H6 H7 H8] Ht Hh Ho Hw Htd Hg. split; rewrite ?Hh, ?Ho, ?Hw, ?Htd, ?Hg; auto; setoid_rewrite Ht; auto.
Qed.

Lemma spawn_ack s j l : ack_inv s → d_todo s = j :: l → ack_inv (spawn j (s {{ d_todo := l }})).
Proof.
  intros [H1 H2 H3 H4 H5 H6 H7 H8] Ht. rewrite Ht in *. destruct s; cbn in *. unfold taken in *. cbn in *.
  split; cbn; rewrite ?sending_app, ?sending_spawned, ?app_nil_r; auto.
  - rewrite map_app in *. cbn. by rewrite <-Permutation_middle.
  - rewrite H2, length_app, length_replicate. lia.
  - intros h [Hin|[-> _]%elem_of_replicate]%elem_of_app; [destruct (H3 _ Hin); split; [by right|done]|]. cbn. split; [by left|done].
  - intros j' [->|Hj]%elem_of_cons Hk Ha Ho; apply elem_of_app; [right; apply elem_of_replicate; split; [done|lia]|left; by apply H7].
  - intros n Hn. destruct (H8 n Hn) as (j' & ? & ?). exists j'. split; [by right|done].
Qed.

Lemma dispatch_step_ack s s' : ack_inv s → dispatch_step s s' → ack_inv s'.
Proof.
  intros Hi Hs. destruct Hs as [s j l Hm Ht|s|s|s|s l1 j l2 Hh Ha|s l1 j l2 Hh Ha Ho|s l1 j l2 Hh Ha Ho|s l1 j l2 Hh Hc|s l1 j l2 Hh Hc|s n Hc|s Hc|s Hc].
  - by apply spawn_ack.
  - by apply (ack_same s); destruct s.
  - by apply (ack_same s); destruct s.
  - by apply (ack_same s); destruct s.
  - eapply ended_ack; [done..|]. congruence.
  - destruct Hi as [H1 H2 H3 H4 H5 H6 H7 H8]. rewrite Hh in *. rewrite sending_run in *.
    assert (j_id j ∉ sending (l1 ++ l2) ++ taken s) as Hnew.
    { rewrite elem_of_app, <-H5, <-H6. rewrite Ho. naive_solver. }
    destruct s; cbn in *. unfold taken in *. cbn in *. split; cbn; auto.
    + rewrite H2, !length_app. done.
    + intros h Hin. destruct (decide (h = mkHandler j HSend)) as [->|Hne]; [split; [by apply (H3 (mkHandler j HRun)); set_solver|done]|].
      apply H3. apply handlers_shrink. by eapply handlers_keep.
    + rewrite sending_send. cbn. by constructor.
    + intros n. rewrite sending_send. unfold set_once. case_decide; [subst; set_solver|]. rewrite H5. set_solver.
    + intros n. unfold set_once. case_decide; [subst; split; [done|set_solver]|]. by rewrite H6.
    + intros j' Hg Hk Hja. unfold set_once. case_decide as Hd; [done|]. intros Hn. apply handlers_shrink.
      eapply handlers_keep; [by apply H7|]. intros [= ->]. done.
  - eapply ended_ack; [done..|]. congruence.
  - apply (sent_ack s _ l1 j l2); try done; destruct s; cbn in *; subst; unfold taken; cbn; done.
  - apply (sent_ack s _ l1 j l2); try done; destruct s; cbn in *; subst; unfold taken; cbn; [|done..]. by rewrite Permutation_middle.
  - apply (ack_same s); try done; destruct s; cbn in *; subst; done.
  - apply (ack_same s); try done; destruct s; cbn in *; subst; done.
  - apply (ack_same s); try done; destruct s; cbn in *; subst; done.
Qed.

(** While a handler runs, the waiting goroutine waits. *)
Lemma handler_waits s l1 h l2 : chan_inv s → d_handlers s = l1 ++ h :: l2 → d_wait s ≠ WaitReturned.
Proof. intros Hi Hh Hw. pose proof (di_over _ Hi Hw) as Hn. rewrite Hh in Hn. by destruct l1. Qed.

Lemma dispatch_step_chan s s' : ack_inv s → chan_inv s → dispatch_step s s' → chan_inv s'.
Proof.
  intros Ha [] Hs. pose proof (di_wg _ Ha) as Hwg. destruct Hs; destruct s; cbn in *; subst; split; cbn in *.
  all: try intuition congruence.
  { intros _. apply length_zero_iff_nil. lia. }
  all: intros Hw; by destruct l1; specialize (di_over0 Hw).
Qed.

(** ** Every run comes to an end *)

Definition job_weight (j : job) : nat := 1 + 5 * j_handlers j.
Definition handler_weight (h : handler) : nat := match h_pos h with HRun => 5 | HSend => 4 end.
Definition dispatch_weight s : nat :=
  sum_list_with job_weight (d_todo s) + sum_list_with handler_weight (d_handlers s)
  + match d_main s with MainLoop => 4 | MainStopping => 3 | MainReturned => 0 end
  + match d_copy s with CopyIdle => 2 | CopySend _ => 3 | CopyDrain => 1 | CopyReturned => 0 end
  + match d_wait s with WaitNotStarted => 0 | WaitGroup => 1 | WaitReturned => 0 end.

Lemma dispatch_step_weight s s' : dispatch_step s s' → dispatch_weight s' < dispatch_weight s.
Proof.
  intros Hs. destruct Hs; destruct s; unfold dispatch_weight, spawn, ended in *; cbn in *; subst; cbn;
    rewrite ?sum_list_with_app; cbn; try lia.
  enough (sum_list_with handler_weight (replicate (j_handlers j) (mkHandler j HRun)) = 5 * j_handlers j) as -> by (unfold job_weight; lia).
  induction (j_handlers j) as [|k IH]; [done|]. cbn [replicate sum_list_with]. rewrite IH. cbn. lia.
Qed.

Lemma dispatch_sn s : sn dispatch_step s.
Proof. induction s as [s IH] using (induction_ltof1 _ dispatch_weight). constructor. intros s' Hs. apply IH, dispatch_step_weight, Hs. Qed.

(** ** No goroutine is left behind *)

Definition dispatch_over s : Prop :=
  d_main s = MainReturned ∧ d_copy s = CopyReturned ∧ d_wait s = WaitReturned ∧ d_handlers s = [] ∧ d_todo s = [].

Lemma in_sending l n : n ∈ sending l → ∃ l1 j l2, l = l1 ++ mkHandler j HSend :: l2 ∧ j_id j = n.
Proof.
  intros Hn. apply list_elem_of_omap in Hn as ([j p] & Hin & Hp). destruct p; [done|]. injection Hp as <-.
  apply list_elem_of_split in Hin as (l1 & l2 & ->). eauto.
Qed.

Ltac moves C := match goal with Hn : nf _ _ |- _ => exfalso; apply Hn; eexists; eapply C; cbn; eauto; congruence end.

Section stuck.
Context s (Ha : ack_inv s) (Hc : chan_inv s) (Hn : nf dispatch_step s).

Lemma copy_free : ∀ n, d_copy s ≠ CopySend n.
Proof. intros n Hcopy. moves ds_out. Qed.

Lemma nothing_sent : sending (d_handlers s) = [].
Proof.
  destruct (sending (d_handlers s)) as [|n l] eqn:He; [done|].
  destruct (in_sending (d_handlers s) n) as (l1 & j & l2 & Hh & _); [rewrite He; by left|].
  pose proof (handler_waits _ _ _ _ Hc Hh). pose proof (di_in_done _ Hc).
  destruct (d_copy s) eqn:Hcopy; [moves ds_send|by apply copy_free in Hcopy|moves ds_drop|tauto].
Qed.

Lemma no_handlers : d_handlers s = [].
Proof.
  destruct (d_handlers s) as [|[j p] l] eqn:Hh; [done|].
  destruct p; [|by pose proof nothing_sent as Hs; rewrite Hh in Hs].
  destruct (j_acks j) eqn:Hj; [|moves (ds_no_ack s [])].
  destruct (d_once s (j_id j)) eqn:Ho; [moves (ds_ack s [])| |moves (ds_acked s [])].
  apply (di_running _ Ha) in Ho. rewrite nothing_sent in Ho. by apply elem_of_nil in Ho.
Qed.

Lemma stuck_over : dispatch_over s.
Proof.
  pose proof no_handlers as Hh. pose proof (di_wg _ Ha) as Hw. rewrite Hh in Hw. cbn in Hw.
  assert (d_main s ≠ MainLoop) as Hm by (intros Hm; destruct (d_todo s) eqn:?; [moves ds_closed|moves ds_message]).
  destruct (di_main _ Hc Hm) as [Htodo Hstop].
  assert (ackCopyStopped s = true) as Hcs.
  { apply (di_copy _ Hc). destruct (d_copy s) eqn:Hcopy; auto; [moves ds_stop|by apply copy_free in Hcopy]. }
  assert (d_main s = MainReturned) as Hr by (destruct (d_main s) eqn:?; [done|moves ds_returned|done]).
  assert (d_wait s = WaitReturned) as Hwait.
  { apply (di_wait _ Hc) in Hr. destruct (d_wait s) eqn:?; [done|moves ds_waited|done]. }
  repeat split; auto. destruct (proj1 (di_copy _ Hc) Hcs) as [Hcopy|]; [|done].
  apply (di_waited _ Hc) in Hwait. moves ds_end.
Qed.
End stuck.

Lemma dispatch_reach l s : NoDup (map j_id l) → rtc dispatch_step (matchAndDispatch l) s → ack_inv s ∧ chan_inv s.
Proof.
  intros Hl. revert s. apply rtc_ind_r; [auto using start_ack, start_chan|].
  intros s s' _ Hs [? ?]. eauto using dispatch_step_ack, dispatch_step_chan.
Qed.

Lemma given_all l s : rtc dispatch_step (matchAndDispatch l) s → d_todo s ++ d_given s ≡ₚ l.
Proof.
  revert s. apply rtc_ind_r; [by rewrite app_nil_r|]. intros s s' _ Hs <-.
  destruct Hs; destruct s; cbn in *; subst; try done. by rewrite <-Permutation_middle.
Qed.

(** C15: Handlers that run at the same time.  However they are scheduled, nothing is sent on a
    channel that was closed before, no message is acknowledged twice, and the run is finite;
    when it is over all goroutines have returned, and every message that has a handler and
    needs an acknowledgement was given one, which went out or was dropped after the stop. *)
Theorem dispatch_unordered l s :
  NoDup (map j_id l) → rtc dispatch_step (matchAndDispatch l) s →
  ((∀ n, d_copy s = CopySend n → ackOutClosed s = false) ∧ (d_handlers s ≠ [] → ackInClosed s = false))
  ∧ NoDup (d_out s ++ d_dropped s) ∧ sn dispatch_step s
  ∧ (nf dispatch_step s → dispatch_over s
       ∧ ∀ j, j ∈ l → 0 < j_handlers j → j_acks j = true → j_id j ∈ d_out s ++ d_dropped s).
Proof.
  intros Hl Hr. destruct (dispatch_reach _ _ Hl Hr) as [Ha Hc]. split_and!.
  - intros n Hn. apply not_true_is_false. intros Ho%(di_out _ Hc)%(di_out_copy _ Hc)%(di_copy _ Hc). rewrite Hn in Ho. naive_solver.
  - intros Hh. apply not_true_is_false. intros Hi%(di_in _ Hc)%(di_in_done _ Hc)%(di_over _ Hc). done.
  - pose proof (di_once _ Ha) as Hd. unfold taken in Hd. by apply NoDup_app in Hd as (_&_&(_&_&?)%NoDup_app).
  - apply dispatch_sn.
  - intros Hn. pose proof (stuck_over _ Ha Hc Hn) as Hover. split; [done|]. destruct Hover as (_ & Hcopy & _ & Hh & Ht).
    intros j Hj Hk Hja. rewrite <-(given_all _ _ Hr), Ht in Hj.
    assert (d_once s (j_id j) = OnceDone) as Ho%(di_done _ Ha); [|unfold taken in Ho; by rewrite Hcopy in Ho].
    destruct (d_once s (j_id j)) eqn:Ho; [|apply (di_running _ Ha) in Ho; rewrite Hh in Ho; by apply elem_of_nil in Ho|done].
    pose proof (di_acked _ Ha j Hj Hk Hja Ho) as Hin. rewrite Hh in Hin. by apply elem_of_nil in Hin.
Qed.

(** ** Witnesses *)

(** A message for two handlers. *)
Definition two_handlers : list job := [mkJob 0 2 true].

Lemma dispatch_unordered_witness :
  ∃ s, rtc dispatch_step (matchAndDispatch two_handlers) s ∧ d_handlers s = [mkHandler (mkJob 0 2 true) HRun] ∧ NoDup (d_out s ++ d_dropped s).
Proof.
  assert (∃ s, rtc dispatch_step (matchAndDispatch two_handlers) s ∧ d_handlers s = [mkHandler (mkJob 0 2 true) HRun]) as (s & Hr & Hh).
  { eexists. split.
    - eapply rtc_l; [by eapply (ds_message _ (mkJob 0 2 true) [])|].
      eapply rtc_l; [by eapply (ds_ack _ [] (mkJob 0 2 true) [mkHandler (mkJob 0 2 true) HRun])|].
      eapply rtc_l; [by eapply (ds_send _ [] (mkJob 0 2 true) [mkHandler (mkJob 0 2 true) HRun])|].
      eapply rtc_l; [by eapply (ds_out _ 0)|]. apply rtc_refl.
    - done. }
  exists s. split; [exact Hr|]. split; [exact Hh|]. by apply (dispatch_unordered two_handlers _ (NoDup_singleton 0) Hr).
Defined.
