(* ===== verification/Resume.v ===== *)
(** * Resume: how many stored messages are sent again at a time

    Models the semaphore of [resume] in [src/mqtt/client.go]: with [MaxResumePubInFlight] set, a
    stored publish is sent again when fewer than so many wait for their acknowledgement.  What
    is sent, and with which tokens, is in [Client]; here are the goroutines that wait for the
    tokens, the cancelling of the context, and the semaphore of [golang.org/x/sync], as its
    documentation has it: [Acquire] takes a unit, or fails when the context is done and leaves
    the semaphore as it is; [Release] gives a unit back, and panics if none is held. *)
From S2P Require Import Prelude.

(** The loop: between two publishes, in [getSemaphore], in the [select], returned. *)
Inductive resume_pos := ResIdle | ResAcquire (m : nat) | ResSend (m : nat) | ResReturned.

(** The publishes by their place in the store.  [held] is what the semaphore counts, below
    zero after a panic; [pending] are the goroutines of [releaseSemaphore]. *)
Record resuming := mkResuming {
  r_todo : list nat;
  r_pos : resume_pos;
  held : Z;
  pending : list nat;
  acked : gset nat;
  r_sent : list nat;
  r_stop : bool;
  ctx_cancelled : bool
}.
Implicit Types s : resuming.

Definition resume_start (n : nat) : resuming := mkResuming (seq 0 n) ResIdle 0 [] ∅ [] false false.

Section Resume.
Context (MaxResumePubInFlight : Z).

(** Without a limit [getSemaphore] and [releaseSemaphore] do nothing. *)
Definition limited : bool := bool_decide (0 < MaxResumePubInFlight)%Z.

Inductive resume_step : resuming → resuming → Prop :=
  | rs_next s m l : r_pos s = ResIdle → r_todo s = m :: l → resume_step s (s {{ r_todo := l; r_pos := ResAcquire m }})
  (* getSemaphore, whose error is not looked at *)
  | rs_unlimited s m : r_pos s = ResAcquire m → limited = false → resume_step s (s {{ r_pos := ResSend m }})
  | rs_acquire s m : r_pos s = ResAcquire m → limited = true → (held s < MaxResumePubInFlight)%Z →
      resume_step s (s {{ held ::= λ k, (k + 1)%Z; r_pos := ResSend m }})
  | rs_acquire_fails s m : r_pos s = ResAcquire m → limited = true → ctx_cancelled s = true → resume_step s (s {{ r_pos := ResSend m }})
  (* the select, then releaseSemaphore *)
  | rs_send s m : r_pos s = ResSend m → resume_step s (s {{ r_sent ::= λ l, l ++ [m]; pending ::= if limited then cons m else id; r_pos := ResIdle }})
  | rs_stopped s m : r_pos s = ResSend m → r_stop s = true → resume_step s (s {{ r_pos := ResReturned; ctx_cancelled := true }})
  | rs_end s : r_pos s = ResIdle → r_todo s = [] → resume_step s (s {{ r_pos := ResReturned; ctx_cancelled := true }})
  (* a token completes, and its goroutine releases *)
  | rs_ack s m : m ∈ r_sent s → resume_step s (s {{ acked ::= union {[m]} }})
  | rs_release s l1 m l2 : pending s = l1 ++ m :: l2 → m ∈ acked s ∨ ctx_cancelled s = true →
      resume_step s (s {{ pending := l1 ++ l2; held ::= λ k, (k - 1)%Z }})
  (* the connection is stopped, and the context cancelled *)
  | rs_stop s : resume_step s (s {{ r_stop := true }})
  | rs_cancel s : r_stop s = true → resume_step s (s {{ ctx_cancelled := true }}).

Definition holding (p : resume_pos) : Z := match p with ResSend _ => 1 | _ => 0 end.
Definition current (p : resume_pos) : list nat := match p with ResAcquire m | ResSend m => [m] | _ => [] end.

Section Limited.
Context (Hlim : limited = true).

Record resume_inv (n : nat) s : Prop := {
  ri_order : r_pos s ≠ ResReturned → r_sent s ++ current (r_pos s) ++ r_todo s = seq 0 n;
  ri_prefix : r_sent s `prefix_of` seq 0 n;
  ri_pending m : m ∈ pending s → m ∈ r_sent s;
  ri_nodup : NoDup (pending s);
  ri_held : ctx_cancelled s = false → held s = (Z.of_nat (length (pending s)) + holding (r_pos s))%Z ∧ (0 ≤ held s ≤ MaxResumePubInFlight)%Z;
  ri_waiting m : ctx_cancelled s = false → m ∈ r_sent s → m ∉ acked s → m ∈ pending s
}.

(** A message that is being sent was not sent before. *)
Lemma current_fresh n (l l' : list nat) m : l ++ m :: l' = seq 0 n → m ∉ l.
Proof. intros H Hm. pose proof (NoDup_seq 0 n) as Hn. rewrite <-H in Hn. apply NoDup_app in Hn as (_ & Hd & _). apply (Hd m); set_solver. Qed.

Lemma resume_step_inv n s s' : resume_inv n s → resume_step s s' → resume_inv n s'.
Proof.
  intros [H1 H2 H3 H4 H5 H6] Hs. destruct Hs as [s m l Hp Ht|s m Hp Hu|s m Hp _ Hm|s m Hp _ Hc|s m Hp|s m Hp|s Hp|s m Hm|s l1 m l2 Hp Hd|s|s Hs];
    try rewrite Hlim; destruct s; cbn in *; subst; cbn in *.
  - split; cbn; auto.
  - congruence.
  - split; cbn; auto. intros Hc. specialize (H5 Hc). lia.
  - split; cbn; auto; done.
  - pose proof (current_fresh _ _ _ _ (H1 ltac:(done))) as Hf. split; cbn.
    + intros _. rewrite <-app_assoc. by apply H1.
    + exists r_todo0. rewrite <-app_assoc. symmetry. by apply H1.
    + set_solver.
    + constructor; auto.
    + intros Hc. specialize (H5 Hc). lia.
    + intros m' Hc. specialize (H6 m' Hc). set_solver.
  - split; cbn; auto; done.
  - split; cbn; auto; done.
  - split; cbn; auto. set_solver.
  - split; cbn; auto.
    + intros m' Hm'. apply H3. set_solver.
    + rewrite <-Permutation_middle in H4. by apply NoDup_cons in H4 as [_ ?].
    + intros Hc. specialize (H5 Hc). rewrite length_app in *. cbn in *. destruct (holding r_pos0) eqn:?; destruct r_pos0; cbn in *; lia.
    + intros m' Hc Hin Ha. specialize (H6 m' Hc Hin Ha). destruct Hd as [Hd|Hd]; [|congruence]. set_solver.
  - split; cbn; auto; done.
  - split; cbn; auto; done.
Qed.

Lemma resume_reach n s : rtc resume_step (resume_start n) s → resume_inv n s.
Proof.
  pose proof Hlim as Hmax. unfold limited in Hmax. apply bool_decide_eq_true in Hmax.
  revert s. apply rtc_ind_r; [|by eauto using resume_step_inv].
  split; cbn; try set_solver; first [lia | constructor | apply prefix_nil].
Qed.

End Limited.

(** C8: Resending with a limit.  When [MaxResumePubInFlight] is set, and as long as the context
    of [resume] is not cancelled (it is when [resume] returns and when the connection is
    stopped), no more than that many of the messages sent again wait for their
    acknowledgement, and the semaphore counts them; what was sent is always the beginning of
    what was stored. *)
Theorem resume_bounded n s :
  (0 < MaxResumePubInFlight)%Z → rtc resume_step (resume_start n) s →
  r_sent s `prefix_of` seq 0 n
  ∧ (ctx_cancelled s = false →
       (Z.of_nat (length (filter (λ m, m ∉ acked s) (r_sent s))) ≤ held s ≤ MaxResumePubInFlight)%Z).
Proof.
  intros Hmax Hr. assert (limited = true) as Hlim by (by apply bool_decide_eq_true).
  destruct (resume_reach Hlim _ _ Hr) as [H1 H2 H3 H4 H5 H6]. split; [done|].
  intros Hc. destruct (H5 Hc) as [Hh Hb]. split; [|lia].
  assert (length (filter (λ m, m ∉ acked s) (r_sent s)) ≤ length (pending s))%nat as Hl.
  { apply submseteq_length, NoDup_submseteq.
    - apply NoDup_filter. destruct H2 as [l Hl]. pose proof (NoDup_seq 0 n) as Hn. rewrite Hl in Hn. by apply NoDup_app in Hn as [? _].
    - intros m [Ha Hm]%list_elem_of_filter. auto. }
  unfold holding in Hh. destruct (r_pos s); lia.
Qed.
End Resume.

(** When the connection is stopped while [resume] waits for the semaphore, the failed
    [Acquire] does not keep it from sending, and its goroutine releases what was never
    acquired. *)
Definition released : resuming := mkResuming [] ResIdle (-1) [] ∅ [0; 1] true true.

Theorem resume_releases_too_much : rtc (resume_step 1) (resume_start 2) released ∧ (held released < 0)%Z.
Proof.
  split; [|done].
  eapply rtc_l; [by eapply (rs_next _ _ 0 [1])|]. eapply rtc_l; [by eapply rs_acquire|]. eapply rtc_l; [by eapply rs_send|].
  eapply rtc_l; [by eapply (rs_next _ _ 1 [])|]. eapply rtc_l; [by eapply rs_stop|]. eapply rtc_l; [by eapply rs_cancel|].
  eapply rtc_l; [by eapply rs_acquire_fails|]. eapply rtc_l; [by eapply rs_send|].
  eapply rtc_l; [by eapply (rs_release _ _ [1] 0 []); [|right]|].
  eapply rtc_l; [by eapply (rs_release _ _ [] 1 []); [|right]|]. apply rtc_refl.
Qed.

(** ** Witnesses *)

Definition one_sent : resuming := mkResuming [1] ResIdle 1 [0] ∅ [0] false false.
Lemma one_sent_reached : rtc (resume_step 1) (resume_start 2) one_sent.
Proof.
  eapply rtc_l; [by eapply (rs_next _ _ 0 [1])|]. eapply rtc_l; [by eapply rs_acquire|]. eapply rtc_l; [by eapply rs_send|]. apply rtc_refl.
Qed.

Lemma resume_bounded_witness : (Z.of_nat (length (filter (λ m, m ∉ acked one_sent) (r_sent one_sent))) ≤ held one_sent ≤ 1)%Z.
Proof. by apply (resume_bounded 1 2 one_sent ltac:(lia) one_sent_reached). Defined.
