(* ===== verification/Forward.v ===== *)
(** * Forward: messages between nodes

    Models [src/broker/etcdrouter.go] and [src/model/forward.go]: a node that has a message
    for a client of another node puts it into the store below the directory of that node,
    which watches the directory, hands the message to the client and removes the key.

    The store and its JSON encoding are those of [Cluster]; the work a message causes is
    [Receive_one] of [Broker], submitted under the client's id, so that [Pool] keeps the
    order of the messages for one client. *)
From S2P Require Import Prelude Wire Packets Topics TopicLevels TopicsSpec Acl Sessions Bridge Broker BrokerInv BrokerDelivery Cluster ClusterSpec.
Local Open Scope Z_scope.

(** [model.Forward]; the packet is a pointer. *)
Record Forward := mkForward { fwd_ClientID : string; fwd_Packet : option PublishPacket; fwd_Timestamp : Z }.

(** [etcdRouter], as [NewBroker] sets it up. *)
Record etcdRouter := mkRouter { forwardDir : string; forwardWatchDir : string }.
Definition router_of (cluster id : string) : etcdRouter :=
  let forwardPrefix := String.append (String.append "/" cluster) "/forward" in
  mkRouter forwardPrefix (entry forwardPrefix id).

Lemma has_prefix_refl x : has_prefix x x = true.
Proof. rewrite <-(append_empty_r x) at 1. apply has_prefix_app. Qed.

Section Forward.
Context {T : Type} `{Etcd T, Json Forward}.
Implicit Types t : T.

(** [etcdRouter.Forward], with the name [genUUID.New] gave. *)
Definition forward_key (r : etcdRouter) (nodeID uuid : string) : string := entry (entry (forwardDir r) nodeID) uuid.
Definition etcdRouter_Forward (r : etcdRouter) (nodeID uuid : string) (data : Forward) : request (T := T) :=
  λ t, value ← Marshal data; etcdStore_Put (forward_key r nodeID uuid) value t.

(** What a node writes for an output of its handlers. *)
Definition forward_out (r : etcdRouter) (uuid : string) (now : Z) (o : effect) : option (request (T := T)) :=
  match o with
  | Forwarded nodeID clientID p => Some (etcdRouter_Forward r nodeID uuid (mkForward clientID (Some p) now))
  | _ => None
  end.

(** The subscriber is a client of the node [nodeID] with the name [clientID]. *)
Definition remote (s : state) (b : positive) (nodeID clientID : string) : Prop :=
  ∃ c, heap s !! b = Some c ∧ typ c = REMOTE ∧ info_NodeID (info c) = nodeID ∧ info_ID (info c) = clientID.

Lemma remote_evolves s s' b n i :
  (∀ b c, heap s !! b = Some c → ∃ c', heap s' !! b = Some c' ∧ same_name c c') → remote s b n i → remote s' b n i.
Proof. intros He (c & Hc & Ht & Hn & Hi). destruct (He b c Hc) as (c' & Hc' & E1 & E2 & E3). exists c'. split_and!; congruence. Qed.

Lemma publish_forwards cfg now sub p s n i :
  remote s (sub_client sub) n i → ValidQos (Qos (pub_FixedHeader p)) = true →
  out (publish cfg now sub p s) = out s ++ [Forwarded n i p].
Proof.
  intros (c & Hc & Ht & <- & <-) Hq%ValidQos_range. unfold publish. rewrite Hc, Ht. repeat case_decide; [done..|lia].
Qed.

Lemma route_forwards cfg Intn now p s x q path sub n i :
  swf (tree s) → topic_ok (pub_TopicName p) = true → ValidQos (Qos (pub_FixedHeader p)) = true →
  (x, q) ∈ entries (tree s) path → fmatch path (filter_path (pub_TopicName p)) = true →
  subs_heap s !! x = Some sub → sub_share sub = false → remote s (sub_client sub) n i →
  Forwarded n i p ∈ sent_since s (route cfg Intn now p s).
Proof.
  intros Hwf Ht Hq Hx Hm Hsub Hsh Hr.
  destruct (route_plain cfg Intn now p s x q path sub) as (l & -> & (l1 & l2 & ->)%list_elem_of_split); [done..|].
  rewrite foldl_app. cbn [foldl]. set (s1 := foldl _ s l1).
  assert (He : evolves same_name s s1).
  { apply evolves_foldl. intros s0 y. unfold publish_addr. case_match; [apply evolves_publish|reflexivity]. }
  apply (sent_since_between s s1 (publish_addr cfg now p s1 x)).
  - apply (spares_foldl x (publish_addr cfg now p)). intros. apply spares_publish_addr.
  - unfold publish_addr. destruct He as (-> & _ & _ & Hh). rewrite Hsub. symmetry. apply publish_forwards; [|done].
    by eapply remote_evolves.
  - apply (spares_foldl x (publish_addr cfg now p)). intros. apply spares_publish_addr.
Qed.

Lemma publish_forwarded cfg Intn now a c p s x q path sub n i :
  inv s → heap s !! a = Some c → accepted cfg c p → bridged cfg (pub_TopicName p) = false →
  topic_ok (pub_TopicName p) = true → ValidQos (Qos (pub_FixedHeader p)) = true → validatePacketFields (PPublish p) = true →
  (x, q) ∈ entries (tree s) path → fmatch path (filter_path (pub_TopicName p)) = true →
  subs_heap s !! x = Some sub → sub_share sub = false → remote s (sub_client sub) n i →
  ∃ s', ProcessMessage cfg Intn now a (PPublish p) false s = Some s' ∧ Forwarded n i p ∈ sent_since s s'.
Proof.
  intros [Hwf _] Hc Hacc Hbr Ht Hq Hv Hx Hm Hsub Hsh Hr. unfold ProcessMessage. rewrite Hc, Hv.
  cbn [mbind option_bind negb]. eexists. split; [done|].
  destruct (accepted_processed cfg Intn now a p s c Hc Hacc Hq) as (s1 & Hsp & Htm & Hss & [c1 Hc1] & Hn & ->).
  unfold bridged in Hbr. unfold ProcessPublishMessage. rewrite Hc1, Hbr.
  set (s2 := if Retain (pub_FixedHeader p) then _ else s1).
  assert (H2 : tree s2 = tree s ∧ subs_heap s2 = subs_heap s ∧ heap s2 = heap s1 ∧ out s2 = out s1).
  { unfold s2. rewrite <-Htm, <-Hss. destruct (Retain _); [|done]. cbn. by rewrite tree_Retain. }
  destruct H2 as (Htr & Hs2 & Hh2 & Ho2).
  assert (Hr2 : remote s2 (sub_client sub) n i) by (apply (remote_evolves s); [by rewrite Hh2|done]).
  eapply (sent_since_mono s s2 _ _ _); [|apply (route_forwards cfg Intn now p s2 x q path sub n i); by rewrite ?Htr, ?Hs2| |done].
  - rewrite Ho2. apply (Hsp a).
  - unfold route. case_match; [|done]. rewrite sort_out_eq, publish_groups_eq, <-foldl_app.
    apply (spares_foldl a (publish_addr cfg now p)). intros. apply spares_publish_addr.
Qed.

Section Receive.
Context (cfg : config) (Intn : string → nat → nat) (now : Z).

(** One event of the watch; [None] is a panic.  The loop goes on with the next event, and
    leaves the key, when the value cannot be read or the client is not one of this node. *)
Definition Receive_event (s : state) t (ev : kv_event) : option (state * T) :=
  if is_delete (ev_Type ev) then Some (s, t)
  else
    match event_value (ev_Value ev) with
    | None => Some (s, t)
    | Some value =>
        match clients s !! fwd_ClientID value with
        | None => Some (s, t)
        | Some a =>
            c ← heap s !! a;
            if decide (typ c ≠ LOCAL) then Some (s, t)
            else
              p ← fwd_Packet value;
              s ← ProcessMessage cfg Intn now a (PPublish p) true s;
              Some (s, (try_request (etcdStore_Del (ev_Key ev)) t).1)
        end
    end.

(** The watch, which sees the keys that begin with its directory. *)
Fixpoint Receive (r : etcdRouter) (evs : list kv_event) (s : state) t : option (state * T) :=
  match evs with
  | [] => Some (s, t)
  | ev :: evs =>
      '(s, t) ← (if has_prefix (ev_Key ev) (forwardWatchDir r) then Receive_event s t ev else Some (s, t));
      Receive r evs s t
  end.
End Receive.

(** The event is the task [Receive_one] of [Broker], whatever becomes of the key. *)
Lemma Receive_event_task cfg Intn now s t ev f p :
  is_delete (ev_Type ev) = false → event_value (ev_Value ev) = Some f → fwd_Packet f = Some p →
  option_map fst (Receive_event cfg Intn now s t ev) = Receive_one cfg Intn now (fwd_ClientID f) p s.
Proof.
  intros Hd Hv Hp. unfold Receive_event, Receive_one. rewrite Hd, Hv.
  destruct (clients s !! fwd_ClientID f) as [a|]; [|done]. destruct (heap s !! a) as [c|]; [|done]. cbn.
  case_decide; [done|]. rewrite Hp. cbn. by destruct (ProcessMessage _ _ _ _ _ _ _).
Qed.

Lemma Receive_event_inv cfg Intn now s t ev s' t' :
  inv s → Receive_event cfg Intn now s t ev = Some (s', t') → inv s'.
Proof.
  intros Hi Hr. unfold Receive_event in Hr. destruct (is_delete _); [by simplify_eq|].
  destruct (event_value _) as [f|]; [|by simplify_eq]. destruct (clients s !! _) as [a|]; [|by simplify_eq].
  destruct (heap s !! a) as [c|]; [|done]. cbn in Hr. case_decide; [by simplify_eq|].
  destruct (fwd_Packet f) as [p|]; [|done]. cbn in Hr.
  destruct (ProcessMessage _ _ _ _ _ _ _) as [s1|] eqn:Hp; [|done]. simplify_eq/=. by eapply inv_ProcessMessage.
Qed.

(** ** Between two nodes *)

Context `{!EtcdLaws T}.

(** What the code relies on of the encoding: a value whose strings are UTF-8 comes back. *)
Class ForwardLaws := {
  forward_json f d p :
    Marshal f = Some d → fwd_Packet f = Some p → ValidString (fwd_ClientID f) = true → ValidString (pub_TopicName p) = true →
    d ≠ ""%string ∧ Unmarshal d = Some f
}.
Context `{!ForwardLaws}.

(** A message forwarded at QoS 0 changes neither the clients nor their states. *)
Lemma receive_forwarded cfg Intn now s a c p :
  heap s !! a = Some c → live_client c → acl_allows cfg "pub" c (pub_TopicName p) = true →
  bridged cfg (pub_TopicName p) = false → validatePacketFields (PPublish p) = true → Qos (pub_FixedHeader p) = 0 →
  ∃ s', ProcessMessage cfg Intn now a (PPublish p) true s = Some s' ∧ out s' = out s ++ [Sent a (PPublish p)]
    ∧ heap s' = heap s ∧ clients s' = clients s.
Proof.
  intros Hc Hl Hacl Hb Hv Hq. unfold ProcessMessage. rewrite Hc, Hv. cbn [mbind option_bind negb]. eexists. split; [done|].
  unfold ProcessPublish. rewrite Hc, Hacl, Hq. cbn [negb]. rewrite decide_True by done.
  unfold bridged in Hb. unfold ProcessPublishMessage. rewrite Hc, Hb.
  set (s2 := if Retain _ then _ else _).
  assert (heap s2 = heap s ∧ clients s2 = clients s ∧ out s2 = out s) as (Hh&Hcl&Ho) by (unfold s2; by destruct (Retain _)).
  unfold publishFoward. rewrite Hq, decide_True by done. rewrite WriterPacket_live by (exists c; by rewrite Hh).
  cbn. by rewrite Hh, Hcl, Ho.
Qed.

(** The messages for a client of another node, with their names. *)
Fixpoint forward_all (r : etcdRouter) (nodeID clientID : string) (l : list (string * Z * PublishPacket)) t : option (T * list kv_event) :=
  match l with
  | [] => Some (t, [])
  | (uuid, now, p) :: l =>
      '(t, evs) ← etcdRouter_Forward r nodeID uuid (mkForward clientID (Some p) now) t;
      '(t, evs') ← forward_all r nodeID clientID l t;
      Some (t, evs ++ evs')
  end.

Definition forward_keys (r : etcdRouter) (nodeID : string) (l : list (string * Z * PublishPacket)) : list string :=
  map (λ e, forward_key r nodeID e.1.1) l.

Lemma forward_all_kv r nodeID clientID l : ∀ t t' evs key v,
  forward_all r nodeID clientID l t = Some (t', evs) →
  (∀ p, p ∈ forward_keys r nodeID l → has_prefix key p = false) → kv t' !! key = Some v ↔ kv t !! key = Some v.
Proof.
  induction l as [|[[uuid now] p] l IH]; intros t t' evs key v Hf Hk; cbn in Hf; [by simplify_eq|].
  unfold etcdRouter_Forward in Hf. destruct (Marshal _) as [d|]; [|done]. cbn in Hf.
  destruct (etcdStore_Put _ _ _) as [[t1 evs1]|] eqn:Hp; [|done]. cbn in Hf.
  destruct (forward_all _ _ _ _ t1) as [[t2 evs2]|] eqn:Hl; [|done]. simplify_eq/=.
  rewrite (IH _ _ _ _ _ Hl) by (intros q Hq; apply Hk; by right).
  apply put_ok in Hp as [-> _]. rewrite lookup_insert_ne; [done|]. intros <-.
  specialize (Hk (forward_key r nodeID uuid)). rewrite has_prefix_refl in Hk. discriminate Hk. by left.
Qed.

(** What the other node's watch sees of it. *)
Definition forwarded_as (r : etcdRouter) (nodeID clientID : string) (e : string * Z * PublishPacket) (ev : kv_event) : Prop :=
  is_delete (ev_Type ev) = false ∧ ev_Key ev = forward_key r nodeID e.1.1
  ∧ event_value (ev_Value ev) = Some (mkForward clientID (Some e.2) e.1.2).

Lemma forward_all_events r nodeID clientID l : ∀ t t' evs,
  ValidString clientID = true → Forall (λ e, ValidString (pub_TopicName e.2) = true) l →
  forward_all r nodeID clientID l t = Some (t', evs) → Forall2 (forwarded_as r nodeID clientID) l evs.
Proof.
  induction l as [|[[uuid now] p] l IH]; intros t t' evs Hc Hl Hf; cbn in Hf; [by simplify_eq|].
  apply Forall_cons in Hl as [Hp Hl]. unfold etcdRouter_Forward in Hf. destruct (Marshal _) as [d|] eqn:Hm; [|done]. cbn in Hf.
  destruct (etcdStore_Put _ _ _) as [[t1 evs1]|] eqn:Hput; [|done]. cbn in Hf.
  destruct (forward_all _ _ _ _ t1) as [[t2 evs2]|] eqn:Hr; [|done]. simplify_eq/=.
  apply put_ok in Hput as [_ ->]. destruct (forward_json _ _ p Hm eq_refl Hc Hp) as [Hd Hu].
  constructor; [|by eapply IH]. repeat split; cbn; [by case_match|]. unfold event_value. by rewrite decide_False.
Qed.

Section Node.
Context (cfg : config) (Intn : string → nat → nat) (now : Z).

(** The client may be sent the message: it may publish to the topic itself, which is what
    the code asks, the bridge of this node does not take it, and it is a valid one of QoS 0. *)
Definition may_receive (c : client) (p : PublishPacket) : Prop :=
  acl_allows cfg "pub" c (pub_TopicName p) = true ∧ bridged cfg (pub_TopicName p) = false
  ∧ validatePacketFields (PPublish p) = true ∧ Qos (pub_FixedHeader p) = 0.

Lemma Receive_all r nodeID clientID a c l evs : ∀ s t,
  Forall2 (forwarded_as r nodeID clientID) l evs → forwardWatchDir r = entry (forwardDir r) nodeID →
  clients s !! clientID = Some a → heap s !! a = Some c → live_client c →
  Forall (λ e, may_receive c e.2) l → answers (T := T) →
  ∃ s' t', Receive cfg Intn now r evs s t = Some (s', t')
    ∧ out s' = out s ++ map (λ e, Sent a (PPublish e.2)) l ∧ kv t' = gone (forward_keys r nodeID l) (kv t).
Proof.
  intros s t Hl Hw. revert s t. induction Hl as [|e ev l evs (Hd & Hk & Hv) Hl IH]; intros s t Hcl Hc Hlive Hm Hans.
  { exists s, t. cbn. by rewrite app_nil_r. }
  apply Forall_cons in Hm as [(Hacl & Hb & Hval & Hq) Hm]. cbn [Receive].
  rewrite Hk, Hw. unfold forward_key at 1. rewrite has_prefix_entry. unfold Receive_event. rewrite Hd, Hv. cbn.
  rewrite Hcl, Hc. cbn. rewrite decide_False by (destruct Hlive as (? & _); auto).
  destruct (receive_forwarded cfg Intn now s a c e.2) as (s1 & Hp & Ho & Hh & Hcl1); [done..|]. rewrite Hp. cbn.
  destruct (try_delete (ev_Key ev) t Hans) as [_ Hkv].
  destruct (IH s1 (try_request (etcdStore_Del (ev_Key ev)) t).1) as (s2 & t2 & Hr & Ho2 & Hkv2); rewrite ?Hcl1, ?Hh; auto.
  exists s2, t2. rewrite Hr, Ho2, Ho, <-app_assoc. split_and!; [done..|]. by rewrite Hkv2, Hkv, Hk.
Qed.

Lemma forwarded_delivered cluster id nodeID clientID a c l t t1 evs s :
  forward_all (router_of cluster id) nodeID clientID l t = Some (t1, evs) →
  (∀ key v p, kv t !! key = Some v → p ∈ forward_keys (router_of cluster id) nodeID l → has_prefix key p = false) →
  ValidString clientID = true → Forall (λ e, ValidString (pub_TopicName e.2) = true) l →
  clients s !! clientID = Some a → heap s !! a = Some c → live_client c →
  Forall (λ e, may_receive c e.2) l → answers (T := T) →
  ∃ s' t', Receive cfg Intn now (router_of cluster nodeID) evs s t1 = Some (s', t')
    ∧ out s' = out s ++ map (λ e, Sent a (PPublish e.2)) l ∧ kv t' = kv t.
Proof.
  intros Hf Hfresh Hcid Htop Hcl Hc Hlive Hm Hans.
  destruct (Receive_all (router_of cluster nodeID) nodeID clientID a c l evs s t1) as (s' & t' & Hr & Ho & Hkv); auto.
  { by eapply forward_all_events in Hf. }
  exists s', t'. split_and!; [done..|]. rewrite Hkv. apply map_eq. intros key. apply option_eq. intros v.
  rewrite gone_Some. split.
  - intros [Hv Hk]. by apply (forward_all_kv _ _ _ _ _ _ _ _ _ Hf).
  - intros Hv. assert (Hk := λ p Hp, Hfresh key v p Hv Hp). split; [|exact Hk]. by apply (forward_all_kv _ _ _ _ _ _ _ _ _ Hf).
Qed.

(** C12: Messages between nodes.  The messages a node forwards at QoS 0 for a client of
    another node are written to that client, all of them, once and in order, and when the
    other node is done the store holds what it held before.  The client is connected to that
    node and may itself publish to the topics (otherwise the node drops the message: see
    [forwarded_needs_publish]), the bridge does not take them, the client id and the topics
    are UTF-8, the requests to the store work, and no key below a used name was in it. *)
Theorem forwarded_in_order cluster id nodeID clientID a c l t t1 evs s :
  forward_all (router_of cluster id) nodeID clientID l t = Some (t1, evs) →
  (∀ key v p, kv t !! key = Some v → p ∈ forward_keys (router_of cluster id) nodeID l → has_prefix key p = false) →
  ValidString clientID = true → Forall (λ e, ValidString (pub_TopicName e.2) = true) l →
  clients s !! clientID = Some a → heap s !! a = Some c → live_client c →
  Forall (λ e, may_receive c e.2) l → answers (T := T) →
  ∃ s' t', Receive cfg Intn now (router_of cluster nodeID) evs s t1 = Some (s', t')
    ∧ out s' = out s ++ map (λ e, Sent a (PPublish e.2)) l ∧ kv t' = kv t.
Proof. apply forwarded_delivered. Qed.

(** C11: From one node to another.  A node accepts a PUBLISH of one of its clients, to a well
    formed topic without empty levels that its bridge does not take; a client of another node
    has a subscription, not in a shared group, under a filter without empty levels that
    matches by MQTT's rules.  Then the message is forwarded to that node.  If it is QoS 0, the
    client is connected there and may itself publish to the topic, the bridge of that node
    does not take it, client id and topic are UTF-8, the requests to the store work and the
    name was fresh, then that node writes exactly the message to the client, once, and the
    store holds what it held before. *)
Theorem published_across_nodes cfgA IntnA cluster idA idB clientID a c p sA f x q sub b cb sB :
  inv sA → heap sA !! a = Some c → accepted cfgA c p → bridged cfgA (pub_TopicName p) = false →
  topic_ok (pub_TopicName p) = true → plain (pub_TopicName p) = true →
  ValidQos (Qos (pub_FixedHeader p)) = true → validatePacketFields (PPublish p) = true →
  plain f = true → mqtt_match f (pub_TopicName p) = true → (x, q) ∈ entries (tree sA) (filter_path f) →
  subs_heap sA !! x = Some sub → sub_share sub = false → remote sA (sub_client sub) idB clientID →
  ValidString clientID = true → ValidString (pub_TopicName p) = true →
  clients sB !! clientID = Some b → heap sB !! b = Some cb → live_client cb →
  ∃ sA', ProcessMessage cfgA IntnA now a (PPublish p) false sA = Some sA' ∧ Forwarded idB clientID p ∈ sent_since sA sA'
    ∧ ∀ uuid time req t t1 evs,
        forward_out (router_of cluster idA) uuid time (Forwarded idB clientID p) = Some req → req t = Some (t1, evs) →
        under (forward_key (router_of cluster idA) idB uuid) (kv t) = ∅ → may_receive cb p → answers (T := T) →
        ∃ sB' t', Receive cfg Intn now (router_of cluster idB) evs sB t1 = Some (sB', t')
          ∧ out sB' = out sB ++ [Sent b (PPublish p)] ∧ kv t' = kv t.
Proof.
  intros Hi Hc Hacc Hbr Ht Hpt Hq Hv Hpf Hm Hx Hsub Hsh Hrem Hcid Htop Hcl Hcb Hl.
  destruct (publish_forwarded cfgA IntnA now a c p sA x q (filter_path f) sub idB clientID) as (sA' & HA & Ho);
    try done; [by apply mqtt_match_paths|].
  exists sA'. split; [done|]. split; [done|]. intros uuid time req t t1 evs [= <-] Hreq Hfresh Hmay Hans.
  apply (forwarded_delivered cluster idA idB clientID b cb [(uuid, time, p)] t t1 evs sB); try done; [| |by apply Forall_singleton..].
  - cbn [forward_all]. rewrite Hreq. cbn. by rewrite app_nil_r.
  - intros key v k Hv' [->|[]%elem_of_nil]%elem_of_cons. destruct (has_prefix key _) eqn:He; [|done]. exfalso.
    assert (under (forward_key (router_of cluster idA) idB uuid) (kv t) !! key = Some v) as Hk by (by apply map_lookup_filter_Some).
    by rewrite Hfresh, lookup_empty in Hk.
Qed.

(** A client that may subscribe to a topic but not publish to it is not sent the messages
    other nodes forward for it. *)
Theorem forwarded_needs_publish clientID a c p s :
  clients s !! clientID = Some a → heap s !! a = Some c → typ c = LOCAL →
  validatePacketFields (PPublish p) = true → acl_allows cfg "pub" c (pub_TopicName p) = false →
  Receive_one cfg Intn now clientID p s = Some s.
Proof.
  intros Hcl Hc Ht Hv Hacl. unfold Receive_one. rewrite Hcl, Hc. cbn. rewrite decide_False by auto.
  unfold ProcessMessage. rewrite Hc, Hv. cbn. unfold ProcessPublish. by rewrite Hc, Hacl.
Qed.

(** A message for a client that has left the node stays in the store for ever. *)
Theorem forwarded_to_gone_stays r ev f s t :
  event_value (ev_Value ev) = Some f →
  match clients s !! fwd_ClientID f with None => True | Some a => ∃ c, heap s !! a = Some c ∧ typ c = REMOTE end →
  Receive cfg Intn now r [ev] s t = Some (s, t).
Proof.
  intros Hv Hc. cbn. destruct (has_prefix _ _); [|done]. unfold Receive_event. rewrite Hv. destruct (is_delete _); [done|].
  destruct (clients s !! fwd_ClientID f) as [a|]; [|done]. destruct Hc as (c & -> & Ht). cbn. by rewrite decide_True by (by rewrite Ht).
Qed.

(** A node whose id is the beginning of another's id sees the messages for that node too. *)
Theorem longer_id_watched cluster id x uuid :
  has_prefix (forward_key (router_of cluster id) (String.append id x) uuid) (forwardWatchDir (router_of cluster id)) = true.
Proof.
  unfold forward_key, router_of. cbn [forwardDir forwardWatchDir]. rewrite entry_app.
  generalize (entry (String.append (String.append "/" cluster) "/forward") id). intros d.
  unfold entry. rewrite append_assoc. apply has_prefix_app.
Qed.
End Node.
End Forward.

(** ** Witnesses *)

Definition sample_forward : Forward := mkForward "c1" (Some (sample_message "a/b" 0)) 5.

#[local] Instance header_eq_dec : EqDecision FixedHeader.
Proof. solve_decision. Defined.
#[local] Instance publish_eq_dec : EqDecision PublishPacket.
Proof. solve_decision. Defined.
#[local] Instance forward_eq_dec : EqDecision Forward.
Proof. solve_decision. Defined.
#[local] Instance forward_json_sample : Json Forward := {|
  Marshal f := if decide (f = sample_forward) then Some "x"%string else None;
  Unmarshal d := if decide (d = "x"%string) then Some sample_forward else None;
  zero_value := mkForward "" None 0
|}.
#[local] Instance forward_laws_sample : ForwardLaws.
Proof. split. intros f d p Hm _ _ _. cbn in Hm. case_decide; [|done]. by simplify_eq. Qed.

Lemma forwarded_in_order_witness :
  ∃ s' (t' : gmap string string),
    Receive sample_cfg (λ _ _, O) 5 (router_of "c" "n2")
      [mkKvEvent EventTypeNew (forward_key (router_of "c" "n1") "n2" "u") "x"] sample_state
      {[forward_key (router_of "c" "n1") "n2" "u" := "x"%string]} = Some (s', t')
    ∧ out s' = out sample_state ++ [Sent 1 (PPublish (sample_message "a/b" 0))] ∧ kv t' = ∅.
Proof.
  destruct (forwarded_in_order (T := gmap string string) sample_cfg (λ _ _, O) 5 "c" "n1" "n2" "c1" 1%positive
    (sample_client 1 sample_state) [("u"%string, 5, sample_message "a/b" 0)] ∅
    {[forward_key (router_of "c" "n1") "n2" "u" := "x"%string]}
    [mkKvEvent EventTypeNew (forward_key (router_of "c" "n1") "n2" "u") "x"] sample_state) as (s' & t' & Hr & Ho & Hk); [..|exists s', t'; split; [exact Hr|split; [exact Ho|exact Hk]]].
  - reflexivity.
  - intros key v p Hv. change ((∅ : gmap string string) !! key = Some v) in Hv. by rewrite lookup_empty in Hv.
  - done.
  - by repeat constructor.
  - by vm_compute.
  - by vm_compute.
  - apply sample_live. auto.
  - constructor; [|constructor]. by vm_compute.
  - split; intros; by eexists.
Defined.

Lemma forwarded_to_gone_stays_witness :
  Receive sample_cfg (λ _ _, O) 5 (router_of "c" "n2")
    [mkKvEvent EventTypeNew (forward_key (router_of "c" "n1") "n2" "u") "x"] (initial (mkProvider ∅ ∅))
    ({[forward_key (router_of "c" "n1") "n2" "u" := "x"%string]} : gmap string string)
  = Some (initial (mkProvider ∅ ∅), {[forward_key (router_of "c" "n1") "n2" "u" := "x"%string]}).
Proof. by apply (forwarded_to_gone_stays _ _ _ _ _ sample_forward). Defined.

(** A node that knows "c1" as a client of the node "n2", subscribed to "a/b". *)
Definition other_node : state :=
  AddORUpdateSubscription (mkSub "" "c1" "n2" "a/b" 0) (AddORUpdateClient (mkInfo "c1" "n2" "" "" 0 0) sample_state).

Lemma other_node_inv : inv other_node.
Proof. apply inv_AddORUpdateSubscription, inv_AddORUpdateClient, sample_inv. Qed.

Lemma published_across_nodes_witness :
  ∃ sA' sB' (t' : gmap string string),
    ProcessMessage sample_cfg (λ _ _, O) 5 2 (PPublish (sample_message "a/b" 0)) false other_node = Some sA'
    ∧ Forwarded "n2" "c1" (sample_message "a/b" 0) ∈ sent_since other_node sA'
    ∧ Receive sample_cfg (λ _ _, O) 5 (router_of "c" "n2")
        [mkKvEvent EventTypeNew (forward_key (router_of "c" "n1") "n2" "u") "x"] sample_state
        {[forward_key (router_of "c" "n1") "n2" "u" := "x"%string]} = Some (sB', t')
    ∧ out sB' = out sample_state ++ [Sent 1 (PPublish (sample_message "a/b" 0))].
Proof.
  destruct (published_across_nodes (T := gmap string string) sample_cfg (λ _ _, O) 5 sample_cfg (λ _ _, O) "c" "n1" "n2" "c1"
    2%positive (sample_client 2 sample_state) (sample_message "a/b" 0) other_node "a/b" 3%positive 0
    (mkSubscription 3 "a/b" 0 false "") 1%positive (sample_client 1 sample_state) sample_state) as (sA' & HA & Hf & HB).
  - exact other_node_inv.
  - by vm_compute.
  - split; [apply sample_live; auto|]. by split.
  - done.
  - by vm_compute.
  - by vm_compute.
  - done.
  - by vm_compute.
  - by vm_compute.
  - by vm_compute.
  - vm_compute. left.
  - by vm_compute.
  - done.
  - eexists. split; [by vm_compute|]. by vm_compute.
  - done.
  - done.
  - by vm_compute.
  - by vm_compute.
  - apply sample_live. auto.
  - destruct (HB "u"%string 5 _ (∅ : gmap string string) {[forward_key (router_of "c" "n1") "n2" "u" := "x"%string]}
      [mkKvEvent EventTypeNew (forward_key (router_of "c" "n1") "n2" "u") "x"] eq_refl) as (sB' & t' & HR & Ho & _).
    + reflexivity.
    + reflexivity.
    + repeat split.
    + split; intros; by eexists.
    + exists sA', sB', t'. split; [exact HA|]. split; [exact Hf|]. split; [exact HR|exact Ho].
Defined.
