(* ===== verification/Startup.v ===== *)
(** * Startup: putting a broker together

    Models [NewBroker], [Start] and [StartClientListening] of [src/broker/broker.go], the
    managers' registries ([sessions.go], [topics.go]), [NewAuth], [NewAcl], [NewBridgeMQ] with
    [InitKafka], [NewTLSConfig] of [src/config/tls.go], and [Start], [campaign] and
    [RegistryNode] of [src/broker/cluster.go].

    The theorems: a node that joins a cluster has the tables of the store and keeps them,
    and accepting connections survives errors with bounded pauses.  The last part is about
    what the start loses. *)
From S2P Require Import Prelude Wire Packets Topics TopicLevels TopicsSpec Acl Sessions Router Bridge Broker BrokerInv BrokerDelivery Pool Cluster ClusterSpec Forward.
Local Open Scope Z_scope.

(** ** Listening *)

(** Times are in nanoseconds. *)
Definition Second : Z := 1000000000.
Definition ACCEPT_MIN_SLEEP : Z := 100 * 1000000.
Definition ACCEPT_MAX_SLEEP : Z := 10 * Second.

(** The error of [Accept]. *)
Inductive accept_result {conn : Type} := Accepted (c : conn) | TemporaryError | OtherError.
Arguments accept_result : clear implicits.
Inductive accept_action {conn : Type} := HandleConnection (c : conn) | Sleep (d : Z).
Arguments accept_action : clear implicits.

(** One turn of the second loop of [StartClientListening]. *)
Definition accept_one {conn} (tmpDelay : Z) (r : accept_result conn) : Z * list (accept_action conn) :=
  match r with
  | TemporaryError =>
      let d := tmpDelay * 2 in
      (if decide (d > ACCEPT_MAX_SLEEP) then ACCEPT_MAX_SLEEP else d, [Sleep tmpDelay])
  | OtherError => (tmpDelay, [])
  | Accepted c => (ACCEPT_MIN_SLEEP, [HandleConnection c])
  end.

Fixpoint accept_loop {conn} (tmpDelay : Z) (l : list (accept_result conn)) : Z * list (accept_action conn) :=
  match l with
  | [] => (tmpDelay, [])
  | r :: l => let '(d, acts) := accept_one tmpDelay r in let '(d, acts') := accept_loop d l in (d, acts ++ acts')
  end.

(** The first loop, on what the attempts give: the outcome of [NewTLSConfig] and of [Listen].
    The [err] of the TLS branch is a new variable, so that the one tested after it is still nil. *)
Inductive listening := Listening | NilListener | Exited | Retrying.
Fixpoint listen (Tls : bool) (attempts : list (bool * bool)) : listening :=
  match attempts with
  | [] => Retrying
  | (config_ok, listen_ok) :: attempts =>
      if Tls then
        if negb config_ok then Exited else if listen_ok : bool then Listening else NilListener
      else if listen_ok : bool then Listening else listen Tls attempts
  end.

(** [StartClientListening]: what it does with the connections; [None] is the call of a method
    of a nil listener. *)
Definition StartClientListening {conn} (Tls : bool) (attempts : list (bool * bool)) (l : list (accept_result conn))
    : option (list (accept_action conn)) :=
  match listen Tls attempts with
  | Listening => Some (accept_loop (10 * ACCEPT_MIN_SLEEP) l).2
  | NilListener => None
  | Exited | Retrying => Some []
  end.

Definition connections {conn} (l : list (accept_result conn)) : list conn :=
  omap (λ r, match r with Accepted c => Some c | _ => None end) l.
Definition handled {conn} (l : list (accept_action conn)) : list conn :=
  omap (λ a, match a with HandleConnection c => Some c | _ => None end) l.
Definition pauses {conn} (l : list (accept_action conn)) : list Z :=
  omap (λ a, match a with Sleep d => Some d | _ => None end) l.

Definition delay_ok (d : Z) : Prop := ACCEPT_MIN_SLEEP ≤ d ≤ ACCEPT_MAX_SLEEP.

Lemma accept_loop_ok {conn} (l : list (accept_result conn)) : ∀ d, delay_ok d →
  handled (accept_loop d l).2 = connections l ∧ Forall delay_ok (pauses (accept_loop d l).2) ∧ delay_ok (accept_loop d l).1.
Proof.
  unfold delay_ok, ACCEPT_MIN_SLEEP, ACCEPT_MAX_SLEEP, Second in *.
  induction l as [|r l IH]; intros d Hd; cbn; [done|].
  destruct r as [c| |]; cbn; unfold ACCEPT_MIN_SLEEP, ACCEPT_MAX_SLEEP, Second;
    [specialize (IH 100000000)|specialize (IH (if decide (d * 2 > 10 * 1000000000) then 10 * 1000000000 else d * 2))|specialize (IH d)];
    destruct (accept_loop _ l) as [d' acts]; cbn in *.
  - destruct IH as (-> & ? & ?); [lia|]. done.
  - destruct IH as (-> & ? & ?); [case_decide; lia|]. split; [done|]. split; [by constructor|done].
  - by apply IH.
Qed.

(** The pauses between temporary errors in a row double up to the maximum. *)
Lemma pauses_double {conn} n : ∀ d, delay_ok d →
  (accept_loop d (replicate n (@TemporaryError conn))).1 = Z.min (d * 2 ^ Z.of_nat n) ACCEPT_MAX_SLEEP.
Proof.
  induction n as [|n IH]; intros d Hd; cbn [replicate accept_loop].
  { cbn. unfold delay_ok in Hd. lia. }
  cbn. assert (Hd' : delay_ok (if decide (d * 2 > ACCEPT_MAX_SLEEP) then ACCEPT_MAX_SLEEP else d * 2))
    by (unfold delay_ok, ACCEPT_MIN_SLEEP, ACCEPT_MAX_SLEEP, Second in *; case_decide; lia).
  specialize (IH _ Hd'). destruct (accept_loop _ _) as [d' acts]. cbn in *. rewrite IH.
  assert (1 ≤ 2 ^ Z.of_nat n) by (apply (Z.pow_le_mono_r 2 0); lia).
  rewrite Nat2Z.inj_succ. rewrite Z.pow_succ_r by lia.
  unfold delay_ok, ACCEPT_MIN_SLEEP, ACCEPT_MAX_SLEEP, Second in *. case_decide; nia.
Qed.

(** C34: Accepting connections.  Without TLS every connection that [Accept] returns is
    handled, once and in order, however many attempts to listen and to accept fail; each
    pause after a temporary error is between a tenth of a second and ten seconds, and
    consecutive ones double. *)
Theorem accepts_all {conn} (failed : nat) attempts (l : list (accept_result conn)) :
  ∃ acts, StartClientListening false (replicate failed (true, false) ++ (true, true) :: attempts) l = Some acts
    ∧ handled acts = connections l ∧ Forall delay_ok (pauses acts)
    ∧ ∀ n, (accept_loop ACCEPT_MIN_SLEEP (replicate n (@TemporaryError conn))).1 = Z.min (ACCEPT_MIN_SLEEP * 2 ^ Z.of_nat n) ACCEPT_MAX_SLEEP.
Proof.
  assert (listen false (replicate failed (true, false) ++ (true, true) :: attempts) = Listening) as Hl by (by induction failed).
  unfold StartClientListening. rewrite Hl. eexists. split; [done|].
  destruct (accept_loop_ok l (10 * ACCEPT_MIN_SLEEP)) as (? & ? & _); [done|]. split_and!; [done..|].
  intros n. by apply pauses_double.
Qed.

(** With TLS a failed attempt to listen is not tried again: the listener is nil. *)
Theorem tls_listen_fails {conn} attempts (l : list (accept_result conn)) :
  StartClientListening true ((true, false) :: attempts) l = None.
Proof. done. Qed.

(** An error that is not temporary is met without a pause. *)
Theorem other_errors_spin {conn} n d : accept_loop d (replicate n (@OtherError conn)) = (d, []).
Proof. induction n as [|n IH]; [done|]. cbn. by rewrite IH. Qed.

(** ** TLS *)

Inductive ClientAuthType := NoClientCert | RequireAndVerifyClientCert.
Definition VersionTLS12 : Z := 771.

Record TlsConfig := mkTlsConfig { tls_Enable : bool; tls_Verify : bool; tls_CA : string; tls_Cert : string; tls_Key : string }.

Section Tls.
(** Certificates and pools of them; [ReadFile] gives nil without an error for [Some None]. *)
Context {cert pool : Type}.
Context (LoadX509KeyPair : string → string → option cert) (ParseCertificate : cert → option cert).
Context (ReadFile : string → option (option (list byte))) (CertsFromPEM : list byte → option pool).

(** [tls.Config], as far as it is set. *)
Record tls_config := mkTls {
  Certificates : list cert;
  MinVersion : Z;
  InsecureSkipVerify : bool;
  ClientAuth : ClientAuthType;
  ClientCAs : option pool
}.

Inductive tls_error := BadKeyPair | BadCertificate | CannotRead | BadCA.

(** [TlsConfig.NewTLSConfig]: the config, or nil, and the error. *)
Definition NewTLSConfig (t : TlsConfig) : option tls_config * option tls_error :=
  match LoadX509KeyPair (tls_Cert t) (tls_Key t) with
  | None => (None, Some BadKeyPair)
  | Some c =>
      match ParseCertificate c with
      | None => (None, Some BadCertificate)
      | Some c =>
          let config := mkTls [c] VersionTLS12 (negb (tls_Verify t))
            (if tls_Verify t then RequireAndVerifyClientCert else NoClientCert) None in
          if decide (tls_CA t = ""%string) then (Some config, None)
          else
            match ReadFile (tls_CA t) with
            | None => (None, Some CannotRead)
            | Some None => (None, None)
            | Some (Some rootPEM) =>
                match CertsFromPEM rootPEM with
                | None => (None, Some BadCA)
                | Some p => (Some (mkTls (Certificates config) (MinVersion config) (InsecureSkipVerify config) (ClientAuth config) (Some p)), None)
                end
            end
      end
  end.

(** Nobody gets in without a certificate when [Verify] is set: every configuration that is
    returned asks for what the settings say, at TLS 1.2 or later, and the certificates that
    are accepted are those of the file that was given; an error never comes with a
    configuration. *)
Theorem NewTLSConfig_spec t c e :
  NewTLSConfig t = (c, e) →
  (∀ c', c = Some c' → e = None ∧ VersionTLS12 ≤ MinVersion c'
    ∧ (ClientAuth c' = RequireAndVerifyClientCert ↔ tls_Verify t = true)
    ∧ (ClientCAs c' = None ↔ tls_CA t = ""%string) ∧ length (Certificates c') = 1%nat)
  ∧ (c = None → e = None → ReadFile (tls_CA t) = Some None).
Proof.
  unfold NewTLSConfig. intros H. repeat case_match; simplify_eq/=; split; try done; intros c' [= <-]; cbn;
    (split_and!; [done|done|by destruct (tls_Verify t)|done|done]).
Qed.
End Tls.

(** ** The registries of the managers *)

Section Registry.
Context {provider : Type}.
(** [Register]; [None] is the panic for nil or for a name that is taken. *)
Definition Register (name : string) (p : option provider) (providers : gmap string provider) : option (gmap string provider) :=
  p ← p; match providers !! name with Some _ => None | None => Some (<[name := p]> providers) end.
Definition Unregister (name : string) (providers : gmap string provider) : gmap string provider := delete name providers.
Definition NewManager (name : string) (providers : gmap string provider) : option provider := providers !! name.

Lemma NewManager_Register name p providers providers' :
  Register name (Some p) providers = Some providers' → NewManager name providers' = Some p ∧ NewManager name providers = None.
Proof. unfold Register, NewManager. cbn. case_match; [done|]. intros [= <-]. by simplify_map_eq. Qed.
End Registry.

(** ** The configuration and the broker *)

Record GlobalConfig := mkGlobal {
  cfg_Cluster : string; cfg_Broker : string; cfg_Name : string; cfg_Worker : Z; cfg_Host : string; cfg_Port : string;
  cfg_Endpoints : list string; cfg_User : string; cfg_Password : string;
  cfg_Http : bool; cfg_Bridge : bool; cfg_BridgeType : string; cfg_Auth : bool; cfg_AuthType : string;
  cfg_Acl : bool; cfg_Notify : bool; cfg_NotifyType : string; cfg_Tls : TlsConfig
}.

Definition DefaultTimeout : Z := 3 * Second.

(** [clientv3.Config], as far as it is set. *)
Record etcd_config := mkEtcdConfig { Endpoints : list string; DialTimeout : Z; Username : string; Password : string }.

(** Both names of the switch lead to the same, and so does any other. *)
Definition NewAuth (name : string) : etcdAuth := if decide (name = "etcd"%string) then ∅ else ∅.
Definition NewAcl (name : string) : etcdAcl := if decide (name = "etcd"%string) then NewEtcdAcl else NewEtcdAcl.
(** [InitKafka] with [connect]; [None] is the call of a method of the nil producer. *)
Definition InitKafka (NewAsyncProducer : bool) : option kafka := if NewAsyncProducer then Some (mkKafka ∅) else None.
Definition NewBridgeMQ (producer : bool) (name : string) : option kafka :=
  if decide (name = "kafka"%string) then InitKafka producer else InitKafka producer.

(** The directories of [NewBroker]. *)
Definition clusterDir (c : GlobalConfig) : string := String.append (String.append "/" (cfg_Cluster c)) "/cluster".

Section NewBroker.
Context {T : Type} {task : Type}.

Record Broker := mkBroker {
  b_id : string;
  b_config : GlobalConfig;
  b_wpool : WorkerPool (task := task);
  b_node : node;
  b_store : T;
  b_dirs : dirs;
  b_clusterDir : string;
  b_router : etcdRouter
}.

Inductive start_error := NoStore | NoTopics | NoSessions.

(** [NewBroker], with [clientv3.New], the registered providers and the producer; [None] is a
    panic. *)
Definition NewBroker (New_client : etcd_config → option T) (topic_providers : gmap string (memTopics positive))
    (session_providers : gmap string memProvider) (producer : bool) (c : GlobalConfig) : option (result start_error Broker) :=
  match New_client (mkEtcdConfig (cfg_Endpoints c) DefaultTimeout (cfg_User c) (cfg_Password c)) with
  | None => Some (Err NoStore)
  | Some cli =>
      match NewManager "mem" topic_providers with
      | None => Some (Err NoTopics)
      | Some tm =>
          match NewManager "mem" session_providers with
          | None => Some (Err NoSessions)
          | Some sm =>
              bridge ← (if cfg_Bridge c then Some <$> NewBridgeMQ producer (cfg_BridgeType c) else Some None);
              Some (Ok (mkBroker (cfg_Broker c) c (New (cfg_Worker c))
                (mkNodeState (NewAuth (cfg_AuthType c)) (if cfg_Acl c then Some (NewAcl "etcd") else None) bridge
                   (mkState ∅ ∅ ∅ tm sm []))
                cli (dirs_of (cfg_Cluster c)) (clusterDir c) (router_of (cfg_Cluster c) (cfg_Broker c))))
          end
      end
  end.

(** The goroutines [Start] runs, in order; [None] is the field access of a nil broker. *)
Inductive goroutine := GoCluster | GoReceive | GoHttp | GoListen (tls : bool) | GoRegistry (n : Node) (ttl : Z).
Definition Version : string := "v0.1".
Definition Broker_Start (now : Z) (b : option Broker) : option (list goroutine) :=
  b ← b;
  let c := b_config b in
  Some ([GoCluster; GoReceive] ++ (if cfg_Http c then [GoHttp] else [])
    ++ (if decide (cfg_Port c = ""%string) then [] else [GoListen (tls_Enable (cfg_Tls c))])
    ++ [GoRegistry (mkNode (cfg_Broker c) (cfg_Name c) Version now) 30]).
End NewBroker.
Arguments Broker : clear implicits.

(** The registries after the [init] functions. *)
Definition init_topics : gmap string (memTopics positive) := default ∅ (Register "mem" (Some NewMemProvider) ∅).
Definition init_sessions (p : memProvider) : gmap string memProvider := default ∅ (Register "mem" (Some p) ∅).

(** What the rest of the development starts from: a new broker has empty tables, an empty
    state, and its access control is there exactly when it is enabled. *)
Lemma NewBroker_fresh {T task} (New_client : etcd_config → option T) p producer c (b : Broker T task) :
  NewBroker New_client init_topics (init_sessions p) producer c = Some (Ok b) →
  fresh_tables (b_node b) ∧ nd_broker (b_node b) = initial p ∧ b_dirs b = dirs_of (cfg_Cluster c)
  ∧ (is_Some (nd_acl (b_node b)) ↔ cfg_Acl c = true) ∧ (is_Some (nd_bridge (b_node b)) ↔ cfg_Bridge c = true).
Proof.
  unfold NewBroker. destruct (New_client _) as [cli|]; [|done].
  change (NewManager "mem" init_topics) with (Some (@NewMemProvider positive)).
  change (NewManager "mem" (init_sessions p)) with (Some p). cbv iota beta. intros H.
  assert (NewAuth (cfg_AuthType c) = ∅) as Ha by (unfold NewAuth; by case_decide).
  destruct (cfg_Bridge c).
  - unfold NewBridgeMQ in H. destruct producer; destruct (decide _); cbn in H; simplify_eq/=; rewrite Ha;
      (split_and!; [split_and!; [done|intros tbl; by destruct (cfg_Acl c); intros [= <-]|intros k [= <-]; done]|done|done| |]);
      destruct (cfg_Acl c); split; try done; intros []; done.
  - cbn in H. simplify_eq/=. rewrite Ha.
    split_and!; [split_and!; [done|intros tbl; by destruct (cfg_Acl c); intros [= <-]|done]|done|done| |];
      destruct (cfg_Acl c); split; try done; intros []; done.
Qed.

(** ** A node joins the cluster *)

Section Join.
Context {T : Type} `{EtcdLaws T}.
Context `{Json User, Json Acl, Json Info, Json Subscription, Json Node}.
Context `{Bcrypt} (md5_hex : string → string) (salt : list byte) (now : Z).

(** [Cluster.Start] up to the watch: the node after loading, and the store with the request
    [LoadUsers] may have made. *)
Definition Cluster_Start (c : GlobalConfig) (D : dirs) (tbl : gmap string stored) (n : node) (t : T) : node * T * gmap string stored :=
  let n := if cfg_Bridge c then LoadBridges D t n else n in
  let '(n, req) := LoadUsers D salt now t n in
  let t := match req with Some r => (try_request r t).1 | None => t end in
  let n := if cfg_Acl c then LoadAcls D t n else n in
  let '(tbl, s) := LoadClients D t tbl (nd_broker n) in
  let s := LoadSubscriptions D t tbl s in
  (set_broker s n, t, tbl).

(** The registration of a node: the lease, the keep-alive and the put with the lease;
    then the loop reads the answers to the keep-alive.  [None] means that the node is not
    registered. *)
Definition RegistryNode (Grant : Z → option Z) (KeepAlive : Z → bool) (Put : string → string → Z → bool) (D : dirs) (nd : Node) (ttl : Z)
    : option (string * string * Z) :=
  data ← Marshal nd;
  lease ← Grant ttl;
  if KeepAlive lease then
    let key := entry (nodeDir D) (node_ID nd) in
    if Put key data lease then Some (key, data, lease) else None
  else None.

(** [campaign]: what a turn does, by what [NewSession] and [Campaign] of etcd's client
    return.  [WaitDone] blocks until the session has ended. *)
Inductive campaign_action := CampaignSleep (d : Z) | SessionClose | SetLeader (l : bool) | WaitDone.
Definition campaign_turn (session_ok elected : bool) : list campaign_action :=
  if negb session_ok then [CampaignSleep (2 * Second)]
  else if negb elected then [SessionClose; CampaignSleep Second]
  else [SetLeader true; WaitDone; SetLeader false].
Definition campaign (turns : list (bool * bool)) : list campaign_action :=
  concat (map (λ '(session_ok, elected), campaign_turn session_ok elected) turns).

(** The field [leader] after some actions. *)
Definition leader_after (acts : list campaign_action) : bool :=
  foldl (λ l a, match a with SetLeader l' => l' | _ => l end) false acts.

(** Whatever etcd's client returns, at the end of every turn, so during every pause and every
    attempt, the node does not take itself for the leader. *)
Lemma campaign_steps_down turns : leader_after (campaign turns) = false.
Proof.
  unfold leader_after, campaign. induction turns as [|[[] []] turns IH]; cbn; done.
Qed.

(** The loop at its end: the channel of the answers is closed when the lease is lost, and then
    a receive returns at once; the loop is not left. *)
Inductive registry_loop := Waiting | Spinning.
Definition registry_turn (answers : option nat) : option nat * registry_loop :=
  match answers with
  | Some (S k) => (Some k, Waiting)
  | Some O => (None, Waiting)
  | None => (None, Spinning)
  end.

(** A node whose lease was lost is not registered again: after the answers are read the loop
    only spins. *)
Theorem lost_lease_spins k n : (k < n)%nat →
  Nat.iter n (λ a, (registry_turn a).1) (Some k) = None ∧ ∀ m, registry_turn (Nat.iter m (λ a, (registry_turn a).1) None) = (None, Spinning).
Proof.
  assert (∀ m, Nat.iter m (λ a, (registry_turn a).1) None = None) as Hnone.
  { intros m. induction m as [|m IH]; [done|]. by rewrite Nat.iter_succ, IH. }
  intros Hk. split; [|intros m; by rewrite Hnone].
  revert k Hk. induction n as [|n IH]; [lia|]. intros k Hk. rewrite Nat.iter_succ_r.
  destruct k as [|k]; [apply Hnone|apply IH; lia].
Qed.

Lemma load_users_tables D t n : nd_acl (LoadUsers D salt now t n).1 = nd_acl n ∧ nd_bridge (LoadUsers D salt now t n).1 = nd_bridge n.
Proof. unfold LoadUsers. by destruct (GetUsers D t). Qed.

Lemma LoadBridges_off D t n : nd_bridge n = None → LoadBridges D t n = n.
Proof. intros Hn. unfold LoadBridges, set_bridge. destruct (GetBridges D t); [|done]. rewrite Hn. destruct n; cbn in *; by subst. Qed.
Lemma LoadAcls_off D t n : nd_acl n = None → LoadAcls D t n = n.
Proof. intros Hn. unfold LoadAcls, set_acl. destruct (GetAcls D t); [|done]. rewrite Hn. destruct n; cbn in *; by subst. Qed.
Lemma LoadBridges_acl D t n : nd_acl (LoadBridges D t n) = nd_acl n.
Proof. unfold LoadBridges. by destruct (GetBridges D t). Qed.

(** The loads of [Start] are those of [load_tables] when nothing was missing. *)
Lemma Cluster_Start_tables c cluster tbl n t n' t' tbl' :
  Cluster_Start c (dirs_of cluster) tbl n t = (n', t', tbl') →
  (is_Some (nd_acl n) ↔ cfg_Acl c = true) → (is_Some (nd_bridge n) ↔ cfg_Bridge c = true) →
  (LoadUsers (dirs_of cluster) salt now t (LoadBridges (dirs_of cluster) t n)).2 = None →
  t' = t ∧ nd_auth n' = nd_auth (load_tables cluster salt now t n) ∧ nd_acl n' = nd_acl (load_tables cluster salt now t n)
  ∧ nd_bridge n' = nd_bridge (load_tables cluster salt now t n).
Proof.
  intros Hs Ha Hb Hu. unfold Cluster_Start in Hs.
  assert ((if cfg_Bridge c then LoadBridges (dirs_of cluster) t n else n) = LoadBridges (dirs_of cluster) t n) as E.
  { destruct (cfg_Bridge c); [done|]. symmetry. apply LoadBridges_off. destruct (nd_bridge n); [|done]. by destruct Hb as [Hb _]; discriminate Hb. }
  rewrite E in Hs. destruct (LoadUsers _ _ _ _ _) as [n1 req] eqn:Hl. cbn in Hu. subst req.
  assert ((if cfg_Acl c then LoadAcls (dirs_of cluster) t n1 else n1) = LoadAcls (dirs_of cluster) t n1) as E2.
  { destruct (cfg_Acl c); [done|]. symmetry. apply LoadAcls_off.
    destruct (load_users_tables (dirs_of cluster) t (LoadBridges (dirs_of cluster) t n)) as [E3 _]. rewrite Hl in E3. cbn in E3.
    rewrite E3, LoadBridges_acl. destruct (nd_acl n); [|done]. by destruct Ha as [Ha _]; discriminate Ha. }
  rewrite E2 in Hs. destruct (LoadClients _ _ _ _) as [tb s]. simplify_eq/=. unfold load_tables. by rewrite Hl.
Qed.

Lemma synced_tables cluster n n' m :
  nd_auth n' = nd_auth n → nd_acl n' = nd_acl n → nd_bridge n' = nd_bridge n → synced cluster n m → synced cluster n' m.
Proof. unfold synced. intros -> -> ->. done. Qed.

(** C9: A node that joins.  A broker that [NewBroker] built and that loads a store in which
    other nodes have worked, and then handles the events of whatever the nodes do next, has
    the tables of the store: users, and rules and bridges if they are enabled; and no event
    makes it panic unless a subscription is removed.  The store has the administrator (see
    [first_admin_unknown]), no bridge of it is for a topic with a slash (see
    [loaded_bridges_cut]), the objects survive their encoding in JSON ([op_ok]), and nothing
    changes the store between the loading and the start of the watch (see [change_missed]). *)
Theorem node_joins {task} (New_client : etcd_config → option T) p producer c (b : Broker T task) bid ops t0 t evs ops' t' evs' n t1 tbl :
  NewBroker New_client init_topics (init_sessions p) producer c = Some (Ok b) →
  kv t0 = ∅ → Forall op_ok ops → run_ops md5_hex (cfg_Cluster c) ops t0 = (t, evs) → flat_bridges (cfg_Cluster c) (kv t) →
  (∀ dir, is_Some (OpGetPrefix dir t)) → (∃ users admin, GetUsers (b_dirs b) t = Some (Some users) ∧ users !! "admin"%string = Some admin) →
  Cluster_Start c (b_dirs b) ∅ (b_node b) t = (n, t1, tbl) →
  Forall op_ok ops' → run_ops md5_hex (cfg_Cluster c) ops' t1 = (t', evs') →
  (∀ n', deliver (b_dirs b) bid evs' n = Some n' → synced (cfg_Cluster c) n' (kv t'))
  ∧ (forallb (λ op, negb (removes_subscription op)) ops' = true → is_Some (deliver (b_dirs b) bid evs' n)).
Proof.
  intros Hb Ht0 Hok Hr Hflat Hans (users & admin & Hu & Hadm) Hs Hok' Hr'.
  apply NewBroker_fresh in Hb as (Hf & _ & HD & Ha & Hbr). rewrite HD in *.
  destruct (Cluster_Start_tables _ _ _ _ _ _ _ _ Hs Ha Hbr) as (-> & E1 & E2 & E3).
  { unfold LoadUsers. rewrite Hu. cbn. by rewrite Hadm. }
  apply (tables_replicated md5_hex (cfg_Cluster c) bid ops' t t' evs' n Hok' Hr').
  eapply synced_tables; [done..|]. by apply (load_synced md5_hex (cfg_Cluster c) salt now ops t0 t evs (b_node b)).
Qed.

(** The administrator that the first node of a cluster stores is not in its own tables: the
    users were loaded before, and the watch begins later. *)
Theorem first_admin_unknown c cluster tbl n t n' t' tbl' :
  GetUsers (dirs_of cluster) t = Some None → nd_auth n = ∅ → Cluster_Start c (dirs_of cluster) tbl n t = (n', t', tbl') →
  t' = (try_request (StoreAddORUpdateUser (dirs_of cluster) (mkUser "" "admin" 1 (default ""%string (HashSaltPassword salt "admin")) now)) t).1
  ∧ nd_auth n' = ∅ ∧ ∀ id pwd, CheckConnect (nd_auth n') id "admin" pwd = false.
Proof.
  set (admin := mkUser _ _ _ _ _). intros Hu Hn Hs.
  assert (t' = (try_request (StoreAddORUpdateUser (dirs_of cluster) admin) t).1 ∧ nd_auth n' = ∅) as [Ht Hn'].
  { unfold Cluster_Start in Hs.
    set (n0 := if cfg_Bridge c then _ else _) in Hs. assert (nd_auth n0 = ∅) as Hn0.
    { unfold n0. destruct (cfg_Bridge c); [|done]. unfold LoadBridges. by destruct (GetBridges _ t). }
    unfold LoadUsers in Hs. rewrite Hu in Hs. cbn [default] in Hs. rewrite lookup_empty in Hs. fold admin in Hs.
    destruct (LoadClients _ _ _ _) as [tb s]. simplify_eq. split; [done|]. destruct (cfg_Acl c); [|done].
    unfold LoadAcls. by destruct (GetAcls _ _). }
  split; [done|]. split; [done|]. intros. unfold CheckConnect. by rewrite Hn'.
Qed.
End Join.

(** ** Witnesses *)

#[local] Existing Instances user_json acl_json node_json info_json sub_json no_bcrypt.

Definition sample_global : GlobalConfig :=
  mkGlobal "c" "n1" "node" 4 "" "1883" [] "" "" true true "kafka" true "etcd" true false "" (mkTlsConfig false false "" "" "").
Definition sample_broker : Broker (gmap string string) unit :=
  mkBroker "n1" sample_global (New 4)
    (mkNodeState ∅ (Some ∅) (Some (mkKafka ∅)) (initial (mkProvider ∅ ∅)))
    ∅ (dirs_of "c") "/c/cluster" (router_of "c" "n1").
Definition join_ops : list cluster_op := [OpUser (sample_user "admin"); OpBridge "a" "k"].
Definition join_store : gmap string string := (run_ops no_digest "c" join_ops ∅).1.
Definition joined : node * gmap string string * gmap string stored :=
  Cluster_Start [] 0 sample_global (dirs_of "c") ∅ (b_node sample_broker) join_store.
Definition later_ops : list cluster_op := [OpUser (sample_user "bob"); OpRemoveBridge "a"].
Definition later : gmap string string * list kv_event := run_ops no_digest "c" later_ops joined.1.2.
Definition after_join : option node := deliver (dirs_of "c") "n1" later.2 joined.1.1.

Lemma join_store_flat : flat_bridges "c" join_store.
Proof.
  intros key v Hv. change join_store with (<[entry (dir_of (dirs_of "c") KBridge) "a" := "k"%string]>
    (<[entry (dir_of (dirs_of "c") KUser) "admin" := "admin"%string]> (∅ : gmap string string))) in Hv.
  apply lookup_insert_Some in Hv as [[He _]|[_ Hv]].
  - apply entry_inj in He as <-. reflexivity.
  - apply lookup_insert_Some in Hv as [[He _]|[_ Hv]]; [by apply entries_apart in He|]. by rewrite lookup_empty in Hv.
Qed.

Lemma user_op_ok name ops : name ≠ ""%string → Forall op_ok ops → Forall op_ok (OpUser (sample_user name) :: ops).
Proof. intros Hn Ho. constructor; [|done]. intros data [= <-]. by split. Qed.

Lemma node_joins_witness : ∃ n', after_join = Some n' ∧ synced "c" n' (kv later.1).
Proof.
  destruct (node_joins (T := gmap string string) no_digest [] 0 (λ _, Some (∅ : gmap string string)) (mkProvider ∅ ∅) true sample_global sample_broker "n1"
    join_ops ∅ join_store (run_ops no_digest "c" join_ops (∅ : gmap string string)).2 later_ops later.1 later.2
    joined.1.1 joined.1.2 joined.2) as [Hs Ht]; cycle -1.
  { destruct (Ht eq_refl) as [n' Hn]. exists n'. split; [exact Hn|exact (Hs n' Hn)]. }
  - reflexivity.
  - reflexivity.
  - apply user_op_ok; [done|]. repeat constructor.
  - reflexivity.
  - exact join_store_flat.
  - intros dir. by eexists.
  - eexists _, (sample_user "admin"). split; vm_compute; reflexivity.
  - exact (eq_refl joined).
  - apply user_op_ok; [done|]. repeat constructor.
  - exact (surjective_pairing _).
Defined.

Lemma first_admin_unknown_witness : ∀ id pwd,
  CheckConnect (nd_auth (Cluster_Start [] 0 sample_global (dirs_of "c") ∅ (b_node sample_broker) (∅ : gmap string string)).1.1) id "admin" pwd = false.
Proof.
  apply (first_admin_unknown (T := gmap string string) [] 0 sample_global "c" ∅ (b_node sample_broker) ∅ _
    (Cluster_Start [] 0 sample_global (dirs_of "c") ∅ (b_node sample_broker) (∅ : gmap string string)).1.2
    (Cluster_Start [] 0 sample_global (dirs_of "c") ∅ (b_node sample_broker) (∅ : gmap string string)).2); [reflexivity..|].
  reflexivity.
Defined.

Lemma NewTLSConfig_spec_witness :
  ∀ c', (NewTLSConfig (λ _ _, Some tt) Some (λ _, Some (Some [])) (λ _, Some tt) (mkTlsConfig true true "ca" "c" "k")).1 = Some c' →
  ClientAuth c' = RequireAndVerifyClientCert.
Proof.
  intros c' Hc. destruct (NewTLSConfig_spec (λ _ _, Some tt) Some (λ _, Some (Some [])) (λ _, Some tt) (mkTlsConfig true true "ca" "c" "k")
    _ _ (surjective_pairing _)) as [Ht _]. by apply (Ht c' Hc).
Defined.

(** What changes between the loading and the start of the watch is missed: a user that another
    node stores in between is in the store and, whatever the node handles later of other
    users, never in its table. *)
Theorem change_missed :
  let t2 := (run_ops no_digest "c" [OpUser (sample_user "bob")] joined.1.2).1 in
  let '(t3, evs) := run_ops no_digest "c" [OpUser (sample_user "eve")] t2 in
  (users ← GetUsers (dirs_of "c") t3; users ← users; users !! "bob"%string) = Some (sample_user "bob")
  ∧ (n ← deliver (dirs_of "c") "n1" evs joined.1.1; Some (nd_auth n !! "bob"%string, nd_auth n !! "eve"%string))
    = Some (None, Some (sample_user "eve")).
Proof. vm_compute. by split. Qed.
