(* ===== verification/EndToEnd.v ===== *)
(** * EndToEnd: a client of the library and the broker

    The client library and the broker put together: what one side writes is read by
    the other ([over_wire]), and the answers of the broker go back to the client.  The
    theorems follow a message published with QoS 1 and 2 through both sides, a
    subscription and its acknowledgement, and a message on its way to the handler of a
    subscriber.  They are proved from the lemmas of the two sides and of the codec. *)
From S2P Require Import Prelude Wire Packets PacketsRoundtrip PacketsStream Topics TopicLevels TopicsSpec Acl Sessions.
From S2P Require Import Broker BrokerInv BrokerDelivery Qos2.
From S2P Require Import Router MessageIds Store Options Client ClientSpec ClientFlow.
Local Open Scope Z_scope.

(** ** The wire *)

(** Written on one side and read on the other. *)
Definition over_wire (p : ControlPacket) : option ControlPacket :=
  w ← ControlPacket_Write p;
  match ReadPacket w.1 with (Some q, None, []) => Some q | _ => None end.

Lemma over_wire_ok p :
  packet_ok p → ∃ bytes p', ControlPacket_Write p = Some (bytes, p') ∧ over_wire p = Some (read_back p').
Proof.
  intros Hok. destruct (ReadPacket_Write p [] Hok) as (bytes & p' & Hw & Hr). exists bytes, p'. split; [done|].
  unfold over_wire. rewrite Hw. cbn [mbind option_bind fst]. rewrite app_nil_r in Hr. by rewrite Hr.
Qed.

(** An acknowledgement arrives with its id. *)
Lemma over_wire_ack (mk : AckPacket → ControlPacket) t m :
  (mk = PPuback ∧ t = Packets.Puback) ∨ (mk = PPubrec ∧ t = Packets.Pubrec)
  ∨ (mk = PPubrel ∧ t = Packets.Pubrel) ∨ (mk = PPubcomp ∧ t = Packets.Pubcomp) →
  ack_ok t m → over_wire (mk m) = Some (mk (m {{ ack_FixedHeader ::= set_RemainingLength 2 }})).
Proof.
  intros Hmk Hok. destruct (over_wire_ok (mk m)) as (b & p' & Hw & ->).
  { by destruct Hmk as [[-> ->]|[[-> ->]|[[-> ->]|[-> ->]]]]. }
  destruct Hmk as [[-> ->]|[[-> ->]|[[-> ->]|[-> ->]]]]; cbn in Hw; injection Hw as <- <-; reflexivity.
Qed.

(** A publish arrives with its topic, id, payload and flags. *)
Definition arrived (p q : PublishPacket) : Prop :=
  pub_TopicName q = pub_TopicName p ∧ pub_MessageID q = pub_MessageID p ∧ pub_Payload q = pub_Payload p
  ∧ Qos (pub_FixedHeader q) = Qos (pub_FixedHeader p) ∧ Retain (pub_FixedHeader q) = Retain (pub_FixedHeader p).

Lemma over_wire_publish p :
  packet_ok (PPublish p) → ∃ q, over_wire (PPublish p) = Some (PPublish q) ∧ arrived p q ∧ packet_ok (PPublish q).
Proof.
  intros Hok. destruct (over_wire_ok (PPublish p) Hok) as (b & p' & Hw & ->).
  cbn in Hw. injection Hw as _ <-. eexists. split; [reflexivity|]. by split.
Qed.

(** ** The broker's answers *)

(** The packets written to the client at [a] from one state to another. *)
Definition replies (a : positive) (s s' : state) : list ControlPacket :=
  omap (λ e, match e with Sent b p => if decide (b = a) then Some p else None | _ => None end) (sent_since s s').

Lemma replies_first a p s s1 s' :
  out s1 = out s ++ [Sent a p] → out s1 `prefix_of` out s' → ∃ rest, replies a s s' = p :: rest.
Proof.
  intros H1 [l H2]. exists (omap (λ e, match e with Sent b p => if decide (b = a) then Some p else None | _ => None end) l).
  unfold replies, sent_since. rewrite H2, H1, <- app_assoc, drop_app_length. cbn. by rewrite decide_True.
Qed.

Lemma spares_sort_out b cfg now p l : ∀ acc, spares b acc.1 (foldl (sort_out cfg now p) acc l).1.
Proof.
  induction l as [|e l IH]; intros acc; [done|]. cbn [foldl]. etransitivity; [|apply IH].
  destruct acc as [s qsub]. unfold sort_out. cbn. destruct (subs_heap s !! e.1) as [sub|]; [|done].
  destruct (sub_share sub); [done|]. apply spares_publish.
Qed.

Lemma spares_route b cfg Intn now p s : spares b s (route cfg Intn now p s).
Proof.
  unfold route. destruct (memTopics_Subscribers _ _ _) as [subs|]; [|done].
  pose proof (spares_sort_out b cfg now p subs (s, ∅)) as Hs. destruct (foldl _ (s, ∅) subs) as [s1 qsub].
  etransitivity; [exact Hs|]. apply spares_foldl. intros s2 [g objs]. unfold publish_group.
  destruct (objs !! _) as [x|]; [|done]. destruct (subs_heap s2 !! x); [apply spares_publish|done].
Qed.

Lemma spares_ProcessPublishMessage b cfg Intn now a p s :
  spares b s (ProcessPublishMessage cfg Intn now a p false s).
Proof.
  unfold ProcessPublishMessage. destruct (heap s !! a) as [c|]; [|done].
  destruct (bridge_enable cfg && _); [case_match; [apply spares_emit|done]|].
  etransitivity; [|apply spares_route]. destruct (Retain _); [|done]. by apply spares_same.
Qed.

(** A QoS 1 message is acknowledged before it is handed on. *)
Lemma broker_acks_qos1 cfg Intn now a p s c :
  heap s !! a = Some c → live_client c → acl_allows cfg "pub" c (pub_TopicName p) = true →
  validatePacketFields (PPublish p) = true → Qos (pub_FixedHeader p) = 1 →
  ∃ s' rest, ProcessMessage cfg Intn now a (PPublish p) false s = Some s'
    ∧ replies a s s' = PPuback (newAck Packets.Puback (pub_MessageID p)) :: rest.
Proof.
  intros Hc Hl Hacl Hv Hq. unfold ProcessMessage. rewrite Hc, Hv. cbn [mbind option_bind negb].
  unfold ProcessPublish. rewrite Hc, Hacl, Hq. cbn [negb]. rewrite decide_False, decide_True by done.
  rewrite WriterPacket_live by (by exists c). set (s1 := emit _ s).
  edestruct (replies_first a (PPuback (newAck Packets.Puback (pub_MessageID p))) s s1) as [rest Hr];
    [done|apply (spares_ProcessPublishMessage a cfg Intn now a p s1)|].
  by exists (ProcessPublishMessage cfg Intn now a p false s1), rest.
Qed.




(** Packets written to a live client change nothing but what has been sent. *)
Lemma written_all cfg a (l : list PublishPacket) : ∀ s, live s a →
  let s' := foldl (λ s rm, (WriterPacket cfg a (PPublish rm) s).1) s l in
  heap s' = heap s ∧ topicsMgr s' = topicsMgr s ∧ subs_heap s' = subs_heap s ∧ out s `prefix_of` out s'.
Proof.
  induction l as [|rm l IH]; intros s Hl; [done|]. cbn [foldl]. rewrite WriterPacket_live by done. cbn [fst].
  destruct (IH (emit (Sent a (PPublish rm)) s) Hl) as (-> & -> & -> & Ho). split_and!; try done.
  etransitivity; [|exact Ho]. by exists [Sent a (PPublish rm)].
Qed.

(** What is not written to a client is not an answer. *)
Definition unseen (e : effect) : Prop := match e with Sent _ _ => False | _ => True end.

Lemma replies_after a p s s1 s' l :
  Forall unseen l → out s1 = out s ++ l ++ [Sent a p] → out s1 `prefix_of` out s' → ∃ rest, replies a s s' = p :: rest.
Proof.
  intros Hl H1 [l' H2]. exists (omap (λ e, match e with Sent b p => if decide (b = a) then Some p else None | _ => None end) l').
  unfold replies, sent_since. rewrite H2, H1, <- !app_assoc, drop_app_length. clear H1 H2.
  induction Hl as [|e l He Hl IH]; cbn; [by rewrite decide_True|]. by destruct e.
Qed.

Definition quiet (s s' : state) : Prop := ∃ l, Forall unseen l ∧ out s' = out s ++ l.

#[global] Instance quiet_preorder : PreOrder quiet.
Proof.
  split; [intros s; exists []; by rewrite app_nil_r|].
  intros s1 s2 s3 (l1 & H1 & E1) (l2 & H2 & E2). exists (l1 ++ l2). rewrite E2, E1, app_assoc. split; [by apply Forall_app|done].
Qed.

Lemma quiet_emit e s : unseen e → quiet s (emit e s).
Proof. intros He. exists [e]. by split; [constructor|]. Qed.
Lemma quiet_notify cfg n id s : quiet s (notify cfg n id s).
Proof. unfold notify. case_match; [by apply quiet_emit|done]. Qed.

Lemma upsert_elem (x : positive) q l : (x, q) ∈ upsert x q l.
Proof. induction l as [|[y z] l IH]; cbn; [by left|]. case_decide; by constructor. Qed.

Lemma Subscribe_ok (tm : memTopics positive) topic q x :
  swf (sroot tm) → topic_ok topic = true → ValidQos q = true →
  ∃ tm', memTopics_Subscribe tm topic q (Some x) = (tm', q, None)
    ∧ entries (sroot tm') (filter_path topic) = upsert x q (entries (sroot tm) (filter_path topic)).
Proof.
  intros Hwf Ht Hq. destruct (memTopics_Subscribe tm topic q (Some x)) as [[tm' rq] e] eqn:Hs.
  destruct (Subscribe_cases _ _ _ _ _ _ _ Hwf Hs) as [_ Hc]. destruct e as [e|].
  - exfalso. unfold memTopics_Subscribe in Hs. rewrite Hq in Hs. cbn [negb] in Hs.
    rewrite decide_False in Hs by (apply ValidQos_range in Hq; lia).
    destruct (sinsert_spec _ (sroot tm) topic q x _ Hwf (levels_ok _ Ht)) as (t' & Hi & _). by rewrite Hi in Hs.
  - destruct Hc as (_ & _ & -> & Hent). exists tm'. split; [done|]. by rewrite Hent, decide_True.
Qed.

(** A filter that the rules allow is subscribed with the QoS asked for, a shared one under the
    filter proper and in its group. *)
Lemma subscribe_one_ok cfg a f q s c sess sh g topic :
  inv s → heap s !! a = Some c → live_client c → session c = Some sess → acl_allows cfg "sub" c f = true →
  split_share f = Some (sh, g, topic) → topic_ok topic = true → ValidQos q = true →
  ∃ s' x, subscribe_one cfg a f (Some q) s = Some (s', q) ∧ quiet s s' ∧ inv s' ∧ live s' a
    ∧ (x, q) ∈ entries (tree s') (filter_path topic) ∧ subs_heap s' !! x = Some (mkSubscription a topic q sh g).
Proof.
  intros Hinv Hc Hl Hsess Hacl Hsh Htop Hq.
  set (s0 := drop_old a f c s). set (x := fresh_sub s0).
  assert (H0 : ∃ c0, heap s0 !! a = Some c0 ∧ live_client c0 ∧ out s0 = out s ∧ swf (tree s0)).
  { pose proof (inv_drop_old s a c f Hinv Hc) as ((Hwf & _) & _). fold s0 in Hwf.
    assert (∃ c0, heap s0 !! a = Some c0 ∧ live_client c0 ∧ out s0 = out s) as (c0 & ? & ? & ?); [|by exists c0].
    unfold s0, drop_old, unsubscribe_sub. destruct (subMap c !! f) as [old|]; [|by exists c].
    exists (with_subMap (delete f) c). destruct (subs_heap s !! old); cbn; by rewrite lookup_alter_eq, Hc. }
  destruct H0 as (c0 & Hc0 & Hl0 & Ho0 & Hwf0).
  destruct (Subscribe_ok (topicsMgr s0) topic q x Hwf0 Htop Hq) as (tm & Htm & Hent).
  destruct (subscribe_one cfg a f (Some q) s) as [[s' rq]|] eqn:Hone; pose proof Hone as Hone';
    unfold subscribe_one in Hone'; rewrite Hc in Hone'; cbn [mbind option_bind] in Hone';
    rewrite Hacl, Hsh in Hone'; cbn [negb] in Hone'; fold s0 x in Hone'; cbn [topicsMgr set_subs] in Hone';
    rewrite Htm, Hsess in Hone'; cbn [mbind option_bind] in Hone'; [|done].
  injection Hone' as Hs' <-. exists s', x. split; [done|].
  set (s1 := on_client (with_subMap (<[f := x]>)) a (set_topics tm (set_subs (<[x := mkSubscription a topic q sh g]>) s0))) in Hs'.
  set (s2 := set_sessions _ s1) in Hs'.
  set (s3 := match memTopics_Retained _ topic _ with Ok msgs => on_client (with_rmsgs msgs) a s2 | Err _ => s2 end) in Hs'.
  assert (H3 : live s3 a ∧ out s3 = out s ∧ topicsMgr s3 = tm ∧ subs_heap s3 !! x = Some (mkSubscription a topic q sh g)).
  { assert (H1 : heap s1 !! a = Some (with_subMap (<[f := x]>) c0)) by (unfold s1, on_client; cbn; by rewrite lookup_alter_eq, Hc0).
    clear Hs'. unfold s3. destruct (memTopics_Retained tm topic (rmsgs c)) as [l|e]; (split; [|split_and!; [exact Ho0|done|apply lookup_insert_eq]]).
    - exists (with_rmsgs l (with_subMap (<[f := x]>) c0)). split; [|done].
      change (alter (with_rmsgs l) a (heap s1) !! a = Some (with_rmsgs l (with_subMap (<[f := x]>) c0))). by rewrite lookup_alter_eq, H1.
    - by exists (with_subMap (<[f := x]>) c0). }
  assert (Hfin : quiet s3 s' ∧ heap s' = heap s3 ∧ topicsMgr s' = topicsMgr s3 ∧ subs_heap s' = subs_heap s3).
  { rewrite <- Hs'. split; [|unfold notify; by repeat case_match].
    etransitivity; [by apply (quiet_emit (StorePutSubscription f (info_ID (info c)) q))|].
    etransitivity; [apply quiet_notify|]. case_decide; [apply quiet_notify|done]. }
  destruct H3 as (Hl3 & Ho3 & Ht3 & Hx3). destruct Hfin as (Hq3 & Hh' & Ht' & Hx'). split_and!.
  - destruct Hq3 as (l & Hul & E). exists l. by rewrite E, Ho3.
  - by eapply inv_subscribe_one.
  - unfold live. by rewrite Hh'.
  - rewrite Ht', Ht3, Hent. apply upsert_elem.
  - by rewrite Hx'.
Qed.

Lemma broker_subscribes cfg Intn now a p f q s c sess sh g topic :
  inv s → heap s !! a = Some c → live_client c → session c = Some sess → acl_allows cfg "sub" c f = true →
  split_share f = Some (sh, g, topic) → topic_ok topic = true → ValidQos q = true →
  validatePacketFields (PSubscribe p) = true → sub_Topics p = [f] → sub_Qoss p = [z2b q] →
  ∃ s' x rest, ProcessMessage cfg Intn now a (PSubscribe p) false s = Some s'
    ∧ replies a s s' = PSuback (mkSuback (header_of_type Packets.Suback 0) (sub_MessageID p) [z2b q]) :: rest
    ∧ inv s' ∧ live s' a
    ∧ (x, q) ∈ entries (tree s') (filter_path topic) ∧ subs_heap s' !! x = Some (mkSubscription a topic q sh g).
Proof.
  intros Hinv Hc Hl Hsess Hacl Hsh Htop Hq Hv Hts Hqs.
  destruct (subscribe_one_ok cfg a f q s c sess sh g topic) as (s1 & x & Hone & Hquiet & Hinv1 & Hl1 & He1 & Hx1); [done..|].
  assert (Hz : b2z (z2b q) = q) by (rewrite b2z_z2b; apply ValidQos_range in Hq; apply Z.mod_small; lia).
  set (suback := PSuback (mkSuback (header_of_type Packets.Suback 0) (sub_MessageID p) [z2b q])).
  set (s2 := emit (Sent a suback) s1). destruct Hl1 as (c1 & Hc1 & Hlc1).
  destruct (written_all cfg a (rmsgs c1) s2) as (Hh & Htm & Hsb & Hout); [by exists c1|].
  set (s3 := foldl _ s2 (rmsgs c1)) in *.
  assert (Hpm : ProcessMessage cfg Intn now a (PSubscribe p) false s = Some s3).
  { unfold ProcessMessage. rewrite Hc, Hv. cbn [mbind option_bind negb]. unfold ProcessSubscribe. rewrite Hc. cbn [mbind option_bind].
    rewrite decide_False by apply Hl. rewrite Hts, Hqs. cbn [subscribe_loop head tail fmap option_fmap option_map].
    rewrite Hz, Hone. cbn [mbind option_bind subscribe_loop fst snd app]. rewrite WriterPacket_live by (by exists c1).
    change (heap (emit _ s1)) with (heap s1). by rewrite Hc1. }
  destruct Hquiet as (l & Hl' & Ho1).
  destruct (replies_after a suback s s2 s3 l) as [rest Hr]; [done|cbn; by rewrite Ho1, <- app_assoc|done|].
  exists s3, x, rest. split_and!; [done|done| | | |].
  - by eapply (inv_ProcessMessage cfg Intn now a (PSubscribe p) false s).
  - exists c1. by rewrite Hh.
  - by rewrite Htm.
  - by rewrite Hsb.
Qed.

(** The client files the handler of a shared filter under the filter proper, as the broker
    does with the subscription. *)
Lemma cut_slash_some x g rest :
  cut_slash x = (g, Some rest) → x = (g ++ String SLASH rest)%string ∧ contains_byte SLASH g = false.
Proof.
  revert g. induction x as [|a x IH]; intros g H; cbn in H; [done|].
  destruct (decide (a = SLASH)) as [->|Ha]; [by injection H as <- ->|].
  destruct (cut_slash x) as [h o]. injection H as <- ->. destruct (IH h eq_refl) as [-> Hh].
  split; [done|]. cbn. rewrite bool_decide_eq_false_2 by done. exact Hh.
Qed.

Lemma route_topic_shared f sh g topic :
  split_share f = Some (sh, g, topic) → has_prefix topic "$queue/" = false → route_topic f = topic.
Proof.
  unfold split_share, groupSubmatch, route_topic. destruct (has_prefix f "$share/") eqn:Hsh; cbn zeta.
  - destruct (cut_slash (drop_string 7 f)) as [g' [rest|]] eqn:Hcut; [|done].
    destruct (_ && _ && _); [|done]. intros [= <- <- <-] Hq.
    apply cut_slash_some in Hcut as [Hd Hg]. apply has_prefix_true in Hsh. cbn [String.length] in Hsh.
    rewrite Hd in Hsh. rewrite Hsh, split_slash_share by done. cbn [drop]. by rewrite drop_0, join_split, Hq.
  - intros [= _ _ <-] Hq. by rewrite Hq.
Qed.

Section EndToEnd.
Context {Handler T Transport : Type} `{StoreLaws T}.
Abbreviation client := (@Client.client Handler T Transport).
Context (cfg : config) (Intn : string → nat → nat).
Implicit Types (c : client) (s : state).

(** A topic and a payload that fit a packet, and a topic the broker takes for text. *)
Definition sendable (topic : string) (b : list byte) : Prop :=
  str_ok topic ∧ fits (String.length topic + 4 + length b)
  ∧ ValidString topic = true ∧ contains_byte zero topic = false.

Lemma publish_packet_ok topic qos retained b id :
  qos = 1 ∨ qos = 2 → sendable topic b → 1 ≤ id ≤ midMax → packet_ok (PPublish (publish_packet topic qos retained b id)).
Proof.
  intros Hq (Hs & Hf & _) Hid. unfold midMax in Hid. split; [split; cbn; [done|lia]|]. split; [exact Hs|].
  split; [unfold is_u16; cbn; lia|]. split; [cbn; lia|]. unfold fits, Publish_body in *. cbn.
  rewrite decide_True by lia. rewrite length_app, length_encodeString, length_encodeUint16. lia.
Qed.

Lemma arrived_valid p q : arrived p q → validatePacketFields (PPublish q) = ValidString (pub_TopicName p) && negb (contains_byte zero (pub_TopicName p)).
Proof. intros (Ht & _). cbn. by rewrite Ht, andb_true_r. Qed.

(** A request that has ended well: its token is complete without an error, its id is free
    and its packet no longer stored. *)
Definition ended_well (tok : positive) (id : Z) c : Prop :=
  (∃ t, tokens (mids c) !! tok = Some t ∧ complete t = true ∧ err t = None)
  ∧ index (mids c) !! id = None ∧ store_model (persist c) !! outboundKeyFromMID id = None.

Lemma connected_store c : client_inv c → status c = connected → IsConnected c = true ∧ store_opened (persist c) = true.
Proof.
  intros [_ Ho] Hst. split; [|apply Ho; by rewrite Hst]. unfold IsConnected. by rewrite decide_True.
Qed.

(** Publishing does not change the state of the connection. *)
Lemma Publish_status topic qos retained payload taken c a c' :
  Publish topic qos retained payload taken c = Some (a, c') → status c' = status c.
Proof.
  unfold Publish. destruct (alloc _ c) as [a0 c0] eqn:Ha. assert (status c0 = status c) as Hs0 by (by injection Ha as _ <-).
  rewrite <- Hs0. clear Ha Hs0 c. destruct (negb _); [by intros [= _ <-]|]. case_decide; [by intros [= _ <-]|].
  destruct (payload_bytes payload) as [b|]; [|by intros [= _ <-]].
  assert (Hsend : ∀ p c1 c2, send_publish taken a0 p c1 = Some c2 → status c2 = status c1).
  { intros p c1 c2 Hp. unfold send_publish in Hp. destruct (persistOutbound _ _) as [st|]; [|done]. cbn in Hp.
    unfold hand_over in Hp. case_decide; [by injection Hp as <-|]. destruct taken; by injection Hp as <-. }
  case_decide.
  - destruct (send_publish _ _ _ c0) as [c1|] eqn:Hp; [|done]. intros [= _ <-]. by apply Hsend in Hp.
  - unfold take_id. destruct (getID a0 (mids c0)) as [[mID m]|]; [|done]. cbn. case_decide; cbn.
    + rewrite decide_True by done. by intros [= _ <-].
    + rewrite decide_False by done. destruct (send_publish _ _ _ _) as [c1|] eqn:Hp; [|done]. intros [= _ <-].
      by apply Hsend in Hp.
Qed.

(** QoS 1 from end to end.  A connected client publishes; the packet that it hands to its
    connection is read by the broker, whose first answer is the acknowledgement; when
    the client has received it the request has ended well. *)
Theorem qos1_end_to_end now now' topic retained payload b c a bc s :
  client_inv c → status c = connected → (∃ id, 1 ≤ id ≤ midMax ∧ index (mids c) !! id = None) →
  payload_bytes payload = Some b → sendable topic b →
  heap s !! a = Some bc → live_client bc → acl_allows cfg "pub" bc topic = true →
  ∃ tok id p c1 q s1 reply rest ack c2,
    Publish topic 1 retained payload true c = Some (tok, c1) ∧ obound c1 = obound c ++ [(p, tok)]
    ∧ over_wire (PPublish p) = Some (PPublish q) ∧ ProcessMessage cfg Intn now a (PPublish q) false s = Some s1
    ∧ replies a s s1 = reply :: rest ∧ over_wire reply = Some ack
    ∧ receive now' ack c1 = Some (c2, Nothing) ∧ ended_well tok id c2.
Proof.
  intros Hc Hst Hfree Hpay Hsend Hbc Hl Hacl. destruct (connected_store c Hc Hst) as [Hcon Hopen].
  destruct (Publish_stored topic 1 retained payload b c) as (tok & id & c1 & HP & Hid & Hi & Hidx & Htok & Hsm & Hob);
    [done|done|by left|done|done|].
  rewrite decide_False in Hob by (rewrite Hst; by intros [|]).
  assert (Hc1 : client_inv c1) by (by eapply Publish_inv; [exact Hc| |exact HP]).
  destruct (over_wire_publish (publish_packet topic 1 retained b id)) as (q & Hw & Harr & _);
    [apply publish_packet_ok; [by left|done|done]|].
  pose proof Harr as (Hqt & Hqid & _ & Hqq & _). cbn in Hqt, Hqid, Hqq.
  destruct (broker_acks_qos1 cfg Intn now a q s bc) as (s1 & rest & Hpm & Hrep);
    [done|done|by rewrite Hqt| |done|].
  { rewrite (arrived_valid _ _ Harr). cbn [pub_TopicName publish_packet]. destruct Hsend as (_ & _ & -> & ->). done. }
  rewrite Hqid in Hrep.
  assert (Hopen1 : store_opened (persist c1) = true).
  { apply Hc1. by rewrite (Publish_status _ _ _ _ _ _ _ _ HP), Hst. }
  assert (Hidu : is_u16 id) by (unfold is_u16, midMax in *; lia).
  set (m := newAck Packets.Puback id). set (m' := m {{ ack_FixedHeader ::= set_RemainingLength 2 }}).
  destruct (ack_processed now' id (PPuback m') tok ((new_token PublishToken) {{ tok_messageID := id }}) c1)
    as (c2 & Hrec & Hidx2 & Htok2 & Hsm2 & _); [done|done|done|by rewrite Hidx, lookup_insert_eq|done|done|].
  exists tok, id, (publish_packet topic 1 retained b id), c1, q, s1, (PPuback m), rest, (PPuback m'), c2.
  split_and!; try done.
  - by apply (over_wire_ack PPuback Packets.Puback); [left|].
  - split_and!; [rewrite Htok2, lookup_insert_eq; by eexists|by rewrite Hidx2, lookup_delete_eq|by rewrite Hsm2, lookup_delete_eq].
Qed.


(** *** Subscribing *)

Definition subscribe_packet (f : string) (q id : Z) : SubscribePacket :=
  newSubscribe {{ sub_MessageID := id; sub_Topics := [f]; sub_Qoss := [z2b q] }}.

Lemma set_route_elem f (h : Handler) l : (f, h) ∈ set_route f h l.
Proof. induction l as [|[t g] l IH]; cbn; [by left|]. case_decide; [subst; by left|by right]. Qed.

(** A request that is not a publish gets its id, is stored if the options say so, and goes
    to the connection that is up. *)
Lemma control_sent a t mk after c :
  client_inv c → unused (mids c) a t → status c = connected → (∃ id, 1 ≤ id ≤ midMax ∧ index (mids c) !! id = None) →
  (∀ id, match mk id with PSubscribe p => sub_MessageID p = id | PUnsubscribe p => uns_MessageID p = id | _ => False end) →
  ∃ id (st : T), 1 ≤ id ≤ midMax ∧ store_opened st = true
    ∧ send_control true a mk after c = Some (after (c {{ mids := with_id id a t (mids c); persist := st;
                                                        oboundP ::= λ l, l ++ [(mk id, Some a)] }})).
Proof.
  intros Hc Hun Hst (fid & Hfr & Hfree) Hmk. assert (Hne : status c ≠ disconnected) by (by rewrite Hst).
  destruct (take_id_spec a t c (proj1 (proj1 Hc)) Hun) as [(id & Hr & Hi & Hid)|[_ Hall]].
  2: { destruct (Hall fid Hfr) as [x Hx]. congruence. }
  assert (Hps : ∃ st : T, (if ResumeSubs (cl_options c) then persistOutbound (persist c) (mk id) else Some (persist c)) = Some st
    ∧ store_opened st = true).
  { destruct (ResumeSubs (cl_options c)); [|exists (persist c); split; [done|by apply Hc]]. pose proof (Hmk id) as Hm.
    destruct (persist_put c (mk id) id) as (st & Hps & Hso & _); [done|done| |done| | |by exists st].
    { destruct (mk id); try done; cbn; by rewrite Hm. } { left. by destruct (mk id). } { by destruct (mk id). } }
  destruct Hps as (st & Hps & Hso). exists id, st. split_and!; [lia|lia|done|].
  unfold send_control. rewrite Hid. cbn [mbind option_bind]. rewrite decide_False by lia.
  match goal with |- context [ResumeSubs (cl_options ?x)] => change (cl_options x) with (cl_options c); change (persist x) with (persist c) end.
  rewrite Hps. cbn [mbind option_bind]. unfold hand_over. rewrite decide_False; [reflexivity|].
  change (¬ (status c = connecting ∨ status c = reconnecting)). rewrite Hst. by intros [|].
Qed.

(** A connected client hands the request to its connection, under an id of its own, and
    has the handler among its routes. *)
Lemma Subscribe_sent f q h c :
  client_inv c → status c = connected → (∃ id, 1 ≤ id ≤ midMax ∧ index (mids c) !! id = None) →
  validateTopicAndQos f q = None →
  ∃ tok id c', Subscribe f q (Some h) true c = Some (tok, c') ∧ 1 ≤ id ≤ midMax
    ∧ index (mids c') !! id = Some tok
    ∧ tokens (mids c') !! tok = Some ((new_token SubscribeToken) {{ tok_messageID := id; tok_subs := [route_topic f] }})
    ∧ oboundP c' = oboundP c ++ [(PSubscribe (subscribe_packet f q id), Some tok)]
    ∧ (route_topic f, h) ∈ routes (msgRouter c') ∧ store_opened (persist c') = true ∧ status c' = connected.
Proof.
  intros Hc Hst (fid & Hfr & Hfree) Hval. unfold Subscribe. destruct (alloc _ c) as [a c0] eqn:Ha.
  apply alloc_inv in Ha as (Hc0 & [Ht Hun] & Hceq & Hnone); [|done]. subst c0.
  assert (Hnr : not_ready (c {{ mids := (mids c) {{ tokens ::= insert a (new_token SubscribeToken) }} }}) = None).
  { unfold not_ready, IsConnected, IsConnectionOpen. cbn [status]. by rewrite decide_True, bool_decide_eq_true_2. }
  rewrite Hnr, Hval. cbn [AddRoute].
  set (c1 := c {{ mids := _ }}) in *. set (c2 := on_tok _ a (c1 {{ msgRouter ::= _ }})).
  destruct (control_sent a ((new_token SubscribeToken) {{ tok_subs := [route_topic f] }})
    (λ mID, PSubscribe (subscribe_packet f q mID)) id c2) as (id & st & Hid & Hso & Hsc).
  - apply inv_on_tok; [done|]. exact Hc0.
  - change ((new_token SubscribeToken) {{ tok_subs := [route_topic f] }}) with ((new_token SubscribeToken) {{ tok_subs ::= λ l, l ++ [route_topic f] }}).
    apply unused_on_tok. by split.
  - exact Hst.
  - by exists fid.
  - done.
  - unfold subscribe_packet in Hsc. rewrite Hsc. cbn [mbind option_bind]. eexists a, id, _. split; [reflexivity|].
    split_and!; try done; [lia|lia|apply lookup_insert_eq|apply lookup_insert_eq|apply set_route_elem].
Qed.

(** The answer: the codes are noted, the token completes and the id is free. *)
Lemma suback_received now m a t f code c :
  client_inv c → store_opened (persist c) = true → index (mids c) !! sak_MessageID m = Some a →
  tokens (mids c) !! a = Some t → tok_kind t = SubscribeToken → tok_subs t = [f] → sak_ReturnCodes m = [code] →
  ∃ c', receive now (PSuback m) c = Some (c', Nothing)
    ∧ tokens (mids c') !! a = Some (t {{ complete := true; subResult ::= insert f code }})
    ∧ index (mids c') = delete (sak_MessageID m) (index (mids c)) ∧ msgRouter c' = msgRouter c
    ∧ store_model (persist c') = delete (outboundKeyFromMID (sak_MessageID m)) (store_model (persist c))
    ∧ store_opened (persist c') = true.
Proof.
  intros Hc Ho Hi Ht Hk Hf Hcode. assert (Hid : is_u16 (sak_MessageID m)).
  { destruct Hc as [(([Hr _] & _) & _) _]. apply Hr in Hi. unfold is_u16, midMax in *. lia. }
  destruct (persistInbound_del (persist c) (PSuback m) (sak_MessageID m) Ho Hid) as (st & Hs & Hso & Hsm); [done|done|].
  unfold receive. rewrite Hs. cbn [mbind option_bind handle_incoming].
  set (c1 := UpdateLastReceived now (c {{ persist := st }})).
  assert (H1 : mids c1 = mids c ∧ msgRouter c1 = msgRouter c ∧ persist c1 = st) by (unfold c1, UpdateLastReceived; by case_decide).
  clearbody c1. destruct H1 as (Hm1 & Hr1 & Hp1). rewrite Hm1. unfold getToken. rewrite Hi. cbn [mbind option_bind]. rewrite Ht. cbn [mbind option_bind].
  rewrite decide_True by done. rewrite Hf, Hcode. cbn [granted mbind option_bind].
  eexists. split; [reflexivity|]. unfold acknowledged. unfold getToken.
  match goal with |- context [index (mids (on_tok ?g ?x c1))] => change (index (mids (on_tok g x c1))) with (index (mids c1)) end.
  rewrite Hm1, Hi. split_and!.
  - change (alter flowComplete a (alter (λ x, x {{ subResult := <[f := code]> (subResult t) }}) a (tokens (mids c1))) !! a
      = Some (t {{ complete := true; subResult ::= insert f code }})).
    rewrite Hm1, lookup_alter_eq, lookup_alter_eq, Ht. cbn [fmap option_fmap option_map]. f_equal.
    destruct t. cbn in Hk. by subst.
  - change (delete (sak_MessageID m) (index (mids c1)) = delete (sak_MessageID m) (index (mids c))). by rewrite Hm1.
  - exact Hr1.
  - change (store_model (persist c1) = delete (outboundKeyFromMID (sak_MessageID m)) (store_model (persist c))). by rewrite Hp1.
  - change (store_opened (persist c1) = true). by rewrite Hp1.
Qed.

(** C18: A subscription from end to end.  A connected client subscribes to a filter, a plain one
    or a shared one "$share/group/filter", that the client and the broker find well formed, that
    the ACL lets it subscribe to and whose filter proper does not begin with "$queue/", and
    gives a handler.  The packet that it hands to its connection is read by the broker, which
    files the subscription in its tree under the filter proper, for this client, in the group
    if there is one, and with the QoS asked for, and answers; when the client has received the
    answer the request has ended well, and the granted QoS is noted and the handler is among
    the routes, both under that same filter proper. *)
Theorem subscribe_end_to_end now now' f q h c a bc sess s sh g topic :
  client_inv c → status c = connected → (∃ id, 1 ≤ id ≤ midMax ∧ index (mids c) !! id = None) →
  0 ≤ q → validateTopicAndQos f q = None →
  split_share f = Some (sh, g, topic) → has_prefix topic "$queue/" = false → str_ok f → topic_ok topic = true →
  inv s → heap s !! a = Some bc → live_client bc → session bc = Some sess → acl_allows cfg "sub" bc f = true →
  ∃ tok id p c1 p' s1 x reply rest ack c2,
    Subscribe f q (Some h) true c = Some (tok, c1) ∧ oboundP c1 = oboundP c ++ [(p, Some tok)]
    ∧ over_wire p = Some p' ∧ ProcessMessage cfg Intn now a p' false s = Some s1
    ∧ (x, q) ∈ entries (tree s1) (filter_path topic) ∧ subs_heap s1 !! x = Some (mkSubscription a topic q sh g)
    ∧ inv s1 ∧ live s1 a
    ∧ replies a s s1 = reply :: rest ∧ over_wire reply = Some ack
    ∧ receive now' ack c1 = Some (c2, Nothing) ∧ ended_well tok id c2
    ∧ (∃ t, tokens (mids c2) !! tok = Some t ∧ subResult t !! topic = Some (z2b q))
    ∧ (topic, h) ∈ routes (msgRouter c2) ∧ store_opened (persist c2) = true.
Proof.
  intros Hc Hst Hfree Hq0 Hval Hsh Hqueue Hstr Htop Hinv Hbc Hl Hsess Hacl.
  assert (Hq : 0 ≤ q ≤ 2). { unfold validateTopicAndQos in Hval. by repeat case_match. }
  assert (Hvq : ValidQos q = true) by (assert (q = 0 ∨ q = 1 ∨ q = 2) as [-> |[-> | ->]] by lia; done).
  destruct (Subscribe_sent f q h c) as (tok & id & c1 & HS & Hid & Hidx & Htok & Hob & Hrt & Hopen & Hst1);
    [done..|].
  rewrite (route_topic_shared f sh g topic Hsh Hqueue) in Hrt, Htok.
  assert (Hc1 : client_inv c1) by (by eapply Subscribe_inv).
  assert (Hidu : is_u16 id) by (unfold is_u16, midMax in *; lia).
  destruct (over_wire_ok (PSubscribe (subscribe_packet f q id))) as (b & p' & Hw & How).
  { split; [done|]. split; [exact Hidu|]. split; [by constructor|]. split; [done|]. cbn. intros g0 [= <-].
    unfold fits, str_ok in *. rewrite !length_app, length_encodeString. cbn. lia. }
  cbn in Hw. injection Hw as _ <-. cbn [read_back] in How.
  match type of How with _ = Some (PSubscribe ?x) => set (p1 := x) in How end.
  destruct (broker_subscribes cfg Intn now a p1 f q s bc sess sh g topic) as (s1 & x & rest & Hpm & Hrep & Hinv1 & Hl1 & Hx & Hxs); try done.
  set (m := mkSuback (header_of_type Packets.Suback 0) id [z2b q]). change (sub_MessageID p1) with id in Hrep. fold m in Hrep.
  destruct (over_wire_ok (PSuback m)) as (b2 & m' & Hw2 & Hom).
  { split; [done|]. split; [exact Hidu|]. unfold fits. cbn. lia. }
  cbn in Hw2. injection Hw2 as _ <-. cbn [read_back] in Hom.
  match type of Hom with _ = Some (PSuback ?x) => set (m1 := x) in Hom end.
  destruct (suback_received now' m1 tok ((new_token SubscribeToken) {{ tok_messageID := id; tok_subs := [topic] }}) topic (z2b q) c1)
    as (c2 & Hrec & Htok2 & Hidx2 & Hr2 & Hsm2 & Hso2); [done..|].
  exists tok, id, (PSubscribe (subscribe_packet f q id)), c1, (PSubscribe p1), s1, x, (PSuback m), rest, (PSuback m1), c2.
  split_and!; try done.
  - split_and!; [rewrite Htok2; by eexists|by rewrite Hidx2, lookup_delete_eq|by rewrite Hsm2, lookup_delete_eq].
  - eexists. split; [exact Htok2|]. apply lookup_insert_eq.
  - by rewrite Hr2.
Qed.

Lemma matching_elem (l : list (string * Handler)) topic hs f h :
  matching l topic = Some hs → (f, h) ∈ l → route_match f topic = Some true → h ∈ hs.
Proof.
  revert hs. induction l as [|[t g] l IH]; intros hs Hm Hin Hr; [by apply not_elem_of_nil in Hin|].
  cbn in Hm. destruct (route_match t topic) as [b|] eqn:Hb; [|done]. cbn in Hm.
  destruct (matching l topic) as [hs'|]; [|done]. cbn in Hm. injection Hm as <-.
  apply elem_of_cons in Hin as [[= <- <-]|Hin].
  - rewrite Hr in Hb. injection Hb as <-. by left.
  - pose proof (IH hs' eq_refl Hin Hr). destruct b; [by right|done].
Qed.

Lemma handlers_elem (r : @router Handler) topic hs f h :
  handlers_for r topic = Some hs → (f, h) ∈ routes r → route_match f topic = Some true → h ∈ hs.
Proof.
  unfold handlers_for. intros Hh Hin Hr. destruct (matching (routes r) topic) as [hs'|] eqn:Hm; [|done]. cbn in Hh.
  pose proof (matching_elem _ _ _ _ _ Hm Hin Hr) as Hx. injection Hh as <-. destruct hs'; [by apply not_elem_of_nil in Hx|done].
Qed.

(** A publish from the network is stored if it must be, and passed on. *)
Lemma publish_received now p c :
  packet_ok (PPublish p) → store_opened (persist c) = true →
  ∃ c', receive now (PPublish p) c = Some (c', IncomingPub p) ∧ store_opened (persist c') = true
    ∧ msgRouter c' = msgRouter c ∧ calls c' = calls c.
Proof.
  intros (_ & _ & Hid & _) Ho. assert (Hs : ∃ st : T, persistInbound (persist c) (PPublish p) = Some st ∧ store_opened st = true).
  { destruct (put_any (persist c) (inboundKeyFromMID (pub_MessageID p)) (PPublish p)) as (Hp & _).
    unfold persistInbound. cbn. repeat case_decide; eexists; (split; [reflexivity|]); congruence. }
  destruct Hs as (st & Hs & Ho'). unfold receive. rewrite Hs. cbn [mbind option_bind handle_incoming].
  eexists. split; [reflexivity|]. unfold UpdateLastReceived. by case_decide.
Qed.

(** C3: From the publisher to the handler of a subscriber.  A connected client publishes with
    QoS 1 or 2 to a topic without empty levels that does not start with "$" and that the ACL
    lets it publish to, while the broker's table of its ids is not full and has none of the
    ids that are free at the client; another one is connected to the same broker, has
    subscribed, not in a shared group, to a filter without empty levels that matches by
    MQTT's rules, and has a handler for that filter.  Then the packet of the publisher, read
    by the broker, is written to the subscriber, and when the subscriber has read and
    dispatched it the handler has been called with the topic and payload. *)
Theorem published_reaches_handler now topic qos retained payload b c a bc s (d : client) f fq h hs x xq sub :
  client_inv c → status c = connected → (∃ id, 1 ≤ id ≤ midMax ∧ index (mids c) !! id = None) →
  qos = 1 ∨ qos = 2 → payload_bytes payload = Some b → sendable topic b →
  topic_ok topic = true → plain topic = true → has_prefix topic "$" = false →
  inv s → heap s !! a = Some bc → live_client bc → acl_allows cfg "pub" bc topic = true →
  isAwaitingFull bc = false → (∀ id, index (mids c) !! id = None → awaitingRel bc !! id = None) →
  validateTopicAndQos f fq = None → has_prefix f "$share" = false → plain f = true → mqtt_match f topic = true →
  (x, xq) ∈ entries (tree s) (filter_path f) → subs_heap s !! x = Some sub → sub_share sub = false → live s (sub_client sub) →
  store_opened (persist d) = true → (f, h) ∈ routes (msgRouter d) → handlers_for (msgRouter d) topic = Some hs →
  ∃ tok p c1 q s1 q' d1 d2,
    Publish topic qos retained payload true c = Some (tok, c1) ∧ obound c1 = obound c ++ [(p, tok)]
    ∧ over_wire (PPublish p) = Some (PPublish q) ∧ ProcessMessage cfg Intn now a (PPublish q) false s = Some s1
    ∧ Sent (sub_client sub) (PPublish q) ∈ sent_since s s1 ∧ over_wire (PPublish q) = Some (PPublish q')
    ∧ receive now (PPublish q') d = Some (d1, IncomingPub q') ∧ dispatch q' d1 = Some d2
    ∧ (h, q') ∈ calls d2 ∧ pub_TopicName q' = topic ∧ pub_Payload q' = b.
Proof.
  intros Hc Hst Hfree Hq Hpay Hsend Htop Hplain Hdol Hinv Hbc Hl Hacl Hfull Haw Hval Hsh Hfplain Hm Hx Hsub Hshare Hlive Hod Hin Hhs.
  destruct (connected_store c Hc Hst) as [Hcon Hopen].
  destruct (Publish_stored topic qos retained payload b c) as (tok & id & c1 & HP & Hid & Hi & Hidx & Htok & Hsm & Hob);
    [done..|].
  rewrite decide_False in Hob by (rewrite Hst; by intros [|]).
  destruct (over_wire_publish (publish_packet topic qos retained b id)) as (q & Hw & Harr & Hqok);
    [by apply publish_packet_ok|].
  pose proof Harr as (Hqt & Hqid & Hqp & Hqq & _). cbn in Hqt, Hqid, Hqp, Hqq.
  destruct (publish_sent cfg Intn now a bc q s x xq (filter_path f) sub) as (s1 & Hpm & Hsent); try done.
  - split_and!; [done|by rewrite Hqt|]. intros _. split; [done|]. rewrite Hqid. by apply Haw.
  - rewrite Hqt. unfold bridged. change "$queue/"%string with ("$" ++ "queue/")%string.
    rewrite has_prefix_longer by done. apply andb_false_r.
  - by rewrite Hqt.
  - rewrite Hqq. unfold ValidQos. by destruct Hq as [-> | ->].
  - rewrite (arrived_valid _ _ Harr). cbn [pub_TopicName publish_packet]. destruct Hsend as (_ & _ & -> & ->). done.
  - rewrite Hqt. by apply mqtt_match_paths.
  - destruct (over_wire_publish q Hqok) as (q' & Hw' & Harr' & Hqok').
    pose proof Harr' as (Hqt' & _ & Hqp' & _). rewrite Hqt in Hqt'. rewrite Hqp in Hqp'.
    destruct (publish_received now q' d Hqok' Hod) as (d1 & Hrec & Hod1 & Hr1 & Hcalls1).
    destruct (dispatch_processed q' d1 hs) as (d2 & Hdis & Hcalls & _); [by rewrite Hr1, Hqt'|done|apply Hqok'|].
    exists tok, (publish_packet topic qos retained b id), c1, q, s1, q', d1, d2. split_and!; try done.
    rewrite Hcalls. apply elem_of_app. right. apply list_elem_of_fmap. exists h. split; [done|].
    eapply handlers_elem; [exact Hhs|exact Hin|]. rewrite (route_match_levels f fq topic Hval Hsh). rewrite mqtt_match_plain in Hm by done.
    by rewrite Hm, orb_true_r.
Qed.
End EndToEnd.

(** ** Sample runs *)

Abbreviation sample_type := (@Client.client nat MemoryStore unit).

Lemma sample_up_connected : status sample_up = connected.
Proof. reflexivity. Qed.
Lemma sample_up_free : ∃ id, 1 ≤ id ≤ midMax ∧ index (mids sample_up) !! id = None.
Proof. exists 1. split; [unfold midMax; lia|reflexivity]. Qed.
Lemma sample_sendable : sendable "a/b" (bytes_of "x").
Proof. split_and!; by vm_compute. Qed.
Lemma sample_at a : a = 1%positive ∨ a = 2%positive →
  heap sample_state !! a = Some (sample_client a sample_state) ∧ isAwaitingFull (sample_client a sample_state) = false
  ∧ awaitingRel (sample_client a sample_state) = ∅ ∧ session (sample_client a sample_state) = Some a.
Proof. intros [->| ->]; split_and!; by vm_compute. Qed.

Lemma qos1_end_to_end_witness :
  ∃ tok id ack (c1 c2 : sample_type), Publish "a/b" 1 false (PayloadString "x") true sample_up = Some (tok, c1)
    ∧ receive 9 ack c1 = Some (c2, Nothing) ∧ ended_well tok id c2.
Proof.
  destruct (qos1_end_to_end sample_cfg (λ _ _, O) 5 9 "a/b" false (PayloadString "x") (bytes_of "x") sample_up 2
    (sample_client 2 sample_state) sample_state)
    as (tok & id & _ & c1 & _ & _ & _ & _ & ack & c2 & HP & _ & _ & _ & _ & _ & Hr & He).
  - exact sample_up_inv.
  - exact sample_up_connected.
  - exact sample_up_free.
  - reflexivity.
  - exact sample_sendable.
  - apply sample_at. by right.
  - apply sample_live. by right.
  - reflexivity.
  - exists tok, id, ack, c1, c2. split; [exact HP|]. split; [exact Hr|exact He].
Defined.


Lemma subscribe_end_to_end_witness :
  ∃ tok s1 x (c1 c2 : sample_type), Subscribe "$share/g/b/#" 1 (Some 7%nat) true sample_up = Some (tok, c1)
    ∧ (x, 1) ∈ entries (tree s1) ["b"; "#"]%string ∧ ("b/#"%string, 7%nat) ∈ routes (msgRouter c2).
Proof.
  destruct (subscribe_end_to_end sample_cfg (λ _ _, O) 5 9 "$share/g/b/#" 1 7%nat sample_up 2 (sample_client 2 sample_state)
    2%positive sample_state true "g" "b/#")
    as (tok & id & p & c1 & p' & s1 & x & reply & rest & ack & c2 & HS & _ & _ & _ & Hx & _ & _ & _ & _ & _ & _ & _ & _ & Hr & _).
  - exact sample_up_inv.
  - exact sample_up_connected.
  - exact sample_up_free.
  - lia.
  - reflexivity.
  - reflexivity.
  - reflexivity.
  - unfold str_ok. cbn. lia.
  - reflexivity.
  - exact sample_inv.
  - apply sample_at. by right.
  - apply sample_live. by right.
  - apply sample_at. by right.
  - reflexivity.
  - exists tok, s1, x, c1, c2. split; [exact HS|]. split; [exact Hx|exact Hr].
Defined.

Lemma published_reaches_handler_witness :
  ∃ tok q (c1 d2 : sample_type), Publish "a/b" 1 false (PayloadString "x") true sample_up = Some (tok, c1)
    ∧ (4%nat, q) ∈ calls d2 ∧ pub_TopicName q = "a/b"%string ∧ pub_Payload q = bytes_of "x".
Proof.
  destruct (published_reaches_handler sample_cfg (λ _ _, O) 5 "a/b" 1 false (PayloadString "x") (bytes_of "x") sample_up 2
    (sample_client 2 sample_state) sample_state sample_routed "a/+" 1 4%nat [4%nat] 1%positive 1 (mkSubscription 1 "a/+" 1 false ""))
    as (tok & p & c1 & q & s1 & q' & d1 & d2 & HP & _ & _ & _ & _ & _ & _ & _ & Hcall & Ht & Hb).
  - exact sample_up_inv.
  - exact sample_up_connected.
  - exact sample_up_free.
  - by left.
  - reflexivity.
  - exact sample_sendable.
  - reflexivity.
  - reflexivity.
  - reflexivity.
  - exact sample_inv.
  - apply sample_at. by right.
  - apply sample_live. by right.
  - reflexivity.
  - apply sample_at. by right.
  - intros id _. destruct (sample_at 2) as (_ & _ & Haw & _); [by right|]. rewrite Haw. apply lookup_empty.
  - reflexivity.
  - reflexivity.
  - reflexivity.
  - reflexivity.
  - assert (entries (tree sample_state) ["a"; "+"]%string = [(1%positive, 1)]) as He by (by vm_compute).
    change (filter_path "a/+") with ["a"; "+"]%string. rewrite He. by left.
  - by vm_compute.
  - reflexivity.
  - exists (sample_client 1 sample_state). split; [apply sample_at; by left|apply sample_live; by left].
  - reflexivity.
  - by left.
  - reflexivity.
  - exists tok, q', c1, d2. split; [exact HP|]. split; [exact Hcall|]. split; [exact Ht|exact Hb].
Defined.

(** The handler of a "$queue/" subscription is filed under the rest of the filter; the broker
    files the subscription under the whole filter and leaves the topics of its messages as
    they are, so that the handler is not called. *)
Theorem queue_handler_missed :
  split_share "$queue/a" = Some (false, ""%string, "$queue/a"%string)
  ∧ fmatch (filter_path "$queue/a") (filter_path "$queue/a") = true
  ∧ route_topic "$queue/a" = "a"%string ∧ route_match (route_topic "$queue/a") "$queue/a" = Some false.
Proof. by vm_compute. Qed.
